(** * Verification of selected properties of the amazon-bedrock samples

    A shallow embedding of the Python sources under [s3_vector/],
    [aws-notebooklm/] and friends, together with the theorems that settle
    the specification's claims about them.

    Conventions of the embedding:
    - a Python [str] is a list of Unicode code points ([text]); its UTF-8
      encoding is only ever measured, so [encoded_len] gives the byte count;
    - a Python [dict] is an insertion-ordered association list ([dict]);
    - a Python [int] is a [Z];
    - calls to remote services are answered by an oracle passed as an
      argument, and the calls made are recorded in a trace. *)

From Stdlib Require Import List ZArith NArith Lia Bool String Ascii.
From Stdlib Require Import DecimalString DecimalN Sorted FinFun.
From Equations Require Import Equations.
Import ListNotations.

Local Open Scope Z_scope.

(** ** Python strings and dictionaries *)

Module Py.

Definition codepoint := N.
Definition text := list codepoint.

(** ASCII literal to Python string. *)
Definition txt (s : string) : text :=
  map N_of_ascii (list_ascii_of_string s).

(** Number of bytes of one code point in UTF-8. *)
Definition utf8_len (c : codepoint) : Z :=
  if (c <? 128)%N then 1
  else if (c <? 2048)%N then 2
  else if (c <? 65536)%N then 3
  else 4.

(** [len(s.encode('utf-8'))] *)
Fixpoint encoded_len (s : text) : Z :=
  match s with
  | [] => 0
  | c :: s' => utf8_len c + encoded_len s'
  end.

(** [len(s)] *)
Definition len {A} (l : list A) : Z := Z.of_nat (List.length l).

(** [s[:n]], with Python's reading of a negative bound. *)
Definition slice_to {A} (l : list A) (n : Z) : list A :=
  if n <? 0 then firstn (Z.to_nat (len l + n)) l
  else firstn (Z.to_nat n) l.

(** [s[i:j]] for non-negative bounds. *)
Definition slice {A} (l : list A) (i j : Z) : list A :=
  firstn (Z.to_nat (j - i)) (skipn (Z.to_nat i) l).

(** Insertion-ordered dictionary with string keys. *)
Definition dict (V : Type) := list (string * V).

Section Dict.
Variable V : Type.

Fixpoint dict_get (d : dict V) (k : string) : option V :=
  match d with
  | [] => None
  | (k', v) :: d' => if String.eqb k' k then Some v else dict_get d' k
  end.

(** [k in d] *)
Definition dict_mem (d : dict V) (k : string) : bool :=
  match dict_get d k with Some _ => true | None => false end.

(** [d[k] = v]: an existing key keeps its position, a new key goes last. *)
Fixpoint dict_set (d : dict V) (k : string) (v : V) : dict V :=
  match d with
  | [] => [(k, v)]
  | (k', v') :: d' =>
      if String.eqb k' k then (k', v) :: d' else (k', v') :: dict_set d' k v
  end.

Definition keys (d : dict V) : list string := map fst d.

(** A Python dict never holds a key twice. *)
Definition dict_wf (d : dict V) : Prop := NoDup (keys d).

End Dict.

Arguments dict_get {V} d k.
Arguments dict_mem {V} d k.
Arguments dict_set {V} d k v.
Arguments keys {V} d.
Arguments dict_wf {V} d.

(** Facts about dictionaries. *)

Section DictFacts.
Context {V : Type}.
Implicit Types (d : dict V) (k : string) (v : V).

Lemma dict_get_set_same d k v : dict_get (dict_set d k v) k = Some v.
Proof.
  induction d as [|[k' v'] d IH]; simpl.
  - now rewrite String.eqb_refl.
  - destruct (String.eqb k' k) eqn:E; simpl; now rewrite E.
Qed.

Lemma dict_get_set_other d k k' v :
  k <> k' -> dict_get (dict_set d k v) k' = dict_get d k'.
Proof.
  intros Hne. induction d as [|[k0 v0] d IH]; simpl.
  - destruct (String.eqb k k') eqn:E; [apply String.eqb_eq in E; easy | reflexivity].
  - destruct (String.eqb k0 k) eqn:E; simpl.
    + apply String.eqb_eq in E; subst k0.
      destruct (String.eqb k k') eqn:E'; [apply String.eqb_eq in E'; easy | reflexivity].
    + now rewrite IH.
Qed.

Lemma dict_mem_set d k k' v :
  dict_mem (dict_set d k v) k' = String.eqb k k' || dict_mem d k'.
Proof.
  unfold dict_mem. destruct (String.eqb k k') eqn:E.
  - apply String.eqb_eq in E; subst. now rewrite dict_get_set_same.
  - apply String.eqb_neq in E. now rewrite dict_get_set_other.
Qed.

Lemma dict_get_In d k v : dict_get d k = Some v -> In (k, v) d.
Proof.
  induction d as [|[k' v'] d IH]; simpl; [discriminate|].
  destruct (String.eqb k' k) eqn:E.
  - apply String.eqb_eq in E. intros [= ->]. left; now subst.
  - intros H; right; auto.
Qed.

Lemma In_dict_mem d k v : In (k, v) d -> dict_mem d k = true.
Proof.
  unfold dict_mem. induction d as [|[k' v'] d IH]; simpl; [easy|].
  intros [[= -> ->]|H].
  - now rewrite String.eqb_refl.
  - destruct (String.eqb k' k); auto.
Qed.

Lemma dict_mem_keys d k : dict_mem d k = true <-> In k (keys d).
Proof.
  unfold dict_mem, keys. induction d as [|[k' v'] d IH]; simpl.
  - split; [discriminate | easy].
  - destruct (String.eqb k' k) eqn:E.
    + apply String.eqb_eq in E. split; auto.
    + apply String.eqb_neq in E. rewrite IH. split; [auto | intros [?|?]; easy].
Qed.

Lemma In_dict_get_wf d k v : dict_wf d -> In (k, v) d -> dict_get d k = Some v.
Proof.
  unfold dict_wf, keys. induction d as [|[k' v'] d IH]; simpl; [easy|].
  intros Hnd [[= -> ->]|H].
  - now rewrite String.eqb_refl.
  - inversion Hnd as [|? ? Hnotin Hnd']; subst.
    destruct (String.eqb k' k) eqn:E.
    + apply String.eqb_eq in E; subst k'.
      exfalso. apply Hnotin. change k with (fst (k, v)). now apply in_map.
    + auto.
Qed.

Lemma In_dict_set d k v k' v' :
  In (k', v') (dict_set d k v) -> (k', v') = (k, v) \/ In (k', v') d.
Proof.
  induction d as [|[k0 v0] d IH]; simpl.
  - intros [H|[]]; auto.
  - destruct (String.eqb k0 k) eqn:E; simpl.
    + apply String.eqb_eq in E; subst k0. intros [H|H]; auto.
    + intros [H|H]; auto. destruct (IH H); auto.
Qed.

Lemma dict_set_length d k v :
  (List.length (dict_set d k v) <= S (List.length d))%nat.
Proof.
  induction d as [|[k0 v0] d IH]; simpl; [lia|].
  destruct (String.eqb k0 k); simpl; lia.
Qed.

Lemma dict_set_fresh d k v :
  dict_mem d k = false -> dict_set d k v = d ++ [(k, v)].
Proof.
  unfold dict_mem. induction d as [|[k0 v0] d IH]; simpl; [reflexivity|].
  destruct (String.eqb k0 k); [discriminate|].
  intros H. now rewrite IH.
Qed.

End DictFacts.

(** A metadata value. [PStr] is a Python [str]; [PObj] stands for any other
    value (number, bool, list, ...), known through its [str()] rendering. *)
Inductive pyval :=
| PStr (s : text)
| PObj (repr : text).

(** [str(v)] *)
Definition py_str (v : pyval) : text :=
  match v with PStr s => s | PObj r => r end.

(** [s.encode('utf-8')], as byte values. *)
Definition utf8_encode_char (c : codepoint) : list N :=
  (if c <? 128 then [c]
   else if c <? 2048 then [192 + c / 64; 128 + c mod 64]
   else if c <? 65536 then
     [224 + c / 4096; 128 + (c / 64) mod 64; 128 + c mod 64]
   else
     [240 + c / 262144; 128 + (c / 4096) mod 64; 128 + (c / 64) mod 64;
      128 + c mod 64])%N.

Definition utf8_encode (s : text) : list N := flat_map utf8_encode_char s.

(** [c.isspace()] *)
Definition is_space (c : codepoint) : bool :=
  ((9 <=? c) && (c <=? 13) || (28 <=? c) && (c <=? 32)
   || (c =? 133) || (c =? 160) || (c =? 5760)
   || (8192 <=? c) && (c <=? 8202)
   || (c =? 8232) || (c =? 8233) || (c =? 8239) || (c =? 8287)
   || (c =? 12288))%N.

Fixpoint lstrip (s : text) : text :=
  match s with
  | [] => []
  | c :: s' => if is_space c then lstrip s' else s
  end.

Definition rstrip (s : text) : text := rev (lstrip (rev s)).

(** [s.strip()] *)
Definition strip (s : text) : text := rstrip (lstrip s).

(** Truth value of a string, a list, a dict: non-empty. *)
Definition truthy {A} (l : list A) : bool :=
  match l with [] => false | _ => true end.

(** [len(s.split())]: the number of maximal runs of non-space characters;
    [in_word] tells whether the previous character was inside one. *)
Fixpoint count_words (in_word : bool) (s : text) : Z :=
  match s with
  | [] => 0
  | c :: s' =>
      if is_space c then count_words false s'
      else (if in_word then 0 else 1) + count_words true s'
  end.

(** [str(n)] for an integer. *)
Definition str_of_Z (z : Z) : text := txt (NilZero.string_of_int (Z.to_int z)).

(** [repr] of a list of plain strings, as an f-string prints it. *)
Fixpoint repr_items (l : list string) : text :=
  match l with
  | [] => []
  | [x] => txt "'" ++ txt x ++ txt "'"
  | x :: l' => txt "'" ++ txt x ++ txt "', " ++ repr_items l'
  end.

Definition repr_list (l : list string) : text :=
  txt "[" ++ repr_items l ++ txt "]".

(** Exceptions, by class. [ClientError] carries the service's error code;
    [OtherError] is any exception class not named here. *)
Inductive exn :=
| ClientError (code : string) (msg : text)
| ValueError (msg : text)
| TypeError (msg : text)
| KeyError (msg : text)
| AttributeError (msg : text)
| RuntimeError (msg : text)
| MetadataLimitExceededError (vector_id : text) (actual_count max_allowed : Z)
| OtherError (msg : text).

(** [str(e)] *)
Definition exn_str (e : exn) : text :=
  match e with
  | ClientError _ msg | ValueError msg | TypeError msg | KeyError msg
  | AttributeError msg | RuntimeError msg | OtherError msg => msg
  | MetadataLimitExceededError vector_id actual_count max_allowed =>
      txt "Vector '" ++ vector_id ++ txt "' has " ++ str_of_Z actual_count
      ++ txt " metadata tags, but maximum allowed is " ++ str_of_Z max_allowed
  end.

(** Outcome of a call that may raise. *)
Definition result (A : Type) := (exn + A)%type.

(** The values [start, start + step, ...] below [stop], for a positive
    [step]; [fuel] bounds their number. *)
Fixpoint range_from (fuel : nat) (start stop step : Z) : list Z :=
  match fuel with
  | O => []
  | S fuel' =>
      if start <? stop then start :: range_from fuel' (start + step) stop step
      else []
  end.

(** [range(0, stop, step)]: a zero step raises, a negative one gives the
    empty range. *)
Definition range_step (stop step : Z) : result (list Z) :=
  if step =? 0 then inl (ValueError (txt "range() arg 3 must not be zero"))
  else if step <? 0 then inr []
  else inr (range_from (Z.to_nat stop) 0 stop step).

End Py.

(** ** Calls that change the world and may raise *)

Module Eff.
Import Py.

Section Monad.
Variable W : Type.

(** A computation reads the world and returns a result or an exception,
    and the world it leaves. *)
Definition M (A : Type) := W -> result A * W.

Definition ret {A} (a : A) : M A := fun w => (inr a, w).

Definition raise {A} (e : exn) : M A := fun w => (inl e, w).

Definition bind {A B} (m : M A) (k : A -> M B) : M B :=
  fun w =>
    match m w with
    | (inl e, w') => (inl e, w')
    | (inr a, w') => k a w'
    end.

(** [try: m except <handles>: handler]; other exceptions pass through. *)
Definition try_except {A} (m : M A) (handles : exn -> bool)
    (handler : exn -> M A) : M A :=
  fun w =>
    match m w with
    | (inl e, w') => if handles e then handler e w' else (inl e, w')
    | (inr a, w') => (inr a, w')
    end.

Definition lift {A} (r : result A) : M A := fun w => (r, w).

End Monad.

Arguments ret {W A} a.
Arguments raise {W A} e.
Arguments bind {W A B} m k.
Arguments try_except {W A} m handles handler.
Arguments lift {W A} r.

Definition is_client_error (e : exn) : bool :=
  match e with ClientError _ _ => true | _ => false end.

(** [except Exception] *)
Definition any_exception (e : exn) : bool := true.

End Eff.

Notation "x <- m ;; k" := (Eff.bind m (fun x => k))
  (at level 61, m at next level, right associativity).
Notation "m ;;; k" := (Eff.bind m (fun _ => k))
  (at level 61, right associativity).

(** ** [s3_vector/mm_index/validation.py] *)

Module Validation.
Import Py.

(** *** VectorDimensionManager *)

Record VectorConfig := {
  dimension : Z;
  data_type : string;
  distance_metric : string
}.

Definition new_config (dimension : Z) : VectorConfig :=
  {| dimension := dimension; data_type := "float32"; distance_metric := "cosine" |}.

(** [VectorConfig.validate] *)
Definition validate (c : VectorConfig) : bool :=
  existsb (Z.eqb (dimension c)) [256; 384; 1024].

Record VectorDimensionManager := {
  target_dimension : Z;
  config : VectorConfig
}.

(** [VectorDimensionManager.__init__] *)
Definition new_dimension_manager (target_dimension : Z)
  : result VectorDimensionManager :=
  let config := new_config target_dimension in
  if negb (validate config) then
    inl (ValueError (txt "Unsupported target dimension: "
                     ++ str_of_Z target_dimension
                     ++ txt ". Must be 256, 384, or 1024."))
  else inr {| target_dimension := target_dimension; config := config |}.

Section Vectors.

(** Python floats, the rounding [float(np.float32(x))] to single precision
    and [0.0]; floating-point arithmetic itself is not modelled. *)
Variable float : Type.
Variable float32 : float -> float.
Variable zero : float.

(** What [validate_and_transform] may be handed. *)
Inductive vector_arg :=
| PyList (l : list float)
| NdArray (a : list float)
| Unsupported (type_name : text).

(** [ensure_float32] *)
Definition ensure_float32 (vector : list float) : list float :=
  map float32 vector.

(** [np.pad(a, (0, n), mode='constant', constant_values=0.0)] on a
    [float32] array. *)
Definition pad_zeros (a : list float) (n : Z) : list float :=
  a ++ repeat (float32 zero) (Z.to_nat n).

Definition validate_and_transform (self : VectorDimensionManager)
    (vector : vector_arg) : result (list float) :=
  match
    match vector with
    | PyList l => inr (map float32 l)
    | NdArray a => inr (map float32 a)
    | Unsupported ty => inl (ValueError (txt "Unsupported vector type: " ++ ty))
    end
  with
  | inl e => inl e
  | inr vector_array =>
      let original_dimension := len vector_array in
      if original_dimension =? target_dimension self then
        inr (ensure_float32 vector_array)
      else
        let transformed_vector :=
          if original_dimension >? target_dimension self then
            slice_to vector_array (target_dimension self)
          else
            let padding_size := target_dimension self - original_dimension in
            pad_zeros vector_array padding_size
        in
        inr (ensure_float32 transformed_vector)
  end.

End Vectors.

Arguments PyList {float} l.
Arguments NdArray {float} a.
Arguments Unsupported {float} type_name.
Arguments validate_and_transform {float} float32 zero self vector.

(** *** MetadataLimiter *)

Record MetadataLimiter := {
  max_tags : Z;
  max_value_bytes : Z;
  priority_tags : list string
}.

Definition default_priority_tags : list string :=
  ["damage_id"; "vehicle_make"; "vehicle_model"; "damage_type";
   "strategy"; "severity"; "estimated_cost"]%string.

(** [MetadataLimiter.__init__]: [priority_tags or [...]] replaces both
    [None] and the empty list by the default list. *)
Definition new_limiter (max_tags max_value_bytes : Z)
    (priority_tags : option (list string)) : MetadataLimiter :=
  {| max_tags := max_tags;
     max_value_bytes := max_value_bytes;
     priority_tags :=
       match priority_tags with
       | Some (t :: ts) => t :: ts
       | _ => default_priority_tags
       end |}.

(** Remembers the outcome of a test as an equation. *)
Definition inspect {A} (a : A) : {b : A | a = b} := exist _ a eq_refl.

(** The [while left <= right] loop of [_truncate_to_bytes]; [lo] and [hi]
    are the source's [left] and [right]. *)
Equations? bsearch (t : text) (max_bytes lo hi : Z) (result : text)
  : text by wf (Z.to_nat (hi - lo + 1)) lt :=
  bsearch t max_bytes lo hi result with inspect (lo <=? hi) => {
    | exist _ true _ =>
        if encoded_len (slice_to t ((lo + hi) / 2)) <=? max_bytes
        then bsearch t max_bytes ((lo + hi) / 2 + 1) hi
                     (slice_to t ((lo + hi) / 2))
        else bsearch t max_bytes lo ((lo + hi) / 2 - 1) result;
    | exist _ false _ => result }.
Proof.
  - apply Z.leb_le in e.
    assert (lo <= (lo + hi) / 2 <= hi)
      by (split; [apply Z.div_le_lower_bound | apply Z.div_le_upper_bound]; lia).
    lia.
  - apply Z.leb_le in e.
    assert (lo <= (lo + hi) / 2 <= hi)
      by (split; [apply Z.div_le_lower_bound | apply Z.div_le_upper_bound]; lia).
    lia.
Qed.

Definition _truncate_to_bytes (t : text) (max_bytes : Z) : text :=
  if encoded_len t <=? max_bytes then t
  else bsearch t max_bytes 0 (len t) [].

Definition ellipsis : text := txt "...".

(** Loop state of [limit_metadata]. *)
Record lstate := {
  limited_metadata : dict pyval;
  remaining_slots : Z;
  current_total_bytes : Z
}.

(** What the body shared by both loops does with one tag once its guard
    has passed: keep the value, truncate it, or skip it. *)
Inductive outcome :=
| Kept (st : lstate)
| Truncated (st : lstate)
| Skipped.

Definition add_tag (L : MetadataLimiter) (st : lstate) (key : string)
    (value : pyval) : outcome :=
  let value_str := py_str value in
  let value_bytes := encoded_len value_str in
  if current_total_bytes st + value_bytes <=? max_value_bytes L then
    Kept {| limited_metadata := dict_set (limited_metadata st) key value;
            remaining_slots := remaining_slots st - 1;
            current_total_bytes := current_total_bytes st + value_bytes |}
  else
    let available_bytes := max_value_bytes L - current_total_bytes st in
    if available_bytes >? 10 then
      let truncated_value :=
        _truncate_to_bytes value_str (available_bytes - 3) ++ ellipsis in
      Truncated
        {| limited_metadata :=
             dict_set (limited_metadata st) key (PStr truncated_value);
           remaining_slots := remaining_slots st - 1;
           current_total_bytes :=
             current_total_bytes st + encoded_len truncated_value |}
    else Skipped.

(** One iteration of [for tag in self.priority_tags]. *)
Definition priority_step (L : MetadataLimiter) (metadata : dict pyval)
    (st : lstate) (tag : string) : lstate :=
  match dict_get metadata tag with
  | Some value =>
      if remaining_slots st >? 0 then
        match add_tag L st tag value with
        | Kept st' => st'
        | Truncated st' => st'
        | Skipped => st
        end
      else st
  | None => st
  end.

Definition priority_loop (L : MetadataLimiter) (metadata : dict pyval)
    (tags : list string) (st : lstate) : lstate :=
  fold_left (priority_step L metadata) tags st.

(** [for key, value in metadata.items()], with its two [break]s. *)
Fixpoint rest_loop (L : MetadataLimiter) (items : dict pyval) (st : lstate)
  : lstate :=
  match items with
  | [] => st
  | (key, value) :: items' =>
      if negb (dict_mem (limited_metadata st) key)
         && (remaining_slots st >? 0) then
        match add_tag L st key value with
        | Kept st' => rest_loop L items' st'
        | Truncated st' => st'
        | Skipped => st
        end
      else rest_loop L items' st
  end.

Definition initial_state (L : MetadataLimiter) : lstate :=
  {| limited_metadata := [];
     remaining_slots := max_tags L;
     current_total_bytes := 0 |}.

Definition limit_metadata (L : MetadataLimiter) (metadata : dict pyval)
  : dict pyval :=
  match metadata with
  | [] => []
  | _ =>
      limited_metadata
        (rest_loop L metadata
           (priority_loop L metadata (priority_tags L) (initial_state L)))
  end.

(** Bytes the limiter accounts for a mapping: the UTF-8 size of each
    value's string form. *)
Fixpoint total_value_bytes (d : dict pyval) : Z :=
  match d with
  | [] => 0
  | (_, v) :: d' => encoded_len (py_str v) + total_value_bytes d'
  end.


(** *** Facts about strings and dictionaries *)

Lemma utf8_len_pos c : 1 <= utf8_len c <= 4.
Proof. unfold utf8_len. repeat destruct (_ <? _)%N; lia. Qed.

Lemma encoded_len_nonneg s : 0 <= encoded_len s.
Proof.
  induction s as [|c s IH]; simpl; [lia|].
  pose proof (utf8_len_pos c). lia.
Qed.

Lemma encoded_len_app s1 s2 :
  encoded_len (s1 ++ s2) = encoded_len s1 + encoded_len s2.
Proof. induction s1 as [|c s1 IH]; simpl; lia. Qed.

Lemma encoded_len_firstn_mono t : forall j k : nat,
  (j <= k)%nat -> encoded_len (firstn j t) <= encoded_len (firstn k t).
Proof.
  induction t as [|c t IH]; intros j k Hjk.
  - rewrite !firstn_nil. lia.
  - destruct j as [|j]; destruct k as [|k]; simpl; try lia.
    + pose proof (utf8_len_pos c).
      pose proof (encoded_len_nonneg (firstn k t)). lia.
    + specialize (IH j k). lia.
Qed.

Lemma encoded_len_ellipsis : encoded_len ellipsis = 3.
Proof. reflexivity. Qed.

Lemma slice_to_nonneg {A} (l : list A) n :
  0 <= n -> slice_to l n = firstn (Z.to_nat n) l.
Proof.
  intros Hn. unfold slice_to.
  destruct (n <? 0) eqn:E; [apply Z.ltb_lt in E; lia | reflexivity].
Qed.


(** *** The binary search finds the longest fitting prefix *)

(** [p] is the longest prefix of [t] whose UTF-8 encoding has at most
    [max_bytes] bytes. *)
Definition longest_fitting_prefix (t : text) (max_bytes : Z) (p : text) : Prop :=
  exists k : nat,
    (k <= List.length t)%nat /\ p = firstn k t /\
    encoded_len p <= max_bytes /\
    forall j : nat, (j <= List.length t)%nat ->
      encoded_len (firstn j t) <= max_bytes -> (j <= k)%nat.

Lemma bsearch_invariant t max_bytes : forall lo hi result,
  0 <= max_bytes ->
  0 <= lo <= hi + 1 -> hi <= len t ->
  (0 < lo -> result = firstn (Z.to_nat (lo - 1)) t /\
             encoded_len result <= max_bytes) ->
  (lo = 0 -> result = []) ->
  (forall j : nat, (j <= List.length t)%nat -> hi < Z.of_nat j ->
     ~ encoded_len (firstn j t) <= max_bytes) ->
  longest_fitting_prefix t max_bytes (bsearch t max_bytes lo hi result).
Proof.
  intros lo hi result Hmb. funelim (bsearch t max_bytes lo hi result).
  - (* lo <= hi: one more iteration *)
    pose proof (proj1 (Z.leb_le _ _) e) as Hle.
    assert (Hmid : lo <= (lo + hi) / 2 <= hi)
      by (split; [apply Z.div_le_lower_bound | apply Z.div_le_upper_bound]; lia).
    intros Hlo Hhi Hres Hres0 Habove.
    rewrite slice_to_nonneg in * by lia.
    destruct (encoded_len (firstn (Z.to_nat ((lo + hi) / 2)) t) <=? max_bytes) eqn:Hfit.
    + apply Z.leb_le in Hfit.
      apply H; try lia; auto.
      * intros _. split; [f_equal; lia | exact Hfit].
    + apply Z.leb_gt in Hfit.
      apply H0; try lia; auto.
      intros j Hj Hlt Hfj.
      assert (Hmono := encoded_len_firstn_mono t (Z.to_nat ((lo + hi) / 2)) j).
      lia.
  - (* lo > hi: the loop is over *)
    pose proof (proj1 (Z.leb_gt _ _) e) as Hgt.
    intros Hlo Hhi Hres Hres0 Habove.
    destruct (Z.eq_dec lo 0) as [->|Hne].
    + exfalso. apply (Habove 0%nat); simpl; lia.
    + destruct Hres as [-> Hfit]; [lia|].
      exists (Z.to_nat (lo - 1)). unfold len in *. repeat split; auto.
      * lia.
      * intros j Hj Hfj.
        destruct (Z_lt_le_dec hi (Z.of_nat j)) as [Hlt|Hge]; [|lia].
        exfalso. exact (Habove j Hj Hlt Hfj).
Qed.

Lemma truncate_longest_prefix t max_bytes :
  0 <= max_bytes ->
  longest_fitting_prefix t max_bytes (_truncate_to_bytes t max_bytes).
Proof.
  intros Hmb. unfold _truncate_to_bytes.
  destruct (encoded_len t <=? max_bytes) eqn:Hall.
  - apply Z.leb_le in Hall. exists (List.length t).
    rewrite firstn_all. repeat split; auto.
  - apply Z.leb_gt in Hall.
    apply bsearch_invariant; unfold len; try lia; auto.
Qed.

Lemma truncate_fits t max_bytes :
  0 <= max_bytes -> encoded_len (_truncate_to_bytes t max_bytes) <= max_bytes.
Proof.
  intros Hmb. destruct (truncate_longest_prefix t max_bytes Hmb) as (k & _ & _ & H & _).
  exact H.
Qed.

(** *** Invariants of the two loops of [limit_metadata] *)

(** [st'] is [st] after storing [x] under [key]. *)
Definition added (L : MetadataLimiter) (st : lstate) (key : string)
    (x : pyval) (st' : lstate) : Prop :=
  limited_metadata st' = dict_set (limited_metadata st) key x /\
  remaining_slots st' = remaining_slots st - 1 /\
  current_total_bytes st' = current_total_bytes st + encoded_len (py_str x) /\
  current_total_bytes st' <= max_value_bytes L.

(** A stored value is the input's value or a real truncation of it. *)
Definition from_input (metadata : dict pyval) (key : string) (x : pyval) : Prop :=
  In (key, x) metadata \/
  exists v budget p,
    In (key, v) metadata /\ x = PStr (p ++ ellipsis) /\
    8 <= budget < encoded_len (py_str v) /\
    longest_fitting_prefix (py_str v) budget p.

Definition produces (o : outcome) (st' : lstate) : Prop :=
  o = Kept st' \/ o = Truncated st'.

Lemma add_tag_kept L st key v st' :
  add_tag L st key v = Kept st' -> added L st key v st'.
Proof.
  unfold add_tag.
  destruct (_ <=? _) eqn:Hfit; [|destruct (_ >? _); discriminate].
  apply Z.leb_le in Hfit. intros [= <-]. unfold added; simpl. auto.
Qed.

Lemma add_tag_truncated L st key v st' :
  add_tag L st key v = Truncated st' ->
  exists p,
    added L st key (PStr (p ++ ellipsis)) st' /\
    8 <= max_value_bytes L - current_total_bytes st - 3 < encoded_len (py_str v) /\
    longest_fitting_prefix (py_str v)
      (max_value_bytes L - current_total_bytes st - 3) p.
Proof.
  unfold add_tag.
  destruct (_ <=? _) eqn:Hfit; [discriminate|].
  destruct (_ >? _) eqn:Hav; [|discriminate].
  apply Z.leb_gt in Hfit. apply Z.gtb_lt in Hav.
  pose proof (encoded_len_nonneg (py_str v)) as Hnn.
  intros [= <-].
  assert (Hb : 0 <= max_value_bytes L - current_total_bytes st - 3) by lia.
  pose proof (truncate_fits (py_str v) _ Hb) as Htf.
  eexists. split; [|split; [|apply (truncate_longest_prefix _ _ Hb)]].
  - unfold added; simpl. rewrite encoded_len_app, encoded_len_ellipsis.
    repeat split; lia.
  - lia.
Qed.

Lemma add_tag_skipped L st key v :
  add_tag L st key v = Skipped ->
  max_value_bytes L < current_total_bytes st + encoded_len (py_str v) /\
  max_value_bytes L - current_total_bytes st <= 10.
Proof.
  unfold add_tag.
  destruct (_ <=? _) eqn:Hfit; [discriminate|].
  destruct (_ >? _) eqn:Hav; [discriminate|].
  apply Z.leb_gt in Hfit. intros _. rewrite Z.gtb_ltb in Hav.
  apply Z.ltb_ge in Hav. lia.
Qed.

(** Whatever either loop stores comes from [add_tag] on an item of the
    input, with a free slot. *)
Lemma produces_added L metadata st key v st' :
  In (key, v) metadata -> produces (add_tag L st key v) st' ->
  exists x, added L st key x st' /\ from_input metadata key x.
Proof.
  intros Hin [Hk|Ht].
  - exists v. split; [now apply add_tag_kept | now left].
  - destruct (add_tag_truncated _ _ _ _ _ Ht) as (p & Hadd & Hb & Hp).
    exists (PStr (p ++ ellipsis)). split; [exact Hadd|].
    right. exists v, (max_value_bytes L - current_total_bytes st - 3), p. auto.
Qed.

Section LoopInduction.
Variables (L : MetadataLimiter) (metadata : dict pyval).
Variable P : lstate -> Prop.
Hypothesis P_step : forall st key v st',
  P st -> In (key, v) metadata -> 0 < remaining_slots st ->
  produces (add_tag L st key v) st' -> P st'.

Lemma priority_loop_ind tags : forall st,
  P st -> P (priority_loop L metadata tags st).
Proof.
  unfold priority_loop.
  induction tags as [|tag tags IH]; intros st HP; simpl; [exact HP|].
  apply IH. unfold priority_step.
  destruct (dict_get metadata tag) as [v|] eqn:Hget; [|exact HP].
  destruct (remaining_slots st >? 0) eqn:Hs; [|exact HP].
  apply Z.gtb_lt in Hs. apply dict_get_In in Hget.
  destruct (add_tag L st tag v) as [st'|st'|] eqn:Ho; [| |exact HP].
  - eapply P_step; [exact HP | exact Hget | exact Hs | left; exact Ho].
  - eapply P_step; [exact HP | exact Hget | exact Hs | right; exact Ho].
Qed.

Lemma rest_loop_ind items : forall st,
  incl items metadata -> P st -> P (rest_loop L items st).
Proof.
  induction items as [|[key v] items IH]; intros st Hincl HP; simpl; [exact HP|].
  assert (Hin : In (key, v) metadata) by (apply Hincl; now left).
  assert (Hincl' : incl items metadata) by (intros x Hx; apply Hincl; now right).
  destruct (negb _ && _) eqn:Hguard; [|now apply IH].
  apply andb_prop in Hguard as [_ Hs]. apply Z.gtb_lt in Hs.
  destruct (add_tag L st key v) as [st'|st'|] eqn:Ho; [| |exact HP].
  - apply IH; [exact Hincl'|].
    eapply P_step; [exact HP | exact Hin | exact Hs | left; exact Ho].
  - eapply P_step; [exact HP | exact Hin | exact Hs | right; exact Ho].
Qed.

Lemma both_loops_ind st :
  P st ->
  P (rest_loop L metadata (priority_loop L metadata (priority_tags L) st)).
Proof.
  intros HP. apply rest_loop_ind; [apply incl_refl|].
  now apply priority_loop_ind.
Qed.

End LoopInduction.

Lemma total_value_bytes_set d key x :
  total_value_bytes (dict_set d key x)
  <= total_value_bytes d + encoded_len (py_str x).
Proof.
  induction d as [|[k0 v0] d IH]; simpl; [lia|].
  destruct (String.eqb k0 key); simpl.
  - pose proof (encoded_len_nonneg (py_str v0)). lia.
  - lia.
Qed.

(** The counters never lie: slots left plus tags stored stay within
    [max_tags], and the stored bytes stay within the running total, which
    stays within the budget. *)
Definition within_limits (L : MetadataLimiter) (st : lstate) : Prop :=
  0 <= remaining_slots st /\
  len (limited_metadata st) + remaining_slots st <= max_tags L /\
  total_value_bytes (limited_metadata st) <= current_total_bytes st /\
  current_total_bytes st <= max_value_bytes L.

Lemma within_limits_final L metadata :
  0 <= max_tags L -> 0 <= max_value_bytes L ->
  within_limits L
    (rest_loop L metadata
       (priority_loop L metadata (priority_tags L) (initial_state L))).
Proof.
  intros Ht Hb. apply both_loops_ind.
  - intros st key v st' (Hs & Hn & Htot & Hcur) Hin Hslot Hprod.
    destruct (produces_added _ _ _ _ _ _ Hin Hprod) as (x & (Hl & Hr & Hc & Hmax) & _).
    unfold within_limits. rewrite Hl, Hr. repeat split; try lia.
    + pose proof (dict_set_length (limited_metadata st) key x).
      unfold len in *. lia.
    + pose proof (total_value_bytes_set (limited_metadata st) key x). lia.
  - unfold within_limits, initial_state, len; simpl. lia.
Qed.

Lemma from_input_final L metadata : forall key x,
  In (key, x)
     (limited_metadata
        (rest_loop L metadata
           (priority_loop L metadata (priority_tags L) (initial_state L)))) ->
  from_input metadata key x.
Proof.
  apply (both_loops_ind L metadata
           (fun st => forall key x, In (key, x) (limited_metadata st) ->
                                    from_input metadata key x)).
  - intros st key v st' IH Hin _ Hprod k x Hx.
    destruct (produces_added _ _ _ _ _ _ Hin Hprod) as (y & (Hl & _) & Hfrom).
    rewrite Hl in Hx. apply In_dict_set in Hx as [[= -> ->]|Hx]; auto.
  - simpl. intros ? ? [].
Qed.

(** Neither loop ever removes a tag it has stored. *)
Lemma stored_stays L metadata key st :
  dict_mem (limited_metadata st) key = true ->
  dict_mem
    (limited_metadata
       (rest_loop L metadata (priority_loop L metadata (priority_tags L) st)))
    key = true.
Proof.
  apply (both_loops_ind L metadata
           (fun st => dict_mem (limited_metadata st) key = true)).
  intros st0 k v st' IH Hin _ Hprod.
  destruct (produces_added _ _ _ _ _ _ Hin Hprod) as (y & (Hl & _) & _).
  rewrite Hl, dict_mem_set, IH. apply orb_true_r.
Qed.

(** *** Replaying the limiter on its own output *)

Section Replay.
Variables (L : MetadataLimiter).

(** Slots are only used up and the byte total only grows. *)
Definition later (st st' : lstate) : Prop :=
  remaining_slots st' <= remaining_slots st /\
  current_total_bytes st <= current_total_bytes st'.

Lemma added_later st key x st' : added L st key x st' -> later st st'.
Proof.
  intros (_ & Hr & Hc & _). pose proof (encoded_len_nonneg (py_str x)).
  unfold later. lia.
Qed.

Lemma priority_loop_later metadata tags st :
  later st (priority_loop L metadata tags st).
Proof.
  apply (priority_loop_ind L metadata (later st)).
  - intros s key v s' [H1 H2] Hin _ Hprod.
    destruct (produces_added _ _ _ _ _ _ Hin Hprod) as (x & Hadd & _).
    destruct (added_later _ _ _ _ Hadd). unfold later. lia.
  - unfold later. lia.
Qed.

Lemma priority_step_get_other metadata st tag key :
  tag <> key ->
  dict_get (limited_metadata (priority_step L metadata st tag)) key
  = dict_get (limited_metadata st) key.
Proof.
  intros Hne. unfold priority_step.
  destruct (dict_get metadata tag) as [v|]; [|reflexivity].
  destruct (remaining_slots st >? 0); [|reflexivity].
  destruct (add_tag L st tag v) as [st'|st'|] eqn:Ho; [| |reflexivity].
  - destruct (add_tag_kept _ _ _ _ _ Ho) as (-> & _).
    now apply dict_get_set_other.
  - destruct (add_tag_truncated _ _ _ _ _ Ho) as (p & (-> & _) & _).
    now apply dict_get_set_other.
Qed.

Lemma priority_loop_get_notin metadata tags : forall st key,
  ~ In key tags ->
  dict_get (limited_metadata (priority_loop L metadata tags st)) key
  = dict_get (limited_metadata st) key.
Proof.
  unfold priority_loop.
  induction tags as [|tag tags IH]; intros st key Hnotin; simpl; [reflexivity|].
  rewrite IH by (intros H; apply Hnotin; now right).
  apply priority_step_get_other. intros ->. apply Hnotin. now left.
Qed.

Lemma rest_loop_get_present items : forall st key x,
  dict_get (limited_metadata st) key = Some x ->
  dict_get (limited_metadata (rest_loop L items st)) key = Some x.
Proof.
  induction items as [|[k v] items IH]; intros st key x Hget; simpl; [exact Hget|].
  destruct (negb (dict_mem (limited_metadata st) k)) eqn:Hmem; simpl; [|now apply IH].
  destruct (remaining_slots st >? 0); [|now apply IH].
  assert (Hne : k <> key).
  { intros ->. unfold dict_mem in Hmem. now rewrite Hget in Hmem. }
  destruct (add_tag L st k v) as [st'|st'|] eqn:Ho; [| |exact Hget].
  - apply IH. destruct (add_tag_kept _ _ _ _ _ Ho) as (-> & _).
    now rewrite dict_get_set_other.
  - destruct (add_tag_truncated _ _ _ _ _ Ho) as (p & (-> & _) & _).
    now rewrite dict_get_set_other.
Qed.

(** The second loop cannot store [key] when every item under that key
    finds no slot or no room. *)
Definition no_room (st : lstate) (v : pyval) : Prop :=
  remaining_slots st <= 0 \/
  (max_value_bytes L < current_total_bytes st + encoded_len (py_str v) /\
   max_value_bytes L - current_total_bytes st <= 10).

Lemma no_room_later st st' v : later st st' -> no_room st v -> no_room st' v.
Proof. unfold later, no_room. lia. Qed.

Lemma rest_loop_not_added key items : forall st,
  (forall v, In (key, v) items -> no_room st v) ->
  dict_get (limited_metadata st) key = None ->
  dict_get (limited_metadata (rest_loop L items st)) key = None.
Proof.
  induction items as [|[k v] items IH]; intros st Hroom Hget; simpl; [exact Hget|].
  assert (Hroom' : forall v', In (key, v') items -> no_room st v')
    by (intros v' Hv'; apply Hroom; now right).
  destruct (negb (dict_mem (limited_metadata st) k)) eqn:Hmem; simpl;
    [|now apply IH].
  destruct (remaining_slots st >? 0) eqn:Hs; [|now apply IH].
  apply Z.gtb_lt in Hs.
  destruct (String.eqb k key) eqn:Hk.
  - apply String.eqb_eq in Hk; subst k.
    destruct (Hroom v (or_introl eq_refl)) as [Hslot|[Hfit Hav]]; [lia|].
    unfold add_tag.
    destruct (_ <=? _) eqn:E; [apply Z.leb_le in E; lia|].
    destruct (_ >? _) eqn:E'; [apply Z.gtb_lt in E'; lia|].
    exact Hget.
  - apply String.eqb_neq in Hk.
    destruct (add_tag L st k v) as [st'|st'|] eqn:Ho; [| |exact Hget].
    + pose proof (add_tag_kept _ _ _ _ _ Ho) as Hadd.
      apply IH.
      * intros v' Hv'. eapply no_room_later; [eapply added_later; eauto|auto].
      * destruct Hadd as (-> & _). now rewrite dict_get_set_other.
    + destruct (add_tag_truncated _ _ _ _ _ Ho) as (p & (-> & _) & _).
      now rewrite dict_get_set_other.
Qed.

(** A value truncated to fit is kept whole when offered again. *)
Lemma add_tag_truncated_again st key v st' :
  add_tag L st key v = Truncated st' ->
  exists tv,
    limited_metadata st' = dict_set (limited_metadata st) key (PStr tv) /\
    add_tag L st key (PStr tv) = Kept st'.
Proof.
  intros Ho.
  destruct (add_tag_truncated _ _ _ _ _ Ho) as (p & (Hl & Hr & Hc & Hmax) & _).
  exists (p ++ ellipsis). split; [exact Hl|].
  simpl in Hc. unfold add_tag. simpl.
  destruct (_ <=? _) eqn:E; [|apply Z.leb_gt in E; lia].
  destruct st'; simpl in *; subst. reflexivity.
Qed.

(** Seen from the first loop, the final output decides each step. *)
Lemma priority_step_replay metadata out st tag :
  dict_get (limited_metadata st) tag = None ->
  dict_get out tag
  = dict_get (limited_metadata (priority_step L metadata st tag)) tag ->
  priority_step L out st tag = priority_step L metadata st tag.
Proof.
  intros Hfresh. unfold priority_step.
  destruct (dict_get metadata tag) as [v|].
  2:{ rewrite Hfresh. now intros ->. }
  destruct (remaining_slots st >? 0) eqn:Hs.
  2:{ intros _. now destruct (dict_get out tag). }
  destruct (add_tag L st tag v) as [st'|st'|] eqn:Ho.
  - destruct (add_tag_kept _ _ _ _ _ Ho) as (-> & _).
    rewrite dict_get_set_same. intros ->. now rewrite Ho.
  - destruct (add_tag_truncated_again _ _ _ _ Ho) as (tv & Hl & Hagain).
    rewrite Hl, dict_get_set_same. intros ->. now rewrite Hagain.
  - rewrite Hfresh. now intros ->.
Qed.

Lemma priority_step_fresh metadata st tag key :
  tag <> key -> dict_get (limited_metadata st) key = None ->
  dict_get (limited_metadata (priority_step L metadata st tag)) key = None.
Proof. intros Hne H. now rewrite priority_step_get_other. Qed.

(** What the first loop leaves unstored stays unstored to the end. *)
Lemma priority_step_final metadata tags st tag :
  dict_wf metadata -> ~ In tag tags ->
  dict_get (limited_metadata st) tag = None ->
  let st' := priority_step L metadata st tag in
  dict_get
    (limited_metadata
       (rest_loop L metadata (priority_loop L metadata tags st'))) tag
  = dict_get (limited_metadata st') tag.
Proof.
  intros Hwf Hnotin Hfresh st'.
  pose proof (priority_loop_later metadata tags st') as Hlater.
  destruct (dict_get (limited_metadata st') tag) as [x|] eqn:Hst'.
  - apply rest_loop_get_present. now rewrite priority_loop_get_notin.
  - apply rest_loop_not_added; [|now rewrite priority_loop_get_notin].
    intros v' Hv'. apply (no_room_later st' _ _ Hlater).
    apply (In_dict_get_wf _ _ _ Hwf) in Hv'.
    subst st'. revert Hst'. unfold priority_step, no_room. rewrite Hv'.
    destruct (remaining_slots st >? 0) eqn:Hs;
      [|intros _; left; rewrite Z.gtb_ltb in Hs; apply Z.ltb_ge in Hs; lia].
    destruct (add_tag L st tag v') as [s'|s'|] eqn:Ho.
    + destruct (add_tag_kept _ _ _ _ _ Ho) as (-> & _).
      now rewrite dict_get_set_same.
    + destruct (add_tag_truncated _ _ _ _ _ Ho) as (p & (-> & _) & _).
      now rewrite dict_get_set_same.
    + intros _. right. now apply add_tag_skipped with (key := tag).
Qed.

Lemma priority_loop_replay metadata : forall tags st,
  dict_wf metadata -> NoDup tags ->
  (forall tag, In tag tags -> dict_get (limited_metadata st) tag = None) ->
  priority_loop L
    (limited_metadata (rest_loop L metadata (priority_loop L metadata tags st)))
    tags st
  = priority_loop L metadata tags st.
Proof.
  induction tags as [|tag tags IH]; intros st Hwf Hnd Hfresh; [reflexivity|].
  inversion Hnd as [|? ? Hnotin Hnd']; subst.
  unfold priority_loop in *; simpl.
  set (out := limited_metadata _).
  rewrite (priority_step_replay metadata out st tag).
  - apply IH; auto. intros t Ht. apply priority_step_fresh.
    + intros ->. contradiction.
    + apply Hfresh. now right.
  - apply Hfresh. now left.
  - apply (priority_step_final metadata tags st tag Hwf Hnotin).
    apply Hfresh. now left.
Qed.

(** Items whose key is already stored are passed over. *)
Lemma rest_loop_skip_present pre items : forall st,
  (forall key v, In (key, v) pre -> dict_mem (limited_metadata st) key = true) ->
  rest_loop L (pre ++ items) st = rest_loop L items st.
Proof.
  induction pre as [|[k v] pre IH]; intros st Hpre; simpl; [reflexivity|].
  rewrite (Hpre k v (or_introl eq_refl)). simpl.
  apply IH. intros key v' H. apply (Hpre key v'). now right.
Qed.

(** The second loop run over exactly what it stored stores it again. *)
Lemma rest_loop_replay items : forall st,
  exists stored,
    limited_metadata (rest_loop L items st) = limited_metadata st ++ stored /\
    rest_loop L stored st = rest_loop L items st.
Proof.
  induction items as [|[k v] items IH]; intros st; simpl.
  - exists []. now rewrite app_nil_r.
  - destruct (negb (dict_mem (limited_metadata st) k)) eqn:Hmem; simpl; [|apply IH].
    destruct (remaining_slots st >? 0) eqn:Hs; [|apply IH].
    apply negb_true_iff in Hmem.
    destruct (add_tag L st k v) as [st'|st'|] eqn:Ho.
    + destruct (IH st') as (stored & Hl & Hrun).
      pose proof (add_tag_kept _ _ _ _ _ Ho) as (Hl' & _).
      exists ((k, v) :: stored). split.
      * rewrite Hl, Hl', dict_set_fresh by exact Hmem.
        now rewrite <- app_assoc.
      * simpl. now rewrite Hmem, Hs, Ho.
    + destruct (add_tag_truncated_again _ _ _ _ Ho) as (tv & Hl & Hagain).
      exists [(k, PStr tv)]. split.
      * now rewrite Hl, dict_set_fresh.
      * simpl. now rewrite Hmem, Hs, Hagain.
    + exists []. now rewrite app_nil_r.
Qed.

End Replay.

(** *** Priority tags that are sure to be kept *)

(** Slots and bytes the priority tags present in the input ask for, counted
    along the priority list. *)
Fixpoint present_count (metadata : dict pyval) (tags : list string) : Z :=
  match tags with
  | [] => 0
  | tag :: tags' =>
      (if dict_mem metadata tag then 1 else 0) + present_count metadata tags'
  end.

Fixpoint present_bytes (metadata : dict pyval) (tags : list string) : Z :=
  match tags with
  | [] => 0
  | tag :: tags' =>
      match dict_get metadata tag with
      | Some v => encoded_len (py_str v)
      | None => 0
      end + present_bytes metadata tags'
  end.

Lemma present_count_nonneg metadata tags : 0 <= present_count metadata tags.
Proof.
  induction tags as [|t ts IH]; simpl; [lia|].
  destruct (dict_mem metadata t); lia.
Qed.

Lemma present_bytes_nonneg metadata tags : 0 <= present_bytes metadata tags.
Proof.
  induction tags as [|t ts IH]; simpl; [lia|].
  destruct (dict_get metadata t) as [v|];
    [pose proof (encoded_len_nonneg (py_str v))|]; lia.
Qed.

Lemma priority_loop_all_kept L metadata : forall tags st,
  present_count metadata tags <= remaining_slots st ->
  current_total_bytes st + present_bytes metadata tags <= max_value_bytes L ->
  forall tag v, In tag tags -> dict_get metadata tag = Some v ->
    dict_get (limited_metadata (priority_loop L metadata tags st)) tag = Some v.
Proof.
  induction tags as [|t ts IH]; intros st Hc Hb tag v Hin Hget; [destruct Hin|].
  simpl in Hc, Hb. unfold priority_loop; simpl.
  fold (priority_loop L metadata ts (priority_step L metadata st t)).
  pose proof (present_count_nonneg metadata ts) as Hcn.
  pose proof (present_bytes_nonneg metadata ts) as Hbn.
  unfold priority_step, dict_mem in *.
  destruct (dict_get metadata t) as [vt|] eqn:Ht.
  - destruct (remaining_slots st >? 0) eqn:Hs;
      [|rewrite Z.gtb_ltb in Hs; apply Z.ltb_ge in Hs; lia].
    unfold add_tag.
    destruct (_ <=? _) eqn:Hfit; [|apply Z.leb_gt in Hfit; lia].
    destruct (in_dec string_dec tag ts) as [Hts|Hts].
    + apply IH; simpl; auto; lia.
    + rewrite priority_loop_get_notin by exact Hts. simpl.
      destruct Hin as [->|Hin]; [|contradiction].
      rewrite dict_get_set_same. congruence.
  - destruct Hin as [->|Hin]; [congruence|].
    apply IH; auto; lia.
Qed.

(** *** The limiter's guarantees *)

Lemma limit_metadata_final L metadata :
  metadata <> [] ->
  limit_metadata L metadata
  = limited_metadata
      (rest_loop L metadata
         (priority_loop L metadata (priority_tags L) (initial_state L))).
Proof. destruct metadata; [easy | reflexivity]. Qed.

(** Whether a list of tags has no repetition, as a test. *)
Fixpoint distinct (l : list string) : bool :=
  match l with
  | [] => true
  | x :: l' => negb (existsb (String.eqb x) l') && distinct l'
  end.

Lemma distinct_NoDup l : distinct l = true -> NoDup l.
Proof.
  induction l as [|x l IH]; simpl; [constructor|].
  intros H. apply andb_prop in H as [Hx Hl]. constructor; [|auto].
  intros Hin. apply negb_true_iff in Hx.
  assert (existsb (String.eqb x) l = true); [|congruence].
  apply existsb_exists. exists x. split; [exact Hin | apply String.eqb_refl].
Qed.

(** *** What is stored, and from which budget *)

(** The state of the loops when [key], with the input value [v], has its
    turn: in the loop over the priority tags after the tags before it, in
    the loop over the items after the items before it. *)
Definition turn_of (L : MetadataLimiter) (metadata : dict pyval)
    (key : string) (v : pyval) (st : lstate) : Prop :=
  (exists pre post,
     priority_tags L = pre ++ key :: post /\
     dict_get metadata key = Some v /\
     st = priority_loop L metadata pre (initial_state L)) \/
  (exists pre post,
     metadata = pre ++ (key, v) :: post /\
     st = rest_loop L pre
            (priority_loop L metadata (priority_tags L) (initial_state L))).

(** What is stored for the input value [v] when [st] is the state at its
    turn: [v] itself when it fits the bytes still available; else, when
    more than 10 bytes are available, the longest prefix of its string form
    that fits the bytes available minus 3, followed by "...". *)
Definition stored_for (L : MetadataLimiter) (st : lstate) (v x : pyval)
    : Prop :=
  let available_bytes := max_value_bytes L - current_total_bytes st in
  (encoded_len (py_str v) <= available_bytes /\ x = v) \/
  (available_bytes < encoded_len (py_str v) /\ 10 < available_bytes /\
   exists p,
     x = PStr (p ++ ellipsis) /\
     longest_fitting_prefix (py_str v) (available_bytes - 3) p).

Lemma add_tag_stored L st key v st' :
  produces (add_tag L st key v) st' ->
  exists x,
    limited_metadata st' = dict_set (limited_metadata st) key x /\
    stored_for L st v x.
Proof.
  unfold produces, add_tag, stored_for.
  destruct (_ <=? _) eqn:Hfit.
  - apply Z.leb_le in Hfit. intros [[= <-]|H]; [|discriminate].
    exists v. split; [reflexivity|]. left. split; [lia | reflexivity].
  - apply Z.leb_gt in Hfit.
    destruct (_ >? _) eqn:Hav; [|intros [H|H]; discriminate].
    apply Z.gtb_lt in Hav. intros [H|[= <-]]; [discriminate|].
    eexists. split; [reflexivity|]. right.
    split; [lia|]. split; [lia|].
    eexists. split; [reflexivity|].
    apply truncate_longest_prefix. lia.
Qed.

Section Turns.
Variables (L : MetadataLimiter) (metadata : dict pyval).

(** Every entry stored so far was stored at a turn of its key, with a
    slot free, from the budget of that turn. *)
Definition stored_at_turns (st : lstate) : Prop :=
  forall key x,
    In (key, x) (limited_metadata st) ->
    exists v st0,
      turn_of L metadata key v st0 /\
      0 < remaining_slots st0 /\
      stored_for L st0 v x.

Lemma priority_loop_turns : forall pre post,
  priority_tags L = pre ++ post ->
  stored_at_turns (priority_loop L metadata pre (initial_state L)).
Proof.
  induction pre as [|tag pre IH] using rev_ind; intros post Htags.
  - intros key x [].
  - rewrite <- app_assoc in Htags. cbn [app] in Htags.
    specialize (IH _ Htags).
    unfold priority_loop. rewrite fold_left_app. cbn [fold_left].
    fold (priority_loop L metadata pre (initial_state L)).
    set (st := priority_loop L metadata pre (initial_state L)) in *.
    unfold priority_step.
    destruct (dict_get metadata tag) as [value|] eqn:Hget; [|exact IH].
    destruct (remaining_slots st >? 0) eqn:Hslot; [|exact IH].
    apply Z.gtb_lt in Hslot.
    assert (Hstep : forall st',
              produces (add_tag L st tag value) st' -> stored_at_turns st').
    { intros st' Hprod key x Hin.
      destruct (add_tag_stored _ _ _ _ _ Hprod) as (y & Hl & Hy).
      rewrite Hl in Hin. apply In_dict_set in Hin as [[= -> ->]|Hin];
        [|now apply IH].
      exists value, st. split; [|split; [lia | exact Hy]].
      left. exists pre, post. auto. }
    destruct (add_tag L st tag value) as [st'|st'|] eqn:Ho;
      [apply Hstep; now left | apply Hstep; now right | exact IH].
Qed.

Lemma rest_loop_turns : forall items pre st,
  metadata = pre ++ items ->
  (forall l,
     rest_loop L (pre ++ l)
       (priority_loop L metadata (priority_tags L) (initial_state L))
     = rest_loop L l st) ->
  stored_at_turns st ->
  stored_at_turns (rest_loop L items st).
Proof.
  induction items as [|[key value] items IH]; intros pre st Hsplit Hthrough Hinv;
    [exact Hinv|].
  assert (Hhere : rest_loop L pre
                    (priority_loop L metadata (priority_tags L)
                       (initial_state L)) = st)
    by (rewrite <- (app_nil_r pre) at 1; apply (Hthrough [])).
  assert (Hnext : metadata = (pre ++ [(key, value)]) ++ items)
    by (rewrite <- app_assoc; exact Hsplit).
  cbn [rest_loop].
  destruct (negb (dict_mem (limited_metadata st) key)
            && (remaining_slots st >? 0)) eqn:Hguard.
  - pose proof Hguard as Hg.
    apply andb_prop in Hguard as [_ Hslot]. apply Z.gtb_lt in Hslot.
    assert (Hstep : forall st',
              produces (add_tag L st key value) st' -> stored_at_turns st').
    { intros st' Hprod k x Hin.
      destruct (add_tag_stored _ _ _ _ _ Hprod) as (y & Hl & Hy).
      rewrite Hl in Hin. apply In_dict_set in Hin as [[= -> ->]|Hin];
        [|now apply Hinv].
      exists value, st. split; [|split; [lia | exact Hy]].
      right. exists pre, items. auto. }
    destruct (add_tag L st key value) as [st'|st'|] eqn:Ho.
    + apply (IH (pre ++ [(key, value)]) st' Hnext); [|apply Hstep; now left].
      intros l. rewrite <- app_assoc. cbn [app]. rewrite Hthrough.
      cbn [rest_loop]. rewrite Hg, Ho. reflexivity.
    + apply Hstep. now right.
    + exact Hinv.
  - apply (IH (pre ++ [(key, value)]) st Hnext); [|exact Hinv].
    intros l. rewrite <- app_assoc. cbn [app]. rewrite Hthrough.
    cbn [rest_loop]. now rewrite Hguard.
Qed.

Lemma stored_at_turns_final :
  stored_at_turns
    (rest_loop L metadata
       (priority_loop L metadata (priority_tags L) (initial_state L))).
Proof.
  apply (rest_loop_turns metadata []); [reflexivity | reflexivity|].
  apply (priority_loop_turns (priority_tags L) []). now rewrite app_nil_r.
Qed.

End Turns.

(** Sample limiters and inputs. *)
Definition two_tag_limiter : MetadataLimiter := new_limiter 2 2048 None.

Definition three_priority_tags : dict pyval :=
  [("damage_id"%string, PStr (txt "D-1"));
   ("vehicle_make"%string, PStr (txt "Honda"));
   ("vehicle_model"%string, PStr (txt "Civic"))].

Definition repeating_limiter : MetadataLimiter :=
  new_limiter 4 100 (Some ["a"; "a"; "a"]%string).

Definition long_a : dict pyval :=
  [("a"%string, PStr (repeat 65%N 60));
   ("b"%string, PStr []);
   ("c"%string, PStr [])].

(** C1 (as amended). For a limiter with a non-negative tag limit and byte
    budget, [limit_metadata] returns at most [max_tags] entries; the UTF-8
    sizes of the string forms of the returned values add up to at most
    [max_value_bytes]; every returned entry was stored at a turn of its key
    with a slot free, and its value is the input's value when that fits the
    bytes still available at that turn ([max_value_bytes] less the running
    total), and otherwise the longest prefix of the input value's string
    form whose UTF-8 encoding fits the bytes still available minus 3,
    followed by "...", which happens only when more than 10 bytes are
    still available; a priority tag of the input is included whenever, at
    its turn in the priority list, a slot is free and its value fits the
    bytes left or more than 10 bytes are left; and when the priority tags
    present in the input need no more than [max_tags] slots and
    [max_value_bytes] bytes together, each is returned with its own value. *)
Theorem limit_metadata_respects_limits (L : MetadataLimiter)
    (metadata : dict pyval) :
  0 <= max_tags L -> 0 <= max_value_bytes L ->
  let out := limit_metadata L metadata in
  len out <= max_tags L /\
  total_value_bytes out <= max_value_bytes L /\
  (forall key x,
     In (key, x) out ->
     exists v st,
       turn_of L metadata key v st /\
       0 < remaining_slots st /\
       stored_for L st v x) /\
  (forall pre tag post v,
     priority_tags L = pre ++ tag :: post ->
     dict_get metadata tag = Some v ->
     let st := priority_loop L metadata pre (initial_state L) in
     0 < remaining_slots st ->
     current_total_bytes st + encoded_len (py_str v) <= max_value_bytes L \/
     10 < max_value_bytes L - current_total_bytes st ->
     dict_mem out tag = true) /\
  (present_count metadata (priority_tags L) <= max_tags L ->
   present_bytes metadata (priority_tags L) <= max_value_bytes L ->
   forall tag v, In tag (priority_tags L) ->
     dict_get metadata tag = Some v -> dict_get out tag = Some v).
Proof.
  intros Ht Hb out.
  assert (Hcase : metadata = [] \/ metadata <> [])
    by (destruct metadata; [left | right]; easy).
  destruct Hcase as [->|Hne].
  { subst out; simpl. unfold len; simpl.
    repeat split; try lia; try easy. }
  subst out. rewrite (limit_metadata_final L metadata Hne).
  destruct (within_limits_final L metadata Ht Hb) as (Hs & Hn & Htot & Hcur).
  split; [lia|]. split; [lia|]. split; [apply stored_at_turns_final|]. split.
  - intros pre tag post v Htags Hget st Hslot Hroom.
    rewrite Htags. unfold priority_loop. rewrite fold_left_app. simpl.
    fold (priority_loop L metadata pre (initial_state L)). fold st.
    set (st1 := priority_step L metadata st tag).
    assert (Hst1 : dict_mem (limited_metadata st1) tag = true).
    { subst st1. unfold priority_step. rewrite Hget.
      destruct (remaining_slots st >? 0) eqn:E;
        [|rewrite Z.gtb_ltb in E; apply Z.ltb_ge in E; lia].
      destruct (add_tag L st tag v) as [s'|s'|] eqn:Ho.
      - destruct (add_tag_kept _ _ _ _ _ Ho) as (-> & _).
        now rewrite dict_mem_set, String.eqb_refl.
      - destruct (add_tag_truncated _ _ _ _ _ Ho) as (p & (-> & _) & _).
        now rewrite dict_mem_set, String.eqb_refl.
      - apply add_tag_skipped in Ho. lia. }
    apply (rest_loop_ind L metadata
             (fun s => dict_mem (limited_metadata s) tag = true));
      [| apply incl_refl |].
    + intros s k v' s' IH Hin _ Hprod.
      destruct (produces_added _ _ _ _ _ _ Hin Hprod) as (y & (Hl & _) & _).
      rewrite Hl, dict_mem_set, IH. apply orb_true_r.
    + apply (priority_loop_ind L metadata
               (fun s => dict_mem (limited_metadata s) tag = true));
        [|exact Hst1].
      intros s k v' s' IH Hin _ Hprod.
      destruct (produces_added _ _ _ _ _ _ Hin Hprod) as (y & (Hl & _) & _).
      rewrite Hl, dict_mem_set, IH. apply orb_true_r.
  - intros Hc Hby tag v Hin Hget.
    apply rest_loop_get_present.
    apply priority_loop_all_kept; simpl; auto.
Qed.

Lemma limit_metadata_respects_limits_witness :
  0 <= max_tags two_tag_limiter /\
  0 <= max_value_bytes two_tag_limiter /\
  len (limit_metadata two_tag_limiter three_priority_tags) <= 2 /\
  total_value_bytes (limit_metadata two_tag_limiter three_priority_tags) <= 2048.
Proof.
  assert (H1 : 0 <= max_tags two_tag_limiter) by (vm_compute; discriminate).
  assert (H2 : 0 <= max_value_bytes two_tag_limiter) by (vm_compute; discriminate).
  destruct (limit_metadata_respects_limits two_tag_limiter three_priority_tags
              H1 H2) as (Hn & Hb & _).
  exact (conj H1 (conj H2 (conj Hn Hb))).
Defined.

(** C1 as stated fails. The input has more entries than the two the
    limiter allows, and its two priority tags would fill the two slots;
    yet the second priority tag is left out, although its value alone is
    within the byte budget: the first has used 15 of the 20 bytes, and the
    5 left are neither enough for the value nor for a truncation. *)
Lemma limit_metadata_skips_fitting_priority_tag :
  let L := new_limiter 2 20 None in
  let metadata := [("damage_id"%string, PStr (repeat 65%N 15));
                   ("vehicle_make"%string, PStr (repeat 66%N 12));
                   ("color"%string, PStr (txt "red"))] in
  len metadata > max_tags L /\
  In "vehicle_make"%string (priority_tags L) /\
  dict_get metadata "vehicle_make" = Some (PStr (repeat 66%N 12)) /\
  encoded_len (repeat 66%N 12) <= max_value_bytes L /\
  dict_mem (limit_metadata L metadata) "vehicle_make" = false /\
  limit_metadata L metadata = [("damage_id"%string, PStr (repeat 65%N 15))].
Proof.
  cbv zeta. repeat split; try (vm_compute; congruence).
  simpl. auto.
Qed.

(** A priority tag is also left out for want of a slot: with room for two
    tags, a third priority tag of the input is dropped although its value
    alone is far below the byte budget. *)
Lemma limit_metadata_drops_fitting_priority_tag :
  len three_priority_tags > max_tags two_tag_limiter /\
  In "vehicle_model"%string (priority_tags two_tag_limiter) /\
  dict_get three_priority_tags "vehicle_model" = Some (PStr (txt "Civic")) /\
  encoded_len (txt "Civic") <= max_value_bytes two_tag_limiter /\
  dict_mem (limit_metadata two_tag_limiter three_priority_tags)
           "vehicle_model" = false.
Proof.
  repeat split; try (vm_compute; congruence).
  simpl. auto.
Qed.

(** The same happens for want of bytes: the running total is shared, so a
    priority tag that fits the budget alone is skipped once another has
    used it up. *)
Example limit_metadata_skips_priority_tag_for_bytes :
  let L := new_limiter 10 20 None in
  let metadata := [("damage_id"%string, PStr (repeat 65%N 15));
                   ("vehicle_make"%string, PStr (repeat 66%N 12))] in
  encoded_len (repeat 66%N 12) <= max_value_bytes L /\
  limit_metadata L metadata = [("damage_id"%string, PStr (repeat 65%N 15))].
Proof. split; vm_compute; congruence. Qed.

(** C10 (as amended). When the priority list names no tag twice,
    [limit_metadata] applied to its own output returns that output
    unchanged, order of the entries included. *)
Theorem limit_metadata_idempotent (L : MetadataLimiter) (metadata : dict pyval) :
  NoDup (priority_tags L) -> dict_wf metadata ->
  limit_metadata L (limit_metadata L metadata) = limit_metadata L metadata.
Proof.
  intros Hnd Hwf.
  assert (Hcase : metadata = [] \/ metadata <> [])
    by (destruct metadata; [left | right]; easy).
  destruct Hcase as [->|Hne]; [reflexivity|].
  rewrite (limit_metadata_final L metadata Hne).
  set (S1 := priority_loop L metadata (priority_tags L) (initial_state L)).
  set (out := limited_metadata (rest_loop L metadata S1)).
  assert (Hcase : out = [] \/ out <> [])
    by (destruct out; [left | right]; easy).
  destruct Hcase as [->|Hout]; [reflexivity|].
  rewrite (limit_metadata_final L out Hout).
  assert (Hprio : priority_loop L out (priority_tags L) (initial_state L) = S1).
  { subst out S1. apply priority_loop_replay; auto. }
  rewrite Hprio.
  destruct (rest_loop_replay L metadata S1) as (stored & Hl & Hrun).
  fold out in Hl.
  rewrite Hl at 1.
  rewrite rest_loop_skip_present.
  - rewrite Hrun. reflexivity.
  - intros key v Hin. now apply In_dict_mem with (v := v).
Qed.

Lemma limit_metadata_idempotent_witness :
  NoDup (priority_tags two_tag_limiter) /\
  dict_wf three_priority_tags /\
  limit_metadata two_tag_limiter
    (limit_metadata two_tag_limiter three_priority_tags)
  = limit_metadata two_tag_limiter three_priority_tags.
Proof.
  assert (H1 : NoDup (priority_tags two_tag_limiter))
    by (apply distinct_NoDup; reflexivity).
  assert (H2 : dict_wf three_priority_tags)
    by (apply distinct_NoDup; reflexivity).
  exact (conj H1 (conj H2
           (limit_metadata_idempotent two_tag_limiter three_priority_tags H1 H2))).
Defined.

(** C10 as stated fails: a priority list that repeats a tag spends a slot
    and bytes on every repetition, so a second pass truncates the value
    again and drops a tag the first pass kept. *)
Lemma limit_metadata_not_idempotent_with_repeated_priority :
  let out := limit_metadata repeating_limiter long_a in
  dict_get (limit_metadata repeating_limiter out) "a" <> dict_get out "a" /\
  dict_mem out "c" = true /\
  dict_mem (limit_metadata repeating_limiter out) "c" = false.
Proof. repeat split; vm_compute; congruence. Qed.

(** *** Vector dimension normalisation *)

Lemma new_dimension_manager_valid D mgr :
  new_dimension_manager D = inr mgr ->
  target_dimension mgr = D /\ (D = 256 \/ D = 384 \/ D = 1024).
Proof.
  unfold new_dimension_manager, validate. simpl dimension.
  destruct (existsb (Z.eqb D) [256; 384; 1024]) eqn:E; simpl; [|discriminate].
  intros H. inversion H; subst; simpl. split; [reflexivity|].
  apply existsb_exists in E as (x & Hx & Heq). apply Z.eqb_eq in Heq. subst x.
  simpl in Hx. intuition.
Qed.

Lemma Forall_map_image {A} (f : A -> A) l :
  Forall (fun x => exists y, x = f y) (map f l).
Proof. induction l; simpl; constructor; eauto. Qed.

(** C2 (as amended). For a manager built for a supported dimension [D]
    (256, 384 or 1024) and an input list or array [v],
    [validate_and_transform] returns a vector of exactly [D] elements: the
    first [D] elements of [v] when [v] is longer (the front is kept, the
    tail is cut off), [v] followed by zeros when it is shorter, each element passed
    through the single-precision cast (so every element is a single-precision
    value). When the cast leaves single-precision values and zero unchanged,
    the result is the cast of the first [D] elements followed by [D - len v]
    zeros. *)
Theorem validate_and_transform_dimension
    (float : Type) (float32 : float -> float) (zero : float)
    (D : Z) (mgr : VectorDimensionManager) (vector : vector_arg float)
    (v : list float) :
  new_dimension_manager D = inr mgr ->
  vector = PyList v \/ vector = NdArray v ->
  exists r,
    validate_and_transform float32 zero mgr vector = inr r /\
    len r = D /\
    (len v > D ->
       r = map float32 (map float32 (firstn (Z.to_nat D) v))) /\
    (len v < D ->
       r = map float32 (map float32 v)
           ++ repeat (float32 (float32 zero)) (Z.to_nat (D - len v))) /\
    Forall (fun x => exists y, x = float32 y) r /\
    ((forall x, float32 (float32 x) = float32 x) -> float32 zero = zero ->
       r = map float32 (firstn (Z.to_nat D) v)
           ++ repeat zero (Z.to_nat (D - len v))).
Proof.
  intros Hmgr Hvec.
  destruct (new_dimension_manager_valid D mgr Hmgr) as [Htd HD].
  assert (Hpos : 0 < D) by lia.
  assert (Hrun : validate_and_transform float32 zero mgr vector
                 = validate_and_transform float32 zero mgr (PyList v))
    by (destruct Hvec as [->| ->]; reflexivity).
  rewrite Hrun. clear Hrun Hvec vector.
  unfold validate_and_transform, ensure_float32, pad_zeros, len.
  rewrite Htd, !length_map.
  assert (Hidem : (forall x, float32 (float32 x) = float32 x) ->
                  forall l, map float32 (map float32 l) = map float32 l).
  { intros Hi l. rewrite map_map. apply map_ext. intros; apply Hi. }
  destruct (Z.of_nat (List.length v) =? D) eqn:Heq.
  - apply Z.eqb_eq in Heq. eexists. split; [reflexivity|].
    rewrite !length_map. repeat split; try lia.
    + apply Forall_map_image.
    + intros Hi Hz. rewrite Hidem by exact Hi.
      replace (Z.to_nat D) with (List.length v) by lia.
      rewrite firstn_all.
      replace (Z.to_nat (D - Z.of_nat (List.length v))) with 0%nat by lia.
      simpl. now rewrite app_nil_r.
  - apply Z.eqb_neq in Heq.
    destruct (Z.of_nat (List.length v) >? D) eqn:Hgt.
    + apply Z.gtb_lt in Hgt. rewrite slice_to_nonneg by lia.
      rewrite firstn_map.
      eexists. split; [reflexivity|].
      repeat split; try lia.
      * rewrite !length_map, length_firstn. lia.
      * apply Forall_map_image.
      * intros Hi Hz. rewrite Hidem by exact Hi.
        replace (Z.to_nat (D - Z.of_nat (List.length v))) with 0%nat by lia.
        simpl. now rewrite app_nil_r.
    + rewrite Z.gtb_ltb in Hgt. apply Z.ltb_ge in Hgt.
      eexists. split; [reflexivity|].
      rewrite map_app, map_repeat. repeat split; try lia.
      * rewrite length_app, !length_map, repeat_length. lia.
      * rewrite <- map_repeat, <- map_app. apply Forall_map_image.
      * intros Hi Hz. rewrite Hidem by exact Hi. rewrite Hi, Hz.
        rewrite firstn_all2 by lia. reflexivity.
Qed.

(** A coarse stand-in for the cast, on integers: drop the two low bits. *)
Definition coarse (z : Z) : Z := 4 * (z / 4).

Lemma validate_and_transform_dimension_witness :
  new_dimension_manager 256
    = inr {| target_dimension := 256; config := new_config 256 |} /\
  exists r,
    validate_and_transform coarse 0
      {| target_dimension := 256; config := new_config 256 |}
      (PyList (repeat 7 300)) = inr r /\
    len r = 256.
Proof.
  split; [reflexivity|].
  destruct (validate_and_transform_dimension Z coarse 0 256
              {| target_dimension := 256; config := new_config 256 |}
              (PyList (repeat 7 300)) (repeat 7 300)
              eq_refl (or_introl eq_refl)) as (r & Hr & Hlen & _).
  exists r. exact (conj Hr Hlen).
Defined.

(** C2 as stated fails: a vector longer than the dimension is not
    truncated from the front. Of the 300 numbers 0 .. 299 the first 256 are
    returned, not the last 256. *)
Lemma validate_and_transform_keeps_the_front :
  validate_and_transform (fun z : Z => z) 0
    {| target_dimension := 256; config := new_config 256 |}
    (PyList (map Z.of_nat (seq 0 300)))
  = inr (map Z.of_nat (seq 0 256))
  /\ map Z.of_nat (seq 0 256) <> map Z.of_nat (seq 44 256).
Proof. split; [vm_compute; reflexivity | discriminate]. Qed.

Example validate_and_transform_truncates :
  validate_and_transform coarse 0
    {| target_dimension := 256; config := new_config 256 |}
    (PyList (repeat 7 300)) = inr (repeat 4 256).
Proof. vm_compute. reflexivity. Qed.

Example validate_and_transform_pads :
  validate_and_transform coarse 0
    {| target_dimension := 256; config := new_config 256 |}
    (NdArray (repeat 9 250)) = inr (repeat 8 250 ++ repeat 0 6).
Proof. vm_compute. reflexivity. Qed.

(** *** The whole of [_truncate_to_bytes] *)

Lemma bsearch_nothing_fits t max_bytes : forall lo hi result,
  max_bytes < 0 -> bsearch t max_bytes lo hi result = result.
Proof.
  intros lo hi result Hneg. funelim (bsearch t max_bytes lo hi result).
  - destruct (encoded_len (slice_to t ((lo + hi) / 2)) <=? max_bytes) eqn:Hfit.
    + apply Z.leb_le in Hfit.
      pose proof (encoded_len_nonneg (slice_to t ((lo + hi) / 2))). lia.
    + now apply H0.
  - reflexivity.
Qed.

(** X1. [_truncate_to_bytes] returns the text itself when its UTF-8
    encoding fits [max_bytes]; otherwise, for a non-negative limit, the
    longest prefix (counted in characters, so no character is ever cut in
    two) whose encoding fits; and the empty string for a negative limit. *)
Theorem truncate_to_bytes_spec (t : text) (max_bytes : Z) :
  (encoded_len t <= max_bytes -> _truncate_to_bytes t max_bytes = t) /\
  (0 <= max_bytes ->
   longest_fitting_prefix t max_bytes (_truncate_to_bytes t max_bytes)) /\
  (max_bytes < 0 -> _truncate_to_bytes t max_bytes = []).
Proof.
  split; [|split].
  - intros Hfit. unfold _truncate_to_bytes.
    apply Z.leb_le in Hfit. now rewrite Hfit.
  - apply truncate_longest_prefix.
  - intros Hneg. unfold _truncate_to_bytes.
    pose proof (encoded_len_nonneg t).
    destruct (encoded_len t <=? max_bytes) eqn:Hfit;
      [apply Z.leb_le in Hfit; lia|].
    now apply bsearch_nothing_fits.
Qed.

(** *** The limiter's output against the limiter's own check *)

(** [validate_metadata_size] *)
Definition validate_metadata_size (L : MetadataLimiter)
    (metadata : dict pyval) : bool :=
  if negb (truthy metadata) then true
  else
    let tag_count := len metadata in
    tag_count <=? max_tags L.

(** [limit_metadata_tags], with the constructor's default byte budget. *)
Definition limit_metadata_tags (metadata : dict pyval) (max_tags : Z)
    (priority_tags : option (list string)) : dict pyval :=
  limit_metadata (new_limiter max_tags 2048 priority_tags) metadata.

(** [validate_metadata_compliance] *)
Definition validate_metadata_compliance (metadata : dict pyval)
    (max_tags : Z) : bool :=
  validate_metadata_size (new_limiter max_tags 2048 None) metadata.

Lemma stored_within_max_tags L metadata :
  let out :=
    limited_metadata
      (rest_loop L metadata
         (priority_loop L metadata (priority_tags L) (initial_state L))) in
  out = [] \/ len out <= max_tags L.
Proof.
  cbv zeta.
  pose proof
    (both_loops_ind L metadata
       (fun st => len (limited_metadata st) + remaining_slots st <= max_tags L /\
                  (limited_metadata st = [] \/ 0 <= remaining_slots st)))
    as Hind.
  destruct (Hind ltac:(
    intros st key v st' (Hn & Hr) Hin Hslot Hprod;
    destruct (produces_added _ _ _ _ _ _ Hin Hprod) as (x & (Hl & Hrem & _) & _);
    rewrite Hl, Hrem;
    pose proof (dict_set_length (limited_metadata st) key x);
    unfold len in *; split; [lia | right; lia])
    (initial_state L)
    ltac:(unfold len; simpl; split; [lia | now left]))
    as (Hn & [He|Hr]); [now left | right; lia].
Qed.

Lemma limit_metadata_validates L metadata :
  validate_metadata_size L (limit_metadata L metadata) = true.
Proof.
  unfold validate_metadata_size.
  destruct metadata as [|kv metadata]; [reflexivity|].
  rewrite limit_metadata_final by discriminate.
  destruct (stored_within_max_tags L (kv :: metadata)) as [->|Hlen];
    [reflexivity|].
  destruct (negb _); [reflexivity|]. now apply Z.leb_le.
Qed.

(** X2. Whatever the limiter and the input, the output of [limit_metadata]
    passes the limiter's own [validate_metadata_size]; and the output of the
    convenience function [limit_metadata_tags] passes
    [validate_metadata_compliance] for the same tag limit. *)
Theorem limited_metadata_is_compliant (L : MetadataLimiter)
    (metadata : dict pyval) (n : Z) (priority : option (list string)) :
  validate_metadata_size L (limit_metadata L metadata) = true /\
  validate_metadata_compliance (limit_metadata_tags metadata n priority) n
  = true.
Proof.
  split; [apply limit_metadata_validates|].
  unfold validate_metadata_compliance, limit_metadata_tags.
  exact (limit_metadata_validates (new_limiter n 2048 priority) metadata).
Qed.

(** *** Metadata already within the limits *)

Lemma total_value_bytes_nonneg (d : dict pyval) : 0 <= total_value_bytes d.
Proof.
  induction d as [|[k v] d IH]; simpl; [lia|].
  pose proof (encoded_len_nonneg (py_str v)). lia.
Qed.

(** Storing one entry of [m] under its key takes exactly that entry out of
    the entries of [m] not stored yet. *)
Lemma not_stored_after_set (d m : dict pyval) key value :
  dict_wf m -> In (key, value) m -> dict_mem d key = false ->
  let before := filter (fun kv => negb (dict_mem d (fst kv))) m in
  let after :=
    filter (fun kv => negb (dict_mem (dict_set d key value) (fst kv))) m in
  len before = len after + 1 /\
  total_value_bytes before
  = total_value_bytes after + encoded_len (py_str value).
Proof.
  intros Hwf Hin Hfresh. cbv zeta. unfold dict_wf, keys in Hwf.
  induction m as [|[k0 v0] m IH]; [destruct Hin|].
  simpl in Hwf. inversion Hwf as [|? ? Hnotin Hwf']; subst.
  cbn [filter fst]. rewrite dict_mem_set.
  destruct Hin as [Heq|Hin].
  - inversion Heq; subst k0 v0. rewrite String.eqb_refl, Hfresh. simpl.
    assert (Hsame :
              filter (fun kv => negb (dict_mem (dict_set d key value) (fst kv))) m
              = filter (fun kv => negb (dict_mem d (fst kv))) m).
    { apply filter_ext_in. intros [k v] Hkv. simpl.
      rewrite dict_mem_set.
      destruct (String.eqb key k) eqn:E; [|reflexivity].
      apply String.eqb_eq in E; subst k. exfalso. apply Hnotin.
      change key with (fst (key, v)). now apply in_map. }
    rewrite Hsame. unfold len. simpl List.length. split; lia.
  - assert (Hne : String.eqb key k0 = false).
    { apply String.eqb_neq. intros ->. apply Hnotin.
      change k0 with (fst (k0, value)). now apply in_map. }
    rewrite Hne. simpl orb.
    destruct (IH Hwf' Hin) as (Hl & Hb).
    destruct (negb (dict_mem d k0)); simpl; unfold len in *; simpl List.length;
      split; lia.
Qed.

Lemma filter_all {A} (l : list A) : filter (fun _ => true) l = l.
Proof. induction l as [|x l IH]; simpl; [reflexivity | now rewrite IH]. Qed.

Section Compliant.
Variables (L : MetadataLimiter) (metadata : dict pyval).
Hypothesis metadata_wf : dict_wf metadata.

(** The entries of the input not stored yet. *)
Definition pending (st : lstate) : dict pyval :=
  filter (fun kv => negb (dict_mem (limited_metadata st) (fst kv))) metadata.

(** Everything stored is an entry of the input as it stands, and the slots
    and bytes left cover all that is still pending. *)
Definition room_for_all (st : lstate) : Prop :=
  (forall k v, dict_get (limited_metadata st) k = Some v ->
               dict_get metadata k = Some v) /\
  len (pending st) <= remaining_slots st /\
  current_total_bytes st + total_value_bytes (pending st) <= max_value_bytes L.

Lemma add_tag_pending st key value :
  room_for_all st -> In (key, value) metadata ->
  dict_mem (limited_metadata st) key = false ->
  0 < remaining_slots st /\
  exists st',
    add_tag L st key value = Kept st' /\ room_for_all st' /\
    limited_metadata st' = dict_set (limited_metadata st) key value.
Proof.
  intros (Hown & Hslots & Hbytes) Hin Hfresh.
  destruct (not_stored_after_set (limited_metadata st) metadata key value
              metadata_wf Hin Hfresh) as (Hl & Hb).
  fold (pending st) in Hl, Hb.
  set (after := filter _ metadata) in Hl, Hb.
  assert (Hafter : 0 <= len after) by (unfold len; lia).
  pose proof (total_value_bytes_nonneg after) as Hnn.
  split; [lia|].
  unfold add_tag.
  destruct (current_total_bytes st + encoded_len (py_str value)
            <=? max_value_bytes L) eqn:Hfit;
    [|apply Z.leb_gt in Hfit; lia].
  eexists. split; [reflexivity|]. split; [|reflexivity].
  unfold room_for_all, pending. simpl. fold after. repeat split; try lia.
  intros k v Hget.
  destruct (String.eqb key k) eqn:E.
  - apply String.eqb_eq in E; subst k.
    rewrite dict_get_set_same in Hget. injection Hget as <-.
    now apply In_dict_get_wf.
  - apply String.eqb_neq in E. rewrite dict_get_set_other in Hget by exact E.
    now apply Hown.
Qed.

Lemma priority_loop_room tags : forall st,
  NoDup tags -> room_for_all st ->
  (forall k, In k tags -> dict_mem (limited_metadata st) k = false) ->
  room_for_all (priority_loop L metadata tags st).
Proof.
  unfold priority_loop.
  induction tags as [|tag tags IH]; intros st Hnd Hroom Hfresh; simpl;
    [exact Hroom|].
  inversion Hnd as [|? ? Hnotin Hnd']; subst.
  unfold priority_step at 2.
  destruct (dict_get metadata tag) as [v|] eqn:Hget.
  - apply dict_get_In in Hget.
    destruct (add_tag_pending st tag v Hroom Hget (Hfresh tag (or_introl eq_refl)))
      as (Hslot & st' & Hadd & Hroom' & Hl).
    apply Z.gtb_lt in Hslot. rewrite Hslot, Hadd.
    apply IH; auto.
    intros k Hk. rewrite Hl, dict_mem_set.
    rewrite (Hfresh k (or_intror Hk)), orb_false_r.
    apply String.eqb_neq. intros ->. contradiction.
  - apply IH; auto. intros k Hk. apply Hfresh. now right.
Qed.

Lemma rest_loop_keeps_stored items key : forall st,
  dict_mem (limited_metadata st) key = true ->
  dict_mem (limited_metadata (rest_loop L items st)) key = true.
Proof.
  intros st Hst.
  apply (rest_loop_ind L items
           (fun s => dict_mem (limited_metadata s) key = true));
    [|apply incl_refl|exact Hst].
  intros s k v s' IH Hin _ Hprod.
  destruct (produces_added _ _ _ _ _ _ Hin Hprod) as (y & (Hl & _) & _).
  rewrite Hl, dict_mem_set, IH. apply orb_true_r.
Qed.

Lemma rest_loop_room items : forall st,
  incl items metadata -> room_for_all st ->
  room_for_all (rest_loop L items st) /\
  forall k v, In (k, v) items ->
    dict_mem (limited_metadata (rest_loop L items st)) k = true.
Proof.
  induction items as [|[key value] items IH]; intros st Hincl Hroom.
  - simpl. split; [exact Hroom | intros k v []].
  - assert (Hin : In (key, value) metadata) by (apply Hincl; now left).
    assert (Hincl' : incl items metadata)
      by (intros x Hx; apply Hincl; now right).
    cbn [rest_loop].
    destruct (dict_mem (limited_metadata st) key) eqn:Hmem.
    + simpl negb. simpl andb.
      destruct (IH st Hincl' Hroom) as (Hfinal & Hall).
      split; [exact Hfinal|].
      intros k v [Heq|Hkv]; [|now apply (Hall k v)].
      inversion Heq; subst. now apply rest_loop_keeps_stored.
    + destruct (add_tag_pending st key value Hroom Hin Hmem)
        as (Hslot & st' & Hadd & Hroom' & Hl).
      apply Z.gtb_lt in Hslot. rewrite Hslot, Hadd. simpl negb. simpl andb.
      destruct (IH st' Hincl' Hroom') as (Hfinal & Hall).
      split; [exact Hfinal|].
      intros k v [Heq|Hkv]; [|now apply (Hall k v)].
      inversion Heq; subst. apply rest_loop_keeps_stored.
      now rewrite Hl, dict_mem_set, String.eqb_refl.
Qed.

Lemma limit_metadata_lossless :
  NoDup (priority_tags L) ->
  len metadata <= max_tags L ->
  total_value_bytes metadata <= max_value_bytes L ->
  forall key, dict_get (limit_metadata L metadata) key = dict_get metadata key.
Proof.
  intros Hnd Hlen Hbytes key.
  assert (Hcase : metadata = [] \/ metadata <> [])
    by (destruct metadata; [left | right]; easy).
  destruct Hcase as [Hnil|Hne]; [now rewrite Hnil|].
  rewrite (limit_metadata_final L metadata Hne).
  assert (Hall : pending (initial_state L) = metadata).
  { exact (filter_all metadata). }
  assert (Hinit : room_for_all (initial_state L)).
  { unfold room_for_all. rewrite Hall. simpl. repeat split; try lia.
    intros k v H. discriminate. }
  pose proof (priority_loop_room (priority_tags L) (initial_state L) Hnd Hinit
                ltac:(intros; reflexivity)) as Hprio.
  destruct (rest_loop_room metadata _ (incl_refl _) Hprio)
    as ((Hown & _) & Hstored).
  set (out := limited_metadata _) in *.
  destruct (dict_get metadata key) as [v|] eqn:Hget.
  - pose proof (Hstored key v (dict_get_In _ _ _ Hget)) as Hmem.
    unfold dict_mem in Hmem.
    destruct (dict_get out key) as [v'|] eqn:Hout; [|discriminate].
    apply Hown in Hout. congruence.
  - destruct (dict_get out key) as [v'|] eqn:Hout; [|reflexivity].
    apply Hown in Hout. congruence.
Qed.

End Compliant.

Lemma dict_set_keys {V} (d : dict V) k v :
  keys (dict_set d k v) = if dict_mem d k then keys d else keys d ++ [k].
Proof.
  unfold dict_mem, keys. induction d as [|[k0 v0] d IH]; simpl; [reflexivity|].
  destruct (String.eqb k0 k) eqn:E; simpl; [reflexivity|].
  rewrite IH. now destruct (dict_get d k).
Qed.

Lemma dict_set_wf {V} (d : dict V) k v : dict_wf d -> dict_wf (dict_set d k v).
Proof.
  unfold dict_wf. rewrite dict_set_keys.
  destruct (dict_mem d k) eqn:E; [auto|].
  intros Hwf. apply NoDup_app; [exact Hwf | repeat constructor; easy |].
  intros x Hx [<-|[]]. apply dict_mem_keys in Hx. congruence.
Qed.

(** Two entries that fit the smallest of limiters. *)
Definition make_and_model : dict pyval :=
  [("vehicle_make"%string, PStr (txt "Honda"));
   ("color"%string, PStr (txt "red"))].

(** X3. Metadata that is already within the limits is never cut: when the
    priority list names no tag twice, the input has at most [max_tags]
    entries and the UTF-8 sizes of its values' string forms add up to at
    most [max_value_bytes], [limit_metadata] returns every entry of the
    input with its own value, and nothing else. *)
Theorem limit_metadata_keeps_compliant (L : MetadataLimiter)
    (metadata : dict pyval) :
  NoDup (priority_tags L) -> dict_wf metadata ->
  len metadata <= max_tags L ->
  total_value_bytes metadata <= max_value_bytes L ->
  forall key, dict_get (limit_metadata L metadata) key = dict_get metadata key.
Proof.
  intros Hnd Hwf Hlen Hbytes. now apply limit_metadata_lossless.
Qed.

Lemma limit_metadata_keeps_compliant_witness :
  dict_get (limit_metadata two_tag_limiter make_and_model) "color"
  = Some (PStr (txt "red")).
Proof.
  assert (H1 : NoDup (priority_tags two_tag_limiter))
    by (apply distinct_NoDup; reflexivity).
  assert (H2 : dict_wf make_and_model) by (apply distinct_NoDup; reflexivity).
  assert (H3 : len make_and_model <= max_tags two_tag_limiter)
    by (vm_compute; discriminate).
  assert (H4 : total_value_bytes make_and_model
               <= max_value_bytes two_tag_limiter)
    by (vm_compute; discriminate).
  exact (limit_metadata_keeps_compliant two_tag_limiter make_and_model
           H1 H2 H3 H4 "color"%string).
Defined.

(** [add_strategy_metadata] *)
Definition add_strategy_metadata (L : MetadataLimiter)
    (metadata : option (dict pyval)) (strategy : text) : dict pyval :=
  let enhanced_metadata :=
    match metadata with
    | Some (kv :: m) => kv :: m
    | _ => []
    end in
  let enhanced_metadata :=
    dict_set enhanced_metadata "strategy" (PStr strategy) in
  limit_metadata L enhanced_metadata.

(** X4. Whatever the input, given or not, the result of
    [add_strategy_metadata] passes [validate_metadata_size]. And
    [add_strategy_metadata] records the strategy and keeps the rest: when
    the priority list names no tag twice and the metadata given (none
    counting as empty) with the ['strategy'] entry set is within the
    limiter's tag and byte limits, the result maps ['strategy'] to the
    given strategy and every other key to what the input maps it to. *)
Theorem add_strategy_metadata_records (L : MetadataLimiter) (strategy : text) :
  (forall metadata : option (dict pyval),
     validate_metadata_size L (add_strategy_metadata L metadata strategy)
     = true) /\
  (forall metadata : option (dict pyval),
     let given := match metadata with Some m => m | None => [] end in
     let out := add_strategy_metadata L metadata strategy in
     NoDup (priority_tags L) -> dict_wf given ->
     len (dict_set given "strategy" (PStr strategy)) <= max_tags L ->
     total_value_bytes (dict_set given "strategy" (PStr strategy))
     <= max_value_bytes L ->
     dict_get out "strategy" = Some (PStr strategy) /\
     (forall key, key <> "strategy"%string ->
        dict_get out key = dict_get given key)).
Proof.
  split; [intros metadata; apply limit_metadata_validates|].
  intros metadata given out Hnd Hwf Hlen Hbytes.
  assert (Hout : out = limit_metadata L
                         (dict_set given "strategy" (PStr strategy)))
    by (subst out given; unfold add_strategy_metadata;
        now destruct metadata as [[|kv m]|]).
  rewrite Hout.
  pose proof (limit_metadata_lossless L _ (dict_set_wf given "strategy"
                (PStr strategy) Hwf) Hnd Hlen Hbytes) as Hsame.
  split.
  - rewrite Hsame. apply dict_get_set_same.
  - intros key Hne. rewrite Hsame. apply dict_get_set_other. congruence.
Qed.

Lemma add_strategy_metadata_records_witness :
  dict_get (add_strategy_metadata (new_limiter 10 2048 None)
              (Some make_and_model) (txt "hybrid")) "strategy"
  = Some (PStr (txt "hybrid")).
Proof.
  assert (H1 : NoDup (priority_tags (new_limiter 10 2048 None)))
    by (apply distinct_NoDup; reflexivity).
  assert (H2 : dict_wf make_and_model) by (apply distinct_NoDup; reflexivity).
  assert (H3 : len (dict_set make_and_model "strategy" (PStr (txt "hybrid")))
               <= max_tags (new_limiter 10 2048 None))
    by (vm_compute; discriminate).
  assert (H4 : total_value_bytes
                 (dict_set make_and_model "strategy" (PStr (txt "hybrid")))
               <= max_value_bytes (new_limiter 10 2048 None))
    by (vm_compute; discriminate).
  exact (proj1 (proj2 (add_strategy_metadata_records (new_limiter 10 2048 None)
                         (txt "hybrid"))
                  (Some make_and_model) H1 H2 H3 H4)).
Defined.

(** *** Batches of vectors *)

Section VectorBatch.
Variable float : Type.
Variable float32 : float -> float.
Variable zero : float.

(** The loop of [validate_vector_batch]; [i] is the index of the vector at
    the head of [vectors]. *)
Fixpoint validate_vector_batch_from (self : VectorDimensionManager) (i : Z)
    (vectors : list (vector_arg float))
    (transformed_vectors : list (list float)) : result (list (list float)) :=
  match vectors with
  | [] => inr transformed_vectors
  | vector :: rest =>
      match validate_and_transform float32 zero self vector with
      | inr transformed =>
          validate_vector_batch_from self (i + 1) rest
            (transformed_vectors ++ [transformed])
      | inl e =>
          inl (ValueError (txt "Vector " ++ str_of_Z i
                           ++ txt " transformation failed: " ++ exn_str e))
      end
  end.

(** [validate_vector_batch] *)
Definition validate_vector_batch (self : VectorDimensionManager)
    (vectors : list (vector_arg float)) : result (list (list float)) :=
  validate_vector_batch_from self 0 vectors [].

Definition supported (vector : vector_arg float) : bool :=
  match vector with
  | PyList _ | NdArray _ => true
  | Unsupported _ => false
  end.

Lemma validate_and_transform_supported self vector :
  0 <= target_dimension self -> supported vector = true ->
  exists r,
    validate_and_transform float32 zero self vector = inr r /\
    len r = target_dimension self.
Proof.
  intros Hpos Hsup.
  assert (Hlist : exists v,
             validate_and_transform float32 zero self vector
             = validate_and_transform float32 zero self (PyList v))
    by (destruct vector as [v|v|ty]; [exists v | exists v | discriminate];
        reflexivity).
  destruct Hlist as (v & ->).
  unfold validate_and_transform, ensure_float32, pad_zeros, len.
  rewrite !length_map.
  destruct (Z.of_nat (List.length v) =? target_dimension self) eqn:Heq.
  - apply Z.eqb_eq in Heq. eexists. split; [reflexivity|].
    now rewrite !length_map.
  - apply Z.eqb_neq in Heq.
    destruct (Z.of_nat (List.length v) >? target_dimension self) eqn:Hgt.
    + apply Z.gtb_lt in Hgt. rewrite slice_to_nonneg by lia.
      eexists. split; [reflexivity|].
      rewrite length_map, length_firstn, length_map. lia.
    + rewrite Z.gtb_ltb in Hgt. apply Z.ltb_ge in Hgt.
      eexists. split; [reflexivity|].
      rewrite length_map, length_app, length_map, repeat_length. lia.
Qed.

Lemma validate_vector_batch_from_ok self : forall vectors i acc,
  0 <= target_dimension self ->
  Forall (fun v => supported v = true) vectors ->
  exists out,
    validate_vector_batch_from self i vectors acc = inr (acc ++ out) /\
    Forall2 (fun v r => validate_and_transform float32 zero self v = inr r)
      vectors out /\
    Forall (fun r => len r = target_dimension self) out.
Proof.
  induction vectors as [|v vectors IH]; intros i acc Hpos Hall.
  - exists []. simpl. rewrite app_nil_r. repeat split; constructor.
  - inversion Hall as [|? ? Hv Hall']; subst.
    destruct (validate_and_transform_supported self v Hpos Hv) as (r & Hr & Hlen).
    destruct (IH (i + 1) (acc ++ [r]) Hpos Hall') as (out & Hrun & Hpair & Hlens).
    exists (r :: out). simpl. rewrite Hr, Hrun, <- app_assoc.
    repeat split; auto.
Qed.

Lemma validate_vector_batch_from_bad self : forall pre i acc ty post,
  0 <= target_dimension self ->
  Forall (fun v => supported v = true) pre ->
  validate_vector_batch_from self i (pre ++ Unsupported ty :: post) acc
  = inl (ValueError (txt "Vector " ++ str_of_Z (i + len pre)
                     ++ txt " transformation failed: Unsupported vector type: "
                     ++ ty)).
Proof.
  induction pre as [|v pre IH]; intros i acc ty post Hpos Hall.
  - simpl. unfold len. simpl. now rewrite Z.add_0_r.
  - inversion Hall as [|? ? Hv Hall']; subst.
    destruct (validate_and_transform_supported self v Hpos Hv) as (r & Hr & _).
    simpl. rewrite Hr, IH by assumption.
    unfold len. simpl List.length.
    replace (i + 1 + Z.of_nat (List.length pre))
      with (i + Z.of_nat (S (List.length pre))) by lia.
    reflexivity.
Qed.

(** X5. For a manager built for a supported dimension [D],
    [validate_vector_batch] turns a batch of lists and arrays into as many
    vectors, in order, each the [validate_and_transform] of its input and
    each of exactly [D] elements; and when some element of the batch is
    neither a list nor an array, it raises the [ValueError] that names the
    index of the first such element, whatever comes after it. *)
Theorem validate_vector_batch_spec (D : Z) (mgr : VectorDimensionManager)
    (vectors : list (vector_arg float)) :
  new_dimension_manager D = inr mgr ->
  (Forall (fun v => supported v = true) vectors ->
   exists out,
     validate_vector_batch mgr vectors = inr out /\
     List.length out = List.length vectors /\
     Forall2 (fun v r => validate_and_transform float32 zero mgr v = inr r)
       vectors out /\
     Forall (fun r => len r = D) out) /\
  (forall pre ty post,
     vectors = pre ++ Unsupported ty :: post ->
     Forall (fun v => supported v = true) pre ->
     validate_vector_batch mgr vectors
     = inl (ValueError
              (txt "Vector " ++ str_of_Z (len pre)
               ++ txt " transformation failed: Unsupported vector type: "
               ++ ty))).
Proof.
  intros Hmgr.
  destruct (new_dimension_manager_valid D mgr Hmgr) as [Htd HD].
  assert (Hpos : 0 <= target_dimension mgr) by lia.
  split.
  - intros Hall.
    destruct (validate_vector_batch_from_ok mgr vectors 0 [] Hpos Hall)
      as (out & Hrun & Hpair & Hlens).
    exists out. rewrite Htd in Hlens. repeat split; auto.
    symmetry. eapply Forall2_length; eauto.
  - intros pre ty post -> Hpre. unfold validate_vector_batch.
    now rewrite validate_vector_batch_from_bad.
Qed.

End VectorBatch.

Arguments validate_vector_batch {float} float32 zero self vectors.
Arguments supported {float} vector.

Lemma validate_vector_batch_spec_witness :
  validate_vector_batch coarse 0
    {| target_dimension := 256; config := new_config 256 |}
    [PyList [5]; Unsupported (txt "<class 'str'>"); NdArray [6]]
  = inl (ValueError
           (txt "Vector 1 transformation failed: Unsupported vector type: <class 'str'>")).
Proof.
  assert (H : new_dimension_manager 256
              = inr {| target_dimension := 256; config := new_config 256 |})
    by reflexivity.
  assert (Hpre : Forall (fun v : vector_arg Z => supported v = true)
                   [PyList [5]])
    by (repeat constructor).
  destruct (validate_vector_batch_spec Z coarse 0 256 _
              [PyList [5]; Unsupported (txt "<class 'str'>"); NdArray [6]] H)
    as (_ & Hbad).
  exact (Hbad [PyList [5]] (txt "<class 'str'>") [NdArray [6]] eq_refl Hpre).
Defined.

End Validation.

(** ** [s3_vector/s3_vector_ops.py] *)

Module S3VectorOps.
Import Py Eff.

(** Constants of [config.py]. *)
Definition VECTOR_DIMENSION : Z := 384.
Definition DISTANCE_METRIC : text := txt "cosine".
Definition DEFAULT_BATCH_SIZE : Z := 25.
Definition MAX_METADATA_TAGS : Z := 10.

Definition get_bucket_name (account_id : text) : text :=
  txt "automotive-vectors-showcase-" ++ account_id.

(** A value found under a record's ['metadata'] key. *)
Inductive pyobj :=
| Dict (d : dict pyval)
| NotDict (type_repr : text).

(** [validate_metadata_limits] *)
Definition validate_metadata_limits (metadata : pyobj) (max_tags : Z)
    (vector_id : pyval) : result unit :=
  match metadata with
  | NotDict type_repr =>
      inl (TypeError (txt "Vector '" ++ py_str vector_id
                      ++ txt "' metadata must be a dictionary, got " ++ type_repr))
  | Dict d =>
      let actual_count := len d in
      if actual_count >? max_tags then
        inl (MetadataLimitExceededError (py_str vector_id) actual_count max_tags)
      else inr tt
  end.

Section Client.

(** The vectors themselves are carried around untouched. *)
Variable vector : Type.

(** One record of [vector_data]; [None] is an absent key. *)
Record vector_item := {
  item_id : option pyval;
  item_vector : option vector;
  item_metadata : option pyobj
}.

Record vector_entry := {
  key : pyval;
  data : vector;
  metadata : pyobj
}.

(** Calls to the [s3vectors] and [sts] clients. *)
Inductive request :=
| GetCallerIdentity
| GetVectorBucket (vectorBucketName : text)
| CreateVectorBucket (vectorBucketName : text)
| CreateIndex (vectorBucketName indexName : text) (dimension : Z)
              (distanceMetric : text)
| PutVectors (vectorBucketName indexName : text) (vectors : list vector_entry)
| DeleteVectors (vectorBucketName indexName : text) (keys : list pyval)
| DeleteIndex (vectorBucketName indexName : text)
| DeleteVectorBucket (vectorBucketName : text).

Inductive response :=
| Done
| Identity (account : text).

(** The remote service: any state, any answers. *)
Variable service_state : Type.
Variable service : service_state -> request -> result response * service_state.

(** The world a call runs in: the service, the calls made so far and the
    lines printed so far (latest last). *)
Record world := {
  svc : service_state;
  calls : list request;
  stdout : list text
}.

Definition M := Eff.M world.

Definition call (r : request) : M response :=
  fun w =>
    let (answer, svc') := service (svc w) r in
    (answer, {| svc := svc'; calls := calls w ++ [r]; stdout := stdout w |}).

Definition print (line : text) : M unit :=
  fun w =>
    (inr tt, {| svc := svc w; calls := calls w; stdout := stdout w ++ [line] |}).

(** [e.response['Error']['Code']] of a [ClientError]. *)
Definition error_code (e : exn) : string :=
  match e with ClientError code _ => code | _ => EmptyString end.

(** [create_vector_bucket] *)
Definition create_vector_bucket (bucket_name : option text) : M text :=
  bucket_name <-
    match bucket_name with
    | Some b => ret b
    | None =>
        identity <- call GetCallerIdentity ;;
        match identity with
        | Identity account_id => ret (get_bucket_name account_id)
        | Done => raise (KeyError (txt "'Account'"))
        end
    end ;;
  found <-
    try_except
      (call (GetVectorBucket bucket_name) ;;;
       print (txt "Using existing vector bucket: " ++ bucket_name) ;;;
       ret true)
      is_client_error
      (fun e =>
         if negb (String.eqb (error_code e) "NoSuchBucket") then
           print (txt "Exception: " ++ exn_str e) ;;; raise e
         else ret false) ;;
  if found : bool then ret bucket_name
  else
    try_except
      (call (CreateVectorBucket bucket_name) ;;;
       print (txt "Created new bucket: " ++ bucket_name))
      is_client_error
      (fun create_error =>
         if String.eqb (error_code create_error) "ConflictException" then
           print (txt "Using existing bucket: " ++ bucket_name)
         else raise create_error) ;;;
    ret bucket_name.

(** [str.lower] on the ASCII letters, which is all a metric name has. *)
Definition lower (t : text) : text :=
  map (fun c => if ((65 <=? c) && (c <=? 90))%N then (c + 32)%N else c) t.

(** [create_vector_index] *)
Definition create_vector_index (bucket_name index_name : text)
    (dimension : option Z) (distance_metric : option text) : M text :=
  let dimension :=
    match dimension with Some d => d | None => VECTOR_DIMENSION end in
  let distance_metric :=
    match distance_metric with Some m => m | None => DISTANCE_METRIC end in
  try_except
    (call (CreateIndex bucket_name index_name dimension (lower distance_metric)) ;;;
     print (txt "Created index: " ++ index_name))
    is_client_error
    (fun index_error =>
       if String.eqb (error_code index_error) "ConflictException" then
         print (txt "Using existing index: " ++ index_name)
       else raise index_error) ;;;
  ret index_name.

(** [(part / whole) * 100], kept as the two integers it is computed
    from; [NoRate] is the literal [0] returned for an empty request. *)
Inductive rate :=
| Percent (part whole : Z)
| NoRate.

Record ingest_summary := {
  total_vectors : Z;
  successful_ingestions : Z;
  failed_ingestions : Z;
  ingest_success_rate : rate;
  ingest_errors : list text;
  ingested_vector_ids : list pyval
}.

(** [vector_item.get('id', 'unknown')] *)
Definition id_or_unknown (it : vector_item) : pyval :=
  match item_id it with Some i => i | None => PStr (txt "unknown") end.

(** [vector_item.get('metadata', {})] *)
Definition metadata_or_empty (it : vector_item) : pyobj :=
  match item_metadata it with Some m => m | None => Dict [] end.

(** The validation loop that opens [ingest_vectors]. *)
Fixpoint validate_all (vector_data : list vector_item) : result unit :=
  match vector_data with
  | [] => inr tt
  | vector_item :: rest =>
      match validate_metadata_limits (metadata_or_empty vector_item)
              MAX_METADATA_TAGS (id_or_unknown vector_item) with
      | inl e => inl e
      | inr _ => validate_all rest
      end
  end.

(** Building one entry of [batch_vectors]; a missing key raises. *)
Definition make_entry (it : vector_item) : result vector_entry :=
  match item_id it with
  | None => inl (KeyError (txt "'id'"))
  | Some i =>
      match item_vector it with
      | None => inl (KeyError (txt "'vector'"))
      | Some v =>
          match item_metadata it with
          | None => inl (KeyError (txt "'metadata'"))
          | Some m => inr {| key := i; data := v; metadata := m |}
          end
      end
  end.

Fixpoint make_entries (batch : list vector_item) : result (list vector_entry) :=
  match batch with
  | [] => inr []
  | it :: rest =>
      match make_entry it with
      | inl e => inl e
      | inr entry =>
          match make_entries rest with
          | inl e => inl e
          | inr entries => inr (entry :: entries)
          end
      end
  end.

Record counters := {
  successful : Z;
  failed : Z;
  errors : list text;
  ids : list pyval
}.

(** The body of [for i in range(0, len(vector_data), batch_size)]. *)
Definition ingest_batch (bucket_name index_name : text)
    (vector_data : list vector_item) (batch_size i : Z) (acc : counters)
  : M counters :=
  let batch := slice vector_data i (i + batch_size) in
  batch_vectors <- lift (make_entries batch) ;;
  try_except
    (call (PutVectors bucket_name index_name batch_vectors) ;;;
     ret {| successful := successful acc + len batch;
            failed := failed acc;
            errors := errors acc;
            ids := ids acc ++ map id_or_unknown batch |})
    any_exception
    (fun e =>
       print (txt "Ingestion failure: " ++ exn_str e) ;;;
       ret {| successful := successful acc;
              failed := failed acc + len batch;
              errors := errors acc
                        ++ [txt "Batch " ++ str_of_Z (i / batch_size + 1)
                            ++ txt " failed: " ++ exn_str e];
              ids := ids acc |}).

Fixpoint ingest_batches (bucket_name index_name : text)
    (vector_data : list vector_item) (batch_size : Z) (offsets : list Z)
    (acc : counters) : M counters :=
  match offsets with
  | [] => ret acc
  | i :: rest =>
      acc' <- ingest_batch bucket_name index_name vector_data batch_size i acc ;;
      ingest_batches bucket_name index_name vector_data batch_size rest acc'
  end.

(** [ingest_vectors] *)
Definition ingest_vectors (bucket_name index_name : text)
    (vector_data : list vector_item) (batch_size : option Z)
  : M ingest_summary :=
  let batch_size :=
    match batch_size with Some b => b | None => DEFAULT_BATCH_SIZE end in
  lift (validate_all vector_data) ;;;
  offsets <- lift (range_step (len vector_data) batch_size) ;;
  acc <- ingest_batches bucket_name index_name vector_data batch_size offsets
           {| successful := 0; failed := 0; errors := []; ids := [] |} ;;
  let total_vectors := len vector_data in
  ret {| total_vectors := total_vectors;
         successful_ingestions := successful acc;
         failed_ingestions := failed acc;
         ingest_success_rate :=
           if total_vectors >? 0 then Percent (successful acc) total_vectors
           else NoRate;
         ingest_errors := errors acc;
         ingested_vector_ids := ids acc |}.

Record delete_summary := {
  total_requested : Z;
  successful_deletions : Z;
  failed_deletions : Z;
  delete_success_rate : rate;
  deletion_errors : list text
}.

(** [delete_vectors] *)
Definition delete_vectors (bucket_name index_name : text)
    (vector_ids : list pyval) : M delete_summary :=
  outcome <-
    try_except
      (call (DeleteVectors bucket_name index_name vector_ids) ;;;
       ret (len vector_ids, 0, []))
      any_exception
      (fun e =>
         ret (0, len vector_ids,
              [txt "Delete operation failed: " ++ exn_str e])) ;;
  let '(successful_deletions, failed_deletions, deletion_errors) := outcome in
  let total_requested := len vector_ids in
  ret {| total_requested := total_requested;
         successful_deletions := successful_deletions;
         failed_deletions := failed_deletions;
         delete_success_rate :=
           if total_requested >? 0
           then Percent successful_deletions total_requested
           else NoRate;
         deletion_errors := deletion_errors |}.

(** [cleanup_resources] *)
Definition cleanup_resources (bucket_name index_name : text) : M bool :=
  try_except
    (call (DeleteIndex bucket_name index_name) ;;;
     call (DeleteVectorBucket bucket_name) ;;;
     ret true)
    is_client_error
    (fun e =>
       if String.eqb (error_code e) "NoSuchBucket" then ret true
       else raise e).

(** [delete_index]: the [ClientError] clause comes first, the catch-all
    second. *)
Definition delete_index (bucket_name index_name : text) : M bool :=
  try_except
    (call (DeleteIndex bucket_name index_name) ;;;
     print (txt "Successfully deleted index: " ++ index_name) ;;;
     ret true)
    any_exception
    (fun e =>
       if is_client_error e then
         if String.eqb (error_code e) "NoSuchIndex" then
           print (txt "Index " ++ index_name ++ txt " does not exist") ;;;
           ret true
         else
           print (txt "Error deleting index " ++ index_name ++ txt ": "
                  ++ exn_str e) ;;;
           ret false
       else
         print (txt "Unexpected error deleting index " ++ index_name
                ++ txt ": " ++ exn_str e) ;;;
         ret false).

(** [delete_vector_bucket] *)
Definition delete_vector_bucket (bucket_name : text) : M bool :=
  try_except
    (call (DeleteVectorBucket bucket_name) ;;;
     print (txt "Successfully deleted bucket: " ++ bucket_name) ;;;
     ret true)
    is_client_error
    (fun e =>
       if String.eqb (error_code e) "NoSuchBucket" then
         print (txt "Bucket " ++ bucket_name ++ txt " does not exist") ;;;
         ret true
       else
         print (txt "Error deleting bucket " ++ bucket_name ++ txt ": "
                ++ exn_str e) ;;;
         raise e).

(** The same operation, [n] times in a row. *)
Fixpoint times {A} (n : nat) (op : M A) : M (list A) :=
  match n with
  | O => ret []
  | S n' => a <- op ;; rest <- times n' op ;; ret (a :: rest)
  end.

(** *** Validation comes before any call *)

Definition over_limit (it : vector_item) : bool :=
  match metadata_or_empty it with
  | Dict d => len d >? MAX_METADATA_TAGS
  | NotDict _ => false
  end.

Definition is_mapping (it : vector_item) : bool :=
  match metadata_or_empty it with Dict _ => true | NotDict _ => false end.

(** [it] is the first record of [vector_data] over the limit, and the
    exception raised for it. *)
Definition first_over_limit (vector_data : list vector_item)
    (it : vector_item) (e : exn) : Prop :=
  exists pre post d,
    vector_data = pre ++ it :: post /\
    Forall (fun r => over_limit r = false) pre /\
    metadata_or_empty it = Dict d /\
    len d > MAX_METADATA_TAGS /\
    e = MetadataLimitExceededError (py_str (id_or_unknown it)) (len d)
          MAX_METADATA_TAGS.

Lemma validate_all_over_limit vector_data :
  Exists (fun it => over_limit it = true) vector_data ->
  exists e,
    validate_all vector_data = inl e /\
    (Forall (fun it => is_mapping it = true) vector_data ->
     exists it, first_over_limit vector_data it e).
Proof.
  induction vector_data as [|it rest IH]; intros Hex; [inversion Hex|].
  simpl. unfold validate_metadata_limits.
  destruct (metadata_or_empty it) as [d|ty] eqn:Hmd.
  - destruct (len d >? MAX_METADATA_TAGS) eqn:Hgt.
    + eexists. split; [reflexivity|]. intros _.
      exists it, [], rest, d. simpl. repeat split; auto.
      apply Z.gtb_lt in Hgt. lia.
    + assert (Hrest : Exists (fun it => over_limit it = true) rest).
      { inversion Hex as [? ? Hhd|? ? Htl]; subst; [|exact Htl].
        unfold over_limit in Hhd. rewrite Hmd in Hhd. congruence. }
      destruct (IH Hrest) as (e & Hv & Hfirst).
      exists e. split; [exact Hv|]. intros Hall.
      inversion Hall as [|? ? _ Hall']; subst.
      destruct (Hfirst Hall') as (it' & pre & post & d' & -> & Hpre & Hd' & Hlen & He).
      exists it', (it :: pre), post, d'. repeat split; auto.
      constructor; [|exact Hpre]. unfold over_limit. now rewrite Hmd.
  - eexists. split; [reflexivity|]. intros Hall.
    inversion Hall as [|? ? Hhd _]; subst.
    unfold is_mapping in Hhd. rewrite Hmd in Hhd. discriminate.
Qed.

(** Records the validation loop passes over: the metadata is a mapping
    with no more than [MAX_METADATA_TAGS] tags. *)
Definition within_limit (it : vector_item) : bool :=
  match metadata_or_empty it with
  | Dict d => negb (len d >? MAX_METADATA_TAGS)
  | NotDict _ => false
  end.

(** The validation loop stops at the first record it does not pass over,
    with that record's exception. *)
Lemma validate_all_first_offender vector_data e :
  validate_all vector_data = inl e ->
  exists pre it post,
    vector_data = pre ++ it :: post /\
    Forall (fun r => within_limit r = true) pre /\
    match metadata_or_empty it with
    | Dict d =>
        len d > MAX_METADATA_TAGS /\
        e = MetadataLimitExceededError (py_str (id_or_unknown it)) (len d)
              MAX_METADATA_TAGS
    | NotDict type_repr =>
        e = TypeError (txt "Vector '" ++ py_str (id_or_unknown it)
                       ++ txt "' metadata must be a dictionary, got "
                       ++ type_repr)
    end.
Proof.
  induction vector_data as [|it rest IH]; intros Hv; [discriminate|].
  cbn [validate_all] in Hv. unfold validate_metadata_limits in Hv.
  destruct (metadata_or_empty it) as [d|ty] eqn:Hmd.
  - destruct (len d >? MAX_METADATA_TAGS) eqn:Hgt.
    + exists [], it, rest. rewrite Hmd. inversion Hv; subst.
      apply Z.gtb_lt in Hgt. repeat split; auto. lia.
    + destruct (IH Hv) as (pre & it' & post & -> & Hpre & Hit).
      exists (it :: pre), it', post. split; [reflexivity|].
      split; [|exact Hit].
      constructor; [|exact Hpre]. unfold within_limit. now rewrite Hmd, Hgt.
  - exists [], it, rest. rewrite Hmd. inversion Hv; subst. auto.
Qed.

(** C3 (as amended). If any record's metadata has more than
    [MAX_METADATA_TAGS] tags, [ingest_vectors] raises and leaves the world
    as it found it: no [put_vectors] (or any other) call has been made, so
    nothing is ingested. The exception is that of the first record the
    validation does not pass over: the [MetadataLimitExceededError] whose
    message names that record's id, its tag count and the limit when its
    metadata is a mapping with too many tags, and the [TypeError] naming
    its id when its metadata is not a mapping. So when the records'
    metadata are all mappings, the exception is the
    [MetadataLimitExceededError] of the first record over the limit. *)
Theorem ingest_vectors_fails_fast (w : world) (bucket_name index_name : text)
    (vector_data : list vector_item) (batch_size : option Z) :
  Exists (fun it => over_limit it = true) vector_data ->
  exists e,
    ingest_vectors bucket_name index_name vector_data batch_size w = (inl e, w) /\
    (Forall (fun it => is_mapping it = true) vector_data ->
     exists it d,
       first_over_limit vector_data it e /\
       metadata_or_empty it = Dict d /\
       exn_str e
       = txt "Vector '" ++ py_str (id_or_unknown it) ++ txt "' has "
         ++ str_of_Z (len d) ++ txt " metadata tags, but maximum allowed is "
         ++ str_of_Z MAX_METADATA_TAGS) /\
    (exists pre it post,
       vector_data = pre ++ it :: post /\
       Forall (fun r => within_limit r = true) pre /\
       match metadata_or_empty it with
       | Dict d =>
           len d > MAX_METADATA_TAGS /\
           e = MetadataLimitExceededError (py_str (id_or_unknown it)) (len d)
                 MAX_METADATA_TAGS /\
           exn_str e
           = txt "Vector '" ++ py_str (id_or_unknown it) ++ txt "' has "
             ++ str_of_Z (len d)
             ++ txt " metadata tags, but maximum allowed is "
             ++ str_of_Z MAX_METADATA_TAGS
       | NotDict type_repr =>
           e = TypeError (txt "Vector '" ++ py_str (id_or_unknown it)
                          ++ txt "' metadata must be a dictionary, got "
                          ++ type_repr)
       end).
Proof.
  intros Hex.
  destruct (validate_all_over_limit vector_data Hex) as (e & Hv & Hfirst).
  exists e. split; [|split].
  - unfold ingest_vectors, bind, lift. now rewrite Hv.
  - intros Hall. destruct (Hfirst Hall) as (it & Hit).
    pose proof Hit as (pre & post & d & _ & _ & Hd & _ & ->).
    exists it, d. repeat split; auto.
  - destruct (validate_all_first_offender vector_data e Hv)
      as (pre & it & post & Hsplit & Hpre & Hit).
    exists pre, it, post. split; [exact Hsplit|]. split; [exact Hpre|].
    destruct (metadata_or_empty it) as [d|ty]; [|exact Hit].
    destruct Hit as (Hlen & ->). repeat split; auto.
Qed.

(** *** What the lifecycle operations do with the service's answer *)

Definition answer (w : world) (r : request) : result response :=
  fst (service (svc w) r).

(** The world after the call [r]. *)
Definition after (w : world) (r : request) : world :=
  {| svc := snd (service (svc w) r);
     calls := calls w ++ [r];
     stdout := stdout w |}.

Lemma call_run w r : call r w = (answer w r, after w r).
Proof.
  unfold call, answer, after. now destruct (service (svc w) r).
Qed.

Lemma create_vector_bucket_existing w b resp :
  answer w (GetVectorBucket b) = inr resp ->
  fst (create_vector_bucket (Some b) w) = inr b.
Proof.
  intros H. unfold create_vector_bucket, bind, try_except, ret, print.
  rewrite call_run, H. reflexivity.
Qed.

Lemma create_vector_bucket_conflict w b msg msg' :
  answer w (GetVectorBucket b) = inl (ClientError "NoSuchBucket" msg) ->
  answer (after w (GetVectorBucket b)) (CreateVectorBucket b)
  = inl (ClientError "ConflictException" msg') ->
  fst (create_vector_bucket (Some b) w) = inr b.
Proof.
  intros H1 H2. unfold create_vector_bucket, bind, try_except, ret, print.
  rewrite call_run, H1. simpl. rewrite call_run, H2. reflexivity.
Qed.

Lemma create_vector_index_conflict w b i dim metric msg :
  (forall d m, answer w (CreateIndex b i d m)
               = inl (ClientError "ConflictException" msg)) ->
  fst (create_vector_index b i dim metric w) = inr i.
Proof.
  intros H. unfold create_vector_index, bind, try_except, ret, print.
  rewrite call_run, H. reflexivity.
Qed.

Lemma delete_index_absent w b i msg :
  answer w (DeleteIndex b i) = inl (ClientError "NoSuchIndex" msg) ->
  fst (delete_index b i w) = inr true.
Proof.
  intros H. unfold delete_index, bind, try_except, ret, print.
  rewrite call_run, H. reflexivity.
Qed.

Lemma delete_vector_bucket_absent w b msg :
  answer w (DeleteVectorBucket b) = inl (ClientError "NoSuchBucket" msg) ->
  fst (delete_vector_bucket b w) = inr true.
Proof.
  intros H. unfold delete_vector_bucket, bind, try_except, ret, print.
  rewrite call_run, H. reflexivity.
Qed.

Lemma times_always {A} (op : M A) (a : A) :
  (forall w, fst (op w) = inr a) ->
  forall n w, fst (times n op w) = inr (repeat a n).
Proof.
  intros Hop. induction n as [|n IH]; intros w; [reflexivity|].
  simpl. unfold bind. specialize (Hop w).
  destruct (op w) as [[e|a'] w1]; simpl in Hop; [discriminate|].
  injection Hop as ->. specialize (IH w1).
  destruct (times n op w1) as [[e|l] w2]; simpl in IH; [discriminate|].
  injection IH as ->. reflexivity.
Qed.

(** C5 (as amended). Creating a vector bucket whose existence check
    succeeds, or whose creation the service refuses with
    [ConflictException], returns the bucket name; creating an index the
    service refuses with [ConflictException] returns the index name;
    deleting an index the service reports as [NoSuchIndex], or a vector
    bucket it reports as [NoSuchBucket], returns [True]. None of them
    raises, and as long as the service keeps answering that way the same
    holds for every call of any number of calls made in a row. No other
    error code counts as the resource being absent: for any other code
    [delete_index] returns [False] and [delete_vector_bucket] raises the
    error. *)
Theorem lifecycle_operations_idempotent (b i : text) (dim : option Z)
    (metric : option text) :
  (forall w resp,
     answer w (GetVectorBucket b) = inr resp ->
     fst (create_vector_bucket (Some b) w) = inr b) /\
  (forall w msg msg',
     answer w (GetVectorBucket b) = inl (ClientError "NoSuchBucket" msg) ->
     answer (after w (GetVectorBucket b)) (CreateVectorBucket b)
     = inl (ClientError "ConflictException" msg') ->
     fst (create_vector_bucket (Some b) w) = inr b) /\
  (forall w msg,
     (forall d m, answer w (CreateIndex b i d m)
                  = inl (ClientError "ConflictException" msg)) ->
     fst (create_vector_index b i dim metric w) = inr i) /\
  (forall w msg,
     answer w (DeleteIndex b i) = inl (ClientError "NoSuchIndex" msg) ->
     fst (delete_index b i w) = inr true) /\
  (forall w msg,
     answer w (DeleteVectorBucket b) = inl (ClientError "NoSuchBucket" msg) ->
     fst (delete_vector_bucket b w) = inr true) /\
  (forall n w0,
     ((forall w, exists resp, answer w (GetVectorBucket b) = inr resp) ->
      fst (times n (create_vector_bucket (Some b)) w0) = inr (repeat b n)) /\
     ((forall w d m, exists msg,
         answer w (CreateIndex b i d m)
         = inl (ClientError "ConflictException" msg)) ->
      fst (times n (create_vector_index b i dim metric) w0) = inr (repeat i n)) /\
     ((forall w, exists msg,
         answer w (DeleteIndex b i) = inl (ClientError "NoSuchIndex" msg)) ->
      fst (times n (delete_index b i) w0) = inr (repeat true n)) /\
     ((forall w, exists msg,
         answer w (DeleteVectorBucket b)
         = inl (ClientError "NoSuchBucket" msg)) ->
      fst (times n (delete_vector_bucket b) w0) = inr (repeat true n))) /\
  (forall w code msg,
     answer w (DeleteIndex b i) = inl (ClientError code msg) ->
     code <> "NoSuchIndex"%string ->
     fst (delete_index b i w) = inr false) /\
  (forall w code msg,
     answer w (DeleteVectorBucket b) = inl (ClientError code msg) ->
     code <> "NoSuchBucket"%string ->
     fst (delete_vector_bucket b w) = inl (ClientError code msg)).
Proof.
  split; [intros; eapply create_vector_bucket_existing; eauto|].
  split; [intros; eapply create_vector_bucket_conflict; eauto|].
  split; [intros; eapply create_vector_index_conflict; eauto|].
  split; [intros; eapply delete_index_absent; eauto|].
  split; [intros; eapply delete_vector_bucket_absent; eauto|].
  split; [|split].
  2: { intros w code msg H Hcode.
       unfold delete_index, bind, try_except, ret, print.
       rewrite call_run, H. cbn.
       apply String.eqb_neq in Hcode. now rewrite Hcode. }
  2: { intros w code msg H Hcode.
       unfold delete_vector_bucket, bind, try_except, ret, print, raise.
       rewrite call_run, H. cbn.
       apply String.eqb_neq in Hcode. now rewrite Hcode. }
  intros n w0. repeat split; intros H; apply times_always; intros w.
  - destruct (H w) as (resp & Hr). eapply create_vector_bucket_existing; eauto.
  - unfold create_vector_index, bind, try_except, ret, print.
    rewrite call_run.
    destruct (H w (match dim with Some d => d | None => VECTOR_DIMENSION end)
                (lower (match metric with Some m => m | None => DISTANCE_METRIC end)))
      as (msg & ->).
    reflexivity.
  - destruct (H w) as (msg & Hr). eapply delete_index_absent; eauto.
  - destruct (H w) as (msg & Hr). eapply delete_vector_bucket_absent; eauto.
Qed.

(** *** Errors other than the recognised codes *)

Lemma delete_vectors_run w b i vector_ids :
  delete_vectors b i vector_ids w
  = (inr
       match answer w (DeleteVectors b i vector_ids) with
       | inr _ =>
           {| total_requested := len vector_ids;
              successful_deletions := len vector_ids;
              failed_deletions := 0;
              delete_success_rate :=
                if len vector_ids >? 0
                then Percent (len vector_ids) (len vector_ids) else NoRate;
              deletion_errors := [] |}
       | inl e =>
           {| total_requested := len vector_ids;
              successful_deletions := 0;
              failed_deletions := len vector_ids;
              delete_success_rate :=
                if len vector_ids >? 0
                then Percent 0 (len vector_ids) else NoRate;
              deletion_errors := [txt "Delete operation failed: " ++ exn_str e] |}
       end,
     after w (DeleteVectors b i vector_ids)).
Proof.
  unfold delete_vectors, bind, try_except, ret. rewrite call_run.
  destruct (answer w (DeleteVectors b i vector_ids)); reflexivity.
Qed.

(** [w] with one more line printed. *)
Definition printed (w : world) (line : text) : world :=
  {| svc := svc w; calls := calls w; stdout := stdout w ++ [line] |}.

(** C7 (as amended). [delete_vectors] never raises: whatever error the
    underlying delete call fails with, it returns a summary with no
    successful deletion, every requested id failed and the one message
    "Delete operation failed: ..."; nothing is printed. [delete_index]
    answers every error but [NoSuchIndex] with [False]. A [ClientError] with
    another code than the recognised one is raised again by
    [delete_vector_bucket] (after printing it), by [create_vector_bucket]'s
    existence check (after printing it), by [create_vector_index] and by
    [cleanup_resources] (both without printing). *)
Theorem service_errors_by_operation (w : world) (b i : text) :
  (forall vector_ids e,
     answer w (DeleteVectors b i vector_ids) = inl e ->
     delete_vectors b i vector_ids w
     = (inr {| total_requested := len vector_ids;
               successful_deletions := 0;
               failed_deletions := len vector_ids;
               delete_success_rate :=
                 if len vector_ids >? 0
                 then Percent 0 (len vector_ids) else NoRate;
               deletion_errors :=
                 [txt "Delete operation failed: " ++ exn_str e] |},
        after w (DeleteVectors b i vector_ids))) /\
  (forall e,
     answer w (DeleteIndex b i) = inl e ->
     (forall msg, e <> ClientError "NoSuchIndex" msg) ->
     fst (delete_index b i w) = inr false) /\
  (forall code msg,
     answer w (DeleteVectorBucket b) = inl (ClientError code msg) ->
     code <> "NoSuchBucket"%string ->
     delete_vector_bucket b w
     = (inl (ClientError code msg),
        printed (after w (DeleteVectorBucket b))
          (txt "Error deleting bucket " ++ b ++ txt ": " ++ msg))) /\
  (forall code msg,
     answer w (GetVectorBucket b) = inl (ClientError code msg) ->
     code <> "NoSuchBucket"%string ->
     create_vector_bucket (Some b) w
     = (inl (ClientError code msg),
        printed (after w (GetVectorBucket b)) (txt "Exception: " ++ msg))) /\
  (forall code msg,
     answer w (CreateIndex b i VECTOR_DIMENSION (lower DISTANCE_METRIC))
     = inl (ClientError code msg) ->
     code <> "ConflictException"%string ->
     create_vector_index b i None None w
     = (inl (ClientError code msg),
        after w (CreateIndex b i VECTOR_DIMENSION (lower DISTANCE_METRIC)))) /\
  (forall code msg,
     answer w (DeleteIndex b i) = inl (ClientError code msg) ->
     code <> "NoSuchBucket"%string ->
     cleanup_resources b i w
     = (inl (ClientError code msg), after w (DeleteIndex b i))).
Proof.
  split; [|split; [|split; [|split; [|split]]]].
  - intros vector_ids e H. rewrite delete_vectors_run, H. reflexivity.
  - intros e H Hne. unfold delete_index, bind, try_except, ret, print.
    rewrite call_run, H. simpl. destruct e as [code msg| | | | | | |]; simpl;
      try reflexivity.
    destruct (String.eqb code "NoSuchIndex") eqn:E; [|reflexivity].
    apply String.eqb_eq in E. subst code. now destruct (Hne msg).
  - intros code msg H Hne. apply String.eqb_neq in Hne.
    unfold delete_vector_bucket, bind, try_except, ret, print, raise.
    rewrite call_run, H. simpl. rewrite Hne. reflexivity.
  - intros code msg H Hne. apply String.eqb_neq in Hne.
    unfold create_vector_bucket, bind, try_except, ret, print, raise.
    rewrite call_run, H. simpl. rewrite Hne. reflexivity.
  - intros code msg H Hne. apply String.eqb_neq in Hne.
    unfold create_vector_index, bind, try_except, ret, print, raise.
    rewrite call_run, H. simpl. rewrite Hne. reflexivity.
  - intros code msg H Hne. apply String.eqb_neq in Hne.
    unfold cleanup_resources, bind, try_except, ret, print, raise.
    rewrite call_run, H. simpl. rewrite Hne. reflexivity.
Qed.

(** *** The batches of [ingest_vectors] *)

Lemma make_entries_length : forall vector_data entries,
  make_entries vector_data = inr entries ->
  List.length entries = List.length vector_data.
Proof.
  induction vector_data as [|it rest IH]; intros entries H; simpl in H.
  - now inversion H.
  - destruct (make_entry it) as [e|entry]; [discriminate|].
    destruct (make_entries rest) as [e|entries']; [discriminate|].
    inversion H; subst. simpl. now rewrite (IH entries').
Qed.

Lemma make_entries_skipn : forall k vector_data entries,
  make_entries vector_data = inr entries ->
  make_entries (skipn k vector_data) = inr (skipn k entries).
Proof.
  induction k as [|k IH]; intros vector_data entries H; [exact H|].
  destruct vector_data as [|it rest]; simpl in H.
  - now inversion H.
  - destruct (make_entry it) as [e|entry]; [discriminate|].
    destruct (make_entries rest) as [e|entries'] eqn:Hrest; [discriminate|].
    inversion H; subst. simpl. now apply IH.
Qed.

Lemma make_entries_firstn : forall n vector_data entries,
  make_entries vector_data = inr entries ->
  make_entries (firstn n vector_data) = inr (firstn n entries).
Proof.
  induction n as [|n IH]; intros vector_data entries H; [reflexivity|].
  destruct vector_data as [|it rest]; simpl in H.
  - now inversion H.
  - destruct (make_entry it) as [e|entry] eqn:Hit; [discriminate|].
    destruct (make_entries rest) as [e|entries'] eqn:Hrest; [discriminate|].
    inversion H; subst. simpl. now rewrite Hit, (IH rest entries').
Qed.

Lemma make_entries_slice vector_data entries i j :
  make_entries vector_data = inr entries ->
  make_entries (slice vector_data i j) = inr (slice entries i j).
Proof.
  intros H. unfold slice. now apply make_entries_firstn, make_entries_skipn.
Qed.

(** The service accepts whatever it is asked. *)
Definition accepts_all : Prop :=
  forall s r, exists resp, fst (service s r) = inr resp.

(** One batch: exactly one [put_vectors] call, with the batch's entries;
    the batch is counted as ingested or as failed, as a whole. *)
Lemma ingest_batch_run b i vector_data entries batch_size off acc w :
  make_entries vector_data = inr entries ->
  exists acc' w',
    ingest_batch b i vector_data batch_size off acc w = (inr acc', w') /\
    calls w' = calls w ++ [PutVectors b i (slice entries off (off + batch_size))] /\
    successful acc' + failed acc'
    = successful acc + failed acc + len (slice vector_data off (off + batch_size)) /\
    successful acc <= successful acc' /\ failed acc <= failed acc' /\
    len (ids acc') - successful acc' = len (ids acc) - successful acc /\
    (accepts_all ->
     successful acc'
     = successful acc + len (slice vector_data off (off + batch_size)) /\
     failed acc' = failed acc /\ errors acc' = errors acc /\
     ids acc'
     = ids acc ++ map id_or_unknown (slice vector_data off (off + batch_size)) /\
     stdout w' = stdout w).
Proof.
  intros Hentries.
  unfold ingest_batch, bind, lift, try_except, ret, print.
  rewrite (make_entries_slice _ _ off (off + batch_size) Hentries).
  rewrite call_run.
  set (batch := slice vector_data off (off + batch_size)).
  set (r := PutVectors b i (slice entries off (off + batch_size))).
  assert (Hlen : 0 <= len batch) by (unfold len; lia).
  destruct (answer w r) as [e|resp] eqn:Hans.
  - simpl. eexists; eexists. split; [reflexivity|]. simpl.
    split; [reflexivity|]. split; [lia|]. split; [lia|]. split; [lia|].
    split; [lia|].
    intros Hacc. destruct (Hacc (svc w) r) as (resp & Hresp).
    unfold answer in Hans. congruence.
  - simpl. eexists; eexists. split; [reflexivity|]. simpl.
    split; [reflexivity|]. split; [lia|]. split; [lia|]. split; [lia|].
    split; [unfold len in *; rewrite length_app, length_map; lia|].
    intros _. repeat split.
Qed.

Lemma ingest_batches_run b i vector_data entries batch_size :
  make_entries vector_data = inr entries -> 0 < batch_size ->
  forall fuel start acc w,
    0 <= start -> (Z.to_nat (len vector_data - start) <= fuel)%nat ->
    exists acc' w' batches,
      ingest_batches b i vector_data batch_size
        (range_from fuel start (len vector_data) batch_size) acc w
      = (inr acc', w') /\
      calls w' = calls w ++ map (PutVectors b i) batches /\
      List.concat batches = skipn (Z.to_nat start) entries /\
      Forall (fun batch => 1 <= len batch <= batch_size) batches /\
      successful acc' + failed acc'
      = successful acc + failed acc + Z.max 0 (len vector_data - start) /\
      successful acc <= successful acc' /\ failed acc <= failed acc' /\
      len (ids acc') - successful acc' = len (ids acc) - successful acc /\
      (accepts_all ->
       successful acc' = successful acc + Z.max 0 (len vector_data - start) /\
       failed acc' = failed acc /\ errors acc' = errors acc /\
       ids acc'
       = ids acc ++ map id_or_unknown (skipn (Z.to_nat start) vector_data) /\
       stdout w' = stdout w).
Proof.
  intros Hentries Hbs.
  pose proof (make_entries_length _ _ Hentries) as Hsame.
  assert (Hdone : forall start acc w,
            len vector_data <= start -> 0 <= start ->
            exists acc' w' batches,
              (inr acc, w) = (inr acc' : result counters, w') /\
              calls w' = calls w ++ map (PutVectors b i) batches /\
              List.concat batches = skipn (Z.to_nat start) entries /\
              Forall (fun batch => 1 <= len batch <= batch_size) batches /\
              successful acc' + failed acc'
              = successful acc + failed acc + Z.max 0 (len vector_data - start) /\
              successful acc <= successful acc' /\ failed acc <= failed acc' /\
              len (ids acc') - successful acc' = len (ids acc) - successful acc /\
              (accepts_all ->
               successful acc'
               = successful acc + Z.max 0 (len vector_data - start) /\
               failed acc' = failed acc /\ errors acc' = errors acc /\
               ids acc'
               = ids acc
                 ++ map id_or_unknown (skipn (Z.to_nat start) vector_data) /\
               stdout w' = stdout w)).
  { intros start acc w Hge Hpos. exists acc, w, []. unfold len in *.
    rewrite !skipn_all2 by lia. simpl. rewrite !app_nil_r.
    repeat split; auto; try lia. }
  induction fuel as [|fuel IH]; intros start acc w Hstart Hfuel.
  - simpl. apply Hdone; unfold len in *; lia.
  - simpl. destruct (start <? len vector_data) eqn:Hlt.
    2:{ apply Z.ltb_ge in Hlt. simpl. now apply Hdone. }
    apply Z.ltb_lt in Hlt. simpl. unfold bind at 1.
    destruct (ingest_batch_run b i vector_data entries batch_size start acc w
                Hentries)
      as (acc1 & w1 & Hrun1 & Hcalls1 & Hsum1 & Hs1 & Hf1 & Hids1 & Hok1).
    rewrite Hrun1.
    destruct (IH (start + batch_size) acc1 w1 ltac:(lia)
                ltac:(unfold len in *; lia))
      as (acc' & w' & batches & Hrun & Hcalls & Hcat & Hall & Hsum & Hs & Hf
          & Hids & Hok).
    exists acc', w', (slice entries start (start + batch_size) :: batches).
    split; [exact Hrun|].
    assert (Hskip : forall A (l : list A),
              skipn (Z.to_nat (start + batch_size)) l
              = skipn (Z.to_nat batch_size) (skipn (Z.to_nat start) l)).
    { intros A l. rewrite skipn_skipn. f_equal. lia. }
    assert (Hslice : forall A (l : list A),
              slice l start (start + batch_size)
              = firstn (Z.to_nat batch_size) (skipn (Z.to_nat start) l)).
    { intros A l. unfold slice. do 2 f_equal. lia. }
    assert (Hbatch : forall A (l : list A),
              List.length l = List.length vector_data ->
              len (slice l start (start + batch_size))
              = Z.min batch_size (len vector_data - start)).
    { intros A l Hl. rewrite Hslice. unfold len in *.
      rewrite length_firstn, length_skipn. lia. }
    split; [|split; [|split; [|split; [|split; [|split; [|split]]]]]].
    + rewrite Hcalls, Hcalls1, <- app_assoc. reflexivity.
    + simpl. rewrite Hcat, Hskip, Hslice. apply firstn_skipn.
    + constructor; [|exact Hall]. rewrite (Hbatch _ entries Hsame). lia.
    + rewrite Hsum, Hsum1, (Hbatch _ vector_data eq_refl). lia.
    + lia.
    + lia.
    + lia.
    + intros Hacc. destruct (Hok1 Hacc) as (Ha & Hb & Hc & Hd & He).
      destruct (Hok Hacc) as (Ha' & Hb' & Hc' & Hd' & He').
      rewrite Ha', Ha, Hb', Hb, Hc', Hc, Hd', Hd, He', He.
      rewrite (Hbatch _ vector_data eq_refl).
      repeat split; try lia.
      rewrite <- app_assoc, <- map_app. do 2 f_equal.
      rewrite Hskip, Hslice. apply firstn_skipn.
Qed.

(** X6. Once the metadata validation has passed and every record has its
    three keys, [ingest_vectors] with a positive batch size returns a
    summary (it does not raise, whatever the service answers). It makes one
    [put_vectors] call per batch and no other call; the batches, in the
    order of the calls, are the records' entries cut into runs of at most
    [batch_size], none empty, none lost, none sent twice. Every record is
    counted once, as ingested or as failed, and the ingested ids are as
    many as the ingested count. When the service accepts every call, all
    records are ingested, their ids are returned in order, and nothing is
    printed. *)
Theorem ingest_vectors_batches (w : world) (bucket_name index_name : text)
    (vector_data : list vector_item) (entries : list vector_entry)
    (batch_size : option Z) :
  validate_all vector_data = inr tt ->
  make_entries vector_data = inr entries ->
  0 < match batch_size with Some b => b | None => DEFAULT_BATCH_SIZE end ->
  exists summary w' batches,
    ingest_vectors bucket_name index_name vector_data batch_size w
    = (inr summary, w') /\
    calls w' = calls w ++ map (PutVectors bucket_name index_name) batches /\
    List.concat batches = entries /\
    Forall (fun batch =>
              1 <= len batch
              <= match batch_size with
                 | Some b => b
                 | None => DEFAULT_BATCH_SIZE
                 end) batches /\
    total_vectors summary = len vector_data /\
    successful_ingestions summary + failed_ingestions summary
    = len vector_data /\
    0 <= successful_ingestions summary /\ 0 <= failed_ingestions summary /\
    len (ingested_vector_ids summary) = successful_ingestions summary /\
    (accepts_all ->
     successful_ingestions summary = len vector_data /\
     ingest_errors summary = [] /\
     ingested_vector_ids summary = map id_or_unknown vector_data /\
     stdout w' = stdout w).
Proof.
  intros Hvalid Hentries Hbs.
  set (bs := match batch_size with Some b => b | None => DEFAULT_BATCH_SIZE end)
    in *.
  unfold ingest_vectors. fold bs. unfold bind at 1, lift at 1.
  rewrite Hvalid. unfold bind at 1, lift at 1, range_step.
  destruct (bs =? 0) eqn:E0; [apply Z.eqb_eq in E0; lia|].
  destruct (bs <? 0) eqn:E1; [apply Z.ltb_lt in E1; lia|].
  destruct (ingest_batches_run bucket_name index_name vector_data entries bs
              Hentries Hbs (Z.to_nat (len vector_data)) 0
              {| successful := 0; failed := 0; errors := []; ids := [] |} w
              ltac:(lia) ltac:(lia))
    as (acc & w' & batches & Hrun & Hcalls & Hcat & Hall & Hsum & Hs & Hf
        & Hids & Hok).
  unfold bind. rewrite Hrun. unfold ret.
  eexists; exists w', batches. split; [reflexivity|]. simpl in *.
  assert (Hlen : 0 <= len vector_data) by (unfold len; lia).
  split; [exact Hcalls|]. split; [exact Hcat|]. split; [exact Hall|].
  split; [reflexivity|]. split; [lia|]. split; [lia|]. split; [lia|].
  split; [unfold len in *; simpl in *; lia|].
  intros Hacc. destruct (Hok Hacc) as (Ha & Hb & Hc & Hd & He).
  split; [lia|]. split; [exact Hc|]. split; [exact Hd | exact He].
Qed.

(** X7. [delete_vectors] never raises. It makes exactly one delete call,
    carrying all the ids, and prints nothing; the summary counts every
    requested id once, all as deleted when the call is accepted and all as
    failed when it is not. *)
Theorem delete_vectors_never_raises (w : world) (bucket_name index_name : text)
    (vector_ids : list pyval) :
  exists summary,
    delete_vectors bucket_name index_name vector_ids w
    = (inr summary,
       after w (DeleteVectors bucket_name index_name vector_ids)) /\
    total_requested summary = len vector_ids /\
    successful_deletions summary + failed_deletions summary = len vector_ids /\
    (successful_deletions summary = 0 \/ failed_deletions summary = 0) /\
    (successful_deletions summary = len vector_ids <->
     vector_ids = []
     \/ exists resp,
          answer w (DeleteVectors bucket_name index_name vector_ids) = inr resp).
Proof.
  rewrite delete_vectors_run.
  destruct (answer w (DeleteVectors bucket_name index_name vector_ids))
    as [e|resp]; eexists; (split; [reflexivity|]); simpl;
    repeat split; try lia; auto.
  - intros H. left. destruct vector_ids; [reflexivity|].
    unfold len in H. simpl in H. lia.
  - intros [->|(resp & Hresp)]; [reflexivity | discriminate].
  - intros _. right. now exists resp.
Qed.

(** X8. [cleanup_resources] asks for the bucket to be deleted only after
    the index has been deleted: when the index deletion fails, that call is
    the only one made. An index that is already gone ([NoSuchIndex]) makes
    it raise that error and leave the bucket in place, while a bucket that is
    already gone ([NoSuchBucket], at either call) makes it return [True].
    When both deletions succeed it returns [True] after the two calls, in
    that order. *)
Theorem cleanup_resources_order (w : world) (bucket_name index_name : text) :
  (forall e,
     answer w (DeleteIndex bucket_name index_name) = inl e ->
     snd (cleanup_resources bucket_name index_name w)
     = after w (DeleteIndex bucket_name index_name)) /\
  (forall msg,
     answer w (DeleteIndex bucket_name index_name)
     = inl (ClientError "NoSuchIndex" msg) ->
     fst (cleanup_resources bucket_name index_name w)
     = inl (ClientError "NoSuchIndex" msg)) /\
  (forall msg,
     answer w (DeleteIndex bucket_name index_name)
     = inl (ClientError "NoSuchBucket" msg) ->
     fst (cleanup_resources bucket_name index_name w) = inr true) /\
  (forall resp,
     answer w (DeleteIndex bucket_name index_name) = inr resp ->
     let w1 := after w (DeleteIndex bucket_name index_name) in
     snd (cleanup_resources bucket_name index_name w)
     = after w1 (DeleteVectorBucket bucket_name) /\
     (forall resp',
        answer w1 (DeleteVectorBucket bucket_name) = inr resp' ->
        fst (cleanup_resources bucket_name index_name w) = inr true) /\
     (forall msg,
        answer w1 (DeleteVectorBucket bucket_name)
        = inl (ClientError "NoSuchBucket" msg) ->
        fst (cleanup_resources bucket_name index_name w) = inr true)).
Proof.
  unfold cleanup_resources, bind, try_except, ret, raise.
  split; [|split; [|split]].
  - intros e H. rewrite call_run, H. simpl.
    destruct (is_client_error e); [|reflexivity].
    now destruct (String.eqb (error_code e) "NoSuchBucket").
  - intros msg H. rewrite call_run, H. reflexivity.
  - intros msg H. rewrite call_run, H. reflexivity.
  - intros resp H. set (w1 := after w (DeleteIndex bucket_name index_name)).
    rewrite call_run, H. simpl. rewrite call_run. fold w1.
    split; [|split].
    + destruct (answer w1 (DeleteVectorBucket bucket_name)) as [e|r];
        [|reflexivity].
      simpl. destruct (is_client_error e); [|reflexivity].
      now destruct (String.eqb (error_code e) "NoSuchBucket").
    + intros resp' ->. reflexivity.
    + intros msg ->. reflexivity.
Qed.

End Client.

Arguments Build_vector_item {vector} item_id item_vector item_metadata.
Arguments GetCallerIdentity {vector}.
Arguments GetVectorBucket {vector} vectorBucketName.
Arguments CreateVectorBucket {vector} vectorBucketName.
Arguments CreateIndex {vector} vectorBucketName indexName dimension
  distanceMetric.
Arguments PutVectors {vector} vectorBucketName indexName vectors.
Arguments DeleteVectors {vector} vectorBucketName indexName keys.
Arguments DeleteIndex {vector} vectorBucketName indexName.
Arguments DeleteVectorBucket {vector} vectorBucketName.
Arguments ingest_vectors {vector service_state} service
  bucket_name index_name vector_data batch_size.
Arguments delete_vectors {vector service_state} service
  bucket_name index_name vector_ids.
Arguments create_vector_bucket {vector service_state} service bucket_name.
Arguments create_vector_index {vector service_state} service
  bucket_name index_name dimension distance_metric.
Arguments delete_index {vector service_state} service bucket_name index_name.
Arguments delete_vector_bucket {vector service_state} service bucket_name.
Arguments cleanup_resources {vector service_state} service
  bucket_name index_name.
Arguments times {vector service_state A} n op.
Arguments answer {vector service_state} service w r.
Arguments over_limit {vector} it.
Arguments is_mapping {vector} it.
Arguments validate_all {vector} vector_data.
Arguments make_entries {vector} batch.

(** *** Sample services and records *)

(** A service on which everything asked for already exists and everything
    to delete is already gone. *)
Definition settled (s : unit) (r : request unit) : result response * unit :=
  (match r with
   | GetCallerIdentity => inr (Identity (txt "123456789012"))
   | GetVectorBucket _ => inr Done
   | CreateVectorBucket _ | CreateIndex _ _ _ _ =>
       inl (ClientError "ConflictException" (txt "already exists"))
   | PutVectors _ _ _ | DeleteVectors _ _ _ => inr Done
   | DeleteIndex _ _ => inl (ClientError "NoSuchIndex" (txt "no such index"))
   | DeleteVectorBucket _ =>
       inl (ClientError "NoSuchBucket" (txt "no such bucket"))
   end, s).

(** A service that refuses every call. *)
Definition denying (s : unit) (r : request unit) : result response * unit :=
  (inl (ClientError "AccessDeniedException" (txt "not authorized")), s).

Definition fresh_world : world unit unit :=
  {| svc := tt; calls := []; stdout := [] |}.

Definition eleven_tags : dict pyval :=
  map (fun k => (k, PStr (txt "x")))
    ["a"; "b"; "c"; "d"; "e"; "f"; "g"; "h"; "i"; "j"; "k"]%string.

Definition crowded_record : vector_item unit :=
  {| item_id := Some (PStr (txt "v-17"));
     item_vector := Some tt;
     item_metadata := Some (Dict eleven_tags) |}.

Definition plain_record : vector_item unit :=
  {| item_id := Some (PStr (txt "v-1"));
     item_vector := Some tt;
     item_metadata := Some (Dict [("region"%string, PStr (txt "West"))]) |}.

Lemma ingest_vectors_fails_fast_witness :
  Exists (fun it => over_limit it = true) [plain_record; crowded_record] /\
  exists e,
    ingest_vectors settled (txt "bucket") (txt "index")
      [plain_record; crowded_record] None fresh_world
    = (inl e, fresh_world).
Proof.
  assert (H : Exists (fun it => over_limit it = true)
                [plain_record; crowded_record])
    by (apply Exists_cons_tl, Exists_cons_hd; reflexivity).
  split; [exact H|].
  destruct (ingest_vectors_fails_fast unit unit settled fresh_world
              (txt "bucket") (txt "index") [plain_record; crowded_record]
              None H) as (e & He & _).
  exists e. exact He.
Defined.

(** A record whose metadata is a string, not a mapping. *)
Definition odd_record : vector_item unit :=
  {| item_id := Some (PStr (txt "v-0"));
     item_vector := Some tt;
     item_metadata := Some (NotDict (txt "<class 'str'>")) |}.

(** C3 as stated fails: a record list with a record over the limit need
    not raise [MetadataLimitExceededError]. When a record before it has
    metadata that is not a mapping, the validation raises the [TypeError]
    for that record. *)
Lemma ingest_vectors_raises_type_error_first :
  Exists (fun it => over_limit it = true) [odd_record; crowded_record] /\
  ingest_vectors settled (txt "bucket") (txt "index")
    [odd_record; crowded_record] None fresh_world
  = (inl (TypeError
            (txt "Vector 'v-0' metadata must be a dictionary, got <class 'str'>")),
     fresh_world).
Proof.
  split; [apply Exists_cons_tl, Exists_cons_hd; reflexivity|].
  vm_compute. reflexivity.
Qed.

Example ingest_vectors_message :
  fst (ingest_vectors settled (txt "bucket") (txt "index")
         [plain_record; crowded_record] None fresh_world)
  = inl (MetadataLimitExceededError (txt "v-17") 11 10)
  /\ exn_str (MetadataLimitExceededError (txt "v-17") 11 10)
     = txt "Vector 'v-17' has 11 metadata tags, but maximum allowed is 10".
Proof. split; vm_compute; reflexivity. Qed.

Example ingest_vectors_accepts_small :
  fst (ingest_vectors settled (txt "bucket") (txt "index")
         [plain_record; plain_record] None fresh_world)
  = inr {| total_vectors := 2; successful_ingestions := 2;
           failed_ingestions := 0; ingest_success_rate := Percent 2 2;
           ingest_errors := [];
           ingested_vector_ids := [PStr (txt "v-1"); PStr (txt "v-1")] |}.
Proof. vm_compute. reflexivity. Qed.

Definition plain_entry : vector_entry unit :=
  {| key := PStr (txt "v-1");
     data := tt;
     metadata := Dict [("region"%string, PStr (txt "West"))] |}.

Lemma ingest_vectors_batches_witness :
  exists summary w' batches,
    ingest_vectors settled (txt "bucket") (txt "index")
      [plain_record; plain_record; plain_record] (Some 2) fresh_world
    = (inr summary, w') /\
    List.concat batches = [plain_entry; plain_entry; plain_entry] /\
    successful_ingestions summary + failed_ingestions summary = 3.
Proof.
  assert (H1 : validate_all [plain_record; plain_record; plain_record]
               = inr tt) by reflexivity.
  assert (H2 : make_entries [plain_record; plain_record; plain_record]
               = inr [plain_entry; plain_entry; plain_entry]) by reflexivity.
  assert (H3 : 0 < match Some 2 with
                   | Some b => b
                   | None => DEFAULT_BATCH_SIZE
                   end) by reflexivity.
  destruct (ingest_vectors_batches unit unit settled fresh_world
              (txt "bucket") (txt "index") _ _ (Some 2) H1 H2 H3)
    as (summary & w' & batches & Hrun & _ & Hcat & _ & _ & Hsum & _).
  exists summary, w', batches. exact (conj Hrun (conj Hcat Hsum)).
Defined.

Example ingest_vectors_in_two_batches :
  calls _ _
    (snd (ingest_vectors settled (txt "bucket") (txt "index")
            [plain_record; plain_record; plain_record] (Some 2) fresh_world))
  = [PutVectors (txt "bucket") (txt "index") [plain_entry; plain_entry];
     PutVectors (txt "bucket") (txt "index") [plain_entry]].
Proof. vm_compute. reflexivity. Qed.

Lemma lifecycle_operations_idempotent_witness :
  (forall w : world unit unit, exists msg,
      answer settled w (DeleteIndex (txt "bucket") (txt "index"))
      = inl (ClientError "NoSuchIndex" msg)) /\
  fst (times 3 (delete_index settled (txt "bucket") (txt "index")) fresh_world)
  = inr [true; true; true].
Proof.
  assert (H : forall w : world unit unit, exists msg,
             answer settled w (DeleteIndex (txt "bucket") (txt "index"))
             = inl (ClientError "NoSuchIndex" msg))
    by (intros w; eexists; reflexivity).
  split; [exact H|].
  destruct (lifecycle_operations_idempotent unit unit settled
              (txt "bucket") (txt "index") None None)
    as (_ & _ & _ & _ & _ & Hrep & _).
  destruct (Hrep 3%nat fresh_world) as (_ & _ & Hdel & _).
  exact (Hdel H).
Defined.

(** A service that reports everything as not found, with the code that
    [simple_demo.py] also takes for a missing resource. *)
Definition nothing_found (s : unit) (r : request unit)
    : result response * unit :=
  (inl (ClientError "NotFoundException" (txt "resource not found")), s).

(** C5 as stated fails: a "not found" report other than [NoSuchIndex]
    makes [delete_index] return [False], and one other than [NoSuchBucket]
    makes [delete_vector_bucket] raise. *)
Lemma delete_of_absent_resource_can_fail :
  fst (delete_index nothing_found (txt "bucket") (txt "index") fresh_world)
  = inr false /\
  fst (delete_vector_bucket nothing_found (txt "bucket") fresh_world)
  = inl (ClientError "NotFoundException" (txt "resource not found")).
Proof. split; vm_compute; reflexivity. Qed.

Lemma service_errors_by_operation_witness :
  answer denying fresh_world
    (DeleteVectors (txt "bucket") (txt "index") [PStr (txt "v-1")])
  = inl (ClientError "AccessDeniedException" (txt "not authorized")) /\
  fst (delete_vectors denying (txt "bucket") (txt "index") [PStr (txt "v-1")]
         fresh_world)
  = inr {| total_requested := 1; successful_deletions := 0;
           failed_deletions := 1; delete_success_rate := Percent 0 1;
           deletion_errors :=
             [txt "Delete operation failed: not authorized"] |}.
Proof.
  assert (H : answer denying fresh_world
                (DeleteVectors (txt "bucket") (txt "index")
                   [PStr (txt "v-1")])
              = inl (ClientError "AccessDeniedException" (txt "not authorized")))
    by reflexivity.
  split; [exact H|].
  destruct (service_errors_by_operation unit unit denying fresh_world
              (txt "bucket") (txt "index")) as (Hdel & _).
  rewrite (Hdel [PStr (txt "v-1")] _ H). reflexivity.
Defined.

(** C7 as stated fails: the delete call is refused with an error that is
    no "not found" condition, and [delete_vectors] returns a summary of the
    failure instead of raising. *)
Lemma delete_vectors_returns_summary_on_error :
  answer denying fresh_world
    (DeleteVectors (txt "bucket") (txt "index")
       [PStr (txt "v-1"); PStr (txt "v-2")])
  = inl (ClientError "AccessDeniedException" (txt "not authorized")) /\
  fst (delete_vectors denying (txt "bucket") (txt "index")
         [PStr (txt "v-1"); PStr (txt "v-2")] fresh_world)
  = inr {| total_requested := 2; successful_deletions := 0;
           failed_deletions := 2; delete_success_rate := Percent 0 2;
           deletion_errors :=
             [txt "Delete operation failed: not authorized"] |}.
Proof. split; vm_compute; reflexivity. Qed.

End S3VectorOps.

(** ** [s3_vector/mm_index/patterns/] *)

Module Patterns.
Import Py Eff.

(** A value of the input [data] dictionary. *)
Record pil_image := {
  format : option text;
  size_repr : text;
  mode : text;
  saved_bytes : list N
}.

Inductive dval :=
| DStr (s : text)
| DBytes (b : list N)
| DImage (img : pil_image)
| DOther (type_repr : text).

Definition data_dict := dict dval.
Definition metadata_dict := dict pyval.

Definition py_bool (b : bool) : pyval :=
  PObj (txt (if b then "True" else "False")).

Definition py_int (z : Z) : pyval := PObj (str_of_Z z).

(** [d.update(other)] *)
Definition dict_update {V} (d other : dict V) : dict V :=
  fold_left (fun acc kv => dict_set acc (fst kv) (snd kv)) other d.

Section Models.

(** Embedding values are carried around untouched. *)
Variable F : Type.

(** The interfaces of [base_classes.py], as far as the patterns use them. *)
Record BaseEmbeddingModel := {
  generate_embeddings : text -> result (list F)
}.

Record BaseObjectStore := {
  store_object : text -> list N -> text -> result text
}.

Record BaseLLM := {
  generate_summary : text -> result text
}.

(** Calls that leave the process. *)
Inductive event :=
| Embedded (input : text)
| Stored (key : text) (content : list N) (content_type : text)
| Summarized (input : text)
| FileRead (path : text).

(** The surroundings: the file system, the clock, the source of uuids and
    the rounding [round(a / b, 3)] of a quotient of lengths. *)
Variable read_file : text -> result (list N).
Variable utcnow_isoformat : text.
Variable uuid4 : nat -> text.
Variable round3 : Z -> Z -> text.

Record world := {
  events : list event;
  uuids_drawn : nat
}.

Definition M := Eff.M world.

(** What the body of [SummarizePattern.process] does with a ['text'] that
    is not a string. The interfaces above are typed for strings; what
    [len], the summarizer and the store make of another value is left
    open. *)
Variable summarize_other : dval -> metadata_dict -> M (list F * metadata_dict).

Definition emit (e : event) : M unit :=
  fun w => (inr tt, {| events := events w ++ [e]; uuids_drawn := uuids_drawn w |}).

(** [str(uuid.uuid4())] *)
Definition new_uuid : M text :=
  fun w => (inr (uuid4 (uuids_drawn w)),
            {| events := events w; uuids_drawn := S (uuids_drawn w) |}).

Definition embed (model : BaseEmbeddingModel) (input : text) : M (list F) :=
  emit (Embedded input) ;;; lift (generate_embeddings model input).

Definition store (s : BaseObjectStore) (key : text) (content : list N)
    (content_type : text) : M text :=
  emit (Stored key content content_type) ;;;
  lift (store_object s key content content_type).

Definition summarize (llm : BaseLLM) (input : text) : M text :=
  emit (Summarized input) ;;; lift (generate_summary llm input).

Definition open_rb (path : text) : M (list N) :=
  emit (FileRead path) ;;; lift (read_file path).

(** *** [base.py]: [PatternStrategy] *)

Record PatternStrategy := {
  pattern_name : string;
  get_required_keys : list string;
  get_optional_keys : list string;
  validate_data : data_dict -> bool;
  process : data_dict -> option metadata_dict -> M (list F * metadata_dict)
}.

(** [_validate_required_keys] *)
Definition _validate_required_keys (pattern_name : string)
    (required_keys : list string) (data : data_dict) : result unit :=
  let missing_keys := filter (fun key => negb (dict_mem data key)) required_keys in
  if truthy missing_keys then
    inl (ValueError (txt "Pattern '" ++ txt pattern_name ++ txt "' requires keys "
                     ++ repr_list required_keys ++ txt ", but missing: "
                     ++ repr_list missing_keys))
  else inr tt.

(** [base_metadata.copy() if base_metadata else {}] *)
Definition copy_or_empty (base_metadata : option metadata_dict) : metadata_dict :=
  match base_metadata with Some m => m | None => [] end.

(** [_enrich_metadata] *)
Definition _enrich_metadata (pattern_name : string)
    (base_metadata : option metadata_dict) (additional_metadata : metadata_dict)
  : metadata_dict :=
  let enriched := copy_or_empty base_metadata in
  let enriched := dict_set enriched "pattern" (PStr (txt pattern_name)) in
  let enriched := dict_set enriched "processed_at" (PStr utcnow_isoformat) in
  dict_update enriched additional_metadata.

(** [(metadata or {}).get('doc_id', str(uuid.uuid4()))]: the default is
    computed whether or not it is needed. *)
Definition doc_id_of (metadata : option metadata_dict) : M text :=
  fresh <- new_uuid ;;
  ret match dict_get (copy_or_empty metadata) "doc_id" with
      | Some v => py_str v
      | None => fresh
      end.

(** *** [hybrid_pattern.py] *)

Section Hybrid.
Variables (embedding_model : BaseEmbeddingModel) (object_store : BaseObjectStore).

Definition hybrid_name : string := "hybrid".
Definition hybrid_required_keys : list string := ["text"]%string.
Definition hybrid_optional_keys : list string := ["image"]%string.

(** [_is_valid_image] *)
Definition _is_valid_image (image : dval) : bool :=
  match image with
  | DStr path => len path >? 0
  | DImage _ => true
  | DBytes b => len b >? 0
  | DOther _ => false
  end.

(** [HybridPattern.validate_data] *)
Definition hybrid_validate_data (data : data_dict) : bool :=
  match dict_get data "text" with
  | None => false
  | Some (DStr text) =>
      if negb (truthy (strip text)) then false
      else
        match dict_get data "image" with
        | Some image => _is_valid_image image
        | None => true
        end
  | Some _ => false
  end.

(** [image.split('.')[-1]]: what follows the last dot; [seen] collects
    the characters since the last dot met. *)
Fixpoint after_last_dot (seen : text) (s : text) : text :=
  match s with
  | [] => seen
  | c :: s' => if (c =? 46)%N then after_last_dot [] s'
               else after_last_dot (seen ++ [c]) s'
  end.

Definition ascii_lower (t : text) : text :=
  map (fun c => if ((65 <=? c) && (c <=? 90))%N then (c + 32)%N else c) t.

(** [_process_image] *)
Definition _process_image (image : dval) (doc_id : text) : M text :=
  try_except
    (converted <-
       match image with
       | DStr path =>
           image_bytes <- open_rb path ;;
           ret (image_bytes,
                if existsb (N.eqb 46) path then after_last_dot [] path
                else txt "jpg")
       | DImage img =>
           let format_name :=
             match format img with
             | Some f => if truthy f then f else txt "JPEG"
             | None => txt "JPEG"
             end in
           ret (saved_bytes img, ascii_lower format_name)
       | DBytes b => ret (b, txt "jpg")
       | DOther ty => raise (ValueError (txt "Unsupported image type: " ++ ty))
       end ;;
     let '(image_bytes, extension) := converted in
     let key := txt "images/" ++ doc_id ++ txt "." ++ extension in
     store object_store key image_bytes (txt "image/" ++ extension))
    any_exception
    (fun e => raise (RuntimeError (txt "Image processing failed: " ++ exn_str e))).

(** [HybridPattern.process] *)
Definition hybrid_process (data : data_dict) (metadata : option metadata_dict)
  : M (list F * metadata_dict) :=
  lift (_validate_required_keys hybrid_name hybrid_required_keys data) ;;;
  if negb (hybrid_validate_data data) then
    raise (ValueError (txt "Invalid hybrid data: text must be non-empty string, image must be valid if provided"))
  else
    match dict_get data "text" with
    | Some (DStr text) =>
        let image := dict_get data "image" in
        try_except
          (embeddings <- embed embedding_model text ;;
           if negb (truthy embeddings) then
             raise (RuntimeError (txt "Embedding model returned empty embeddings"))
           else
             let additional_metadata : metadata_dict :=
               [("text_length"%string, py_int (len text));
                ("text_word_count"%string, py_int (count_words false text));
                ("embedding_dimension"%string, py_int (len embeddings));
                ("has_image"%string,
                 py_bool match image with Some _ => true | None => false end);
                ("text_preview"%string,
                 PStr (if len text >? 100 then slice_to text 100 ++ txt "..."
                       else text))] in
             additional_metadata <-
               match image with
               | None => ret additional_metadata
               | Some image =>
                   doc_id <- doc_id_of metadata ;;
                   try_except
                     (image_uri <- _process_image image doc_id ;;
                      let stored :=
                        dict_set
                          (dict_set additional_metadata "__img_ref" (PStr image_uri))
                          "image_stored" (py_bool true) in
                      ret match image with
                          | DImage img =>
                              dict_set
                                (dict_set stored "image_size" (PObj (size_repr img)))
                                "image_mode" (PStr (mode img))
                          | DBytes b =>
                              dict_set stored "image_bytes" (py_int (len b))
                          | _ => stored
                          end)
                     any_exception
                     (fun e =>
                        ret (dict_set
                               (dict_set additional_metadata "image_stored"
                                  (py_bool false))
                               "image_error" (PStr (exn_str e))))
               end ;;
             ret (embeddings,
                  _enrich_metadata hybrid_name metadata additional_metadata))
          any_exception
          (fun e =>
             raise (RuntimeError (txt "Hybrid pattern processing failed: "
                                  ++ exn_str e)))
    | _ => raise (KeyError (txt "'text'"))
    end.

Definition HybridPattern : PatternStrategy :=
  {| pattern_name := hybrid_name;
     get_required_keys := hybrid_required_keys;
     get_optional_keys := hybrid_optional_keys;
     validate_data := hybrid_validate_data;
     process := hybrid_process |}.

End Hybrid.

(** *** [summarize_pattern.py] *)

Section Summarize.
Variables (embedding_model : BaseEmbeddingModel) (llm : option BaseLLM)
  (object_store : BaseObjectStore) (min_text_length : Z).

Definition summarize_name : string := "summarize".
Definition summarize_required_keys : list string := ["text"]%string.
Definition summarize_optional_keys : list string := [].

(** [SummarizePattern.validate_data] *)
Definition summarize_validate_data (data : data_dict) : bool :=
  match dict_get data "text" with
  | None => false
  | Some (DStr text) =>
      if negb (truthy (strip text)) then false
      else if len text <? min_text_length then false
      else
        match llm with
        | None => false
        | Some _ => true
        end
  | Some _ => false
  end.

(** [_store_original_text] *)
Definition _store_original_text (text doc_id : Py.text) : M Py.text :=
  try_except
    (let text_bytes := utf8_encode text in
     let key := txt "original_texts/" ++ doc_id ++ txt ".txt" in
     store object_store key text_bytes (txt "text/plain"))
    any_exception
    (fun e => raise (RuntimeError (txt "Text storage failed: " ++ exn_str e))).

(** [SummarizePattern.process]. The quotient [len(summary) / len(text)]
    raises [ZeroDivisionError] for an empty text, once the summary has been
    embedded and the document id drawn; like every exception of the body
    it comes out wrapped in a [RuntimeError]. *)
Definition summarize_process (data : data_dict) (metadata : option metadata_dict)
  : M (list F * metadata_dict) :=
  let metadata := copy_or_empty metadata in
  try_except
    (match dict_get data "text" with
     | Some (DStr text) =>
         summary <-
           match llm with
           | Some llm => summarize llm text
           | None =>
               raise (AttributeError
                        (txt "'NoneType' object has no attribute 'generate_summary'"))
           end ;;
         if negb (truthy summary) || negb (truthy (strip summary)) then
           raise (RuntimeError (txt "Generated summary is empty"))
         else
           embeddings <- embed embedding_model summary ;;
           doc_id <- doc_id_of (Some metadata) ;;
           if len text =? 0 then raise (OtherError (txt "division by zero"))
           else
           let enriched_metadata :=
             dict_update metadata
               [("pattern"%string, PStr (txt summarize_name));
                ("summary"%string, PStr summary);
                ("summary_length"%string, py_int (len summary));
                ("original_text_length"%string, py_int (len text));
                ("compression_ratio"%string,
                 PObj (round3 (len summary) (len text)));
                ("processing_type"%string, PStr (txt "text_summarization"))] in
           enriched_metadata <-
             try_except
               (text_uri <- _store_original_text text doc_id ;;
                ret (dict_set
                       (dict_set enriched_metadata "__text_ref" (PStr text_uri))
                       "original_text_stored" (py_bool true)))
               any_exception
               (fun e =>
                  ret (dict_set
                         (dict_set enriched_metadata "original_text_stored"
                            (py_bool false))
                         "text_storage_error" (PStr (exn_str e)))) ;;
           ret (embeddings, enriched_metadata)
     | Some other => summarize_other other metadata
     | None => raise (KeyError (txt "'text'"))
     end)
    any_exception
    (fun e =>
       raise (RuntimeError (txt "Summarize pattern processing failed: "
                            ++ exn_str e))).

Definition SummarizePattern : PatternStrategy :=
  {| pattern_name := summarize_name;
     get_required_keys := summarize_required_keys;
     get_optional_keys := summarize_optional_keys;
     validate_data := summarize_validate_data;
     process := summarize_process |}.

End Summarize.

(** [SummarizePattern.__init__], with its default [min_text_length]. *)
Definition new_summarize_pattern (embedding_model : BaseEmbeddingModel)
    (llm : option BaseLLM) (object_store : BaseObjectStore)
    (min_text_length : option Z) : PatternStrategy :=
  SummarizePattern embedding_model llm object_store
    match min_text_length with Some n => n | None => 1000 end.

(** *** [pattern_engine.py] *)

Record PatternEngine := {
  patterns : dict PatternStrategy
}.

(** [register_pattern] *)
Definition register_pattern (self : PatternEngine) (pattern : PatternStrategy)
  : PatternEngine :=
  {| patterns := dict_set (patterns self) (pattern_name pattern) pattern |}.

(** [list_patterns] *)
Definition list_patterns (self : PatternEngine) : list string :=
  keys (patterns self).

(** [get_pattern] *)
Definition get_pattern (self : PatternEngine) (pattern_name : string)
  : result PatternStrategy :=
  match dict_get (patterns self) pattern_name with
  | Some pattern => inr pattern
  | None =>
      inl (KeyError (txt "Pattern '" ++ txt pattern_name
                     ++ txt "' not found. Available patterns: "
                     ++ repr_list (list_patterns self)))
  end.

Definition validation_failed (pattern_name : string) (pattern : PatternStrategy)
  : text :=
  txt "Data validation failed for pattern '" ++ txt pattern_name
  ++ txt "'. Required keys: " ++ repr_list (get_required_keys pattern)
  ++ txt ", Optional keys: " ++ repr_list (get_optional_keys pattern).

(** [PatternEngine.process] *)
Definition engine_process (self : PatternEngine) (data : data_dict)
    (pattern_name : string) (metadata : option metadata_dict)
  : M (list F * metadata_dict) :=
  pattern <- lift (get_pattern self pattern_name) ;;
  if negb (validate_data pattern data) then
    raise (ValueError (validation_failed pattern_name pattern))
  else
    try_except
      (processed <- process pattern data metadata ;;
       let '(embeddings, enriched_metadata) := processed in
       let enriched_metadata :=
         dict_set enriched_metadata "engine_version" (PStr (txt "1.0")) in
       let enriched_metadata :=
         dict_set enriched_metadata "available_patterns"
           (PObj (repr_list (list_patterns self))) in
       ret (embeddings, enriched_metadata))
      any_exception
      (fun e =>
         raise (RuntimeError (txt "Pattern processing failed: " ++ exn_str e))).

(** *** Validation comes first *)

Lemma hybrid_validate_data_needs_text data :
  dict_mem data "text" = false -> hybrid_validate_data data = false.
Proof.
  unfold dict_mem, hybrid_validate_data.
  now destruct (dict_get data "text").
Qed.

Lemma summarize_validate_data_short llm min data text :
  dict_get data "text" = Some (DStr text) -> len text < min ->
  summarize_validate_data llm min data = false.
Proof.
  intros Hget Hlen. unfold summarize_validate_data. rewrite Hget.
  destruct (negb (truthy (strip text))); [reflexivity|].
  destruct (len text <? min) eqn:E; [reflexivity|].
  apply Z.ltb_ge in E. lia.
Qed.

(** C6. The hybrid pattern's [process], given data without a ['text'] key,
    raises [ValueError] and leaves the world untouched: no embedding-model,
    object-store or file call has been made. The summarize pattern's
    [validate_data] rejects a text of fewer than 1000 characters (it makes
    no call at all). [PatternEngine.process] raises the [ValueError] that
    names the pattern's required and optional keys whenever the pattern's
    [validate_data] fails, whatever the pattern's [process] would do, and
    leaves the world untouched; so through the engine both rejections
    happen before any model or store call. *)
Theorem pattern_validation_precedes_calls :
  (forall em os data metadata w,
     dict_mem data "text" = false ->
     hybrid_process em os data metadata w
     = (inl (ValueError
               (txt "Pattern 'hybrid' requires keys ['text'], but missing: ['text']")),
        w)) /\
  (forall em llm os data text,
     dict_get data "text" = Some (DStr text) -> len text < 1000 ->
     validate_data (new_summarize_pattern em llm os None) data = false) /\
  (forall self pattern_name pattern data metadata w,
     get_pattern self pattern_name = inr pattern ->
     validate_data pattern data = false ->
     engine_process self data pattern_name metadata w
     = (inl (ValueError
               (txt "Data validation failed for pattern '" ++ txt pattern_name
                ++ txt "'. Required keys: "
                ++ repr_list (get_required_keys pattern)
                ++ txt ", Optional keys: "
                ++ repr_list (get_optional_keys pattern))),
        w)) /\
  (forall self em os data metadata w,
     get_pattern self "hybrid" = inr (HybridPattern em os) ->
     dict_mem data "text" = false ->
     engine_process self data "hybrid" metadata w
     = (inl (ValueError
               (txt "Data validation failed for pattern 'hybrid'. Required keys: ['text'], Optional keys: ['image']")),
        w)) /\
  (forall self em llm os data text metadata w,
     get_pattern self "summarize" = inr (new_summarize_pattern em llm os None) ->
     dict_get data "text" = Some (DStr text) -> len text < 1000 ->
     engine_process self data "summarize" metadata w
     = (inl (ValueError
               (txt "Data validation failed for pattern 'summarize'. Required keys: ['text'], Optional keys: []")),
        w)).
Proof.
  assert (Hengine : forall self pattern_name pattern data metadata w,
            get_pattern self pattern_name = inr pattern ->
            validate_data pattern data = false ->
            engine_process self data pattern_name metadata w
            = (inl (ValueError (validation_failed pattern_name pattern)), w)).
  { intros self name pattern data metadata w Hget Hval.
    unfold engine_process, bind, lift, raise. now rewrite Hget, Hval. }
  split; [|split; [|split; [|split]]].
  - intros em os data metadata w Hno.
    unfold hybrid_process, bind, lift, _validate_required_keys. simpl.
    now rewrite Hno.
  - intros em llm os data text Hget Hlen. simpl.
    now apply summarize_validate_data_short with (text := text).
  - exact Hengine.
  - intros self em os data metadata w Hget Hno.
    rewrite (Hengine _ _ _ _ _ _ Hget); [reflexivity|].
    now apply hybrid_validate_data_needs_text.
  - intros self em llm os data text metadata w Hget Htext Hlen.
    rewrite (Hengine _ _ _ _ _ _ Hget); [reflexivity|].
    simpl. now apply summarize_validate_data_short with (text := text).
Qed.

(** *** What the engine can raise, and what it adds *)

(** X11. [PatternEngine.process] has three ways to fail and one to
    succeed. An unknown pattern name raises [KeyError] and data the pattern
    does not validate raises [ValueError], both with the world untouched;
    whatever the pattern's own [process] raises comes out as a
    [RuntimeError] whose message is "Pattern processing failed: " followed
    by the original message. On success the embeddings are the pattern's,
    and the metadata is the pattern's with ['engine_version'] set to "1.0"
    and ['available_patterns'] set to the list of registered names, every
    other key unchanged. *)
Theorem engine_process_outcomes (self : PatternEngine) (data : data_dict)
    (pattern_name : string) (metadata : option metadata_dict) (w : world) :
  match engine_process self data pattern_name metadata w with
  | (inr (embeddings, enriched), w') =>
      exists pattern md,
        get_pattern self pattern_name = inr pattern /\
        validate_data pattern data = true /\
        process pattern data metadata w = (inr (embeddings, md), w') /\
        dict_get enriched "engine_version" = Some (PStr (txt "1.0")) /\
        dict_get enriched "available_patterns"
        = Some (PObj (repr_list (list_patterns self))) /\
        forall k, k <> "engine_version"%string ->
                  k <> "available_patterns"%string ->
                  dict_get enriched k = dict_get md k
  | (inl e, w') =>
      (dict_mem (patterns self) pattern_name = false /\ w' = w /\
       exists msg, e = KeyError msg)
      \/ (exists pattern,
            get_pattern self pattern_name = inr pattern /\
            validate_data pattern data = false /\ w' = w /\
            e = ValueError (validation_failed pattern_name pattern))
      \/ (exists pattern e0,
            get_pattern self pattern_name = inr pattern /\
            validate_data pattern data = true /\
            process pattern data metadata w = (inl e0, w') /\
            e = RuntimeError (txt "Pattern processing failed: " ++ exn_str e0))
  end.
Proof.
  unfold engine_process, bind, lift, try_except, raise, ret, get_pattern,
    dict_mem.
  destruct (dict_get (patterns self) pattern_name) as [pattern|] eqn:Hget.
  - destruct (validate_data pattern data) eqn:Hval; cbn [negb].
    + destruct (process pattern data metadata w) as [[e0|[emb md]] w1] eqn:Hrun;
        cbv beta iota.
      * right. right. exists pattern, e0. auto.
      * exists pattern, md.
        split; [reflexivity|]. split; [exact Hval|]. split; [exact Hrun|].
        split; [|split].
        -- rewrite dict_get_set_other by discriminate. apply dict_get_set_same.
        -- apply dict_get_set_same.
        -- intros k H1 H2. rewrite !dict_get_set_other by congruence.
           reflexivity.
    + right. left. exists pattern. auto.
  - left. split; [reflexivity|]. split; [reflexivity|]. eexists. reflexivity.
Qed.

(** *** The registry of patterns *)

(** [del d[k]] *)
Definition dict_del {V} (d : dict V) (k : string) : dict V :=
  filter (fun kv => negb (String.eqb (fst kv) k)) d.

(** [unregister_pattern] *)
Definition unregister_pattern (self : PatternEngine) (pattern_name : string)
  : result PatternEngine :=
  if negb (dict_mem (patterns self) pattern_name) then
    inl (KeyError (txt "Pattern not found: " ++ txt pattern_name))
  else inr {| patterns := dict_del (patterns self) pattern_name |}.

Lemma dict_get_del {V} (d : dict V) k k' :
  dict_get (dict_del d k) k' = if String.eqb k k' then None else dict_get d k'.
Proof.
  unfold dict_del. induction d as [|[k0 v0] d IH]; simpl.
  - now destruct (String.eqb k k').
  - destruct (String.eqb k0 k) eqn:E0; simpl.
    + apply String.eqb_eq in E0; subst k0. rewrite IH.
      now destruct (String.eqb k k').
    + rewrite IH. destruct (String.eqb k0 k') eqn:E1; [|reflexivity].
      apply String.eqb_eq in E1; subst k0.
      rewrite String.eqb_sym in E0. now rewrite E0.
Qed.

Lemma dict_set_present_keys {V} (d : dict V) k v :
  dict_mem d k = true -> keys (dict_set d k v) = keys d.
Proof.
  unfold dict_mem, keys. induction d as [|[k0 v0] d IH]; simpl; [discriminate|].
  destruct (String.eqb k0 k); simpl; [reflexivity|].
  intros H. now rewrite IH.
Qed.

(** X12. The registry behaves as a dictionary keyed by pattern name. After
    [register_pattern], [get_pattern] under the pattern's name returns that
    pattern and every other registered name still returns what it did;
    registering under a name already taken replaces the pattern and leaves
    the list of names as it was. [unregister_pattern] raises [KeyError] for
    a name that is not registered; otherwise the name is gone ([get_pattern]
    raises [KeyError]) and every other name still returns what it did. *)
Theorem pattern_registry_round_trip (self : PatternEngine)
    (pattern : PatternStrategy) (name : string) :
  get_pattern (register_pattern self pattern) (pattern_name pattern)
  = inr pattern /\
  (forall other,
     name <> pattern_name pattern ->
     get_pattern self name = inr other ->
     get_pattern (register_pattern self pattern) name = inr other) /\
  (dict_mem (patterns self) (pattern_name pattern) = true ->
   list_patterns (register_pattern self pattern) = list_patterns self) /\
  (dict_mem (patterns self) name = false ->
   unregister_pattern self name
   = inl (KeyError (txt "Pattern not found: " ++ txt name))) /\
  (forall self',
     unregister_pattern self name = inr self' ->
     (exists msg, get_pattern self' name = inl (KeyError msg)) /\
     forall name' other,
       name' <> name ->
       get_pattern self name' = inr other ->
       get_pattern self' name' = inr other).
Proof.
  unfold get_pattern, register_pattern, unregister_pattern, list_patterns.
  simpl. split; [|split; [|split; [|split]]].
  - now rewrite dict_get_set_same.
  - intros other Hne. rewrite dict_get_set_other by congruence.
    destruct (dict_get (patterns self) name); [auto | discriminate].
  - apply dict_set_present_keys.
  - intros ->. reflexivity.
  - intros self'. destruct (dict_mem (patterns self) name); [|discriminate].
    simpl. intros H. inversion H; subst; clear H. simpl. split.
    + rewrite dict_get_del, String.eqb_refl. eexists. reflexivity.
    + intros name' other Hne. rewrite dict_get_del.
      destruct (String.eqb name name') eqn:E;
        [apply String.eqb_eq in E; congruence|].
      destruct (dict_get (patterns self) name'); [auto | discriminate].
Qed.

(** [get_recommended_pattern] *)
Definition get_recommended_pattern (self : PatternEngine) (data : data_dict)
  : string :=
  let has_text :=
    match dict_get data "text" with
    | Some (DStr text) => truthy (strip text)
    | _ => false
    end in
  let has_image := dict_mem data "image" in
  if has_text && has_image then
    if dict_mem (patterns self) "hybrid" then "hybrid"
    else if dict_mem (patterns self) "full_embedding" then "full_embedding"
    else "text"
  else if has_text then "text"
  else if has_image then
    if dict_mem (patterns self) "full_embedding" then "full_embedding"
    else "text"
  else "text".

(** X13. [get_recommended_pattern] answers "text", "hybrid" or
    "full_embedding" and nothing else, and it never names "hybrid" or
    "full_embedding" unless that pattern is registered. It names "hybrid"
    only for data with both a usable text and an image. Data with an image
    and no usable text get "text" when "full_embedding" is not registered,
    although the data hold no text to embed. *)
Theorem recommended_pattern_is_available (self : PatternEngine)
    (data : data_dict) :
  (get_recommended_pattern self data = "text"%string
   \/ (get_recommended_pattern self data = "hybrid"%string
       \/ get_recommended_pattern self data = "full_embedding"%string) /\
      dict_mem (patterns self) (get_recommended_pattern self data) = true) /\
  (get_recommended_pattern self data = "hybrid"%string ->
   dict_mem data "image" = true /\
   exists text, dict_get data "text" = Some (DStr text) /\ strip text <> []) /\
  ((forall text, dict_get data "text" = Some (DStr text) -> strip text = []) ->
   dict_mem data "image" = true ->
   dict_mem (patterns self) "full_embedding" = false ->
   get_recommended_pattern self data = "text"%string).
Proof.
  unfold get_recommended_pattern. cbv zeta.
  destruct (dict_mem (patterns self) "hybrid") eqn:Hh;
    destruct (dict_mem (patterns self) "full_embedding") eqn:Hf;
    destruct (dict_mem data "image") eqn:Himage;
    (destruct (dict_get data "text") as [[text| | |]|] eqn:Htext;
     [destruct (truthy (strip text)) eqn:Hstrip| | | |]);
    cbn [andb]; (split; [|split]);
    try (left; reflexivity);
    try (right; split; [left; reflexivity | assumption]);
    try (right; split; [right; reflexivity | assumption]);
    try (intros Hn; discriminate Hn);
    try (intros _; split; [reflexivity|]; exists text; split; [reflexivity|];
         intros Hs; rewrite Hs in Hstrip; discriminate Hstrip);
    try (intros Hno Hi Hnf; first [reflexivity | discriminate Hi
                                  | discriminate Hnf]);
    try (intros Hno Hi Hnf; specialize (Hno text eq_refl);
         rewrite Hno in Hstrip; discriminate Hstrip).
Qed.

(** *** Storing is best effort *)

(** Looks a key up under the assignments made after its own. *)
Ltac last_set :=
  repeat (rewrite dict_get_set_other by discriminate);
  apply dict_get_set_same.

Lemma _process_image_appends os image doc_id w :
  exists later,
    events (snd (_process_image os image doc_id w)) = events w ++ later.
Proof.
  unfold _process_image, try_except, bind, store, open_rb, emit, lift, raise,
    ret.
  destruct image as [path|b|img|ty]; simpl.
  - destruct (read_file path) as [e|bytes]; simpl.
    + exists [FileRead path]. reflexivity.
    + match goal with
      | |- context [store_object os ?k ?c ?t] =>
          destruct (store_object os k c t); simpl;
          exists [FileRead path; Stored k c t]; now rewrite <- app_assoc
      end.
  - match goal with
    | |- context [store_object os ?k ?c ?t] =>
        destruct (store_object os k c t); simpl; exists [Stored k c t];
        reflexivity
    end.
  - match goal with
    | |- context [store_object os ?k ?c ?t] =>
        destruct (store_object os k c t); simpl; exists [Stored k c t];
        reflexivity
    end.
  - exists []. now rewrite app_nil_r.
Qed.

(** X14. An image that cannot be stored never fails the document. For
    data with a text and an image that pass [validate_data], once the
    embedding model has returned a non-empty embedding of the text,
    [HybridPattern.process] returns that embedding whatever happens to the
    image: the metadata say ['image_stored'] True and hold the reference
    under ['__img_ref'], or ['image_stored'] False and the error message
    under ['image_error']. The embedding model is called first, with the
    text. *)
Theorem hybrid_image_is_best_effort (em : BaseEmbeddingModel)
    (os : BaseObjectStore) (data : data_dict) (metadata : option metadata_dict)
    (text : Py.text) (image : dval) (embeddings : list F) (w : world) :
  dict_get data "text" = Some (DStr text) ->
  dict_get data "image" = Some image ->
  hybrid_validate_data data = true ->
  generate_embeddings em text = inr embeddings -> embeddings <> [] ->
  exists md w' later,
    hybrid_process em os data metadata w = (inr (embeddings, md), w') /\
    events w' = events w ++ Embedded text :: later /\
    dict_get md "pattern" = Some (PStr (txt "hybrid")) /\
    ((exists uri,
        dict_get md "image_stored" = Some (py_bool true) /\
        dict_get md "__img_ref" = Some (PStr uri))
     \/ (exists err,
           dict_get md "image_stored" = Some (py_bool false) /\
           dict_get md "image_error" = Some (PStr err))).
Proof.
  intros Htext Himage Hvalid Hembed Hne.
  unfold hybrid_process, bind at 1, lift at 1, _validate_required_keys.
  assert (Hmem : dict_mem data "text" = true)
    by (unfold dict_mem; now rewrite Htext).
  simpl filter. rewrite Hmem. simpl. rewrite Hvalid, Htext, Himage. simpl.
  unfold try_except at 1, bind at 1, embed, bind at 1, emit, lift.
  rewrite Hembed. simpl.
  destruct embeddings as [|x xs]; [easy|]. cbn [truthy negb].
  unfold bind at 1, doc_id_of, bind at 1, new_uuid, ret at 1. simpl.
  unfold try_except at 1, bind at 1.
  match goal with
  | |- context [_process_image os image ?id ?w0] =>
      destruct (_process_image_appends os image id w0) as (later & Hlater);
      destruct (_process_image os image id w0) as [[e|uri] w2]
  end; simpl in Hlater.
  - simpl. unfold ret. eexists; eexists; exists later.
    split; [reflexivity|]. split; [rewrite Hlater, <- app_assoc; reflexivity|].
    unfold _enrich_metadata, dict_update. simpl. split; [last_set|].
    right. exists (exn_str e). split; last_set.
  - simpl. unfold ret. eexists; eexists; exists later.
    split; [reflexivity|]. split; [rewrite Hlater, <- app_assoc; reflexivity|].
    unfold _enrich_metadata, dict_update.
    destruct image as [path|b|img|ty]; simpl; (split; [last_set|]);
      left; exists uri; split; last_set.
Qed.

Lemma _store_original_text_appends os text doc_id w :
  exists later,
    events (snd (_store_original_text os text doc_id w)) = events w ++ later.
Proof.
  unfold _store_original_text, try_except, bind, store, emit, lift, raise.
  simpl.
  match goal with
  | |- context [store_object os ?k ?c ?t] =>
      destruct (store_object os k c t); simpl; exists [Stored k c t];
      reflexivity
  end.
Qed.

Lemma strip_nonempty (s : text) : strip s <> [] -> s <> [].
Proof. intros H ->. now apply H. Qed.

(** X15. [SummarizePattern.process] embeds the summary, never the text. For
    data whose ['text'] is a string: when the language model returns a
    summary that is empty or blank, it raises [RuntimeError] ("Generated
    summary is empty", wrapped) and neither the embedding model nor the
    object store has been called; when the summary is not blank, the text
    is not empty and the embedding model returns an embedding of the
    summary, that embedding is returned together with metadata holding the
    summary, whether or not the original text could be stored
    (['original_text_stored'] says which, with the reference under
    ['__text_ref'] or the error under ['text_storage_error']); and for an
    empty text with a summary that is not blank it raises [RuntimeError]
    ("division by zero", wrapped) after the summary has been embedded,
    without calling the object store. *)
Theorem summarize_process_outcomes (em : BaseEmbeddingModel) (llm : BaseLLM)
    (os : BaseObjectStore) (data : data_dict)
    (metadata : option metadata_dict) (text : Py.text) (w : world) :
  dict_get data "text" = Some (DStr text) ->
  (forall summary,
     generate_summary llm text = inr summary -> strip summary = [] ->
     summarize_process em (Some llm) os data metadata w
     = (inl (RuntimeError
               (txt "Summarize pattern processing failed: Generated summary is empty")),
        {| events := events w ++ [Summarized text];
           uuids_drawn := uuids_drawn w |})) /\
  (forall summary embeddings,
     generate_summary llm text = inr summary -> strip summary <> [] ->
     generate_embeddings em summary = inr embeddings ->
     text <> [] ->
     exists md w' later,
       summarize_process em (Some llm) os data metadata w
       = (inr (embeddings, md), w') /\
       events w'
       = events w ++ Summarized text :: Embedded summary :: later /\
       dict_get md "summary" = Some (PStr summary) /\
       ((exists uri,
           dict_get md "original_text_stored" = Some (py_bool true) /\
           dict_get md "__text_ref" = Some (PStr uri))
        \/ (exists err,
              dict_get md "original_text_stored" = Some (py_bool false) /\
              dict_get md "text_storage_error" = Some (PStr err)))) /\
  (forall summary embeddings,
     generate_summary llm text = inr summary -> strip summary <> [] ->
     generate_embeddings em summary = inr embeddings ->
     text = [] ->
     summarize_process em (Some llm) os data metadata w
     = (inl (RuntimeError
               (txt "Summarize pattern processing failed: division by zero")),
        {| events := events w ++ [Summarized text; Embedded summary];
           uuids_drawn := S (uuids_drawn w) |})).
Proof.
  intros Htext. split; [|split].
  - intros summary Hsum Hblank.
    unfold summarize_process, try_except at 1. rewrite Htext.
    unfold bind at 1, summarize, bind at 1, emit, lift. rewrite Hsum. simpl.
    rewrite Hblank. simpl. rewrite orb_true_r. reflexivity.
  - intros summary embeddings Hsum Hfull Hembed Hsome.
    pose proof (strip_nonempty summary Hfull) as Hne.
    assert (Hlen : (len text =? 0) = false)
      by (destruct text; [easy | unfold len; cbn [List.length];
          apply Z.eqb_neq; lia]).
    unfold summarize_process, try_except at 1. rewrite Htext.
    unfold bind at 1, summarize, bind at 1, emit, lift. rewrite Hsum. simpl.
    destruct summary as [|c summary']; [easy|].
    destruct (strip (c :: summary')) as [|c1 s1] eqn:Hstrip; [easy|].
    cbn [truthy negb orb].
    unfold bind at 1, embed, bind at 1, emit, lift. rewrite Hembed. simpl.
    unfold bind at 1, doc_id_of, bind at 1, new_uuid, ret at 1. simpl.
    rewrite Hlen. cbv zeta.
    unfold bind at 1, try_except at 1, bind at 1.
    match goal with
    | |- context [_store_original_text os text ?id ?w0] =>
        destruct (_store_original_text_appends os text id w0)
          as (later & Hlater);
        destruct (_store_original_text os text id w0) as [[e|uri] w2]
    end; simpl in Hlater; simpl; unfold ret, dict_update; simpl.
    + eexists; eexists; exists later. split; [reflexivity|].
      split; [rewrite Hlater, <- !app_assoc; reflexivity|].
      split; [last_set|]. right. exists (exn_str e). split; last_set.
    + eexists; eexists; exists later. split; [reflexivity|].
      split; [rewrite Hlater, <- !app_assoc; reflexivity|].
      split; [last_set|]. left. exists uri. split; last_set.
  - intros summary embeddings Hsum Hfull Hembed ->.
    pose proof (strip_nonempty summary Hfull) as Hne.
    unfold summarize_process, try_except at 1. rewrite Htext.
    unfold bind at 1, summarize, bind at 1, emit, lift. rewrite Hsum. simpl.
    destruct summary as [|c summary']; [easy|].
    destruct (strip (c :: summary')) as [|c1 s1] eqn:Hstrip; [easy|].
    cbn [truthy negb orb].
    unfold bind at 1, embed, bind at 1, emit, lift. rewrite Hembed. simpl.
    unfold raise. rewrite <- app_assoc. reflexivity.
Qed.

End Models.

Arguments hybrid_process {F} read_file utcnow_isoformat uuid4
  embedding_model object_store data metadata _.
Arguments new_summarize_pattern {F} uuid4 round3 summarize_other
  embedding_model llm object_store min_text_length.
Arguments validate_data {F} p _.
Arguments summarize_process {F} uuid4 round3 summarize_other
  embedding_model llm object_store data metadata _.
Arguments engine_process {F} self data pattern_name metadata _.

(** *** Sample models *)

Definition three_floats : BaseEmbeddingModel Z :=
  {| generate_embeddings := fun _ => inr [1; 2; 3] |}.

Definition local_store : BaseObjectStore :=
  {| store_object := fun key _ _ => inr (txt "s3://objects/" ++ key) |}.

Definition terse : BaseLLM :=
  {| generate_summary := fun _ => inr (txt "a short summary") |}.

Definition no_files (path : text) : result (list N) :=
  inl (OtherError (txt "No such file or directory")).

Definition numbered_uuid (n : nat) : text :=
  txt "uuid-" ++ str_of_Z (Z.of_nat n).

Definition sample_round3 (a b : Z) : text := str_of_Z (1000 * a / b).

Definition quiet : world := {| events := []; uuids_drawn := 0 |}.

(** A process in which only strings have a length. *)
Definition no_len (other : dval) (metadata : metadata_dict)
    : M (list Z * metadata_dict) :=
  raise (TypeError (txt "object has no len()")).

Definition image_only : data_dict := [("image"%string, DBytes [255; 216]%N)].

Lemma pattern_validation_precedes_calls_witness :
  dict_mem image_only "text" = false /\
  hybrid_process no_files (txt "2025-01-01T00:00:00") numbered_uuid
    three_floats local_store image_only None quiet
  = (inl (ValueError
            (txt "Pattern 'hybrid' requires keys ['text'], but missing: ['text']")),
     quiet).
Proof.
  assert (H : dict_mem image_only "text" = false) by reflexivity.
  split; [exact H|].
  destruct (pattern_validation_precedes_calls Z no_files
              (txt "2025-01-01T00:00:00") numbered_uuid sample_round3 no_len)
    as (Hhybrid & _).
  exact (Hhybrid three_floats local_store image_only None quiet H).
Defined.

(** A store that is down. *)
Definition failing_store : BaseObjectStore :=
  {| store_object := fun _ _ _ => inl (OtherError (txt "store is down")) |}.

Definition text_and_image : data_dict :=
  ("text"%string, DStr (txt "dent on door")) :: image_only.

Lemma hybrid_image_is_best_effort_witness :
  exists md w' later,
    hybrid_process no_files (txt "2025-01-01T00:00:00") numbered_uuid
      three_floats failing_store text_and_image None quiet
    = (inr ([1; 2; 3], md), w') /\
    events w' = events quiet ++ Embedded (txt "dent on door") :: later.
Proof.
  assert (H1 : dict_get text_and_image "text"
               = Some (DStr (txt "dent on door"))) by reflexivity.
  assert (H2 : dict_get text_and_image "image" = Some (DBytes [255; 216]%N))
    by reflexivity.
  assert (H3 : hybrid_validate_data text_and_image = true) by reflexivity.
  assert (H4 : generate_embeddings Z three_floats (txt "dent on door")
               = inr [1; 2; 3]) by reflexivity.
  assert (H5 : [1; 2; 3] <> []) by discriminate.
  destruct (hybrid_image_is_best_effort Z no_files (txt "2025-01-01T00:00:00")
              numbered_uuid three_floats failing_store text_and_image None
              _ _ _ quiet H1 H2 H3 H4 H5)
    as (md & w' & later & Hrun & Hev & _).
  exists md, w', later. exact (conj Hrun Hev).
Defined.

Example hybrid_process_without_store :
  match fst (hybrid_process no_files (txt "2025-01-01T00:00:00") numbered_uuid
               three_floats failing_store text_and_image None quiet) with
  | inr (_, md) => (dict_get md "image_stored", dict_get md "image_error")
  | inl _ => (None, None)
  end
  = (Some (py_bool false),
     Some (PStr (txt "Image processing failed: store is down"))).
Proof. vm_compute. reflexivity. Qed.

Definition long_text : data_dict :=
  [("text"%string, DStr (repeat 97%N 1000))].

Lemma summarize_process_outcomes_witness :
  exists md w' later,
    summarize_process numbered_uuid sample_round3 no_len three_floats
      (Some terse) failing_store long_text None quiet
    = (inr ([1; 2; 3], md), w') /\
    events w'
    = events quiet
      ++ Summarized (repeat 97%N 1000) :: Embedded (txt "a short summary")
         :: later.
Proof.
  assert (H1 : dict_get long_text "text" = Some (DStr (repeat 97%N 1000)))
    by reflexivity.
  assert (H2 : generate_summary terse (repeat 97%N 1000)
               = inr (txt "a short summary")) by reflexivity.
  assert (H3 : strip (txt "a short summary") <> []) by discriminate.
  assert (H4 : generate_embeddings Z three_floats (txt "a short summary")
               = inr [1; 2; 3]) by reflexivity.
  assert (H5 : repeat 97%N 1000 <> []) by discriminate.
  destruct (summarize_process_outcomes Z numbered_uuid sample_round3 no_len
              three_floats terse failing_store long_text None _ quiet H1)
    as (_ & Hfull & _).
  destruct (Hfull _ _ H2 H3 H4 H5) as (md & w' & later & Hrun & Hev & _).
  exists md, w', later. exact (conj Hrun Hev).
Defined.

(** With a text the hybrid pattern does call the model and the store. *)
Example hybrid_process_calls :
  let run :=
    hybrid_process no_files (txt "2025-01-01T00:00:00") numbered_uuid
      three_floats local_store
      (("text"%string, DStr (txt "dent on door")) :: image_only) None quiet in
  events (snd run)
  = [Embedded (txt "dent on door");
     Stored (txt "images/uuid-0.jpg") [255; 216]%N (txt "image/jpg")]
  /\ match fst run with inr (embeddings, _) => embeddings | inl _ => [] end
     = [1; 2; 3].
Proof. vm_compute. split; reflexivity. Qed.

Example summarize_rejects_short_text :
  validate_data
    (new_summarize_pattern numbered_uuid sample_round3 no_len three_floats
       (Some terse) local_store None)
    [("text"%string, DStr (repeat 97%N 999))] = false
  /\ validate_data
    (new_summarize_pattern numbered_uuid sample_round3 no_len three_floats
       (Some terse) local_store None)
    [("text"%string, DStr (repeat 97%N 1000))] = true.
Proof. vm_compute. split; reflexivity. Qed.

End Patterns.

(** ** [s3_vector/mm_index/batch/batch_processor.py] *)

Module Batch.
Import Py Eff.

Definition metadata_dict := dict pyval.

Definition py_int (z : Z) : pyval := PObj (str_of_Z z).

(** [d.update(other)] *)
Definition dict_update {V} (d other : dict V) : dict V :=
  fold_left (fun acc kv => dict_set acc (fst kv) (snd kv)) other d.

Section Processor.

(** Input items and embedding values are carried around untouched;
    [data_size] is [sum(len(str(v)) for v in data.values())]. *)
Variables (item F : Type).
Variable data_size : item -> Z.

Record vector_data := {
  vd_id : text;
  vd_vector : list F;
  vd_metadata : metadata_dict
}.

(** The collaborators: the pattern engine, the vector store (its answer is
    the ['successful_ingestions'] entry of the result, if any) and the
    source of uuids. *)
Variable pattern_engine_process :
  item -> string -> metadata_dict -> result (list F * metadata_dict).
Variable vector_store_ingest :
  text -> list vector_data -> result (option Z).
Variable uuid4 : nat -> text.

(** What the audit logger is told; durations are left out. *)
Inductive audit_event :=
| BatchStart (batch_size : Z) (pattern : string) (correlation_id : text)
| IngestionStart (doc_id : text) (pattern : string) (data_size : Z)
                 (correlation_id : text)
| PatternProcessing (doc_id : text) (pattern : string) (embedding_dimension : Z)
| ErrorLogged (doc_id : text) (error : exn) (operation : string) (index : Z)
| BatchCompletion (correlation_id : text) (total_items successful_items : Z)
                  (pattern : string).

Record world := {
  uuids_drawn : nat;
  audit_log : list audit_event;
  engine_calls : list (item * string * metadata_dict);
  store_calls : list (text * list vector_data)
}.

Definition M := Eff.M world.

(** [str(uuid.uuid4())] *)
Definition new_uuid : M text :=
  fun w => (inr (uuid4 (uuids_drawn w)),
            {| uuids_drawn := S (uuids_drawn w);
               audit_log := audit_log w;
               engine_calls := engine_calls w;
               store_calls := store_calls w |}).

Definition log (e : audit_event) : M unit :=
  fun w => (inr tt,
            {| uuids_drawn := uuids_drawn w;
               audit_log := audit_log w ++ [e];
               engine_calls := engine_calls w;
               store_calls := store_calls w |}).

(** [self.pattern_engine.process(data=..., pattern_name=..., metadata=...)] *)
Definition engine (data : item) (pattern : string) (metadata : metadata_dict)
  : M (list F * metadata_dict) :=
  fun w => (pattern_engine_process data pattern metadata,
            {| uuids_drawn := uuids_drawn w;
               audit_log := audit_log w;
               engine_calls := engine_calls w ++ [(data, pattern, metadata)];
               store_calls := store_calls w |}).

(** [self.vector_store.ingest_vectors(index_name, vector_data_list)] *)
Definition ingest (index_name : text) (vectors : list vector_data)
  : M (option Z) :=
  fun w => (vector_store_ingest index_name vectors,
            {| uuids_drawn := uuids_drawn w;
               audit_log := audit_log w;
               engine_calls := engine_calls w;
               store_calls := store_calls w ++ [(index_name, vectors)] |}).

(** *** The audit logger, as the batch processor uses it *)

Definition _generate_correlation_id : M text :=
  u <- new_uuid ;; ret (slice_to u 8).

Definition log_batch_start (batch_size : Z) (pattern : string) : M text :=
  correlation_id <- _generate_correlation_id ;;
  log (BatchStart batch_size pattern correlation_id) ;;;
  ret correlation_id.

Definition log_ingestion_start (doc_id : text) (pattern : string)
    (data_size : Z) : M text :=
  correlation_id <- _generate_correlation_id ;;
  log (IngestionStart doc_id pattern data_size correlation_id) ;;;
  ret correlation_id.

Definition log_pattern_processing (doc_id : text) (pattern : string)
    (embedding_dimension : Z) : M unit :=
  log (PatternProcessing doc_id pattern embedding_dimension).

Definition log_error (doc_id : text) (error : exn) (operation : string)
    (index : Z) : M unit :=
  log (ErrorLogged doc_id error operation index).

Definition log_batch_completion (correlation_id : text)
    (total_items successful_items : Z) (pattern : string) : M unit :=
  log (BatchCompletion correlation_id total_items successful_items pattern).

(** [AuditLogger] defines no [log_vector_ingestion]; the call raises. *)
Definition log_vector_ingestion (doc_id : text) (vector_dimension : Z)
    (metadata_tags : Z) (success : bool) : M unit :=
  raise (AttributeError
           (txt "'AuditLogger' object has no attribute 'log_vector_ingestion'")).

(** *** BatchProcessor *)

Record BatchProcessor := {
  batch_size : Z;
  max_workers : Z;
  enable_parallel : bool
}.

(** [chunk_metadata[i].copy() if chunk_metadata else {}], then the
    [update] with the three bookkeeping keys. *)
Definition item_metadata_of (chunk_metadata : option (list metadata_dict))
    (i : nat) (doc_id batch_id : text) (chunk_offset : Z)
  : result metadata_dict :=
  match
    match chunk_metadata with
    | Some (m :: ms) =>
        match nth_error (m :: ms) i with
        | Some md => inr md
        | None => inl (OtherError (txt "list index out of range"))
        end
    | _ => inr []
    end
  with
  | inl e => inl e
  | inr item_metadata =>
      inr (dict_update item_metadata
             [("doc_id"%string, PStr doc_id);
              ("batch_id"%string, PStr batch_id);
              ("batch_index"%string, py_int (chunk_offset + Z.of_nat i))])
  end.

(** What both paths do with one item once its id and metadata are set. *)
Definition process_item (data : item) (pattern : string) (doc_id : text)
    (item_metadata : metadata_dict) : M vector_data :=
  log_ingestion_start doc_id pattern (data_size data) ;;;
  processed <- engine data pattern item_metadata ;;
  let '(embeddings, enriched_metadata) := processed in
  log_pattern_processing doc_id pattern (len embeddings) ;;;
  ret {| vd_id := doc_id;
         vd_vector := embeddings;
         vd_metadata := enriched_metadata |}.

Record chunk_state := {
  doc_ids : list text;
  vector_data_list : list vector_data;
  successful_count : Z;
  failed_count : Z
}.

(** [doc_ids[-1] if doc_ids else f"chunk_{chunk_offset}_{i}"] *)
Definition last_id_or (doc_ids : list text) (chunk_offset : Z) (i : nat) : text :=
  match rev doc_ids with
  | d :: _ => d
  | [] => txt "chunk_" ++ str_of_Z chunk_offset ++ txt "_"
          ++ str_of_Z (Z.of_nat i)
  end.

(** One iteration of the loop of [_process_chunk_sequential]. The id is
    appended first; everything after it sits in the same [try]. *)
Definition sequential_step (pattern : string)
    (chunk_metadata : option (list metadata_dict)) (batch_id : text)
    (chunk_offset : Z) (st : chunk_state) (i : nat) (data : item)
  : M chunk_state :=
  doc_id <- new_uuid ;;
  let doc_ids := doc_ids st ++ [doc_id] in
  try_except
    (item_metadata <-
       lift (item_metadata_of chunk_metadata i doc_id batch_id chunk_offset) ;;
     vector_data <- process_item data pattern doc_id item_metadata ;;
     ret {| doc_ids := doc_ids;
            vector_data_list := vector_data_list st ++ [vector_data];
            successful_count := successful_count st + 1;
            failed_count := failed_count st |})
    any_exception
    (fun e =>
       log_error (last_id_or doc_ids chunk_offset i) e "chunk_processing"
         (Z.of_nat i) ;;;
       ret {| doc_ids := doc_ids;
              vector_data_list := vector_data_list st;
              successful_count := successful_count st;
              failed_count := failed_count st + 1 |}).

Fixpoint sequential_loop (pattern : string)
    (chunk_metadata : option (list metadata_dict)) (batch_id : text)
    (chunk_offset : Z) (i : nat) (chunk_data : list item) (st : chunk_state)
  : M chunk_state :=
  match chunk_data with
  | [] => ret st
  | data :: rest =>
      st' <- sequential_step pattern chunk_metadata batch_id chunk_offset
               st i data ;;
      sequential_loop pattern chunk_metadata batch_id chunk_offset (S i) rest st'
  end.

(** The logging loop after a successful ingestion: it stops at the first
    call that raises. *)
Fixpoint log_ingestions (successful_ingestions : Z) (i : Z)
    (ids : list text) (vectors : list vector_data) : M unit :=
  match ids, vectors with
  | doc_id :: ids', vector_data :: vectors' =>
      log_vector_ingestion doc_id (len (vd_vector vector_data))
        (len (vd_metadata vector_data)) (i <? successful_ingestions) ;;;
      log_ingestions successful_ingestions (i + 1) ids' vectors'
  | _, _ => ret tt
  end.

(** [_process_chunk_sequential] *)
Definition _process_chunk_sequential (index_name : text) (pattern : string)
    (chunk_data : list item) (chunk_metadata : option (list metadata_dict))
    (batch_id : text) (chunk_offset : Z) : M (list text * Z * Z) :=
  st <- sequential_loop pattern chunk_metadata batch_id chunk_offset 0
          chunk_data
          {| doc_ids := []; vector_data_list := [];
             successful_count := 0; failed_count := 0 |} ;;
  counts <-
    (if truthy (vector_data_list st) then
       try_except
         (answer <- ingest index_name (vector_data_list st) ;;
          let successful_ingestions :=
            match answer with Some n => n | None => 0 end in
          log_ingestions successful_ingestions 0
            (slice_to (doc_ids st) (len (vector_data_list st)))
            (vector_data_list st) ;;;
          ret (successful_count st, failed_count st))
         any_exception
         (fun e => ret (0, len chunk_data))
     else ret (successful_count st, failed_count st)) ;;
  ret (doc_ids st, fst counts, snd counts).

(** [_process_single_item]: every exception ends as [None]. *)
Definition _process_single_item (data : item) (pattern : string)
    (doc_id : text) (metadata : metadata_dict) : M (option vector_data) :=
  try_except
    (vector_data <- process_item data pattern doc_id metadata ;;
     ret (Some vector_data))
    any_exception
    (fun e => ret None).

(** A task handed to the executor. *)
Record task := {
  task_data : item;
  task_doc_id : text;
  task_metadata : metadata_dict;
  task_index : Z
}.

(** The submission loop of [_process_chunk_parallel]: ids are drawn here,
    by the submitting thread, one per item. *)
Fixpoint submit_loop (chunk_metadata : option (list metadata_dict))
    (batch_id : text) (chunk_offset : Z) (i : nat) (chunk_data : list item)
    (doc_ids : list text) (futures : list task)
  : M (list text * list task) :=
  match chunk_data with
  | [] => ret (doc_ids, futures)
  | data :: rest =>
      doc_id <- new_uuid ;;
      item_metadata <-
        lift (item_metadata_of chunk_metadata i doc_id batch_id chunk_offset) ;;
      submit_loop chunk_metadata batch_id chunk_offset (S i) rest
        (doc_ids ++ [doc_id])
        (futures ++ [{| task_data := data; task_doc_id := doc_id;
                        task_metadata := item_metadata;
                        task_index := chunk_offset + Z.of_nat i |}])
  end.

(** The collection loop. The model runs each task when its result is asked
    for, one task after the other; the real executor may run them earlier
    and side by side, which changes the order of the log and of the uuid
    draws made by the logger, not the ids drawn at submission. *)
Fixpoint collect_loop (pattern : string) (futures : list task)
    (vectors : list vector_data) (successful_count failed_count : Z)
  : M (list vector_data * Z * Z) :=
  match futures with
  | [] => ret (vectors, successful_count, failed_count)
  | future :: rest =>
      outcome <-
        try_except
          (vector_data <-
             _process_single_item (task_data future) pattern
               (task_doc_id future) (task_metadata future) ;;
           ret match vector_data with
               | Some vd => (vectors ++ [vd], successful_count + 1, failed_count)
               | None => (vectors, successful_count, failed_count + 1)
               end)
          any_exception
          (fun e =>
             log_error (task_doc_id future) e "parallel_processing"
               (task_index future) ;;;
             ret (vectors, successful_count, failed_count + 1)) ;;
      let '(vectors', successful', failed') := outcome in
      collect_loop pattern rest vectors' successful' failed'
  end.

(** [_process_chunk_parallel] *)
Definition _process_chunk_parallel (self : BatchProcessor) (index_name : text)
    (pattern : string) (chunk_data : list item)
    (chunk_metadata : option (list metadata_dict)) (batch_id : text)
    (chunk_offset : Z) : M (list text * Z * Z) :=
  (if Z.min (max_workers self) (len chunk_data) <=? 0 then
     raise (ValueError (txt "max_workers must be greater than 0"))
   else ret tt) ;;;
  submitted <- submit_loop chunk_metadata batch_id chunk_offset 0 chunk_data
                 [] [] ;;
  let '(doc_ids, futures) := submitted in
  collected <- collect_loop pattern futures [] 0 0 ;;
  let '(vector_data_list, successful_count, failed_count) := collected in
  counts <-
    (if truthy vector_data_list then
       try_except
         (answer <- ingest index_name vector_data_list ;;
          let actual_successful :=
            match answer with Some n => n | None => 0 end in
          ret (if actual_successful <? len vector_data_list then
                 let additional_failures :=
                   len vector_data_list - actual_successful in
                 (successful_count - additional_failures,
                  failed_count + additional_failures)
               else (successful_count, failed_count)))
         any_exception
         (fun e => ret (0, len chunk_data))
     else ret (successful_count, failed_count)) ;;
  ret (doc_ids, fst counts, snd counts).

(** [_process_chunk] *)
Definition _process_chunk (self : BatchProcessor) (index_name : text)
    (pattern : string) (chunk_data : list item)
    (chunk_metadata : option (list metadata_dict)) (batch_id : text)
    (chunk_offset : Z) : M (list text * Z * Z) :=
  if enable_parallel self && (len chunk_data >? 1) then
    _process_chunk_parallel self index_name pattern chunk_data chunk_metadata
      batch_id chunk_offset
  else
    _process_chunk_sequential index_name pattern chunk_data chunk_metadata
      batch_id chunk_offset.

(** [metadata_list[i:i + self.batch_size] if metadata_list else None] *)
Definition chunk_metadata_of (metadata_list : option (list metadata_dict))
    (i batch_size : Z) : option (list metadata_dict) :=
  match metadata_list with
  | Some (m :: ms) => Some (slice (m :: ms) i (i + batch_size))
  | _ => None
  end.

(** The loop [for i in range(0, len(data_list), self.batch_size)]. *)
Fixpoint chunk_loop (self : BatchProcessor) (index_name : text)
    (pattern : string) (data_list : list item)
    (metadata_list : option (list metadata_dict)) (batch_id : text)
    (offsets : list Z) (acc : list text * Z * Z) : M (list text * Z * Z) :=
  match offsets with
  | [] => ret acc
  | i :: rest =>
      let chunk_data := slice data_list i (i + batch_size self) in
      let chunk_metadata := chunk_metadata_of metadata_list i (batch_size self) in
      chunk <- _process_chunk self index_name pattern chunk_data chunk_metadata
                 batch_id i ;;
      let '(chunk_doc_ids, chunk_success, chunk_failed) := chunk in
      let '(all_doc_ids, successful_items, failed_items) := acc in
      chunk_loop self index_name pattern data_list metadata_list batch_id rest
        (all_doc_ids ++ chunk_doc_ids, successful_items + chunk_success,
         failed_items + chunk_failed)
  end.

(** [process_batch] *)
Definition process_batch (self : BatchProcessor) (data_list : list item)
    (pattern : string) (index_name : text)
    (metadata_list : option (list metadata_dict)) : M (list text) :=
  if negb (truthy data_list) then
    raise (ValueError (txt "data_list cannot be empty"))
  else if match metadata_list with
          | Some (m :: ms) => negb (len (m :: ms) =? len data_list)
          | _ => false
          end then
    raise (ValueError (txt "metadata_list length must match data_list length"))
  else
    batch_id <- new_uuid ;;
    correlation_id <- log_batch_start (len data_list) pattern ;;
    try_except
      (offsets <- lift (range_step (len data_list) (batch_size self)) ;;
       done <- chunk_loop self index_name pattern data_list metadata_list
                 batch_id offsets ([], 0, 0) ;;
       let '(all_doc_ids, successful_items, failed_items) := done in
       log_batch_completion correlation_id (len data_list) successful_items
         pattern ;;;
       ret all_doc_ids)
      any_exception
      (fun e =>
         log_error batch_id e "batch_processing" (len data_list) ;;;
         raise (RuntimeError (txt "Batch processing failed: " ++ exn_str e))).

(** *** One id per item, in submission order *)

(** [ids] were drawn from the uuid source between [w] and [w'], each at a
    later draw than the one before. *)
Definition drawn_in_order (w w' : world) (ids : list text) : Prop :=
  exists ks : list nat,
    ids = map uuid4 ks /\ StronglySorted lt ks /\
    Forall (fun k => (uuids_drawn w <= k < uuids_drawn w')%nat) ks.

(** The engine was called once per item, in the order of the items, each
    call carrying the item's id and its index in the batch. *)
Fixpoint submitted_as (pattern : string) (offset : Z) (items : list item)
    (ids : list text) (calls : list (item * string * metadata_dict)) : Prop :=
  match items, ids, calls with
  | [], [], [] => True
  | data :: items', id :: ids', (data', pattern', metadata) :: calls' =>
      data' = data /\ pattern' = pattern /\
      dict_get metadata "doc_id" = Some (PStr id) /\
      dict_get metadata "batch_index" = Some (py_int offset) /\
      submitted_as pattern (offset + 1) items' ids' calls'
  | _, _, _ => False
  end.

Lemma submitted_as_app pattern : forall items1 offset ids1 calls1 items2 ids2 calls2,
  submitted_as pattern offset items1 ids1 calls1 ->
  submitted_as pattern (offset + len items1) items2 ids2 calls2 ->
  submitted_as pattern offset (items1 ++ items2) (ids1 ++ ids2) (calls1 ++ calls2).
Proof.
  induction items1 as [|d items1 IH]; intros offset ids1 calls1 items2 ids2 calls2.
  - destruct ids1, calls1; simpl; try easy.
    unfold len; simpl. now rewrite Z.add_0_r.
  - destruct ids1 as [|id ids1]; [easy|].
    destruct calls1 as [|[[d' p'] md] calls1]; [easy|].
    simpl. intros (-> & -> & Hid & Hidx & Hrest) H2.
    repeat split; auto. apply IH; auto.
    unfold len in *. simpl in H2.
    replace (offset + 1 + Z.of_nat (List.length items1))
      with (offset + Z.of_nat (S (List.length items1))) by lia.
    exact H2.
Qed.

Lemma drawn_in_order_nil w w' : drawn_in_order w w' [].
Proof. exists []. repeat split; constructor. Qed.

Lemma drawn_in_order_app w w1 w2 ids1 ids2 :
  (uuids_drawn w <= uuids_drawn w1 <= uuids_drawn w2)%nat ->
  drawn_in_order w w1 ids1 -> drawn_in_order w1 w2 ids2 ->
  drawn_in_order w w2 (ids1 ++ ids2).
Proof.
  intros Hle (ks1 & -> & Hs1 & Hr1) (ks2 & -> & Hs2 & Hr2).
  exists (ks1 ++ ks2). rewrite map_app. split; [reflexivity|]. split.
  - clear Hle. induction ks1 as [|k ks1 IH]; simpl; [exact Hs2|].
    inversion Hs1 as [|? ? Hs1' Hlt]; subst.
    inversion Hr1 as [|? ? Hk Hr1']; subst.
    constructor; [now apply IH|].
    apply Forall_app. split; [exact Hlt|].
    eapply Forall_impl; [|exact Hr2]. simpl. intros; lia.
  - apply Forall_app. split.
    + eapply Forall_impl; [|exact Hr1]. simpl. intros; lia.
    + eapply Forall_impl; [|exact Hr2]. simpl. intros; lia.
Qed.

Lemma drawn_in_order_one w w' :
  (uuids_drawn w < uuids_drawn w')%nat ->
  drawn_in_order w w' [uuid4 (uuids_drawn w)].
Proof.
  intros H. exists [uuids_drawn w]. repeat split.
  - repeat constructor.
  - constructor; [lia | constructor].
Qed.

(** The per-item metadata exists whenever the chunk's metadata list is
    absent, empty or long enough. *)
Definition metadata_covers (chunk_metadata : option (list metadata_dict))
    (n : nat) : Prop :=
  match chunk_metadata with
  | Some (m :: ms) => (n <= List.length (m :: ms))%nat
  | _ => True
  end.

Lemma item_metadata_of_covered chunk_metadata n i doc_id batch_id chunk_offset :
  metadata_covers chunk_metadata n -> (i < n)%nat ->
  exists md,
    item_metadata_of chunk_metadata i doc_id batch_id chunk_offset = inr md /\
    dict_get md "doc_id" = Some (PStr doc_id) /\
    dict_get md "batch_index" = Some (py_int (chunk_offset + Z.of_nat i)).
Proof.
  intros Hcov Hi.
  assert (Hkeys : forall base : metadata_dict,
            let md := dict_update base
                        [("doc_id"%string, PStr doc_id);
                         ("batch_id"%string, PStr batch_id);
                         ("batch_index"%string,
                          py_int (chunk_offset + Z.of_nat i))] in
            dict_get md "doc_id" = Some (PStr doc_id) /\
            dict_get md "batch_index"
            = Some (py_int (chunk_offset + Z.of_nat i))).
  { intros base. unfold dict_update. simpl. split.
    - rewrite !dict_get_set_other by discriminate. apply dict_get_set_same.
    - apply dict_get_set_same. }
  unfold item_metadata_of.
  destruct chunk_metadata as [[|m ms]|]; try (eexists; split; [reflexivity|apply Hkeys]).
  simpl in Hcov.
  destruct (nth_error (m :: ms) i) as [md|] eqn:Hnth.
  - eexists; split; [reflexivity|apply Hkeys].
  - apply nth_error_None in Hnth. simpl in Hnth. lia.
Qed.

Lemma process_item_run data pattern doc_id md w :
  exists r w',
    process_item data pattern doc_id md w = (r, w') /\
    uuids_drawn w' = S (uuids_drawn w) /\
    engine_calls w' = engine_calls w ++ [(data, pattern, md)].
Proof.
  unfold process_item, log_ingestion_start, _generate_correlation_id,
    log_pattern_processing, bind, new_uuid, log, engine, ret. simpl.
  destruct (pattern_engine_process data pattern md) as [e|[emb md']]; simpl;
    eexists; eexists; (split; [reflexivity|]); simpl; auto.
Qed.

Lemma sequential_step_run pattern chunk_metadata batch_id chunk_offset n st i
    data w :
  metadata_covers chunk_metadata n -> (i < n)%nat ->
  exists st' w' md,
    sequential_step pattern chunk_metadata batch_id chunk_offset st i data w
    = (inr st', w') /\
    doc_ids st' = doc_ids st ++ [uuid4 (uuids_drawn w)] /\
    uuids_drawn w' = S (S (uuids_drawn w)) /\
    engine_calls w' = engine_calls w ++ [(data, pattern, md)] /\
    dict_get md "doc_id" = Some (PStr (uuid4 (uuids_drawn w))) /\
    dict_get md "batch_index" = Some (py_int (chunk_offset + Z.of_nat i)).
Proof.
  intros Hcov Hi.
  destruct (item_metadata_of_covered chunk_metadata n i
              (uuid4 (uuids_drawn w)) batch_id chunk_offset Hcov Hi)
    as (md & Hmd & Hid & Hidx).
  unfold sequential_step, bind, new_uuid, try_except, lift. simpl.
  rewrite Hmd.
  match goal with
  | |- context [process_item ?d ?p ?id ?m ?w0] =>
      destruct (process_item_run d p id m w0) as (r & w1 & Hrun & Hu & Hc);
      rewrite Hrun
  end.
  simpl in Hu, Hc.
  destruct r as [e|vd]; simpl.
  - unfold log_error, log, bind, ret. simpl.
    eexists; eexists; exists md. split; [reflexivity|]. simpl. auto.
  - unfold ret. eexists; eexists; exists md. split; [reflexivity|]. simpl. auto.
Qed.

Lemma sequential_loop_run pattern chunk_metadata batch_id chunk_offset n :
  metadata_covers chunk_metadata n ->
  forall chunk_data i st w,
    (i + List.length chunk_data <= n)%nat ->
    exists st' w' ids calls,
      sequential_loop pattern chunk_metadata batch_id chunk_offset i chunk_data
        st w = (inr st', w') /\
      doc_ids st' = doc_ids st ++ ids /\
      List.length ids = List.length chunk_data /\
      drawn_in_order w w' ids /\
      (uuids_drawn w <= uuids_drawn w')%nat /\
      engine_calls w' = engine_calls w ++ calls /\
      submitted_as pattern (chunk_offset + Z.of_nat i) chunk_data ids calls.
Proof.
  intros Hcov. induction chunk_data as [|data rest IH]; intros i st w Hn.
  - exists st, w, [], []. simpl. rewrite !app_nil_r.
    repeat split; auto. apply drawn_in_order_nil.
  - simpl in Hn.
    destruct (sequential_step_run pattern chunk_metadata batch_id chunk_offset
                n st i data w Hcov ltac:(lia))
      as (st1 & w1 & md & Hstep & Hids & Hu & Hc & Hid & Hidx).
    destruct (IH (S i) st1 w1 ltac:(lia))
      as (st' & w' & ids & calls & Hloop & Hids' & Hlen & Hdrawn & Hle & Hc' & Hsub).
    exists st', w', (uuid4 (uuids_drawn w) :: ids), ((data, pattern, md) :: calls).
    simpl. unfold bind. rewrite Hstep, Hloop. repeat split.
    + rewrite Hids', Hids, <- app_assoc. reflexivity.
    + now rewrite Hlen.
    + change (uuid4 (uuids_drawn w) :: ids)
        with ([uuid4 (uuids_drawn w)] ++ ids).
      apply drawn_in_order_app with (w1 := w1); [lia| |exact Hdrawn].
      apply drawn_in_order_one. lia.
    + lia.
    + rewrite Hc', Hc, <- app_assoc. reflexivity.
    + exact Hid.
    + exact Hidx.
    + replace (chunk_offset + Z.of_nat i + 1)
        with (chunk_offset + Z.of_nat (S i)) by lia.
      exact Hsub.
Qed.

(** A chunk is done: one id per item, drawn in order, each item submitted
    to the engine under its id. *)
Definition chunk_done (pattern : string) (chunk_offset : Z)
    (chunk_data : list item) (w : world)
    (out : result (list text * Z * Z) * world) : Prop :=
  exists ids s f w' calls,
    out = (inr (ids, s, f), w') /\
    List.length ids = List.length chunk_data /\
    drawn_in_order w w' ids /\
    (uuids_drawn w <= uuids_drawn w')%nat /\
    engine_calls w' = engine_calls w ++ calls /\
    submitted_as pattern chunk_offset chunk_data ids calls.

Lemma log_ingestions_world n i ids vectors w :
  snd (log_ingestions n i ids vectors w) = w.
Proof. destruct ids, vectors; reflexivity. Qed.

Lemma _process_chunk_sequential_done index_name pattern chunk_data
    chunk_metadata batch_id chunk_offset w :
  metadata_covers chunk_metadata (List.length chunk_data) ->
  chunk_done pattern chunk_offset chunk_data w
    (_process_chunk_sequential index_name pattern chunk_data chunk_metadata
       batch_id chunk_offset w).
Proof.
  intros Hcov.
  destruct (sequential_loop_run pattern chunk_metadata batch_id chunk_offset
              (List.length chunk_data) Hcov chunk_data 0
              {| doc_ids := []; vector_data_list := [];
                 successful_count := 0; failed_count := 0 |} w ltac:(lia))
    as (st' & w' & ids & calls & Hloop & Hids & Hlen & Hdrawn & Hle & Hc & Hsub).
  simpl in Hids. rewrite Z.add_0_r in Hsub.
  unfold _process_chunk_sequential, bind. rewrite Hloop.
  destruct (truthy (vector_data_list st')).
  - unfold try_except, bind, ingest, ret.
    destruct (vector_store_ingest index_name (vector_data_list st')) as [e|ans];
      simpl.
    + exists ids, 0, (len chunk_data). eexists. exists calls.
      rewrite Hids. split; [reflexivity|]. simpl. repeat split; auto.
    + match goal with
      | |- context [log_ingestions ?a ?b ?c ?d ?w0] =>
          pose proof (log_ingestions_world a b c d w0) as Hw;
          destruct (log_ingestions a b c d w0) as [[e|[]] w2]
      end; simpl in Hw; subst w2; simpl.
      * exists ids, 0, (len chunk_data). eexists. exists calls.
        rewrite Hids. split; [reflexivity|]. simpl. repeat split; auto.
      * exists ids, (successful_count st'), (failed_count st').
        eexists. exists calls.
        rewrite Hids. split; [reflexivity|]. simpl. repeat split; auto.
  - unfold ret. simpl.
    exists ids, (successful_count st'), (failed_count st'), w', calls.
    rewrite Hids. repeat split; auto.
Qed.

Lemma drawn_in_order_later w w1 w2 ids :
  (uuids_drawn w1 <= uuids_drawn w2)%nat ->
  drawn_in_order w w1 ids -> drawn_in_order w w2 ids.
Proof.
  intros Hle (ks & Hks & Hs & Hr). exists ks. repeat split; auto.
  eapply Forall_impl; [|exact Hr]. simpl. intros; lia.
Qed.

Definition call_of (pattern : string) (t : task)
  : item * string * metadata_dict :=
  (task_data t, pattern, task_metadata t).

Lemma submit_loop_run pattern chunk_metadata batch_id chunk_offset n :
  metadata_covers chunk_metadata n ->
  forall chunk_data i ids0 futures w,
    (i + List.length chunk_data <= n)%nat ->
    exists ids tasks w',
      submit_loop chunk_metadata batch_id chunk_offset i chunk_data ids0
        futures w = (inr (ids0 ++ ids, futures ++ tasks), w') /\
      List.length ids = List.length chunk_data /\
      drawn_in_order w w' ids /\
      (uuids_drawn w <= uuids_drawn w')%nat /\
      engine_calls w' = engine_calls w /\
      submitted_as pattern (chunk_offset + Z.of_nat i) chunk_data ids
        (map (call_of pattern) tasks).
Proof.
  intros Hcov.
  induction chunk_data as [|data rest IH]; intros i ids0 futures w Hn.
  - exists [], [], w. simpl. rewrite !app_nil_r.
    repeat split; auto. apply drawn_in_order_nil.
  - simpl in Hn.
    destruct (item_metadata_of_covered chunk_metadata n i
                (uuid4 (uuids_drawn w)) batch_id chunk_offset Hcov ltac:(lia))
      as (md & Hmd & Hid & Hidx).
    simpl. unfold bind, new_uuid, lift. simpl. rewrite Hmd.
    match goal with
    | |- context [submit_loop _ _ _ (S i) rest ?a ?b ?w0] =>
        destruct (IH (S i) a b w0 ltac:(lia))
          as (ids & tasks & w' & Hloop & Hlen & Hdrawn & Hle & Hc & Hsub);
        rewrite Hloop
    end.
    simpl in Hle, Hc.
    exists (uuid4 (uuids_drawn w) :: ids).
    eexists ({| task_data := data; task_doc_id := uuid4 (uuids_drawn w);
                task_metadata := md;
                task_index := chunk_offset + Z.of_nat i |} :: tasks).
    exists w'. rewrite <- !app_assoc. simpl. repeat split; auto.
    + change (uuid4 (uuids_drawn w) :: ids)
        with ([uuid4 (uuids_drawn w)] ++ ids).
      eapply drawn_in_order_app; [| |exact Hdrawn].
      * simpl. lia.
      * apply drawn_in_order_one. simpl. lia.
    + lia.
    + replace (chunk_offset + Z.of_nat i + 1)
        with (chunk_offset + Z.of_nat (S i)) by lia.
      exact Hsub.
Qed.

Lemma collect_loop_run pattern : forall futures vectors s f w,
  exists r w',
    collect_loop pattern futures vectors s f w = (inr r, w') /\
    (uuids_drawn w <= uuids_drawn w')%nat /\
    engine_calls w' = engine_calls w ++ map (call_of pattern) futures.
Proof.
  induction futures as [|t rest IH]; intros vectors s f w.
  - exists (vectors, s, f), w. simpl. rewrite app_nil_r. auto.
  - simpl. unfold _process_single_item. unfold try_except, bind, ret.
    destruct (process_item_run (task_data t) pattern (task_doc_id t)
                (task_metadata t) w) as (r & w1 & Hrun & Hu & Hc).
    rewrite Hrun.
    destruct r as [e|vd]; simpl.
    + destruct (IH vectors s (f + 1) w1) as (r' & w' & Hloop & Hle & Hc').
      exists r', w'. rewrite Hloop. repeat split; [lia|].
      rewrite Hc', Hc, <- app_assoc. reflexivity.
    + destruct (IH (vectors ++ [vd]) (s + 1) f w1)
        as (r' & w' & Hloop & Hle & Hc').
      exists r', w'. rewrite Hloop. repeat split; [lia|].
      rewrite Hc', Hc, <- app_assoc. reflexivity.
Qed.

Lemma _process_chunk_parallel_done self index_name pattern chunk_data
    chunk_metadata batch_id chunk_offset w :
  0 < max_workers self -> chunk_data <> [] ->
  metadata_covers chunk_metadata (List.length chunk_data) ->
  chunk_done pattern chunk_offset chunk_data w
    (_process_chunk_parallel self index_name pattern chunk_data chunk_metadata
       batch_id chunk_offset w).
Proof.
  intros Hmw Hne Hcov.
  assert (Hlen : 0 < len chunk_data)
    by (destruct chunk_data; [easy | unfold len; simpl; lia]).
  unfold _process_chunk_parallel, bind.
  destruct (Z.min (max_workers self) (len chunk_data) <=? 0) eqn:Hmin;
    [apply Z.leb_le in Hmin; lia|].
  unfold ret at 1.
  destruct (submit_loop_run pattern chunk_metadata batch_id chunk_offset
              (List.length chunk_data) Hcov chunk_data 0 [] [] w ltac:(lia))
    as (ids & tasks & w1 & Hsubmit & Hl & Hdrawn & Hle & Hc & Hsub).
  simpl in Hsubmit. rewrite Hsubmit. rewrite Z.add_0_r in Hsub.
  destruct (collect_loop_run pattern tasks [] 0 0 w1)
    as ([[vectors s] f] & w2 & Hcollect & Hle2 & Hc2).
  rewrite Hcollect.
  assert (Hdrawn2 : drawn_in_order w w2 ids)
    by (eapply drawn_in_order_later; eauto).
  destruct (truthy vectors).
  - unfold try_except, bind, ingest, ret.
    destruct (vector_store_ingest index_name vectors) as [e|ans]; simpl.
    + eexists ids, _, _, _, (map (call_of pattern) tasks).
      split; [reflexivity|]. simpl. repeat split; auto; try lia.
      now rewrite Hc2, Hc.
    + eexists ids, _, _, _, (map (call_of pattern) tasks).
      split; [reflexivity|]. simpl. repeat split; auto; try lia.
      now rewrite Hc2, Hc.
  - unfold ret. simpl.
    eexists ids, _, _, _, (map (call_of pattern) tasks).
    split; [reflexivity|]. repeat split; auto; try lia.
    now rewrite Hc2, Hc.
Qed.

Lemma _process_chunk_done self index_name pattern chunk_data chunk_metadata
    batch_id chunk_offset w :
  (enable_parallel self = true -> 0 < max_workers self) ->
  metadata_covers chunk_metadata (List.length chunk_data) ->
  chunk_done pattern chunk_offset chunk_data w
    (_process_chunk self index_name pattern chunk_data chunk_metadata
       batch_id chunk_offset w).
Proof.
  intros Hmw Hcov. unfold _process_chunk.
  destruct (enable_parallel self && (len chunk_data >? 1)) eqn:Hpar.
  - apply andb_prop in Hpar as [Hen Hlen]. apply Z.gtb_lt in Hlen.
    apply _process_chunk_parallel_done; auto.
    intros ->. unfold len in Hlen. simpl in Hlen. lia.
  - now apply _process_chunk_sequential_done.
Qed.

Lemma range_from_done fuel start stop step :
  stop <= start -> range_from fuel start stop step = [].
Proof.
  intros H. destruct fuel; simpl; [reflexivity|].
  destruct (start <? stop) eqn:E; [apply Z.ltb_lt in E; lia | reflexivity].
Qed.

(** The metadata list, when given, has one entry per item. *)
Definition metadata_matches (metadata_list : option (list metadata_dict))
    (data_list : list item) : Prop :=
  match metadata_list with
  | Some (m :: ms) => List.length (m :: ms) = List.length data_list
  | _ => True
  end.

Lemma chunk_metadata_covers metadata_list data_list i b :
  metadata_matches metadata_list data_list -> 0 <= i -> 0 <= b ->
  metadata_covers (chunk_metadata_of metadata_list i b)
    (List.length (slice data_list i (i + b))).
Proof.
  intros Hm Hi Hb. unfold chunk_metadata_of, metadata_covers.
  destruct metadata_list as [[|m ms]|]; auto.
  unfold metadata_matches in Hm.
  destruct (slice (m :: ms) i (i + b)) as [|m' ms'] eqn:Hslice; auto.
  rewrite <- Hslice. unfold slice.
  rewrite !length_firstn, !length_skipn, Hm. lia.
Qed.

Lemma chunk_loop_run self index_name pattern data_list metadata_list batch_id :
  0 < batch_size self ->
  (enable_parallel self = true -> 0 < max_workers self) ->
  metadata_matches metadata_list data_list ->
  forall fuel start ids0 s f w,
    0 <= start <= len data_list ->
    len data_list - start <= Z.of_nat fuel ->
    exists ids s' f' w' calls,
      chunk_loop self index_name pattern data_list metadata_list batch_id
        (range_from fuel start (len data_list) (batch_size self))
        (ids0, s, f) w
      = (inr (ids0 ++ ids, s', f'), w') /\
      List.length ids = List.length (skipn (Z.to_nat start) data_list) /\
      drawn_in_order w w' ids /\
      (uuids_drawn w <= uuids_drawn w')%nat /\
      engine_calls w' = engine_calls w ++ calls /\
      submitted_as pattern start (skipn (Z.to_nat start) data_list) ids calls.
Proof.
  intros Hbs Hmw Hmd.
  induction fuel as [|fuel IH]; intros start ids0 s f w Hstart Hfuel.
  - assert (start = len data_list) by lia. subst start.
    exists [], s, f, w, []. simpl. unfold len, ret.
    rewrite Nat2Z.id, skipn_all, !app_nil_r.
    repeat split; auto. apply drawn_in_order_nil.
  - simpl. destruct (start <? len data_list) eqn:Hlt.
    2:{ apply Z.ltb_ge in Hlt. assert (start = len data_list) by lia.
        subst start. exists [], s, f, w, []. simpl. unfold len, ret.
        rewrite Nat2Z.id, skipn_all, !app_nil_r.
        repeat split; auto. apply drawn_in_order_nil. }
    apply Z.ltb_lt in Hlt. simpl. unfold bind.
    set (chunk_data := slice data_list start (start + batch_size self)).
    set (chunk_metadata :=
           chunk_metadata_of metadata_list start (batch_size self)).
    assert (Hcov : metadata_covers chunk_metadata (List.length chunk_data))
      by (apply chunk_metadata_covers; auto; lia).
    destruct (_process_chunk_done self index_name pattern chunk_data
                chunk_metadata batch_id start w Hmw Hcov)
      as (ids1 & s1 & f1 & w1 & calls1 & Hchunk & Hl1 & Hd1 & Hle1 & Hc1 & Hsub1).
    rewrite Hchunk.
    assert (Hchunk_eq : chunk_data
                        = firstn (Z.to_nat (batch_size self))
                            (skipn (Z.to_nat start) data_list)).
    { subst chunk_data. unfold slice. f_equal. f_equal. lia. }
    assert (Hsplit : skipn (Z.to_nat start) data_list
                     = chunk_data
                       ++ skipn (Z.to_nat (start + batch_size self)) data_list).
    { rewrite Hchunk_eq.
      replace (Z.to_nat (start + batch_size self))
        with (Z.to_nat (batch_size self) + Z.to_nat start)%nat by lia.
      rewrite <- skipn_skipn. symmetry. apply firstn_skipn. }
    destruct (Z_le_gt_dec (len data_list) (start + batch_size self)) as [Hend|Hmore].
    + (* the last chunk *)
      rewrite range_from_done by exact Hend.
      assert (Hlast : skipn (Z.to_nat (start + batch_size self)) data_list = [])
        by (apply skipn_all2; unfold len in Hend; lia).
      rewrite Hlast, app_nil_r in Hsplit.
      exists ids1, (s + s1), (f + f1), w1, calls1. simpl. unfold ret.
      rewrite Hsplit. repeat split; auto.
    + destruct (IH (start + batch_size self) (ids0 ++ ids1) (s + s1) (f + f1) w1
                  ltac:(lia) ltac:(lia))
        as (ids2 & s2 & f2 & w2 & calls2 & Hloop & Hl2 & Hd2 & Hle2 & Hc2 & Hsub2).
      exists (ids1 ++ ids2), s2, f2, w2, (calls1 ++ calls2).
      rewrite Hloop, Hsplit, <- app_assoc. repeat split.
      * rewrite !length_app. lia.
      * eapply drawn_in_order_app; [|exact Hd1|exact Hd2]. lia.
      * lia.
      * rewrite Hc2, Hc1, <- app_assoc. reflexivity.
      * apply submitted_as_app; [exact Hsub1|].
        replace (start + len chunk_data) with (start + batch_size self);
          [exact Hsub2|].
        unfold len. rewrite Hchunk_eq, length_firstn, length_skipn.
        unfold len in *. lia.
Qed.

(** C4. For a non-empty input list (with a positive chunk size, a positive
    worker count when the parallel path is enabled, and a metadata list
    that is absent or has one entry per item), [process_batch] returns a
    list of ids with exactly one id per input item. The ids are uuids drawn
    one after the other in the order of the list, and the item at each
    position was handed to the pattern engine under the id at that position
    and with that position as its batch index. This holds whatever the
    pattern engine and the vector store answer, so the ids of items whose
    processing failed are in the list like the others. *)
Theorem process_batch_one_id_per_item (self : BatchProcessor)
    (data_list : list item) (pattern : string) (index_name : text)
    (metadata_list : option (list metadata_dict)) (w : world) :
  data_list <> [] ->
  0 < batch_size self ->
  (enable_parallel self = true -> 0 < max_workers self) ->
  metadata_matches metadata_list data_list ->
  exists ids w',
    process_batch self data_list pattern index_name metadata_list w
    = (inr ids, w') /\
    List.length ids = List.length data_list /\
    (exists ks, ids = map uuid4 ks /\ StronglySorted lt ks) /\
    exists calls,
      engine_calls w' = engine_calls w ++ calls /\
      submitted_as pattern 0 data_list ids calls.
Proof.
  intros Hne Hbs Hmw Hmd. unfold process_batch.
  destruct data_list as [|d0 rest] eqn:Hdata; [easy|]. rewrite <- Hdata in *.
  assert (Htruthy : truthy data_list = true) by (rewrite Hdata; reflexivity).
  rewrite Htruthy. simpl negb.
  assert (Hcheck : match metadata_list with
                   | Some (m :: ms) => negb (len (m :: ms) =? len data_list)
                   | _ => false
                   end = false).
  { unfold metadata_matches in Hmd. destruct metadata_list as [[|m ms]|]; auto.
    unfold len. rewrite Hmd, Z.eqb_refl. reflexivity. }
  rewrite Hcheck.
  unfold bind at 1. unfold new_uuid at 1.
  unfold bind at 1. unfold log_batch_start, _generate_correlation_id, bind,
    new_uuid, log, ret. simpl.
  unfold try_except, bind, lift, range_step.
  destruct (batch_size self =? 0) eqn:E0; [apply Z.eqb_eq in E0; lia|].
  destruct (batch_size self <? 0) eqn:E1; [apply Z.ltb_lt in E1; lia|].
  match goal with
  | |- context [chunk_loop _ _ _ _ _ ?b _ _ ?w0] =>
      destruct (chunk_loop_run self index_name pattern data_list metadata_list
                  b Hbs Hmw Hmd (Z.to_nat (len data_list)) 0 [] 0 0 w0)
        as (ids & s' & f' & w' & calls & Hloop & Hl & Hd & Hle & Hc & Hsub)
  end.
  { unfold len. lia. }
  { unfold len. lia. }
  rewrite Hloop. simpl in *. unfold log_batch_completion, log, ret. simpl.
  eexists ids, _. split; [reflexivity|]. simpl. repeat split; auto.
  - destruct Hd as (ks & Hks & Hs & _). exists ks. auto.
  - exists calls. auto.
Qed.

(** *** What the sequential path reports *)

Lemma process_item_outcome data pattern doc_id md w :
  exists r w',
    process_item data pattern doc_id md w = (r, w') /\
    store_calls w' = store_calls w.
Proof.
  unfold process_item, log_ingestion_start, _generate_correlation_id,
    log_pattern_processing, bind, new_uuid, log, engine, ret. simpl.
  destruct (pattern_engine_process data pattern md) as [e|[emb md']]; simpl;
    eexists; eexists; (split; [reflexivity|]); reflexivity.
Qed.

(** One item of a sequential chunk: its id is recorded, and it is counted
    as one success (with its vector) or as one failure. *)
Lemma sequential_step_counts pattern chunk_metadata batch_id chunk_offset st i
    data w :
  exists st' w',
    sequential_step pattern chunk_metadata batch_id chunk_offset st i data w
    = (inr st', w') /\
    store_calls w' = store_calls w /\
    List.length (doc_ids st') = S (List.length (doc_ids st)) /\
    ((exists vd,
        vector_data_list st' = vector_data_list st ++ [vd] /\
        successful_count st' = successful_count st + 1 /\
        failed_count st' = failed_count st)
     \/ (vector_data_list st' = vector_data_list st /\
         successful_count st' = successful_count st /\
         failed_count st' = failed_count st + 1)).
Proof.
  unfold sequential_step, bind, new_uuid, try_except, lift. simpl.
  destruct (item_metadata_of chunk_metadata i (uuid4 (uuids_drawn w)) batch_id
              chunk_offset) as [e|md].
  - unfold log_error, log, bind, ret. simpl.
    eexists; eexists. split; [reflexivity|]. simpl.
    rewrite length_app. simpl. repeat split; [lia|]. right. auto.
  - match goal with
    | |- context [process_item ?d ?p ?id ?m ?w0] =>
        destruct (process_item_outcome d p id m w0) as (r & w1 & Hrun & Hstore);
        rewrite Hrun
    end.
    simpl in Hstore.
    destruct r as [e|vd]; simpl.
    + unfold log_error, log, bind, ret. simpl.
      eexists; eexists. split; [reflexivity|]. simpl.
      rewrite length_app. simpl. repeat split; [exact Hstore | lia |].
      right. auto.
    + unfold ret. eexists; eexists. split; [reflexivity|]. simpl.
      rewrite length_app. simpl. repeat split; [exact Hstore | lia |].
      left. exists vd. auto.
Qed.

Lemma sequential_loop_counts pattern chunk_metadata batch_id chunk_offset :
  forall chunk_data i st w,
    exists st' w',
      sequential_loop pattern chunk_metadata batch_id chunk_offset i chunk_data
        st w = (inr st', w') /\
      store_calls w' = store_calls w /\
      List.length (doc_ids st')
      = (List.length (doc_ids st) + List.length chunk_data)%nat /\
      successful_count st' - len (vector_data_list st')
      = successful_count st - len (vector_data_list st) /\
      successful_count st' + failed_count st'
      = successful_count st + failed_count st + len chunk_data /\
      len (vector_data_list st')
      <= len (vector_data_list st) + len chunk_data.
Proof.
  induction chunk_data as [|data rest IH]; intros i st w.
  - exists st, w. unfold len. simpl. repeat split; lia.
  - destruct (sequential_step_counts pattern chunk_metadata batch_id
                chunk_offset st i data w)
      as (st1 & w1 & Hstep & Hstore1 & Hids1 & Hcount).
    destruct (IH (S i) st1 w1)
      as (st' & w' & Hloop & Hstore & Hids & Hdiff & Hsum & Hvdl).
    exists st', w'. simpl. unfold bind. rewrite Hstep, Hloop.
    split; [reflexivity|]. split; [congruence|].
    unfold len in *. simpl List.length.
    destruct Hcount as [(vd & Hv & Hs & Hf)|(Hv & Hs & Hf)];
      rewrite Hv in *; try rewrite length_app in *; simpl in *;
      repeat split; lia.
Qed.

Lemma log_ingestions_raises n i doc_id ids vector_data vectors w :
  exists e,
    log_ingestions n i (doc_id :: ids) (vector_data :: vectors) w = (inl e, w).
Proof. eexists. reflexivity. Qed.

(** A sequential chunk never reports a success: whatever the engine and the
    store answer, its counts are no success and one failure per item. *)
Lemma _process_chunk_sequential_counts index_name pattern chunk_data
    chunk_metadata batch_id chunk_offset w :
  exists ids w',
    _process_chunk_sequential index_name pattern chunk_data chunk_metadata
      batch_id chunk_offset w
    = (inr (ids, 0, len chunk_data), w').
Proof.
  unfold _process_chunk_sequential. unfold bind at 1.
  destruct (sequential_loop_counts pattern chunk_metadata batch_id chunk_offset
              chunk_data 0%nat
              {| doc_ids := []; vector_data_list := [];
                 successful_count := 0; failed_count := 0 |} w)
    as (st & w1 & Hloop & _ & Hids & Hdiff & Hsum & Hvdl).
  rewrite Hloop. simpl in Hids, Hdiff, Hsum, Hvdl. unfold len in Hdiff, Hvdl.
  simpl in Hdiff, Hvdl.
  destruct (vector_data_list st) as [|vd vds] eqn:Hv.
  - simpl in Hdiff.
    assert (Hs : successful_count st = 0) by lia.
    assert (Hf : failed_count st = len chunk_data) by lia.
    simpl. unfold bind, ret. simpl. rewrite Hs, Hf.
    eexists; eexists. reflexivity.
  - cbn [truthy]. unfold bind at 1, try_except.
    unfold bind at 1, ingest.
    destruct (vector_store_ingest index_name (vd :: vds)) as [e|answer].
    + simpl. eexists; eexists. reflexivity.
    + destruct (doc_ids st) as [|d ds] eqn:Hd;
        [simpl in Hids, Hvdl; unfold len in Hvdl; simpl in Hvdl; lia|].
      rewrite Validation.slice_to_nonneg by (unfold len; lia).
      unfold len at 1. simpl List.length.
      rewrite Nat2Z.id. cbn [firstn].
      unfold bind at 1.
      match goal with
      | |- context [log_ingestions ?n ?j (d :: ?ids) (vd :: vds) ?w0] =>
          destruct (log_ingestions_raises n j d ids vd vds w0) as (e & ->)
      end.
      simpl. eexists; eexists. reflexivity.
Qed.

Lemma _process_chunk_is_sequential self index_name pattern data_list
    metadata_list batch_id i w :
  enable_parallel self = false \/ batch_size self = 1 ->
  _process_chunk self index_name pattern
    (slice data_list i (i + batch_size self))
    (chunk_metadata_of metadata_list i (batch_size self)) batch_id i w
  = _process_chunk_sequential index_name pattern
      (slice data_list i (i + batch_size self))
      (chunk_metadata_of metadata_list i (batch_size self)) batch_id i w.
Proof.
  intros [Hoff|Hone]; unfold _process_chunk.
  - now rewrite Hoff.
  - assert (Hshort : (len (slice data_list i (i + batch_size self)) >? 1)
                     = false).
    { rewrite Z.gtb_ltb. apply Z.ltb_ge. unfold len, slice.
      rewrite length_firstn. lia. }
    rewrite Hshort, andb_false_r. reflexivity.
Qed.

Lemma chunk_loop_sequential self index_name pattern data_list metadata_list
    batch_id :
  enable_parallel self = false \/ batch_size self = 1 ->
  forall offsets ids s f w,
    exists ids' f' w',
      chunk_loop self index_name pattern data_list metadata_list batch_id
        offsets (ids, s, f) w
      = (inr (ids', s, f'), w').
Proof.
  intros Hseq. induction offsets as [|i rest IH]; intros ids s f w.
  - eexists; eexists; eexists. reflexivity.
  - cbn [chunk_loop]. unfold bind.
    rewrite (_process_chunk_is_sequential _ _ _ _ _ _ _ _ Hseq).
    destruct (_process_chunk_sequential_counts index_name pattern
                (slice data_list i (i + batch_size self))
                (chunk_metadata_of metadata_list i (batch_size self))
                batch_id i w) as (cids & w1 & ->).
    rewrite Z.add_0_r. apply IH.
Qed.

(** X9. The sequential path never reports a success. [AuditLogger]
    defines no [log_vector_ingestion], so the logging loop that follows a
    successful ingestion raises, and the handler around it counts the whole
    chunk as failed: every sequential chunk returns no success and one
    failure per item, whatever the engine and the store answer. Hence a
    processor with parallel processing off, or with chunks of one item,
    ends every batch it completes by logging a completion with zero
    successful items. *)
Theorem sequential_batches_report_no_success (self : BatchProcessor)
    (data_list : list item) (pattern : string) (index_name : text)
    (metadata_list : option (list metadata_dict)) (w : world) :
  enable_parallel self = false \/ batch_size self = 1 ->
  data_list <> [] ->
  batch_size self <> 0 ->
  metadata_matches metadata_list data_list ->
  (forall chunk_data chunk_metadata batch_id chunk_offset w0,
     exists ids w1,
       _process_chunk_sequential index_name pattern chunk_data chunk_metadata
         batch_id chunk_offset w0
       = (inr (ids, 0, len chunk_data), w1)) /\
  exists ids w' earlier correlation_id,
    process_batch self data_list pattern index_name metadata_list w
    = (inr ids, w') /\
    audit_log w'
    = earlier ++ [BatchCompletion correlation_id (len data_list) 0 pattern].
Proof.
  intros Hseq Hne Hbs Hmd.
  split; [intros; apply _process_chunk_sequential_counts|].
  unfold process_batch.
  destruct data_list as [|d0 rest] eqn:Hdata; [easy|]. rewrite <- Hdata in *.
  assert (Htruthy : truthy data_list = true) by (rewrite Hdata; reflexivity).
  rewrite Htruthy. simpl negb.
  assert (Hcheck : match metadata_list with
                   | Some (m :: ms) => negb (len (m :: ms) =? len data_list)
                   | _ => false
                   end = false).
  { unfold metadata_matches in Hmd. destruct metadata_list as [[|m ms]|]; auto.
    unfold len. rewrite Hmd, Z.eqb_refl. reflexivity. }
  rewrite Hcheck.
  unfold bind at 1. unfold new_uuid at 1.
  unfold bind at 1. unfold log_batch_start, _generate_correlation_id, bind,
    new_uuid, log, ret. simpl.
  unfold try_except, bind, lift, range_step.
  destruct (batch_size self =? 0) eqn:E0; [apply Z.eqb_eq in E0; lia|].
  destruct (batch_size self <? 0);
    match goal with
    | |- context [chunk_loop _ _ _ _ _ ?b ?offsets _ ?w0] =>
        destruct (chunk_loop_sequential self index_name pattern data_list
                    metadata_list b Hseq offsets [] 0 0 w0)
          as (ids & f' & w' & Hloop)
    end;
    rewrite Hloop; unfold log_batch_completion, log, ret; simpl;
    eexists; eexists; eexists; eexists; split; reflexivity.
Qed.

(** *** Input that is turned away, and chunk sizes that are no sizes *)

(** X10. [process_batch] turns an empty [data_list] away with [ValueError],
    and so a non-empty metadata list whose length differs from that of
    [data_list]; in both cases nothing has happened yet: no uuid drawn,
    nothing logged, no engine or store call. A chunk size of zero makes it
    raise [RuntimeError] (the [range] with a zero step fails inside the
    [try]) after the batch start and the error have been logged, and a
    negative chunk size makes it return an empty list of ids and log a
    completion with zero successes; in neither case is any item handed to
    the engine or to the store. *)
Theorem process_batch_rejections (self : BatchProcessor)
    (data_list : list item) (pattern : string) (index_name : text)
    (metadata_list : option (list metadata_dict)) (w : world) :
  (data_list = [] ->
   process_batch self data_list pattern index_name metadata_list w
   = (inl (ValueError (txt "data_list cannot be empty")), w)) /\
  (data_list <> [] ->
   (exists m ms, metadata_list = Some (m :: ms) /\
                 List.length (m :: ms) <> List.length data_list) ->
   process_batch self data_list pattern index_name metadata_list w
   = (inl (ValueError (txt "metadata_list length must match data_list length")),
      w)) /\
  (data_list <> [] -> metadata_matches metadata_list data_list ->
   batch_size self = 0 ->
   exists w',
     process_batch self data_list pattern index_name metadata_list w
     = (inl (RuntimeError
               (txt "Batch processing failed: range() arg 3 must not be zero")),
        w') /\
     engine_calls w' = engine_calls w /\ store_calls w' = store_calls w /\
     exists correlation_id,
       audit_log w'
       = audit_log w
         ++ [BatchStart (len data_list) pattern correlation_id;
             ErrorLogged (uuid4 (uuids_drawn w))
               (ValueError (txt "range() arg 3 must not be zero"))
               "batch_processing" (len data_list)]) /\
  (data_list <> [] -> metadata_matches metadata_list data_list ->
   batch_size self < 0 ->
   exists w',
     process_batch self data_list pattern index_name metadata_list w
     = (inr [], w') /\
     engine_calls w' = engine_calls w /\ store_calls w' = store_calls w /\
     exists correlation_id,
       audit_log w'
       = audit_log w
         ++ [BatchStart (len data_list) pattern correlation_id;
             BatchCompletion correlation_id (len data_list) 0 pattern]).
Proof.
  assert (Hcheck : metadata_matches metadata_list data_list ->
                   match metadata_list with
                   | Some (m :: ms) => negb (len (m :: ms) =? len data_list)
                   | _ => false
                   end = false).
  { intros Hmd. unfold metadata_matches in Hmd.
    destruct metadata_list as [[|m ms]|]; auto.
    unfold len. rewrite Hmd, Z.eqb_refl. reflexivity. }
  split; [|split; [|split]].
  - intros ->. reflexivity.
  - intros Hne (m & ms & -> & Hlen). unfold process_batch.
    destruct data_list as [|d0 rest]; [easy|]. cbn [truthy negb].
    assert (Hdiff : (len (m :: ms) =? len (d0 :: rest)) = false)
      by (apply Z.eqb_neq; unfold len; lia).
    rewrite Hdiff. reflexivity.
  - intros Hne Hmd Hzero. unfold process_batch.
    destruct data_list as [|d0 rest] eqn:Hdata; [easy|]. rewrite <- Hdata in *.
    assert (Htruthy : truthy data_list = true) by (rewrite Hdata; reflexivity).
    rewrite Htruthy, (Hcheck Hmd), Hzero. simpl negb. cbv iota.
    eexists. split; [reflexivity|]. simpl.
    split; [reflexivity|]. split; [reflexivity|]. eexists.
    rewrite <- app_assoc. reflexivity.
  - intros Hne Hmd Hneg. unfold process_batch.
    destruct data_list as [|d0 rest] eqn:Hdata; [easy|]. rewrite <- Hdata in *.
    assert (Htruthy : truthy data_list = true) by (rewrite Hdata; reflexivity).
    rewrite Htruthy, (Hcheck Hmd). simpl negb. cbv iota.
    unfold bind at 1. unfold new_uuid at 1.
    unfold bind at 1. unfold log_batch_start, _generate_correlation_id, bind,
      new_uuid, log, ret. simpl.
    unfold try_except, bind, lift, range_step.
    destruct (batch_size self =? 0) eqn:E0; [apply Z.eqb_eq in E0; lia|].
    destruct (batch_size self <? 0) eqn:E1; [|apply Z.ltb_ge in E1; lia].
    simpl. unfold log_batch_completion, log, ret. simpl.
    eexists. split; [reflexivity|]. simpl.
    split; [reflexivity|]. split; [reflexivity|]. eexists.
    rewrite <- app_assoc. reflexivity.
Qed.

End Processor.

Arguments process_batch {item F} data_size pattern_engine_process
  vector_store_ingest uuid4 self data_list pattern index_name metadata_list _.
Arguments metadata_matches {item} metadata_list data_list.
Arguments Build_world {item F} uuids_drawn audit_log engine_calls store_calls.

(** *** Sample collaborators *)

(** An engine that fails on every odd item. *)
Definition picky_engine (data : Z) (pattern : string) (metadata : metadata_dict)
  : result (list Z * metadata_dict) :=
  if Z.odd data then inl (RuntimeError (txt "cannot embed"))
  else inr ([data], metadata).

Definition accepting_store (index_name : text) (vectors : list (vector_data Z))
  : result (option Z) :=
  inr (Some (len vectors)).

Definition numbered_uuid (n : nat) : text :=
  txt "uuid-" ++ str_of_Z (Z.of_nat n).

Definition pairs_in_parallel : BatchProcessor :=
  {| batch_size := 2; max_workers := 4; enable_parallel := true |}.

Definition untouched : world Z Z :=
  {| uuids_drawn := 0; audit_log := []; engine_calls := []; store_calls := [] |}.

Lemma process_batch_one_id_per_item_witness :
  [1; 2; 3] <> [] /\
  0 < batch_size pairs_in_parallel /\
  (enable_parallel pairs_in_parallel = true ->
   0 < max_workers pairs_in_parallel) /\
  metadata_matches None [1; 2; 3] /\
  exists ids w',
    process_batch (fun d => d) picky_engine accepting_store numbered_uuid
      pairs_in_parallel [1; 2; 3] "text" (txt "index") None untouched
    = (inr ids, w') /\
    List.length ids = 3%nat.
Proof.
  assert (H1 : [1; 2; 3] <> []) by discriminate.
  assert (H2 : 0 < batch_size pairs_in_parallel) by reflexivity.
  assert (H3 : enable_parallel pairs_in_parallel = true ->
               0 < max_workers pairs_in_parallel) by (intros _; reflexivity).
  assert (H4 : metadata_matches None [1; 2; 3]) by exact I.
  repeat split; auto.
  destruct (process_batch_one_id_per_item Z Z (fun d => d) picky_engine
              accepting_store numbered_uuid pairs_in_parallel [1; 2; 3] "text"
              (txt "index") None untouched H1 H2 H3 H4)
    as (ids & w' & Hrun & Hlen & _).
  exists ids, w'. exact (conj Hrun Hlen).
Defined.

(** An engine that embeds every item. *)
Definition willing_engine (data : Z) (pattern : string)
    (metadata : metadata_dict) : result (list Z * metadata_dict) :=
  inr ([data], metadata).

Definition one_after_the_other : BatchProcessor :=
  {| batch_size := 2; max_workers := 4; enable_parallel := false |}.

Lemma sequential_batches_report_no_success_witness :
  exists ids w' earlier correlation_id,
    process_batch (fun d => d) willing_engine accepting_store numbered_uuid
      one_after_the_other [1; 2; 3] "text" (txt "index") None untouched
    = (inr ids, w') /\
    audit_log _ _ w' = earlier ++ [BatchCompletion correlation_id 3 0 "text"].
Proof.
  assert (H1 : enable_parallel one_after_the_other = false
               \/ batch_size one_after_the_other = 1) by (left; reflexivity).
  assert (H2 : [1; 2; 3] <> []) by discriminate.
  assert (H3 : batch_size one_after_the_other <> 0) by discriminate.
  assert (H4 : metadata_matches None [1; 2; 3]) by exact I.
  exact (proj2 (sequential_batches_report_no_success Z Z (fun d => d)
                  willing_engine accepting_store numbered_uuid
                  one_after_the_other [1; 2; 3] "text" (txt "index") None
                  untouched H1 H2 H3 H4)).
Defined.

(** The store was handed all three vectors and accepted them. *)
Example sequential_batch_was_ingested :
  map (fun c => List.length (snd c))
    (store_calls _ _
       (snd (process_batch (fun d => d) willing_engine accepting_store
               numbered_uuid one_after_the_other [1; 2; 3] "text"
               (txt "index") None untouched)))
  = [2%nat; 1%nat].
Proof. vm_compute. reflexivity. Qed.

(** Items 1 and 3 fail in the engine; their ids are returned all the same. *)
Example process_batch_keeps_failed_ids :
  fst (process_batch (fun d => d) picky_engine accepting_store numbered_uuid
         pairs_in_parallel [1; 2; 3] "text" (txt "index") None untouched)
  = inr [txt "uuid-2"; txt "uuid-3"; txt "uuid-6"].
Proof. vm_compute. reflexivity. Qed.

Example process_batch_rejects_empty_list :
  fst (process_batch (fun d => d) picky_engine accepting_store numbered_uuid
         pairs_in_parallel [] "text" (txt "index") None untouched)
  = inl (ValueError (txt "data_list cannot be empty")).
Proof. reflexivity. Qed.

End Batch.

(** ** [s3_vector/data/generate_dealer_database.py] *)

Module DealerGen.
Import Py Eff.

(** *** The tables of [DealerDatabaseGenerator.__init__] *)

Definition regions : list string :=
  ["North"; "South"; "East"; "West"; "Central"]%string.

(** [self.cities], keyed by region. *)
Definition cities : dict (list text) :=
  [
   ("North"%string,
    [txt "Detroit, MI"; txt "Grand Rapids, MI"; txt "Ann Arbor, MI";
     txt "Lansing, MI"; txt "Chicago, IL"; txt "Springfield, IL";
     txt "Rockford, IL"; txt "Peoria, IL"; txt "Minneapolis, MN";
     txt "St. Paul, MN"; txt "Duluth, MN"; txt "Rochester, MN";
     txt "Milwaukee, WI"; txt "Madison, WI"; txt "Green Bay, WI";
     txt "Kenosha, WI"; txt "Cleveland, OH"; txt "Columbus, OH";
     txt "Cincinnati, OH"; txt "Toledo, OH"; txt "Indianapolis, IN";
     txt "Fort Wayne, IN"; txt "Evansville, IN"; txt "South Bend, IN";
     txt "Des Moines, IA"; txt "Cedar Rapids, IA"; txt "Davenport, IA";
     txt "Sioux City, IA"]);
   ("South"%string,
    [txt "Atlanta, GA"; txt "Savannah, GA"; txt "Augusta, GA";
     txt "Columbus, GA"; txt "Miami, FL"; txt "Orlando, FL"; txt "Tampa, FL";
     txt "Jacksonville, FL"; txt "Tallahassee, FL"; txt "Houston, TX";
     txt "Dallas, TX"; txt "Austin, TX"; txt "San Antonio, TX";
     txt "Fort Worth, TX"; txt "Nashville, TN"; txt "Memphis, TN";
     txt "Knoxville, TN"; txt "Chattanooga, TN"; txt "Charlotte, NC";
     txt "Raleigh, NC"; txt "Greensboro, NC"; txt "Durham, NC";
     txt "Charleston, SC"; txt "Columbia, SC"; txt "Greenville, SC";
     txt "Rock Hill, SC"; txt "Birmingham, AL"; txt "Montgomery, AL";
     txt "Mobile, AL"; txt "Huntsville, AL"; txt "New Orleans, LA";
     txt "Baton Rouge, LA"; txt "Shreveport, LA"; txt "Lafayette, LA";
     txt "Jackson, MS"; txt "Gulfport, MS"; txt "Southaven, MS";
     txt "Hattiesburg, MS"; txt "Little Rock, AR"; txt "Fort Smith, AR";
     txt "Fayetteville, AR"; txt "Springdale, AR"]);
   ("East"%string,
    [txt "New York, NY"; txt "Buffalo, NY"; txt "Rochester, NY";
     txt "Albany, NY"; txt "Syracuse, NY"; txt "Boston, MA";
     txt "Worcester, MA"; txt "Springfield, MA"; txt "Cambridge, MA";
     txt "Philadelphia, PA"; txt "Pittsburgh, PA"; txt "Allentown, PA";
     txt "Erie, PA"; txt "Newark, NJ"; txt "Jersey City, NJ";
     txt "Paterson, NJ"; txt "Elizabeth, NJ"; txt "Baltimore, MD";
     txt "Annapolis, MD"; txt "Frederick, MD"; txt "Rockville, MD";
     txt "Virginia Beach, VA"; txt "Norfolk, VA"; txt "Richmond, VA";
     txt "Newport News, VA"; txt "Hartford, CT"; txt "New Haven, CT";
     txt "Bridgeport, CT"; txt "Stamford, CT"; txt "Washington, DC";
     txt "Wilmington, DE"; txt "Dover, DE"; txt "Newark, DE";
     txt "Providence, RI"; txt "Warwick, RI"; txt "Cranston, RI";
     txt "Burlington, VT"; txt "South Burlington, VT"; txt "Rutland, VT";
     txt "Manchester, NH"; txt "Nashua, NH"; txt "Concord, NH";
     txt "Portland, ME"; txt "Lewiston, ME"; txt "Bangor, ME"]);
   ("West"%string,
    [txt "Los Angeles, CA"; txt "San Francisco, CA"; txt "San Diego, CA";
     txt "Sacramento, CA"; txt "San Jose, CA"; txt "Seattle, WA";
     txt "Spokane, WA"; txt "Tacoma, WA"; txt "Vancouver, WA";
     txt "Portland, OR"; txt "Eugene, OR"; txt "Salem, OR"; txt "Gresham, OR";
     txt "Phoenix, AZ"; txt "Tucson, AZ"; txt "Mesa, AZ"; txt "Chandler, AZ";
     txt "Las Vegas, NV"; txt "Reno, NV"; txt "Henderson, NV";
     txt "North Las Vegas, NV"; txt "Salt Lake City, UT"; txt "Provo, UT";
     txt "West Valley City, UT"; txt "West Jordan, UT";
     txt "Grand Junction, CO"; txt "Durango, CO"; txt "Aspen, CO";
     txt "Vail, CO"; txt "Boise, ID"; txt "Nampa, ID"; txt "Meridian, ID";
     txt "Idaho Falls, ID"; txt "Billings, MT"; txt "Missoula, MT";
     txt "Great Falls, MT"; txt "Bozeman, MT"; txt "Cheyenne, WY";
     txt "Casper, WY"; txt "Laramie, WY"; txt "Gillette, WY";
     txt "Anchorage, AK"; txt "Fairbanks, AK"; txt "Juneau, AK";
     txt "Honolulu, HI"; txt "Pearl City, HI"; txt "Hilo, HI"]);
   ("Central"%string,
    [txt "Denver, CO"; txt "Colorado Springs, CO"; txt "Aurora, CO";
     txt "Lakewood, CO"; txt "Kansas City, MO"; txt "St. Louis, MO";
     txt "Springfield, MO"; txt "Columbia, MO"; txt "Wichita, KS";
     txt "Overland Park, KS"; txt "Kansas City, KS"; txt "Topeka, KS";
     txt "Oklahoma City, OK"; txt "Tulsa, OK"; txt "Norman, OK";
     txt "Broken Arrow, OK"; txt "Omaha, NE"; txt "Lincoln, NE";
     txt "Bellevue, NE"; txt "Grand Island, NE"; txt "Albuquerque, NM";
     txt "Las Cruces, NM"; txt "Santa Fe, NM"; txt "Rio Rancho, NM";
     txt "Fargo, ND"; txt "Bismarck, ND"; txt "Grand Forks, ND";
     txt "Minot, ND"; txt "Sioux Falls, SD"; txt "Rapid City, SD";
     txt "Aberdeen, SD"; txt "Brookings, SD"])
  ].

Definition dealer_names : list text :=
  [txt "Premium Auto Service"; txt "Honda Service Center";
   txt "BMW Authorized Dealer"; txt "Toyota Service Plus";
   txt "Ford Service Center"; txt "Chevrolet Dealership";
   txt "Nissan Service Hub"; txt "Mercedes-Benz Center";
   txt "Audi Service Station"; txt "Hyundai Service Point";
   txt "Kia Motors Service"; txt "Subaru Service Center";
   txt "Mazda Service Hub"; txt "Volkswagen Service";
   txt "Lexus Service Center"; txt "Acura Service Point";
   txt "Infiniti Service Hub"; txt "Cadillac Service Center";
   txt "Buick Service Station"; txt "GMC Service Hub";
   txt "Jeep Service Center"; txt "Ram Service Point";
   txt "Chrysler Service Hub"; txt "Dodge Service Center";
   txt "Lincoln Service Station"; txt "Volvo Service Center";
   txt "Jaguar Service Hub"; txt "Land Rover Service";
   txt "Porsche Service Center"; txt "Tesla Service Hub";
   txt "Genesis Service Point"; txt "Alfa Romeo Service";
   txt "Maserati Service Center"; txt "Bentley Service Hub";
   txt "Rolls-Royce Service"; txt "McLaren Service Point";
   txt "Ferrari Service Center"; txt "Lamborghini Service";
   txt "Aston Martin Service"; txt "Lotus Service Hub";
   txt "Mini Service Center"; txt "Smart Service Point";
   txt "Fiat Service Hub"; txt "Mitsubishi Service";
   txt "Suzuki Service Center"; txt "Isuzu Service Point";
   txt "Scion Service Hub"; txt "Saturn Service Center";
   txt "Pontiac Service Point"; txt "Oldsmobile Service";
   txt "Mercury Service Hub"].

Definition manufacturers : list (list text) :=
  [ [txt "Honda"; txt "Toyota"; txt "Nissan"];
    [txt "BMW"; txt "Mercedes"; txt "Audi"];
    [txt "Ford"; txt "Chevrolet"; txt "GMC"];
    [txt "Hyundai"; txt "Kia"; txt "Genesis"];
    [txt "Subaru"; txt "Mazda"; txt "Volkswagen"];
    [txt "Lexus"; txt "Acura"; txt "Infiniti"];
    [txt "Cadillac"; txt "Buick"; txt "Lincoln"];
    [txt "Jeep"; txt "Ram"; txt "Chrysler"];
    [txt "Volvo"; txt "Jaguar"; txt "Land Rover"];
    [txt "Porsche"; txt "Tesla"; txt "Mini"] ].

Definition services : list text :=
  [txt "oil_change"; txt "brake_service"; txt "tire_rotation";
   txt "general_inspection"; txt "engine_repair"; txt "transmission_service";
   txt "electrical_diagnosis"; txt "air_conditioning";
   txt "battery_replacement"; txt "tune_up"].

Definition specialties : list text :=
  [txt "Luxury Vehicles"; txt "Performance Tuning";
   txt "Service & Maintenance"; txt "Collision Repair"; txt "Paint & Body";
   txt "Electrical Systems"; txt "Hybrid & Electric"; txt "Diesel Engines";
   txt "Classic Cars"; txt "Commercial Vehicles"; txt "Fleet Services";
   txt "Warranty Work"].

Definition appointment_slots : list text :=
  [txt "09:00"; txt "10:30"; txt "13:00"; txt "14:30"; txt "16:00"].

Definition business_hours : list text :=
  [txt "Mon-Fri 8AM-6PM, Sat 8AM-4PM"; txt "Mon-Fri 7AM-7PM, Sat 8AM-5PM";
   txt "Mon-Fri 8AM-5PM, Sat 9AM-3PM"; txt "Mon-Sat 8AM-6PM, Sun 10AM-4PM";
   txt "Mon-Fri 7AM-6PM, Sat 8AM-4PM"].

(** A JSON-like value of a dealer record. *)
Unset Elimination Schemes.
Inductive jval :=
| JStr (s : text)
| JInt (z : Z)
| JBool (b : bool)
| JList (l : list jval)
| JDict (fields : list (string * jval)).
Set Elimination Schemes.

Definition jstrings (l : list text) : jval := JList (map JStr l).

(** *** Text helpers *)

(** [str.zfill]-like padding with zeros on the left, up to [width]. *)
Fixpoint zeros (k : nat) (digits : string) : string :=
  match k with
  | O => digits
  | S k' => String "0" (zeros k' digits)
  end.

Definition zero_pad (width : nat) (digits : string) : string :=
  zeros (width - String.length digits) digits.

(** [f"{index:03d}"] *)
Definition format_03d (index : Z) : string :=
  if index <? 0 then
    String "-" (zero_pad 2 (NilEmpty.string_of_uint (N.to_uint (Z.to_N (- index)))))
  else zero_pad 3 (NilEmpty.string_of_uint (N.to_uint (Z.to_N index))).

(** [generate_dealer_id] *)
Definition generate_dealer_id (index : Z) : string :=
  "DEALER-" ++ format_03d index.

(** [s.split(", ")]; [cur] is the piece being read. *)
Fixpoint split_comma_space (cur : text) (s : text) : list text :=
  match s with
  | [] => [cur]
  | c :: s' =>
      match s' with
      | c2 :: s'' =>
          if ((c =? 44) && (c2 =? 32))%N then cur :: split_comma_space [] s''
          else split_comma_space (cur ++ [c]) s'
      | [] => [cur ++ [c]]
      end
  end.

(** [", " in city] *)
Definition has_comma_space (city : text) : bool :=
  (1 <? List.length (split_comma_space [] city))%nat.

(** [extract_state_from_city] *)
Definition extract_state_from_city (city : text) : text :=
  if has_comma_space city then nth 1 (split_comma_space [] city) []
  else txt "Unknown".

(** [extract_city_name] *)
Definition extract_city_name (city : text) : text :=
  if has_comma_space city then nth 0 (split_comma_space [] city) []
  else city.

Definition ascii_lower (t : text) : text :=
  map (fun c => if ((65 <=? c) && (c <=? 90))%N then (c + 32)%N else c) t.

(** [s.replace(c, "")] for a single character [c]. *)
Definition remove_char (c : codepoint) (s : text) : text :=
  filter (fun x => negb (x =? c)%N) s.

Section Random.

(** The random source: an endless sequence of raw draws. *)
Variable raw : nat -> nat.

Record world := {
  draws : nat;
  stdout : list text
}.

Definition M := Eff.M world.

Definition print (line : text) : M unit :=
  fun w => (inr tt, {| draws := draws w; stdout := stdout w ++ [line] |}).

(** A draw below [n]. *)
Definition randbelow (n : nat) : M nat :=
  fun w => (inr (raw (draws w) mod n)%nat,
            {| draws := S (draws w); stdout := stdout w |}).

(** [random.choice] *)
Definition choice {A} (seq : list A) : M A :=
  match seq with
  | [] => raise (OtherError (txt "Cannot choose from an empty sequence"))
  | _ =>
      i <- randbelow (List.length seq) ;;
      match nth_error seq i with
      | Some x => ret x
      | None => raise (OtherError (txt "list index out of range"))
      end
  end.

(** [random.randint] *)
Definition randint (a b : Z) : M Z :=
  if b <? a then raise (ValueError (txt "empty range for randrange()"))
  else i <- randbelow (Z.to_nat (b - a + 1)) ;; ret (a + Z.of_nat i).

(** [random.random() < 0.3], as three draws in ten. *)
Definition chance_30_percent : M bool :=
  i <- randbelow 10 ;; ret (i <? 3)%nat.

Fixpoint remove_at {A} (i : nat) (l : list A) : list A :=
  match l, i with
  | [], _ => []
  | _ :: l', O => l'
  | x :: l', S i' => x :: remove_at i' l'
  end.

(** Drawing [k] elements without replacement. *)
Fixpoint sample_from {A} (pool : list A) (k : nat) : M (list A) :=
  match k with
  | O => ret []
  | S k' =>
      match pool with
      | [] => raise (ValueError (txt "Sample larger than population or is negative"))
      | _ =>
          i <- randbelow (List.length pool) ;;
          match nth_error pool i with
          | Some x =>
              rest <- sample_from (remove_at i pool) k' ;;
              ret (x :: rest)
          | None => raise (OtherError (txt "list index out of range"))
          end
      end
  end.

(** [random.sample] *)
Definition sample {A} (population : list A) (k : Z) : M (list A) :=
  if (k <? 0) || (len population <? k) then
    raise (ValueError (txt "Sample larger than population or is negative"))
  else sample_from population (Z.to_nat k).

(** *** The generator *)

(** [generate_phone_number] *)
Definition generate_phone_number : M text :=
  let area_codes :=
    [txt "555"; txt "312"; txt "404"; txt "213"; txt "617"; txt "202";
     txt "713"; txt "214"; txt "206"; txt "303"] in
  area_code <- choice area_codes ;;
  exchange <- randint 100 999 ;;
  number <- randint 1000 9999 ;;
  ret (txt "(" ++ area_code ++ txt ") " ++ str_of_Z exchange ++ txt "-"
       ++ str_of_Z number).

(** [generate_email] *)
Definition generate_email (dealer_name : text) : M text :=
  let clean_name := remove_char 45%N (remove_char 32%N (ascii_lower dealer_name)) in
  let domains :=
    [txt "gmail.com"; txt "dealership.com"; txt "autoservice.com";
     txt "service.com"] in
  domain <- choice domains ;;
  ret (txt "contact@" ++ slice_to clean_name 10 ++ txt "." ++ domain).

(** [generate_address] *)
Definition generate_address (city : text) : M text :=
  n <- randint 100 9999 ;;
  let street_numbers := [str_of_Z n] in
  let street_names :=
    [txt "Auto Lane"; txt "Service Blvd"; txt "Dealer Drive";
     txt "Mechanic Way"; txt "Repair Road"; txt "Motor Ave"; txt "Vehicle St";
     txt "Garage Blvd"; txt "Workshop Way"; txt "Maintenance Dr";
     txt "Parts Place"; txt "Service Center Dr"] in
  street_number <- choice street_numbers ;;
  street_name <- choice street_names ;;
  ret (street_number ++ txt " " ++ street_name ++ txt ", " ++ city).

(** [self.cities[region]] *)
Definition cities_of (region : string) : M (list text) :=
  match dict_get cities region with
  | Some l => ret l
  | None => raise (KeyError (txt "'" ++ txt region ++ txt "'"))
  end.

(** The keys of a dealer record, in the order the record is written. *)
Definition dealer_fields : list string :=
  ["name"; "region"; "location"; "state"; "city"; "manufacturer_specialties";
   "services"; "certified"; "contact"; "appointment_slots";
   "year_established"; "specialties"]%string.

(** [generate_dealer] *)
Definition generate_dealer (index : Z) : M jval :=
  let dealer_id := generate_dealer_id index in
  region <- choice regions ;;
  region_cities <- cities_of region ;;
  city <- choice region_cities ;;
  dealer_name <- choice dealer_names ;;
  suffix <- chance_30_percent ;;
  let dealer_name :=
    if suffix : bool then dealer_name ++ txt " - " ++ txt region
    else dealer_name in
  manufacturer_group <- choice manufacturers ;;
  n_services <- randint 4 8 ;;
  selected_services <- sample services n_services ;;
  n_specialties <- randint 2 4 ;;
  selected_specialties <- sample specialties n_specialties ;;
  certified <- choice [true; true; true; false] ;;
  phone <- generate_phone_number ;;
  address <- generate_address city ;;
  hours <- choice business_hours ;;
  email <- generate_email dealer_name ;;
  year_established <- randint 1995 2020 ;;
  ret (JDict
         [("name"%string, JStr dealer_name);
          ("region"%string, JStr (txt region));
          ("location"%string, JStr city);
          ("state"%string, JStr (extract_state_from_city city));
          ("city"%string, JStr (extract_city_name city));
          ("manufacturer_specialties"%string, jstrings manufacturer_group);
          ("services"%string, jstrings selected_services);
          ("certified"%string, JBool certified);
          ("contact"%string,
           JDict [("phone"%string, JStr phone);
                  ("address"%string, JStr address);
                  ("hours"%string, JStr hours);
                  ("email"%string, JStr email)]);
          ("appointment_slots"%string, jstrings appointment_slots);
          ("year_established"%string, JInt year_established);
          ("specialties"%string, jstrings selected_specialties)]).

(** The loop [for i in range(1, count + 1)] of [generate_database], over
    the indices still to do. *)
Fixpoint database_loop (count : Z) (indices : list Z) (database : dict jval)
  : M (dict jval) :=
  match indices with
  | [] => ret database
  | i :: rest =>
      let dealer_id := generate_dealer_id i in
      dealer <- generate_dealer i ;;
      let database := dict_set database dealer_id dealer in
      (if i mod 10 =? 0 then
         print (txt "Generated " ++ str_of_Z i ++ txt "/" ++ str_of_Z count
                ++ txt " dealers...")
       else ret tt) ;;;
      database_loop count rest database
  end.

(** [range(1, count + 1)] *)
Definition one_to (count : Z) : list Z :=
  map Z.of_nat (seq 1 (Z.to_nat count)).

(** [generate_database] *)
Definition generate_database (count : Z) : M (dict jval) :=
  print (txt "Generating " ++ str_of_Z count ++ txt " dealer records...") ;;;
  database_loop count (one_to count) [].

(** *** Every draw succeeds *)

(** [m] returns, and what it returns satisfies [P]. *)
Definition returns {A} (m : M A) (P : A -> Prop) : Prop :=
  forall w, exists a w', m w = (inr a, w') /\ P a.

Lemma returns_ret {A} (a : A) (P : A -> Prop) : P a -> returns (ret a) P.
Proof. intros H w. exists a, w. auto. Qed.

Lemma returns_bind {A B} (m : M A) (k : A -> M B) (P : A -> Prop)
    (Q : B -> Prop) :
  returns m P -> (forall a, P a -> returns (k a) Q) -> returns (bind m k) Q.
Proof.
  intros Hm Hk w. destruct (Hm w) as (a & w1 & Hrun & Ha).
  destruct (Hk a Ha w1) as (b & w2 & Hrun' & Hb).
  exists b, w2. unfold bind. rewrite Hrun. auto.
Qed.

Lemma returns_print line : returns (print line) (fun _ => True).
Proof. intros w. eexists; eexists; split; [reflexivity | exact I]. Qed.

Lemma randbelow_returns n :
  (0 < n)%nat -> returns (randbelow n) (fun i => (i < n)%nat).
Proof.
  intros Hn w. eexists; eexists; split; [reflexivity|].
  apply Nat.mod_upper_bound. lia.
Qed.

Lemma choice_returns {A} (seq : list A) :
  seq <> [] -> returns (choice seq) (fun x => In x seq).
Proof.
  intros Hne. unfold choice. destruct seq as [|x0 seq']; [easy|].
  set (l := x0 :: seq').
  apply returns_bind with (P := fun i => (i < List.length l)%nat).
  - apply randbelow_returns. simpl. lia.
  - intros i Hi. destruct (nth_error l i) as [x|] eqn:Hnth.
    + apply returns_ret. eapply nth_error_In; eauto.
    + apply nth_error_None in Hnth. lia.
Qed.

Lemma randint_returns a b :
  a <= b -> returns (randint a b) (fun z => a <= z <= b).
Proof.
  intros Hab. unfold randint.
  destruct (b <? a) eqn:E; [apply Z.ltb_lt in E; lia|].
  apply returns_bind with (P := fun i => (i < Z.to_nat (b - a + 1))%nat).
  - apply randbelow_returns. lia.
  - intros i Hi. apply returns_ret. lia.
Qed.

Lemma remove_at_length {A} (l : list A) : forall i,
  (i < List.length l)%nat -> List.length (remove_at i l) = pred (List.length l).
Proof.
  induction l as [|x l IH]; intros i Hi; simpl in *; [lia|].
  destruct i; [reflexivity|]. simpl. rewrite IH by lia. lia.
Qed.

Lemma sample_from_returns {A} k : forall pool : list A,
  (k <= List.length pool)%nat ->
  returns (sample_from pool k) (fun xs => List.length xs = k).
Proof.
  induction k as [|k IH]; intros pool Hk; simpl.
  - now apply returns_ret.
  - destruct pool as [|x0 pool']; [simpl in Hk; lia|].
    set (l := x0 :: pool') in *.
    apply returns_bind with (P := fun i => (i < List.length l)%nat).
    + apply randbelow_returns. simpl. lia.
    + intros i Hi. destruct (nth_error l i) as [x|] eqn:Hnth.
      * apply returns_bind with (P := fun xs => List.length xs = k).
        -- apply IH. rewrite remove_at_length by exact Hi. lia.
        -- intros xs Hxs. apply returns_ret. simpl. lia.
      * apply nth_error_None in Hnth. lia.
Qed.

Lemma sample_returns {A} (population : list A) k :
  0 <= k <= len population ->
  returns (sample population k) (fun xs => len xs = k).
Proof.
  intros Hk. unfold sample.
  destruct ((k <? 0) || (len population <? k)) eqn:E.
  - apply orb_prop in E as [E|E]; apply Z.ltb_lt in E; lia.
  - intros w.
    destruct (sample_from_returns (Z.to_nat k) population
                ltac:(unfold len in Hk; lia) w) as (xs & w' & Hrun & Hlen).
    exists xs, w'. split; [exact Hrun|]. unfold len. lia.
Qed.

Lemma cities_of_returns region :
  In region regions -> returns (cities_of region) (fun l => l <> []).
Proof.
  intros Hin. unfold cities_of.
  simpl in Hin. destruct Hin as [<-|[<-|[<-|[<-|[<-|[]]]]]];
    apply returns_ret; discriminate.
Qed.

(** A dealer record: a mapping with exactly the twelve fields. *)
Definition dealer_record (d : jval) : Prop :=
  exists fields, d = JDict fields /\ map fst fields = dealer_fields.

Lemma generate_dealer_returns index :
  returns (generate_dealer index) dealer_record.
Proof.
  unfold generate_dealer.
  eapply returns_bind; [apply choice_returns; discriminate|]. intros region Hregion.
  eapply returns_bind; [apply cities_of_returns; exact Hregion|]. intros cs Hcs.
  eapply returns_bind; [apply choice_returns; exact Hcs|]. intros city _.
  eapply returns_bind; [apply choice_returns; discriminate|]. intros name _.
  apply returns_bind with (P := fun _ => True);
    [unfold chance_30_percent; eapply returns_bind;
       [apply randbelow_returns; lia | intros; apply returns_ret; exact I]|].
  intros suffix _.
  eapply returns_bind; [apply choice_returns; discriminate|]. intros group _.
  eapply returns_bind; [apply randint_returns; lia|]. intros n1 Hn1.
  eapply returns_bind;
    [apply sample_returns; unfold len; cbv beta in *; simpl; lia|]. intros sv _.
  eapply returns_bind; [apply randint_returns; lia|]. intros n2 Hn2.
  eapply returns_bind;
    [apply sample_returns; unfold len; cbv beta in *; simpl; lia|]. intros sp _.
  eapply returns_bind; [apply choice_returns; discriminate|]. intros cert _.
  apply returns_bind with (P := fun _ => True).
  { unfold generate_phone_number.
    eapply returns_bind; [apply choice_returns; discriminate|]. intros ? _.
    eapply returns_bind; [apply randint_returns; lia|]. intros ? _.
    eapply returns_bind; [apply randint_returns; lia|]. intros ? _.
    apply returns_ret. exact I. }
  intros phone _.
  apply returns_bind with (P := fun _ => True).
  { unfold generate_address.
    eapply returns_bind; [apply randint_returns; lia|]. intros ? _.
    eapply returns_bind; [apply choice_returns; discriminate|]. intros ? _.
    eapply returns_bind; [apply choice_returns; discriminate|]. intros ? _.
    apply returns_ret. exact I. }
  intros address _.
  eapply returns_bind; [apply choice_returns; discriminate|]. intros hours _.
  apply returns_bind with (P := fun _ => True).
  { unfold generate_email.
    eapply returns_bind; [apply choice_returns; discriminate|]. intros ? _.
    apply returns_ret. exact I. }
  intros email _.
  eapply returns_bind; [apply randint_returns; lia|]. intros year _.
  apply returns_ret. eexists. split; reflexivity.
Qed.

(** *** Dealer ids do not collide *)

(** Reading a run of digits back. *)
Definition parse_digits (s : string) : option N :=
  option_map N.of_uint (NilEmpty.uint_of_string s).

Lemma parse_digits_zeros k digits :
  parse_digits (zeros k digits) = parse_digits digits.
Proof.
  induction k as [|k IH]; simpl; [reflexivity|].
  rewrite <- IH. unfold parse_digits. simpl.
  now destruct (NilEmpty.uint_of_string (zeros k digits)).
Qed.

Lemma parse_format_03d index :
  0 <= index -> parse_digits (format_03d index) = Some (Z.to_N index).
Proof.
  intros H. unfold format_03d.
  destruct (index <? 0) eqn:E; [apply Z.ltb_lt in E; lia|].
  unfold zero_pad. rewrite parse_digits_zeros. unfold parse_digits.
  rewrite NilEmpty.usu. simpl. now rewrite DecimalN.Unsigned.of_to.
Qed.

Lemma generate_dealer_id_inj i j :
  0 <= i -> 0 <= j -> generate_dealer_id i = generate_dealer_id j -> i = j.
Proof.
  intros Hi Hj Heq. unfold generate_dealer_id in Heq. simpl in Heq.
  injection Heq as Heq.
  pose proof (parse_format_03d i Hi) as Pi.
  pose proof (parse_format_03d j Hj) as Pj.
  rewrite Heq in Pi. rewrite Pi in Pj. injection Pj as Pj. lia.
Qed.

Lemma database_loop_returns count : forall indices database,
  Forall (fun i => 0 <= i) indices -> NoDup indices ->
  (forall i, In i indices -> ~ In (generate_dealer_id i) (keys database)) ->
  returns (database_loop count indices database)
    (fun db =>
       keys db = keys database ++ map generate_dealer_id indices /\
       forall k d, In (k, d) db -> In (k, d) database \/ dealer_record d).
Proof.
  induction indices as [|i rest IH]; intros database Hpos Hnd Hfresh; simpl.
  - apply returns_ret. rewrite app_nil_r. auto.
  - inversion Hpos as [|? ? Hi Hpos']; subst.
    inversion Hnd as [|? ? Hnotin Hnd']; subst.
    eapply returns_bind; [apply generate_dealer_returns|].
    intros dealer Hdealer. cbv beta in Hdealer.
    assert (Hset : dict_set database (generate_dealer_id i) dealer
                   = database ++ [(generate_dealer_id i, dealer)]).
    { apply dict_set_fresh.
      destruct (dict_mem database (generate_dealer_id i)) eqn:E; [|reflexivity].
      apply dict_mem_keys in E. exfalso. apply (Hfresh i); [now left | exact E]. }
    rewrite Hset.
    apply returns_bind with (P := fun _ => True).
    { destruct (i mod 10 =? 0); [apply returns_print | now apply returns_ret]. }
    intros _ _.
    intros w.
    destruct (IH (database ++ [(generate_dealer_id i, dealer)]) Hpos' Hnd') with (w := w)
      as (db & w' & Hrun & Hkeys & Hrec).
    { intros j Hj Hin. unfold keys in Hin. rewrite map_app in Hin.
      apply in_app_or in Hin as [Hin|[Heq|[]]].
      - apply (Hfresh j); [now right | exact Hin].
      - simpl in Heq.
        assert (i = j).
        { apply generate_dealer_id_inj; auto.
          rewrite Forall_forall in Hpos'. now apply Hpos'. }
        subst j. contradiction. }
    exists db, w'. split; [exact Hrun|]. split.
    + rewrite Hkeys. unfold keys. rewrite map_app, <- app_assoc. reflexivity.
    + intros k d Hin. destruct (Hrec k d Hin) as [Hold|Hnew]; [|now right].
      apply in_app_or in Hold as [Hold|[[= <- <-]|[]]]; auto.
Qed.

Lemma one_to_facts count :
  Forall (fun i => 0 <= i) (one_to count) /\ NoDup (one_to count) /\
  len (one_to count) = Z.max 0 count.
Proof.
  unfold one_to, len. repeat split.
  - apply Forall_forall. intros i Hi. apply in_map_iff in Hi as (n & <- & _). lia.
  - apply Injective_map_NoDup; [|apply seq_NoDup].
    intros a b. apply Nat2Z.inj.
  - rewrite length_map, length_seq. lia.
Qed.

(** C8. For every requested count [N >= 1] and whatever the random draws,
    [generate_database] returns a database of exactly [N] records whose keys
    are [DEALER-001] ... [DEALER-{N:03d}], in that order, and every record
    is a mapping with exactly the fields name, region, location, state, city,
    manufacturer_specialties, services, certified, contact,
    appointment_slots, year_established and specialties. *)
Theorem generate_database_records (count : Z) (w : world) :
  1 <= count ->
  exists database w',
    generate_database count w = (inr database, w') /\
    len database = count /\
    keys database = map generate_dealer_id (one_to count) /\
    (forall key dealer, In (key, dealer) database ->
       exists fields,
         dealer = JDict fields /\ map fst fields = dealer_fields /\
         forall field, In field dealer_fields -> dict_mem fields field = true).
Proof.
  intros Hcount. unfold generate_database, bind, print. simpl.
  destruct (one_to_facts count) as (Hpos & Hnd & Hlen).
  match goal with
  | |- context [database_loop count (one_to count) [] ?w0] =>
      destruct (database_loop_returns count (one_to count) [] Hpos Hnd
                  ltac:(intros i _ []) w0)
        as (db & w' & Hrun & Hkeys & Hrec)
  end.
  exists db, w'. split; [exact Hrun|]. simpl in Hkeys.
  split; [|split; [exact Hkeys|]].
  - unfold len in *. unfold keys in Hkeys.
    rewrite <- (length_map fst db), Hkeys, length_map. lia.
  - intros key dealer Hin.
    destruct (Hrec key dealer Hin) as [[]|(fields & -> & Hfields)].
    exists fields. repeat split; auto.
    intros field Hfield. apply dict_mem_keys. unfold keys.
    now rewrite Hfields.
Qed.

(** *** What every draw leaves behind *)

(** [m] returns, prints nothing, and what it returns satisfies [P]. *)
Definition draws_only {A} (m : M A) (P : A -> Prop) : Prop :=
  forall w, exists a w', m w = (inr a, w') /\ stdout w' = stdout w /\ P a.

Lemma draws_only_ret {A} (a : A) (P : A -> Prop) : P a -> draws_only (ret a) P.
Proof. intros H w. exists a, w. auto. Qed.

Lemma draws_only_bind {A B} (m : M A) (k : A -> M B) (P : A -> Prop)
    (Q : B -> Prop) :
  draws_only m P -> (forall a, P a -> draws_only (k a) Q) ->
  draws_only (bind m k) Q.
Proof.
  intros Hm Hk w. destruct (Hm w) as (a & w1 & Hrun & Hout & Ha).
  destruct (Hk a Ha w1) as (b & w2 & Hrun' & Hout' & Hb).
  exists b, w2. unfold bind. rewrite Hrun. repeat split; auto. congruence.
Qed.

Lemma randbelow_draws n :
  (0 < n)%nat -> draws_only (randbelow n) (fun i => (i < n)%nat).
Proof.
  intros Hn w. eexists; eexists. split; [reflexivity|]. split; [reflexivity|].
  apply Nat.mod_upper_bound. lia.
Qed.

Lemma choice_draws {A} (seq : list A) :
  seq <> [] -> draws_only (choice seq) (fun x => In x seq).
Proof.
  intros Hne. unfold choice. destruct seq as [|x0 seq']; [easy|].
  set (l := x0 :: seq').
  apply draws_only_bind with (P := fun i => (i < List.length l)%nat).
  - apply randbelow_draws. simpl. lia.
  - intros i Hi. destruct (nth_error l i) as [x|] eqn:Hnth.
    + apply draws_only_ret. eapply nth_error_In; eauto.
    + apply nth_error_None in Hnth. lia.
Qed.

Lemma randint_draws a b :
  a <= b ->
  draws_only (randint a b)
    (fun z => exists i, (i < Z.to_nat (b - a + 1))%nat /\ z = a + Z.of_nat i).
Proof.
  intros Hab. unfold randint.
  destruct (b <? a) eqn:E; [apply Z.ltb_lt in E; lia|].
  apply draws_only_bind with (P := fun i => (i < Z.to_nat (b - a + 1))%nat).
  - apply randbelow_draws. lia.
  - intros i Hi. apply draws_only_ret. exists i. auto.
Qed.

Lemma randint_between a b :
  a <= b -> draws_only (randint a b) (fun z => a <= z <= b).
Proof.
  intros Hab w. destruct (randint_draws a b Hab w) as (z & w' & Hrun & Hout & i & Hi & ->).
  exists (a + Z.of_nat i), w'. repeat split; auto; lia.
Qed.

Lemma remove_at_incl {A} (l : list A) : forall i, incl (remove_at i l) l.
Proof.
  induction l as [|x l IH]; intros i; [now destruct i|].
  destruct i; simpl; [apply incl_tl, incl_refl|].
  intros y [->|Hy]; [now left | right; now apply (IH i)].
Qed.

Lemma remove_at_NoDup {A} (l : list A) : forall i,
  NoDup l -> NoDup (remove_at i l).
Proof.
  induction l as [|x l IH]; intros i Hnd; [destruct i; constructor|].
  inversion Hnd as [|? ? Hnotin Hnd']; subst.
  destruct i; simpl; [exact Hnd'|].
  constructor; [|now apply IH].
  intros Hin. apply Hnotin. now apply (remove_at_incl l i).
Qed.

Lemma remove_at_drops {A} (l : list A) : forall i x,
  NoDup l -> nth_error l i = Some x -> ~ In x (remove_at i l).
Proof.
  induction l as [|y l IH]; intros i x Hnd Hnth; [now destruct i|].
  inversion Hnd as [|? ? Hnotin Hnd']; subst.
  destruct i; simpl in *.
  - now inversion Hnth; subst.
  - intros [->|Hin].
    + apply Hnotin. eapply nth_error_In; eauto.
    + now apply (IH i x).
Qed.

(** A sample is as long as asked, holds nothing twice and nothing from
    outside the population. *)
Lemma sample_from_draws {A} k : forall pool : list A,
  (k <= List.length pool)%nat -> NoDup pool ->
  draws_only (sample_from pool k)
    (fun xs => List.length xs = k /\ NoDup xs /\ incl xs pool).
Proof.
  induction k as [|k IH]; intros pool Hk Hnd; simpl.
  - apply draws_only_ret. repeat split; [constructor | intros x []].
  - destruct pool as [|x0 pool']; [simpl in Hk; lia|].
    set (l := x0 :: pool') in *.
    apply draws_only_bind with (P := fun i => (i < List.length l)%nat).
    + apply randbelow_draws. simpl. lia.
    + intros i Hi. destruct (nth_error l i) as [x|] eqn:Hnth.
      * apply draws_only_bind
          with (P := fun xs => List.length xs = k /\ NoDup xs
                               /\ incl xs (remove_at i l)).
        -- apply IH; [|now apply remove_at_NoDup].
           rewrite remove_at_length by exact Hi. lia.
        -- intros xs (Hlen & Hxs & Hincl). apply draws_only_ret.
           repeat split.
           ++ simpl. lia.
           ++ constructor; [|exact Hxs].
              intros Hin. apply (remove_at_drops l i x Hnd Hnth). auto.
           ++ intros y [<-|Hy]; [eapply nth_error_In; eauto|].
              apply (remove_at_incl l i). auto.
      * apply nth_error_None in Hnth. lia.
Qed.

Lemma sample_draws {A} (population : list A) k :
  0 <= k <= len population -> NoDup population ->
  draws_only (sample population k)
    (fun xs => len xs = k /\ NoDup xs /\ incl xs population).
Proof.
  intros Hk Hnd. unfold sample.
  destruct ((k <? 0) || (len population <? k)) eqn:E.
  - apply orb_prop in E as [E|E]; apply Z.ltb_lt in E; lia.
  - intros w.
    destruct (sample_from_draws (Z.to_nat k) population
                ltac:(unfold len in Hk; lia) Hnd w)
      as (xs & w' & Hrun & Hout & Hlen & Hxs & Hincl).
    exists xs, w'. repeat split; auto. unfold len. lia.
Qed.

Lemma cities_of_draws region :
  In region regions ->
  draws_only (cities_of region)
    (fun l => l <> [] /\ dict_get cities region = Some l).
Proof.
  intros Hin. unfold cities_of.
  simpl in Hin. destruct Hin as [<-|[<-|[<-|[<-|[<-|[]]]]]];
    apply draws_only_ret; split; (discriminate || reflexivity).
Qed.

(** *** The tables hold nothing twice, and every city names its state *)

Fixpoint text_eqb (a b : text) : bool :=
  match a, b with
  | [], [] => true
  | x :: a', y :: b' => (x =? y)%N && text_eqb a' b'
  | _, _ => false
  end.

Lemma text_eqb_eq a : forall b, text_eqb a b = true <-> a = b.
Proof.
  induction a as [|x a IH]; intros [|y b]; simpl; split; try easy.
  - intros H. apply andb_prop in H as [Hx Hab].
    apply N.eqb_eq in Hx. apply IH in Hab. congruence.
  - intros H. inversion H; subst. rewrite N.eqb_refl. now apply IH.
Qed.

Fixpoint distinct_texts (l : list text) : bool :=
  match l with
  | [] => true
  | x :: l' => negb (existsb (text_eqb x) l') && distinct_texts l'
  end.

Lemma distinct_texts_NoDup l : distinct_texts l = true -> NoDup l.
Proof.
  induction l as [|x l IH]; simpl; [constructor|].
  intros H. apply andb_prop in H as [Hx Hl]. constructor; [|auto].
  intros Hin. apply negb_true_iff in Hx.
  assert (existsb (text_eqb x) l = true); [|congruence].
  apply existsb_exists. exists x. split; [exact Hin | now apply text_eqb_eq].
Qed.

(** [city] reads "Name, ST". *)
Definition names_its_state (city : text) : bool :=
  text_eqb city
    (extract_city_name city ++ txt ", " ++ extract_state_from_city city)
  && (List.length (extract_state_from_city city) =? 2)%nat.

Lemma every_city_names_its_state region cs city :
  dict_get cities region = Some cs -> In city cs ->
  city = extract_city_name city ++ txt ", " ++ extract_state_from_city city /\
  List.length (extract_state_from_city city) = 2%nat.
Proof.
  intros Hget Hin.
  assert (Hall : forallb names_its_state (flat_map snd cities) = true)
    by (vm_compute; reflexivity).
  rewrite forallb_forall in Hall.
  assert (Hcity : In city (flat_map snd cities)).
  { apply in_flat_map. exists (region, cs). split; [|exact Hin].
    now apply dict_get_In. }
  apply Hall in Hcity. unfold names_its_state in Hcity.
  apply andb_prop in Hcity as [Heq Hlen].
  apply text_eqb_eq in Heq. apply Nat.eqb_eq in Hlen. auto.
Qed.

(** *** What every dealer record satisfies *)

(** The phone numbers: "(AAA) EEE-NNNN". *)
Definition is_digit (c : codepoint) : bool := ((48 <=? c) && (c <=? 57))%N.

Definition digits (n : nat) (t : text) : Prop :=
  List.length t = n /\ forallb is_digit t = true.

Definition phone_number (t : text) : Prop :=
  exists area exchange number,
    t = txt "(" ++ area ++ txt ") " ++ exchange ++ txt "-" ++ number /\
    digits 3 area /\ digits 3 exchange /\ digits 4 number.

Lemma str_of_Z_digits (a : Z) (count width : nat) :
  forallb (fun i => let t := str_of_Z (a + Z.of_nat i) in
                    (List.length t =? width)%nat && forallb is_digit t)
    (seq 0 count) = true ->
  forall i, (i < count)%nat -> digits width (str_of_Z (a + Z.of_nat i)).
Proof.
  intros Hall i Hi. rewrite forallb_forall in Hall.
  specialize (Hall i ltac:(apply in_seq; lia)). cbv zeta in Hall.
  apply andb_prop in Hall as [Hlen Hdig]. apply Nat.eqb_eq in Hlen.
  split; assumption.
Qed.

Lemma generate_phone_number_draws :
  draws_only generate_phone_number phone_number.
Proof.
  unfold generate_phone_number.
  eapply draws_only_bind; [apply choice_draws; discriminate|].
  intros area Harea.
  eapply draws_only_bind; [apply randint_draws; lia|].
  intros exchange (i & Hi & ->).
  eapply draws_only_bind; [apply randint_draws; lia|].
  intros number (j & Hj & ->).
  apply draws_only_ret. eexists; eexists; eexists. split; [reflexivity|].
  split; [|split].
  - simpl in Harea.
    repeat (destruct Harea as [<-|Harea]; [split; reflexivity|]).
    destruct Harea.
  - apply (str_of_Z_digits 100 900 3); [vm_compute; reflexivity | exact Hi].
  - apply (str_of_Z_digits 1000 (Z.to_nat 9000) 4); [vm_compute; reflexivity | exact Hj].
Qed.

Lemma generate_address_draws city :
  draws_only (generate_address city) (fun _ => True).
Proof.
  unfold generate_address.
  eapply draws_only_bind; [apply randint_between; lia|]. intros ? _.
  eapply draws_only_bind; [apply choice_draws; discriminate|]. intros ? _.
  eapply draws_only_bind; [apply choice_draws; discriminate|]. intros ? _.
  now apply draws_only_ret.
Qed.

Lemma generate_email_draws name :
  draws_only (generate_email name) (fun _ => True).
Proof.
  unfold generate_email.
  eapply draws_only_bind; [apply choice_draws; discriminate|]. intros ? _.
  now apply draws_only_ret.
Qed.

(** A record whose fields agree with each other and with the tables. *)
Definition sound_dealer (d : jval) : Prop :=
  exists name region city group chosen_services certified phone address hours
         email year chosen_specialties,
    d = JDict
          [("name"%string, JStr name);
           ("region"%string, JStr (txt region));
           ("location"%string, JStr city);
           ("state"%string, JStr (extract_state_from_city city));
           ("city"%string, JStr (extract_city_name city));
           ("manufacturer_specialties"%string, jstrings group);
           ("services"%string, jstrings chosen_services);
           ("certified"%string, JBool certified);
           ("contact"%string,
            JDict [("phone"%string, JStr phone);
                   ("address"%string, JStr address);
                   ("hours"%string, JStr hours);
                   ("email"%string, JStr email)]);
           ("appointment_slots"%string, jstrings appointment_slots);
           ("year_established"%string, JInt year);
           ("specialties"%string, jstrings chosen_specialties)] /\
    In region regions /\
    (exists cs, dict_get cities region = Some cs /\ In city cs) /\
    In group manufacturers /\
    (4 <= len chosen_services <= 8 /\ NoDup chosen_services
     /\ incl chosen_services services) /\
    (2 <= len chosen_specialties <= 4 /\ NoDup chosen_specialties
     /\ incl chosen_specialties specialties) /\
    phone_number phone /\ In hours business_hours /\
    1995 <= year <= 2020.

Lemma generate_dealer_sound index :
  draws_only (generate_dealer index) sound_dealer.
Proof.
  unfold generate_dealer.
  eapply draws_only_bind; [apply choice_draws; discriminate|].
  intros region Hregion.
  eapply draws_only_bind; [apply cities_of_draws; exact Hregion|].
  intros cs (Hcs & Hget).
  eapply draws_only_bind; [apply choice_draws; exact Hcs|]. intros city Hcity.
  eapply draws_only_bind; [apply choice_draws; discriminate|]. intros name _.
  apply draws_only_bind with (P := fun _ => True);
    [unfold chance_30_percent; eapply draws_only_bind;
       [apply randbelow_draws; lia | intros; now apply draws_only_ret]|].
  intros suffix _.
  eapply draws_only_bind; [apply choice_draws; discriminate|].
  intros group Hgroup.
  eapply draws_only_bind; [apply randint_between; lia|]. intros n1 Hn1.
  eapply draws_only_bind;
    [apply sample_draws;
       [unfold len; cbv beta in *; simpl; lia
       |apply distinct_texts_NoDup; reflexivity]|].
  intros sv (Hsv1 & Hsv2 & Hsv3).
  eapply draws_only_bind; [apply randint_between; lia|]. intros n2 Hn2.
  eapply draws_only_bind;
    [apply sample_draws;
       [unfold len; cbv beta in *; simpl; lia
       |apply distinct_texts_NoDup; reflexivity]|].
  intros sp (Hsp1 & Hsp2 & Hsp3).
  eapply draws_only_bind; [apply choice_draws; discriminate|]. intros cert _.
  eapply draws_only_bind; [apply generate_phone_number_draws|].
  intros phone Hphone.
  eapply draws_only_bind; [apply generate_address_draws|]. intros address _.
  eapply draws_only_bind; [apply choice_draws; discriminate|].
  intros hours Hhours.
  eapply draws_only_bind; [apply generate_email_draws|]. intros email _.
  eapply draws_only_bind; [apply randint_between; lia|]. intros year Hyear.
  apply draws_only_ret. cbv beta in *.
  do 12 eexists. split; [reflexivity|].
  repeat split; auto; try lia.
  exists cs. auto.
Qed.

(** X16. Whatever the random draws, [generate_dealer] returns a record
    whose place fields agree: the region is one of the five regions, the
    location is one of that region's cities, and the location reads as the
    record's city, a comma and a space, and the record's state, a
    two-letter code (never "Unknown"). *)
Theorem generate_dealer_places_agree (index : Z) (w : world) :
  exists fields w' region location,
    generate_dealer index w = (inr (JDict fields), w') /\
    dict_get fields "region" = Some (JStr (txt region)) /\
    dict_get fields "location" = Some (JStr location) /\
    In region regions /\
    (exists cs, dict_get cities region = Some cs /\ In location cs) /\
    dict_get fields "city" = Some (JStr (extract_city_name location)) /\
    dict_get fields "state" = Some (JStr (extract_state_from_city location)) /\
    location
    = extract_city_name location ++ txt ", "
      ++ extract_state_from_city location /\
    List.length (extract_state_from_city location) = 2%nat.
Proof.
  destruct (generate_dealer_sound index w)
    as (d & w' & Hrun & _ & name & region & city & group & sv & cert & phone
        & address & hours & email & year & sp & -> & Hregion & (cs & Hcs & Hcity)
        & _).
  destruct (every_city_names_its_state region cs city Hcs Hcity) as (Hform & Hlen).
  eexists; exists w', region, city. split; [exact Hrun|].
  repeat split; auto. exists cs. auto.
Qed.

(** X17. Whatever the random draws, the record [generate_dealer] returns
    lists between four and eight services and between two and four
    specialties, none twice and all from the generator's tables; its
    manufacturer group is one of the table's groups, its appointment slots
    are the five of the table, and its year of establishment lies between
    1995 and 2020. *)
Theorem generate_dealer_samples (index : Z) (w : world) :
  exists fields w' group chosen_services chosen_specialties year,
    generate_dealer index w = (inr (JDict fields), w') /\
    dict_get fields "manufacturer_specialties" = Some (jstrings group) /\
    In group manufacturers /\
    dict_get fields "services" = Some (jstrings chosen_services) /\
    4 <= len chosen_services <= 8 /\ NoDup chosen_services /\
    incl chosen_services services /\
    dict_get fields "specialties" = Some (jstrings chosen_specialties) /\
    2 <= len chosen_specialties <= 4 /\ NoDup chosen_specialties /\
    incl chosen_specialties specialties /\
    dict_get fields "appointment_slots" = Some (jstrings appointment_slots) /\
    dict_get fields "year_established" = Some (JInt year) /\
    1995 <= year <= 2020.
Proof.
  destruct (generate_dealer_sound index w)
    as (d & w' & Hrun & _ & name & region & city & group & sv & cert & phone
        & address & hours & email & year & sp & -> & _ & _ & Hgroup
        & (Hsv1 & Hsv2 & Hsv3) & (Hsp1 & Hsp2 & Hsp3) & _ & _ & Hyear).
  eexists; exists w', group, sv, sp, year. split; [exact Hrun|].
  repeat split; auto; lia.
Qed.

(** X18. Whatever the random draws, [generate_phone_number] returns a
    text of the form "(AAA) EEE-NNNN": an opening parenthesis, three
    digits, a closing parenthesis and a space, three digits, a hyphen and
    four digits, fourteen characters in all; and it prints nothing. *)
Theorem generate_phone_number_format (w : world) :
  exists phone w' area exchange number,
    generate_phone_number w = (inr phone, w') /\
    stdout w' = stdout w /\
    phone = txt "(" ++ area ++ txt ") " ++ exchange ++ txt "-" ++ number /\
    digits 3 area /\ digits 3 exchange /\ digits 4 number /\
    List.length phone = 14%nat.
Proof.
  destruct (generate_phone_number_draws w)
    as (phone & w' & Hrun & Hout & area & exchange & number & -> & Ha & He & Hn).
  eexists; exists w', area, exchange, number. repeat split; auto;
    try apply Ha; try apply He; try apply Hn.
  destruct Ha as [Ha _], He as [He _], Hn as [Hn _].
  rewrite !length_app, Ha, He, Hn. reflexivity.
Qed.

(** *** What [generate_database] prints *)

Definition progress_line (count i : Z) : text :=
  txt "Generated " ++ str_of_Z i ++ txt "/" ++ str_of_Z count
  ++ txt " dealers...".

Lemma database_loop_prints count : forall indices database w,
  exists db w',
    database_loop count indices database w = (inr db, w') /\
    stdout w'
    = stdout w
      ++ map (progress_line count) (filter (fun i => i mod 10 =? 0) indices).
Proof.
  induction indices as [|i rest IH]; intros database w.
  - exists database, w. simpl. now rewrite app_nil_r.
  - cbn [database_loop]. unfold bind at 1.
    destruct (generate_dealer_sound i w) as (d & w1 & Hrun & Hout & _).
    rewrite Hrun. unfold bind at 1. cbn [filter].
    destruct (i mod 10 =? 0).
    + unfold print at 1.
      match goal with
      | |- context [database_loop count rest ?db ?w0] =>
          destruct (IH db w0) as (db' & w' & Hloop & Hprint)
      end.
      exists db', w'. split; [exact Hloop|].
      rewrite Hprint. simpl. rewrite Hout, <- app_assoc. reflexivity.
    + unfold ret at 1.
      destruct (IH (dict_set database (generate_dealer_id i) d) w1)
        as (db' & w' & Hloop & Hprint).
      exists db', w'. split; [exact Hloop|]. now rewrite Hprint, Hout.
Qed.

(** X19. For every count, positive or not, and whatever the random draws,
    [generate_database] returns; it prints its opening line and then one
    progress line for each multiple of ten up to the count, in order, and
    nothing else. For a count of zero or less the database is empty and the
    opening line is all that is printed. *)
Theorem generate_database_prints (count : Z) (w : world) :
  exists database w',
    generate_database count w = (inr database, w') /\
    stdout w'
    = stdout w
      ++ (txt "Generating " ++ str_of_Z count ++ txt " dealer records...")
      :: map (progress_line count)
           (filter (fun i => i mod 10 =? 0) (one_to count)) /\
    (count <= 0 ->
     database = [] /\
     stdout w'
     = stdout w
       ++ [txt "Generating " ++ str_of_Z count ++ txt " dealer records..."]).
Proof.
  unfold generate_database, bind, print.
  match goal with
  | |- context [database_loop count (one_to count) [] ?w0] =>
      destruct (database_loop_prints count (one_to count) [] w0)
        as (db & w' & Hloop & Hprint)
  end.
  exists db, w'. split; [exact Hloop|]. simpl in Hprint.
  split; [rewrite Hprint, <- app_assoc; reflexivity|].
  intros Hle.
  assert (Hnone : one_to count = [])
    by (unfold one_to; replace (Z.to_nat count) with 0%nat by lia; reflexivity).
  rewrite Hnone in *. simpl in Hloop, Hprint. unfold ret in Hloop.
  inversion Hloop; subst. auto.
Qed.

End Random.

(** *** Sample runs *)

Example generate_dealer_id_examples :
  generate_dealer_id 1 = "DEALER-001"%string /\
  generate_dealer_id 42 = "DEALER-042"%string /\
  generate_dealer_id 999 = "DEALER-999"%string /\
  generate_dealer_id 1000 = "DEALER-1000"%string.
Proof. repeat split. Qed.

(** A fixed sequence of draws. *)
Definition counting (n : nat) : nat := (7 * n + 3)%nat.

Definition blank : world := {| draws := 0; stdout := [] |}.

Lemma generate_database_records_witness :
  1 <= 3 /\
  exists database w',
    generate_database counting 3 blank = (inr database, w') /\
    keys database = ["DEALER-001"; "DEALER-002"; "DEALER-003"]%string.
Proof.
  assert (H : 1 <= 3) by lia.
  split; [exact H|].
  destruct (generate_database_records counting 3 blank H)
    as (database & w' & Hrun & _ & Hkeys & _).
  exists database, w'. exact (conj Hrun Hkeys).
Defined.

Example generate_dealer_sample :
  match fst (generate_dealer counting 1 blank) with
  | inr (JDict fields) => map fst fields
  | _ => []
  end = dealer_fields.
Proof. vm_compute. reflexivity. Qed.

(** *** Reading a place back *)

Lemma split_comma_space_length s : forall cur cur',
  List.length (split_comma_space cur s)
  = List.length (split_comma_space cur' s).
Proof.
  induction s as [|c s IH]; intros cur cur'; [reflexivity|].
  cbn [split_comma_space]. destruct s as [|c2 s'']; [reflexivity|].
  destruct ((c =? 44) && (c2 =? 32))%N; [reflexivity | apply IH].
Qed.

Lemma split_comma_space_length_pos s : forall cur,
  (1 <= List.length (split_comma_space cur s))%nat.
Proof.
  induction s as [|c s IH]; intros cur; [simpl; lia|].
  cbn [split_comma_space]. destruct s as [|c2 s'']; [simpl; lia|].
  destruct ((c =? 44) && (c2 =? 32))%N; [simpl; lia | apply IH].
Qed.

Lemma has_comma_space_tail c s :
  has_comma_space (c :: s) = false -> has_comma_space s = false.
Proof.
  destruct s as [|c2 s'']; [reflexivity|].
  intros H. unfold has_comma_space in *.
  change (split_comma_space [] (c :: c2 :: s''))
    with (if ((c =? 44) && (c2 =? 32))%N
          then [] :: split_comma_space [] s''
          else split_comma_space ([] ++ [c]) (c2 :: s'')) in H.
  destruct ((c =? 44) && (c2 =? 32))%N.
  - apply Nat.ltb_ge in H. cbn [List.length] in H.
    pose proof (split_comma_space_length_pos s'' []). lia.
  - now rewrite (split_comma_space_length (c2 :: s'') [] ([] ++ [c])).
Qed.

(** A text without the separator is one piece. *)
Lemma split_comma_space_none s : forall cur,
  has_comma_space s = false -> split_comma_space cur s = [cur ++ s].
Proof.
  induction s as [|c s IH]; intros cur Hnone; [simpl; now rewrite app_nil_r|].
  pose proof (has_comma_space_tail c s Hnone) as Htail.
  cbn [split_comma_space]. destruct s as [|c2 s'']; [reflexivity|].
  destruct ((c =? 44) && (c2 =? 32))%N eqn:E.
  - unfold has_comma_space in Hnone. cbn [split_comma_space] in Hnone.
    rewrite E in Hnone. apply Nat.ltb_ge in Hnone. cbn [List.length] in Hnone.
    pose proof (split_comma_space_length_pos s'' []). lia.
  - rewrite IH by exact Htail. now rewrite <- app_assoc.
Qed.

(** The first separator ends the first piece. *)
Lemma split_comma_space_app name : forall cur rest,
  has_comma_space name = false ->
  split_comma_space cur (name ++ 44%N :: 32%N :: rest)
  = (cur ++ name) :: split_comma_space [] rest.
Proof.
  induction name as [|c name IH]; intros cur rest Hnone.
  - simpl. now rewrite app_nil_r.
  - pose proof (has_comma_space_tail c name Hnone) as Htail.
    rewrite <- app_comm_cons. cbn [split_comma_space].
    destruct name as [|c2 name''].
    + cbn [app]. replace ((c =? 44) && (44 =? 32))%N with false
        by now rewrite andb_false_r.
      pose proof (IH (cur ++ [c]) rest Htail) as Hrest.
      rewrite app_nil_r in Hrest. exact Hrest.
    + rewrite <- app_comm_cons.
      destruct ((c =? 44) && (c2 =? 32))%N eqn:E.
      * unfold has_comma_space in Hnone. cbn [split_comma_space] in Hnone.
        rewrite E in Hnone. apply Nat.ltb_ge in Hnone.
        cbn [List.length] in Hnone.
        pose proof (split_comma_space_length_pos name'' []). lia.
      * rewrite app_comm_cons, (IH (cur ++ [c]) rest Htail).
        now rewrite <- app_assoc.
Qed.

Lemma has_comma_space_app name rest :
  has_comma_space name = false ->
  has_comma_space (name ++ txt ", " ++ rest) = true.
Proof.
  intros Hnone. unfold has_comma_space.
  change (txt ", " ++ rest) with (44%N :: 32%N :: rest).
  rewrite split_comma_space_app by exact Hnone. cbn [List.length].
  pose proof (split_comma_space_length_pos rest []).
  apply Nat.ltb_lt. lia.
Qed.

(** X20. [extract_city_name] and [extract_state_from_city] read back what
    the "Name, ST" format holds: for a name and a state that contain no
    comma followed by a space, the name and the state are recovered from
    name + ", " + state, and also when further comma-separated parts
    follow the state, which are ignored. *)
Theorem city_and_state_read_back (name state : text) :
  has_comma_space name = false ->
  has_comma_space state = false ->
  extract_city_name (name ++ txt ", " ++ state) = name /\
  extract_state_from_city (name ++ txt ", " ++ state) = state /\
  forall more,
    extract_city_name (name ++ txt ", " ++ state ++ txt ", " ++ more) = name /\
    extract_state_from_city (name ++ txt ", " ++ state ++ txt ", " ++ more)
    = state.
Proof.
  intros Hname Hstate.
  assert (Hone : forall rest,
    extract_city_name (name ++ txt ", " ++ rest) = name /\
    extract_state_from_city (name ++ txt ", " ++ rest)
    = nth 0 (split_comma_space [] rest) []).
  { intros rest. unfold extract_city_name, extract_state_from_city.
    rewrite has_comma_space_app by exact Hname.
    change (txt ", " ++ rest) with (44%N :: 32%N :: rest).
    rewrite split_comma_space_app by exact Hname. split; reflexivity. }
  split; [apply Hone|]. split.
  - rewrite (proj2 (Hone state)), split_comma_space_none by exact Hstate.
    reflexivity.
  - intros more. split; [apply Hone|].
    rewrite (proj2 (Hone _)).
    change (txt ", " ++ more) with (44%N :: 32%N :: more).
    rewrite split_comma_space_app by exact Hstate. reflexivity.
Qed.

Lemma city_and_state_read_back_witness :
  extract_city_name (txt "Austin" ++ txt ", " ++ txt "TX") = txt "Austin" /\
  extract_state_from_city (txt "Austin" ++ txt ", " ++ txt "TX") = txt "TX".
Proof.
  destruct (city_and_state_read_back (txt "Austin") (txt "TX")
              eq_refl eq_refl) as (Hcity & Hstate & _).
  exact (conj Hcity Hstate).
Defined.

End DealerGen.

(** ** [aws-notebooklm/utils.py] *)

Module Podcast.
Import Py.

(** *** Substitution of the matches of a pattern *)

(** A pattern is given by its matcher: handed the text before the scan
    position (nearest character first) and the text from the position on, it
    answers with the replacement and the number of characters matched. All
    five patterns of [cleanup] match at least one character. *)
Definition matcher := text -> text -> option (text * nat).

(** [re.sub(pattern, repl, s)]: the scan goes left to right, tries the
    pattern at every position not inside an earlier match, and resumes
    right after a match; [skip] counts the characters of the current match
    still to pass over. Lookarounds see the subject text, not the output. *)
Fixpoint sub_from (m : matcher) (before : text) (skip : nat) (s : text) : text :=
  match s with
  | [] => []
  | c :: s' =>
      match skip with
      | S k => sub_from m (c :: before) k s'
      | O =>
          match m before s with
          | Some (repl, S k) => repl ++ sub_from m (c :: before) k s'
          | _ => c :: sub_from m (c :: before) 0 s'
          end
      end
  end.

Definition sub (m : matcher) (s : text) : text := sub_from m [] 0 s.

(** The longest prefix made of characters of a class, and the rest. *)
Fixpoint span (p : codepoint -> bool) (s : text) : text * text :=
  match s with
  | c :: s' =>
      if p c then let (run, rest) := span p s' in (c :: run, rest)
      else ([], s)
  | [] => ([], [])
  end.

Definition newline : codepoint := 10%N.
Definition space : codepoint := 32%N.
Definition hyphen : codepoint := 45%N.
Definition slash : codepoint := 47%N.
Definition capital_x : codepoint := 88%N.
Definition backslash : codepoint := 92%N.
Definition small_u : codepoint := 117%N.

Section Classes.

(** How the regex engine classes the code points outside ASCII
    ([unicode_word]) and outside the six ASCII blanks ([unicode_space]). *)
Variables unicode_word unicode_space : codepoint -> bool.

(** [\w] *)
Definition word_char (c : codepoint) : bool :=
  ((48 <=? c) && (c <=? 57) || (65 <=? c) && (c <=? 90)
   || (97 <=? c) && (c <=? 122) || (c =? 95)
   || (128 <=? c) && unicode_word c)%N.

(** [\s] *)
Definition space_char (c : codepoint) : bool :=
  ((9 <=? c) && (c <=? 13) || (c =? 32) || unicode_space c)%N.

(** [[0-9A-Fa-f]] *)
Definition hex_digit (c : codepoint) : bool :=
  ((48 <=? c) && (c <=? 57) || (65 <=? c) && (c <=? 70)
   || (97 <=? c) && (c <=? 102))%N.

(** [(\w+)-\n(\w+)] replaced by the two groups. Both groups are greedy;
    the first cannot give characters back, a hyphen being no word
    character. *)
Definition hyphen_break : matcher :=
  fun before s =>
    let (w1, r1) := span word_char s in
    match w1, r1 with
    | _ :: _, c1 :: c2 :: r2 =>
        if ((c1 =? hyphen) && (c2 =? newline))%N then
          let (w2, _) := span word_char r2 in
          match w2 with
          | _ :: _ => Some (w1 ++ w2, (List.length w1 + 2 + List.length w2)%nat)
          | [] => None
          end
        else None
    | _, _ => None
    end.

(** [(?<!\n\s)\n(?!\s\n)] replaced by a space. *)
Definition lone_newline : matcher :=
  fun before s =>
    match s with
    | c :: after =>
        if (c =? newline)%N then
          let behind :=
            match before with
            | b1 :: b2 :: _ => space_char b1 && (b2 =? newline)%N
            | _ => false
            end in
          let ahead :=
            match after with
            | a1 :: a2 :: _ => space_char a1 && (a2 =? newline)%N
            | _ => false
            end in
          if behind || ahead then None else Some ([space], 1%nat)
        else None
    | [] => None
    end.

(** Number of characters up to and including the last newline of [run],
    if it has one. *)
Fixpoint through_last_newline (run : text) : option nat :=
  match run with
  | [] => None
  | c :: run' =>
      match through_last_newline run' with
      | Some n => Some (S n)
      | None => if (c =? newline)%N then Some 1%nat else None
      end
  end.

(** [\n\s*\n] replaced by two newlines: the blanks are taken greedily
    and given back down to the last newline among them. *)
Definition blank_lines : matcher :=
  fun before s =>
    match s with
    | c :: after =>
        if (c =? newline)%N then
          let (run, _) := span space_char after in
          match through_last_newline run with
          | Some n => Some ([newline; newline], S n)
          | None => None
          end
        else None
    | [] => None
    end.

(** [[/X]] deleted: a character class, one character at a time. *)
Definition slash_or_x : matcher :=
  fun before s =>
    match s with
    | c :: _ =>
        if ((c =? slash) || (c =? capital_x))%N then Some ([], 1%nat) else None
    | [] => None
    end.

(** [(\\u[0-9A-Fa-f]+)] replaced by a space. *)
Definition unicode_escape : matcher :=
  fun before s =>
    match s with
    | c1 :: c2 :: rest =>
        if ((c1 =? backslash) && (c2 =? small_u))%N then
          let (digits, _) := span hex_digit rest in
          match digits with
          | _ :: _ => Some ([space], (2 + List.length digits)%nat)
          | [] => None
          end
        else None
    | _ => None
    end.

(** The five steps of [cleanup], in order. *)
Definition join_hyphens (t : text) : text := sub hyphen_break t.
Definition collapse_newlines (t : text) : text := sub lone_newline (strip t).
Definition normalize_blank_lines (t : text) : text := sub blank_lines t.
Definition strip_slash_x (t : text) : text := sub slash_or_x t.
Definition blank_escapes (t : text) : text := sub unicode_escape t.

(** [cleanup] *)
Definition cleanup (t : text) : text :=
  blank_escapes
    (strip_slash_x (normalize_blank_lines (collapse_newlines (join_hyphens t)))).

(** *** How a substitution proceeds *)

Lemma sub_from_skip (m : matcher) : forall x before s,
  sub_from m before (List.length x) (x ++ s) = sub_from m (rev x ++ before) 0 s.
Proof.
  induction x as [|a x IH]; intros before s; simpl; [reflexivity|].
  rewrite IH, <- app_assoc. reflexivity.
Qed.

Lemma sub_from_before (m : matcher) :
  (forall b b' s, m b s = m b' s) ->
  forall s b b' skip, sub_from m b skip s = sub_from m b' skip s.
Proof.
  intros Hm. induction s as [|c s IH]; intros b b' skip; simpl; [reflexivity|].
  destruct skip as [|k]; [|apply IH].
  rewrite (Hm b b'). destruct (m b' (c :: s)) as [[repl [|k]]|].
  - f_equal. apply IH.
  - f_equal. apply IH.
  - f_equal. apply IH.
Qed.

(** A match of [S k] characters at the head of [c :: x ++ rest], where [x]
    has [k] characters, puts the replacement in front of what the scan makes
    of [rest]. *)
Lemma sub_from_match (m : matcher) before c x rest repl :
  m before (c :: x ++ rest) = Some (repl, S (List.length x)) ->
  sub_from m before 0 (c :: x ++ rest)
  = repl ++ sub_from m (rev x ++ c :: before) 0 rest.
Proof. intros H. simpl. rewrite H, sub_from_skip. reflexivity. Qed.

Lemma sub_from_no_match (m : matcher) before c s :
  m before (c :: s) = None ->
  sub_from m before 0 (c :: s) = c :: sub_from m (c :: before) 0 s.
Proof. intros H. simpl. now rewrite H. Qed.

(** What the next character after a run must not be. *)
Definition stops (p : codepoint -> bool) (rest : text) : Prop :=
  match rest with
  | [] => True
  | c :: _ => p c = false
  end.

Lemma span_run p run rest :
  forallb p run = true -> stops p rest -> span p (run ++ rest) = (run, rest).
Proof.
  intros Hrun Hstop. induction run as [|c run IH]; simpl.
  - destruct rest as [|c rest]; [reflexivity|]. simpl in *. now rewrite Hstop.
  - simpl in Hrun. apply andb_prop in Hrun as [Hc Hrun].
    rewrite Hc, (IH Hrun). reflexivity.
Qed.

Lemma span_stop p c s : p c = false -> span p (c :: s) = ([], c :: s).
Proof. intros H. simpl. now rewrite H. Qed.

(** *** Step 1: hyphen breaks *)

Lemma hyphen_break_before b b' s : hyphen_break b s = hyphen_break b' s.
Proof. reflexivity. Qed.

Lemma word_char_hyphen : word_char hyphen = false.
Proof. reflexivity. Qed.

Lemma word_char_newline : word_char newline = false.
Proof. reflexivity. Qed.

Lemma join_hyphens_break w1 w2 rest :
  w1 <> [] -> w2 <> [] ->
  forallb word_char w1 = true -> forallb word_char w2 = true ->
  stops word_char rest ->
  join_hyphens (w1 ++ hyphen :: newline :: w2 ++ rest)
  = w1 ++ w2 ++ join_hyphens rest.
Proof.
  intros Hne1 Hne2 Hw1 Hw2 Hstop. unfold join_hyphens, sub.
  destruct w1 as [|c w1']; [easy|]. simpl app.
  assert (Hmatch : hyphen_break [] (c :: (w1' ++ hyphen :: newline :: w2) ++ rest)
                   = Some ((c :: w1') ++ w2,
                           S (List.length (w1' ++ hyphen :: newline :: w2)))).
  { unfold hyphen_break.
    replace (c :: (w1' ++ hyphen :: newline :: w2) ++ rest)
      with ((c :: w1') ++ hyphen :: newline :: w2 ++ rest)
      by (simpl; now rewrite <- app_assoc).
    rewrite (span_run word_char (c :: w1') (hyphen :: newline :: w2 ++ rest)
               Hw1 word_char_hyphen).
    simpl. rewrite (span_run word_char w2 rest Hw2 Hstop).
    destruct w2 as [|c2 w2']; [easy|].
    f_equal. f_equal. rewrite !length_app. simpl. lia. }
  replace (c :: w1' ++ hyphen :: newline :: w2 ++ rest)
    with (c :: (w1' ++ hyphen :: newline :: w2) ++ rest)
    by (simpl; now rewrite <- app_assoc).
  rewrite (sub_from_match _ _ _ _ _ _ Hmatch).
  rewrite (sub_from_before hyphen_break hyphen_break_before rest _ [] 0).
  simpl. now rewrite <- app_assoc.
Qed.

(** A hyphen break starts here: hyphen, newline, word character. *)
Definition breaks_here (s : text) : bool :=
  match s with
  | c1 :: c2 :: c3 :: _ => ((c1 =? hyphen) && (c2 =? newline))%N && word_char c3
  | _ => false
  end.

Lemma hyphen_break_none run c s :
  forallb word_char run = true -> word_char c = false ->
  breaks_here (c :: s) = false ->
  hyphen_break [] (run ++ c :: s) = None.
Proof.
  intros Hrun Hc Hbreak. unfold hyphen_break.
  rewrite (span_run word_char run (c :: s) Hrun Hc).
  destruct run as [|r run']; [reflexivity|].
  destruct s as [|c2 r2]; [reflexivity|].
  destruct ((c =? hyphen)%N && (c2 =? newline)%N) eqn:E; [|reflexivity].
  simpl in Hbreak. rewrite E in Hbreak.
  destruct r2 as [|c3 r3]; [reflexivity|].
  simpl in Hbreak. simpl span. rewrite Hbreak. reflexivity.
Qed.

Lemma join_hyphens_keeps run c s :
  forallb word_char run = true -> word_char c = false ->
  breaks_here (c :: s) = false ->
  join_hyphens (run ++ c :: s) = run ++ c :: join_hyphens s.
Proof.
  intros Hrun Hc Hbreak. unfold join_hyphens, sub.
  assert (Hgen : forall before,
            sub_from hyphen_break before 0 (run ++ c :: s)
            = run ++ c :: sub_from hyphen_break [] 0 s).
  { induction run as [|r run IH]; intros before.
    - simpl app. rewrite sub_from_no_match.
      + f_equal. apply sub_from_before, hyphen_break_before.
      + rewrite (hyphen_break_before before []).
        apply (hyphen_break_none [] c s); auto.
    - simpl in Hrun. apply andb_prop in Hrun as [Hr Hrun'].
      simpl app. rewrite sub_from_no_match.
      + f_equal. apply IH. exact Hrun'.
      + rewrite (hyphen_break_before before []).
        apply (hyphen_break_none (r :: run) c s); auto.
        simpl. now rewrite Hr, Hrun'. }
  apply Hgen.
Qed.

(** *** Step 2: lone newlines *)

(** The newline at index [i] of [s] is shielded: it directly follows a
    newline and one blank, or is directly followed by one blank and a
    newline. *)
Definition shielded (s : text) (i : nat) : bool :=
  (2 <=? i)%nat && space_char (nth (i - 1) s 0%N)
    && (nth (i - 2) s 0 =? newline)%N
  || (i + 2 <? List.length s)%nat && space_char (nth (i + 1) s 0%N)
       && (nth (i + 2) s 0 =? newline)%N.

(** The character the substitution leaves at index [i]. *)
Definition collapsed_at (s : text) (i : nat) : codepoint :=
  let c := nth i s 0%N in
  if (c =? newline)%N && negb (shielded s i) then space else c.

Lemma nth_after_rev (before t : text) j d :
  nth (List.length before + j) (rev before ++ t) d = nth j t d.
Proof.
  rewrite app_nth2; rewrite length_rev; [|lia]. f_equal. lia.
Qed.

Lemma nth_in_rev (before t : text) i d :
  (i < List.length before)%nat ->
  nth (List.length before - 1 - i) (rev before ++ t) d = nth i before d.
Proof.
  intros Hi. rewrite app_nth1 by (rewrite length_rev; lia).
  rewrite rev_nth by lia. f_equal. lia.
Qed.

Lemma lone_newline_at before c after :
  let s := rev before ++ c :: after in
  match lone_newline before (c :: after) with
  | Some (repl, n) => repl = [collapsed_at s (List.length before)] /\ n = 1%nat
  | None => collapsed_at s (List.length before) = c
  end.
Proof.
  intros s. unfold lone_newline, collapsed_at.
  assert (Hc : nth (List.length before) s 0%N = c).
  { subst s. replace (List.length before) with (List.length before + 0)%nat at 1 by lia.
    now rewrite nth_after_rev. }
  rewrite Hc.
  destruct (c =? newline)%N eqn:Hnl; [|reflexivity].
  assert (Hshield :
            shielded s (List.length before)
            = match before with
              | b1 :: b2 :: _ => space_char b1 && (b2 =? newline)%N
              | _ => false
              end
              || match after with
                 | a1 :: a2 :: _ => space_char a1 && (a2 =? newline)%N
                 | _ => false
                 end).
  { unfold shielded. f_equal.
    - destruct before as [|b1 [|b2 bs]]; try reflexivity.
      subst s.
      replace (List.length (b1 :: b2 :: bs) - 1)%nat
        with (List.length (b1 :: b2 :: bs) - 1 - 0)%nat by lia.
      replace (List.length (b1 :: b2 :: bs) - 2)%nat
        with (List.length (b1 :: b2 :: bs) - 1 - 1)%nat by lia.
      rewrite !nth_in_rev by (simpl; lia). reflexivity.
    - subst s. rewrite !nth_after_rev, length_app, length_rev.
      destruct after as [|a1 [|a2 rest]]; simpl.
      + replace (List.length before + 2 <? List.length before + 1)%nat
          with false by (symmetry; apply Nat.ltb_ge; lia). reflexivity.
      + replace (List.length before + 2 <? List.length before + 2)%nat
          with false by (symmetry; apply Nat.ltb_ge; lia). reflexivity.
      + replace (List.length before + 2
                 <? List.length before + S (S (S (List.length rest))))%nat
          with true by (symmetry; apply Nat.ltb_lt; lia). reflexivity. }
  rewrite Hshield.
  destruct (_ || _); simpl; auto.
Qed.

Lemma sub_from_lone_newline : forall s before,
  sub_from lone_newline before 0 s
  = map (collapsed_at (rev before ++ s))
        (seq (List.length before) (List.length s)).
Proof.
  induction s as [|c s IH]; intros before; [reflexivity|].
  pose proof (lone_newline_at before c s) as Hat. cbv zeta in Hat.
  cbn [sub_from List.length seq map].
  specialize (IH (c :: before)).
  replace (rev (c :: before) ++ s) with (rev before ++ c :: s) in IH
    by (simpl; now rewrite <- app_assoc).
  simpl List.length in IH.
  destruct (lone_newline before (c :: s)) as [[repl n]|].
  - destruct Hat as [-> ->]. simpl. now rewrite IH.
  - now rewrite Hat, IH.
Qed.

Lemma collapse_newlines_spec t :
  collapse_newlines t
  = map (collapsed_at (strip t)) (seq 0 (List.length (strip t))).
Proof. unfold collapse_newlines, sub. now rewrite sub_from_lone_newline. Qed.

(** *** Step 3: runs of blank lines *)

Lemma blank_lines_before b b' s : blank_lines b s = blank_lines b' s.
Proof. reflexivity. Qed.


Lemma through_last_newline_end run :
  through_last_newline (run ++ [newline]) = Some (S (List.length run)).
Proof.
  induction run as [|c run IH]; simpl; [reflexivity|]. now rewrite IH.
Qed.

Lemma normalize_blank_lines_run blanks rest :
  forallb space_char blanks = true -> stops space_char rest ->
  normalize_blank_lines (newline :: blanks ++ newline :: rest)
  = newline :: newline :: normalize_blank_lines rest.
Proof.
  intros Hblanks Hstop. unfold normalize_blank_lines, sub.
  replace (newline :: blanks ++ newline :: rest)
    with (newline :: (blanks ++ [newline]) ++ rest)
    by (now rewrite <- app_assoc).
  rewrite (sub_from_match blank_lines [] newline (blanks ++ [newline]) rest
             [newline; newline]).
  - simpl. do 2 f_equal. apply sub_from_before, blank_lines_before.
  - unfold blank_lines. simpl N.eqb. cbv iota.
    rewrite (span_run space_char (blanks ++ [newline]) rest); auto.
    + rewrite through_last_newline_end, length_app. simpl.
      do 3 f_equal. lia.
    + rewrite forallb_app, Hblanks. reflexivity.
Qed.

Lemma normalize_blank_lines_keeps c s :
  c <> newline -> normalize_blank_lines (c :: s) = c :: normalize_blank_lines s.
Proof.
  intros Hc. unfold normalize_blank_lines, sub.
  rewrite sub_from_no_match.
  - f_equal. apply sub_from_before, blank_lines_before.
  - unfold blank_lines. apply N.eqb_neq in Hc. now rewrite Hc.
Qed.

(** *** Step 4: slashes and capital X *)

Definition neither_slash_nor_x (c : codepoint) : bool :=
  negb ((c =? slash) || (c =? capital_x))%N.

Lemma sub_from_slash_or_x : forall s before,
  sub_from slash_or_x before 0 s = filter neither_slash_nor_x s.
Proof.
  induction s as [|c s IH]; intros before; [reflexivity|].
  simpl. unfold neither_slash_nor_x.
  destruct ((c =? slash) || (c =? capital_x))%N; simpl; now rewrite IH.
Qed.

Lemma strip_slash_x_spec t : strip_slash_x t = filter neither_slash_nor_x t.
Proof. apply sub_from_slash_or_x. Qed.

(** *** Step 5: unicode escapes *)

Lemma unicode_escape_before b b' s : unicode_escape b s = unicode_escape b' s.
Proof. reflexivity. Qed.

Lemma blank_escapes_escape digits rest :
  digits <> [] -> forallb hex_digit digits = true -> stops hex_digit rest ->
  blank_escapes (backslash :: small_u :: digits ++ rest)
  = space :: blank_escapes rest.
Proof.
  intros Hne Hdigits Hstop. unfold blank_escapes, sub.
  replace (backslash :: small_u :: digits ++ rest)
    with (backslash :: (small_u :: digits) ++ rest) by reflexivity.
  rewrite (sub_from_match unicode_escape [] backslash (small_u :: digits) rest
             [space]).
  - simpl. f_equal. apply sub_from_before, unicode_escape_before.
  - unfold unicode_escape. simpl app. simpl N.eqb. cbv iota.
    rewrite (span_run hex_digit digits rest Hdigits Hstop).
    destruct digits as [|d digits']; [easy|]. reflexivity.
Qed.

Lemma blank_escapes_keeps c s :
  c <> backslash -> blank_escapes (c :: s) = c :: blank_escapes s.
Proof.
  intros Hc. unfold blank_escapes, sub.
  rewrite sub_from_no_match.
  - f_equal. apply sub_from_before, unicode_escape_before.
  - unfold unicode_escape. apply N.eqb_neq in Hc.
    destruct s as [|c2 rest]; [reflexivity|]. now rewrite Hc.
Qed.

(** The last step only blanks characters out: it brings in nothing but
    spaces. *)
Lemma unicode_escape_repl before s repl n :
  unicode_escape before s = Some (repl, n) -> repl = [space].
Proof.
  unfold unicode_escape. destruct s as [|x [|x2 rest]]; try discriminate.
  destruct ((x =? backslash) && (x2 =? small_u))%N; [|discriminate].
  destruct (span hex_digit rest) as [[|d ds] r]; [discriminate|].
  intros H. now inversion H.
Qed.

Lemma sub_from_unicode_escape_In : forall s before skip c,
  In c (sub_from unicode_escape before skip s) -> c = space \/ In c s.
Proof.
  induction s as [|x s IH]; intros before skip c Hin; [destruct Hin|].
  destruct skip as [|k]; cbn [sub_from] in Hin.
  - destruct (unicode_escape before (x :: s)) as [[repl [|n]]|] eqn:Hm.
    + destruct Hin as [->|Hin]; [right; now left|].
      destruct (IH _ _ _ Hin); auto. right. now right.
    + apply unicode_escape_repl in Hm. subst repl.
      destruct Hin as [<-|Hin]; [now left|].
      destruct (IH _ _ _ Hin); auto. right. now right.
    + destruct Hin as [->|Hin]; [right; now left|].
      destruct (IH _ _ _ Hin); auto. right. now right.
  - destruct (IH _ _ _ Hin); auto. right. now right.
Qed.

Lemma cleanup_no_slash_no_x t :
  ~ In slash (cleanup t) /\ ~ In capital_x (cleanup t).
Proof.
  unfold cleanup, blank_escapes, sub.
  split; intros Hin;
    apply sub_from_unicode_escape_In in Hin as [Hsp|Hin]; try discriminate;
    rewrite strip_slash_x_spec in Hin; apply filter_In in Hin as [_ Hf];
    discriminate.
Qed.

(** The five steps on a text that begins with an occurrence: (1) a word
    broken by a hyphen and a newline is joined with its continuation; (2)
    after stripping the text, every newline becomes a space unless it is
    shielded, every other character stays; (3) a newline, blanks and a
    newline become two newlines; (4) every slash and every capital X is
    deleted; (5) a backslash and a [u] followed by hexadecimal digits
    become one space. *)
Lemma cleanup_step_equations
    (t w1 w2 blanks digits after_word after_blanks after_digits : text) :
  w1 <> [] -> w2 <> [] ->
  forallb word_char w1 = true -> forallb word_char w2 = true ->
  stops word_char after_word ->
  forallb space_char blanks = true -> stops space_char after_blanks ->
  digits <> [] -> forallb hex_digit digits = true ->
  stops hex_digit after_digits ->
  join_hyphens (w1 ++ hyphen :: newline :: w2 ++ after_word)
  = w1 ++ w2 ++ join_hyphens after_word
  /\ collapse_newlines t
     = map (collapsed_at (strip t)) (seq 0 (List.length (strip t)))
  /\ normalize_blank_lines (newline :: blanks ++ newline :: after_blanks)
     = newline :: newline :: normalize_blank_lines after_blanks
  /\ strip_slash_x t = filter neither_slash_nor_x t
  /\ blank_escapes (backslash :: small_u :: digits ++ after_digits)
     = space :: blank_escapes after_digits
  /\ ~ In slash (cleanup t) /\ ~ In capital_x (cleanup t).
Proof.
  intros Hne1 Hne2 Hw1 Hw2 Hword Hblanks Hspace Hned Hdigits Hhex.
  split; [now apply join_hyphens_break|].
  split; [apply collapse_newlines_spec|].
  split; [now apply normalize_blank_lines_run|].
  split; [apply strip_slash_x_spec|].
  split; [now apply blank_escapes_escape|].
  apply cleanup_no_slash_no_x.
Qed.

(** *** The length of the cleaned text *)

(** A match never covers more than is left of the text, and what replaces
    it is no longer than the match. *)
Definition shrinking (m : matcher) : Prop :=
  forall b s repl n,
    m b s = Some (repl, n) ->
    (List.length repl <= n /\ n <= List.length s)%nat.

Lemma sub_from_length (m : matcher) :
  shrinking m ->
  forall s before skip,
    (List.length (sub_from m before skip s) + Nat.min skip (List.length s)
     <= List.length s)%nat.
Proof.
  intros Hm. induction s as [|c s IH]; intros before skip; [simpl; lia|].
  cbn [sub_from]. destruct skip as [|k].
  - destruct (m before (c :: s)) as [[repl [|k]]|] eqn:E.
    + specialize (IH (c :: before) 0%nat). simpl in *. lia.
    + destruct (Hm _ _ _ _ E) as [Hrepl Hn].
      specialize (IH (c :: before) k). rewrite length_app.
      simpl in *. lia.
    + specialize (IH (c :: before) 0%nat). simpl in *. lia.
  - specialize (IH (c :: before) k). simpl in *. lia.
Qed.

Lemma sub_length (m : matcher) s :
  shrinking m -> (List.length (sub m s) <= List.length s)%nat.
Proof.
  intros Hm. pose proof (sub_from_length m Hm s [] 0%nat). unfold sub. lia.
Qed.

Lemma span_app p s : forall run rest, span p s = (run, rest) -> s = run ++ rest.
Proof.
  induction s as [|c s IH]; intros run rest H; simpl in H.
  - now inversion H.
  - destruct (p c); [|now inversion H].
    destruct (span p s) as [run' rest'] eqn:E. inversion H; subst.
    simpl. f_equal. now apply IH.
Qed.

Lemma through_last_newline_bounds run n :
  through_last_newline run = Some n -> (1 <= n <= List.length run)%nat.
Proof.
  revert n. induction run as [|c run IH]; intros n H; simpl in H; [discriminate|].
  destruct (through_last_newline run) as [n'|].
  - inversion H; subst. specialize (IH n' eq_refl). simpl. lia.
  - destruct (c =? newline)%N; inversion H; subst. simpl. lia.
Qed.

Lemma hyphen_break_shrinking : shrinking hyphen_break.
Proof.
  intros b s repl n H. unfold hyphen_break in H.
  destruct (span word_char s) as [w1 r1] eqn:E1.
  apply span_app in E1. subst s.
  destruct w1 as [|a w1]; [discriminate|].
  destruct r1 as [|c1 [|c2 r2]]; try discriminate.
  destruct ((c1 =? hyphen) && (c2 =? newline))%N; [|discriminate].
  destruct (span word_char r2) as [w2 r3] eqn:E2.
  apply span_app in E2. subst r2.
  destruct w2 as [|a2 w2]; [discriminate|].
  inversion H; subst. rewrite !length_app. simpl. rewrite !length_app.
  simpl. lia.
Qed.

Lemma lone_newline_shrinking : shrinking lone_newline.
Proof.
  intros b s repl n H. unfold lone_newline in H.
  destruct s as [|c after]; [discriminate|].
  destruct (c =? newline)%N; [|discriminate].
  match type of H with (if ?t then _ else _) = _ => destruct t end;
    [discriminate|].
  inversion H; subst. simpl. lia.
Qed.

Lemma blank_lines_shrinking : shrinking blank_lines.
Proof.
  intros b s repl n H. unfold blank_lines in H.
  destruct s as [|c after]; [discriminate|].
  destruct (c =? newline)%N; [|discriminate].
  destruct (span space_char after) as [run rest] eqn:E.
  apply span_app in E. subst after.
  destruct (through_last_newline run) as [k|] eqn:Ek; [|discriminate].
  apply through_last_newline_bounds in Ek.
  inversion H; subst. simpl. rewrite length_app. lia.
Qed.

Lemma slash_or_x_shrinking : shrinking slash_or_x.
Proof.
  intros b s repl n H. unfold slash_or_x in H.
  destruct s as [|c after]; [discriminate|].
  destruct ((c =? slash) || (c =? capital_x))%N; [|discriminate].
  inversion H; subst. simpl. lia.
Qed.

Lemma unicode_escape_shrinking : shrinking unicode_escape.
Proof.
  intros b s repl n H. unfold unicode_escape in H.
  destruct s as [|c1 [|c2 rest]]; try discriminate.
  destruct ((c1 =? backslash) && (c2 =? small_u))%N; [|discriminate].
  destruct (span hex_digit rest) as [digits rest'] eqn:E.
  apply span_app in E. subst rest.
  destruct digits as [|d digits]; [discriminate|].
  inversion H; subst. simpl. rewrite length_app. lia.
Qed.

Lemma lstrip_length s : (List.length (lstrip s) <= List.length s)%nat.
Proof.
  induction s as [|c s IH]; simpl; [lia|].
  destruct (is_space c); simpl; lia.
Qed.

Lemma strip_length s : (List.length (strip s) <= List.length s)%nat.
Proof.
  unfold strip, rstrip. rewrite length_rev.
  pose proof (lstrip_length (rev (lstrip s))) as H. rewrite length_rev in H.
  pose proof (lstrip_length s). lia.
Qed.

(** X21. [cleanup] never lengthens a text: each of its five substitutions
    replaces a match by something no longer, and the strip only removes
    characters. *)
Theorem cleanup_never_lengthens (t : text) :
  (List.length (cleanup t) <= List.length t)%nat.
Proof.
  unfold cleanup, blank_escapes, strip_slash_x, normalize_blank_lines,
    collapse_newlines, join_hyphens.
  eapply Nat.le_trans; [apply sub_length, unicode_escape_shrinking|].
  eapply Nat.le_trans; [apply sub_length, slash_or_x_shrinking|].
  eapply Nat.le_trans; [apply sub_length, blank_lines_shrinking|].
  eapply Nat.le_trans; [apply sub_length, lone_newline_shrinking|].
  eapply Nat.le_trans; [apply strip_length|].
  apply sub_length, hyphen_break_shrinking.
Qed.

(** *** A text of one line *)

Lemma sub_from_clear (m : matcher) (x : codepoint) :
  (forall b s, ~ In x s -> m b s = None) ->
  forall s b, ~ In x s -> sub_from m b 0 s = s.
Proof.
  intros Hm. induction s as [|c s IH]; intros b Hx; [reflexivity|].
  rewrite sub_from_no_match by (apply Hm; exact Hx).
  f_equal. apply IH. intros Hin. apply Hx. now right.
Qed.

Lemma hyphen_break_needs_newline b s :
  ~ In newline s -> hyphen_break b s = None.
Proof.
  intros Hx. unfold hyphen_break.
  destruct (span word_char s) as [w1 r1] eqn:E1.
  apply span_app in E1. subst s.
  destruct w1 as [|a w1]; [reflexivity|].
  destruct r1 as [|c1 [|c2 r2]]; try reflexivity.
  destruct ((c1 =? hyphen) && (c2 =? newline))%N eqn:E; [|reflexivity].
  apply andb_prop in E as [_ E]. apply N.eqb_eq in E. subst c2.
  exfalso. apply Hx. apply in_or_app. right. right. now left.
Qed.

Lemma lone_newline_needs_newline b s :
  ~ In newline s -> lone_newline b s = None.
Proof.
  intros Hx. unfold lone_newline. destruct s as [|c after]; [reflexivity|].
  destruct (c =? newline)%N eqn:E; [|reflexivity].
  apply N.eqb_eq in E. subst c. exfalso. apply Hx. now left.
Qed.

Lemma blank_lines_needs_newline b s :
  ~ In newline s -> blank_lines b s = None.
Proof.
  intros Hx. unfold blank_lines. destruct s as [|c after]; [reflexivity|].
  destruct (c =? newline)%N eqn:E; [|reflexivity].
  apply N.eqb_eq in E. subst c. exfalso. apply Hx. now left.
Qed.

Lemma unicode_escape_needs_backslash b s :
  ~ In backslash s -> unicode_escape b s = None.
Proof.
  intros Hx. unfold unicode_escape.
  destruct s as [|c1 [|c2 rest]]; try reflexivity.
  destruct ((c1 =? backslash) && (c2 =? small_u))%N eqn:E; [|reflexivity].
  apply andb_prop in E as [E _]. apply N.eqb_eq in E. subst c1.
  exfalso. apply Hx. now left.
Qed.

Lemma lstrip_In c s : In c (lstrip s) -> In c s.
Proof.
  induction s as [|a s IH]; simpl; [auto|].
  destruct (is_space a); [intros H; right; auto | auto].
Qed.

Lemma strip_In c s : In c (strip s) -> In c s.
Proof.
  unfold strip, rstrip. intros H.
  apply in_rev in H. apply lstrip_In in H. apply in_rev in H.
  now apply lstrip_In.
Qed.

(** X22. On a text of one line without a backslash, [cleanup] strips the
    blanks at both ends and deletes every slash and every capital X, and
    does nothing else. *)
Theorem cleanup_of_one_line (t : text) :
  ~ In newline t -> ~ In backslash t ->
  cleanup t = filter neither_slash_nor_x (strip t).
Proof.
  intros Hnl Hbs.
  assert (Hstrip : ~ In newline (strip t))
    by (intros H; apply Hnl; now apply strip_In).
  unfold cleanup, blank_escapes, normalize_blank_lines, collapse_newlines,
    join_hyphens, sub.
  rewrite (sub_from_clear hyphen_break newline hyphen_break_needs_newline t [] Hnl).
  rewrite (sub_from_clear lone_newline newline lone_newline_needs_newline
             (strip t) [] Hstrip).
  rewrite (sub_from_clear blank_lines newline blank_lines_needs_newline
             (strip t) [] Hstrip).
  rewrite strip_slash_x_spec.
  apply (sub_from_clear unicode_escape backslash unicode_escape_needs_backslash).
  intros H. apply filter_In in H as [H _]. apply Hbs. now apply strip_In.
Qed.

(** *** The five steps, as replacements of occurrences *)



















End Classes.

(** The classes restricted to ASCII: no code point above 127 counts as a
    word character or as a blank. *)
Definition ascii_only : codepoint -> bool := fun _ => false.

Lemma cleanup_step_equations_sample :
  join_hyphens ascii_only (txt "ab" ++ hyphen :: newline :: txt "cd" ++ txt " x")
  = txt "abcd x"
  /\ normalize_blank_lines ascii_only
       (newline :: txt " " ++ newline :: txt "x")
     = newline :: newline :: txt "x"
  /\ blank_escapes (backslash :: small_u :: txt "12" ++ txt " x")
     = txt "  x"
  /\ ~ In slash (cleanup ascii_only ascii_only (txt "a/b")).
Proof.
  assert (H1 : txt "ab" <> []) by discriminate.
  assert (H2 : txt "cd" <> []) by discriminate.
  assert (H3 : forallb (word_char ascii_only) (txt "ab") = true) by reflexivity.
  assert (H4 : forallb (word_char ascii_only) (txt "cd") = true) by reflexivity.
  assert (H5 : stops (word_char ascii_only) (txt " x")) by reflexivity.
  assert (H6 : forallb (space_char ascii_only) (txt " ") = true) by reflexivity.
  assert (H7 : stops (space_char ascii_only) (txt "x")) by reflexivity.
  assert (H8 : txt "12" <> []) by discriminate.
  assert (H9 : forallb hex_digit (txt "12") = true) by reflexivity.
  assert (H10 : stops hex_digit (txt " x")) by reflexivity.
  destruct (cleanup_step_equations ascii_only ascii_only (txt "a/b") (txt "ab")
              (txt "cd")
              (txt " ") (txt "12") (txt " x") (txt "x") (txt " x")
              H1 H2 H3 H4 H5 H6 H7 H8 H9 H10)
    as (Hjoin & _ & Hrun & _ & Hesc & Hslash & _).
  exact (conj Hjoin (conj Hrun (conj Hesc Hslash))).
Defined.

(** [cleanup] on ASCII text. *)
Definition cleanup_ascii (s : string) : text :=
  cleanup (fun _ => false) (fun _ => false) (txt s).

Definition nl : string := String (ascii_of_nat 10) EmptyString.


(** A paragraph break survives when it is three newlines long, or holds
    one blank between its two newlines. *)
Example cleanup_keeps_long_breaks :
  cleanup_ascii ("a" ++ nl ++ nl ++ nl ++ "b") = txt ("a" ++ nl ++ nl ++ "b")
  /\ cleanup_ascii ("a" ++ nl ++ " " ++ nl ++ "b")
     = txt ("a" ++ nl ++ nl ++ "b").
Proof. split; vm_compute; reflexivity. Qed.

Example cleanup_sample :
  cleanup_ascii ("hyphen-" ++ nl ++ "ated word" ++ nl ++ "next \u12ab.")
  = txt "hyphenated word next  .".
Proof. vm_compute. reflexivity. Qed.

Example cleanup_joins_one_break_per_word :
  cleanup_ascii ("ab-" ++ nl ++ "cd-" ++ nl ++ "ef") = txt "abcd- ef".
Proof. vm_compute. reflexivity. Qed.

(** *** The audio files *)

Section Audio.
Import Eff.

(** [repr] of a string, which is how a [KeyError] shows the missing key. *)
Variable repr : text -> text.

(** [tempfile.TemporaryDirectory().name], for the k-th such directory. *)
Variable temporary_directory : nat -> text.

(** What Polly raises, if anything, for a voice and a text; and what the
    file system raises, if anything, for a path to make or to write. The
    other settings of the Polly request are constants of [generate_audio]. *)
Variable synthesize_speech : text -> text -> option exn.
Variable file_system : text -> option exn.

(** [int((i+1)/len(extracted_speech) * 100)], a computation on floats,
    as a function of [i+1] and the length. *)
Variable percent : Z -> Z -> Z.

Record studio := {
  audio_dir : text;                         (** the module's global *)
  temporaries : nat;                        (** temporary directories so far *)
  directories : list text;                  (** directories made *)
  recordings : list (text * text * text);   (** voice, text, file written *)
  progress : list (Z * text)                (** what the progress bar showed *)
}.

Definition M := Eff.M studio.

Definition host_name : text := txt "Amy".

(** [generate_audio] *)
Definition generate_audio (voice_id speech file_name : text) : M text :=
  fun w =>
    match synthesize_speech voice_id speech with
    | Some e => (inl e, w)
    | None =>
        match file_system file_name with
        | Some e => (inl e, w)
        | None =>
            (inr file_name,
             {| audio_dir := audio_dir w;
                temporaries := temporaries w;
                directories := directories w;
                recordings := recordings w ++ [(voice_id, speech, file_name)];
                progress := progress w |})
        end
    end.

Definition text_eq_dec : forall a b : text, {a = b} + {a <> b} :=
  list_eq_dec N.eq_dec.

(** A dict with strings of any characters as keys. *)
Fixpoint voices_set (d : list (text * text)) (k v : text) : list (text * text) :=
  match d with
  | [] => [(k, v)]
  | (k', v') :: d' =>
      if text_eq_dec k' k then (k', v) :: d' else (k', v') :: voices_set d' k v
  end.

Fixpoint voices_get (d : list (text * text)) (k : text) : option text :=
  match d with
  | [] => None
  | (k', v) :: d' => if text_eq_dec k' k then Some v else voices_get d' k
  end.

(** [{guest_name: "Matthew", host_name: "Amy"}] *)
Definition speaker_voice (guest_name : text) : list (text * text) :=
  voices_set (voices_set [] guest_name (txt "Matthew")) host_name (txt "Amy").

Definition file_name_of (dir : text) (i : Z) : text :=
  dir ++ txt "/audio_file_" ++ str_of_Z i ++ txt ".mp3".

(** [pbar.progress(value, ...)] with the message the value selects. *)
Definition show_progress (value : Z) : M unit :=
  fun w =>
    let message :=
      if value =? 100 then txt "That's it. Final one."
      else if 75 <? value then txt "Almost there.."
      else txt "Generating audio files..." in
    (inr tt,
     {| audio_dir := audio_dir w;
        temporaries := temporaries w;
        directories := directories w;
        recordings := recordings w;
        progress := progress w ++ [(value, message)] |}).

(** [enumerate] *)
Fixpoint enumerate {A} (i : Z) (l : list A) : list (Z * A) :=
  match l with
  | [] => []
  | x :: l' => (i, x) :: enumerate (i + 1) l'
  end.

(** The loop of [generate_audio_files]; a line of the dialog is its
    speaker and its speech. *)
Fixpoint audio_loop (voices : list (text * text)) (total : Z) (pbar : bool)
    (items : list (Z * (text * text))) (sounds_files : list text)
    : M (list text) :=
  match items with
  | [] => ret sounds_files
  | (i, (speaker, speech)) :: rest =>
      fun w =>
        let file_name := file_name_of (audio_dir w) i in
        (voice <- match voices_get voices speaker with
                  | Some v => ret v
                  | None => raise (KeyError (repr speaker))
                  end ;;
         written <- generate_audio voice speech file_name ;;
         (if pbar then show_progress (percent (i + 1) total) else ret tt) ;;;
         audio_loop voices total pbar rest (sounds_files ++ [written])) w
  end.

(** [generate_audio_files] *)
Definition generate_audio_files (guest_name : text)
    (extracted_speech : list (text * text)) (pbar : bool) : M (list text) :=
  (fun w =>
     match audio_dir w with
     | [] =>
         (inr tt,
          {| audio_dir := temporary_directory (temporaries w);
             temporaries := S (temporaries w);
             directories := directories w;
             recordings := recordings w;
             progress := progress w |})
     | _ => (inr tt, w)
     end) ;;;
  (fun w =>
     match file_system (audio_dir w) with
     | Some e => (inl e, w)
     | None =>
         (inr tt,
          {| audio_dir := audio_dir w;
             temporaries := temporaries w;
             directories := directories w ++ [audio_dir w];
             recordings := recordings w;
             progress := progress w |})
     end) ;;;
  audio_loop (speaker_voice guest_name) (len extracted_speech) pbar
    (enumerate 0 extracted_speech) [].

(** *** Who speaks with which voice *)

(** The directory the files go to. *)
Definition target_dir (w : studio) : text :=
  match audio_dir w with
  | [] => temporary_directory (temporaries w)
  | dir => dir
  end.

Definition voice_of (speaker : text) : text :=
  if text_eq_dec speaker host_name then txt "Amy" else txt "Matthew".

Definition known (guest_name speaker : text) : Prop :=
  speaker = guest_name \/ speaker = host_name.

Lemma speaker_voice_known guest_name speaker :
  known guest_name speaker ->
  voices_get (speaker_voice guest_name) speaker = Some (voice_of speaker).
Proof.
  unfold speaker_voice, voice_of, known. cbn [voices_set].
  intros Hknown.
  destruct (text_eq_dec guest_name host_name) as [Hsame|Hdiff];
    cbn [voices_set voices_get].
  - destruct (text_eq_dec guest_name speaker) as [_|Hne];
      [|destruct Hknown; congruence].
    destruct (text_eq_dec speaker host_name); [reflexivity|].
    destruct Hknown; congruence.
  - destruct (text_eq_dec guest_name speaker) as [Hg|Hne].
    + destruct (text_eq_dec speaker host_name); [congruence | reflexivity].
    + destruct (text_eq_dec host_name speaker) as [Hh|Hne'];
        [|destruct Hknown; congruence].
      destruct (text_eq_dec speaker host_name); [reflexivity | congruence].
Qed.

Lemma speaker_voice_unknown guest_name speaker :
  ~ known guest_name speaker ->
  voices_get (speaker_voice guest_name) speaker = None.
Proof.
  unfold speaker_voice, known. cbn [voices_set]. intros Hunknown.
  destruct (text_eq_dec guest_name host_name); cbn [voices_set voices_get];
    destruct (text_eq_dec guest_name speaker); try (exfalso; auto; fail);
    try reflexivity.
  destruct (text_eq_dec host_name speaker); [exfalso; auto | reflexivity].
Qed.

Definition recorded (dir : text) (item : Z * (text * text))
    : text * text * text :=
  let '(i, (speaker, speech)) := item in
  (voice_of speaker, speech, file_name_of dir i).

Definition shown (total : Z) (item : Z * (text * text)) : Z * text :=
  let value := percent (fst item + 1) total in
  (value,
   if value =? 100 then txt "That's it. Final one."
   else if 75 <? value then txt "Almost there.."
   else txt "Generating audio files...").

(** The studio after the lines [items] have been recorded. *)
Definition after_recording (total : Z) (pbar : bool)
    (items : list (Z * (text * text))) (w : studio) : studio :=
  {| audio_dir := audio_dir w;
     temporaries := temporaries w;
     directories := directories w;
     recordings := recordings w ++ map (recorded (audio_dir w)) items;
     progress :=
       progress w ++ (if pbar then map (shown total) items else []) |}.

Hypothesis polly_answers : forall voice speech, synthesize_speech voice speech = None.
Hypothesis files_can_be_written : forall path, file_system path = None.

Lemma after_recording_nil total pbar w : after_recording total pbar [] w = w.
Proof.
  destruct w. unfold after_recording. cbn.
  rewrite !app_nil_r. now destruct pbar; rewrite ?app_nil_r.
Qed.

Lemma audio_loop_step guest_name total pbar i speaker speech rest acc w :
  known guest_name speaker ->
  audio_loop (speaker_voice guest_name) total pbar
    ((i, (speaker, speech)) :: rest) acc w
  = audio_loop (speaker_voice guest_name) total pbar rest
      (acc ++ [file_name_of (audio_dir w) i])
      (after_recording total pbar [(i, (speaker, speech))] w).
Proof.
  intros Hknown. cbn [audio_loop]. unfold bind at 1.
  rewrite (speaker_voice_known _ _ Hknown). unfold ret at 1.
  unfold bind at 1. unfold generate_audio.
  rewrite polly_answers, files_can_be_written.
  unfold bind at 1. unfold after_recording.
  destruct pbar; [reflexivity|].
  unfold ret at 1. cbn [map recorded]. now rewrite app_nil_r.
Qed.

Lemma after_recording_cons total pbar item items w :
  after_recording total pbar items (after_recording total pbar [item] w)
  = after_recording total pbar (item :: items) w.
Proof.
  unfold after_recording. cbn [audio_dir temporaries directories recordings
                                progress map].
  f_equal.
  - now rewrite <- app_assoc.
  - destruct pbar; rewrite <- app_assoc; reflexivity.
Qed.

Lemma audio_loop_known guest_name total pbar : forall items acc w,
  Forall (fun item => known guest_name (fst (snd item))) items ->
  audio_loop (speaker_voice guest_name) total pbar items acc w
  = (inr (acc ++ map (fun item => file_name_of (audio_dir w) (fst item)) items),
     after_recording total pbar items w).
Proof.
  induction items as [|[i [speaker speech]] rest IH]; intros acc w Hall.
  - cbn. now rewrite app_nil_r, after_recording_nil.
  - inversion Hall as [|? ? Hknown Hrest]; subst. cbn [fst snd] in Hknown.
    rewrite (audio_loop_step guest_name total pbar i speaker speech rest acc w
               Hknown).
    rewrite (IH _ _ Hrest), after_recording_cons.
    cbn [after_recording audio_dir map fst]. now rewrite <- app_assoc.
Qed.

Lemma audio_loop_unknown guest_name total pbar :
  forall before i speaker speech rest acc w,
  Forall (fun item => known guest_name (fst (snd item))) before ->
  ~ known guest_name speaker ->
  audio_loop (speaker_voice guest_name) total pbar
    (before ++ (i, (speaker, speech)) :: rest) acc w
  = (inl (KeyError (repr speaker)), after_recording total pbar before w).
Proof.
  induction before as [|[j [sp speech']] before IH];
    intros i speaker speech rest acc w Hall Hunknown.
  - cbn [app audio_loop]. unfold bind at 1.
    rewrite (speaker_voice_unknown _ _ Hunknown).
    now rewrite after_recording_nil.
  - inversion Hall as [|? ? Hknown Hrest]; subst. cbn [fst snd] in Hknown.
    rewrite <- app_comm_cons.
    rewrite (audio_loop_step guest_name total pbar j sp speech' _ acc w Hknown).
    rewrite (IH _ _ _ _ _ _ Hrest Hunknown), after_recording_cons.
    reflexivity.
Qed.

Lemma enumerate_app {A} (l l' : list A) : forall i,
  enumerate i (l ++ l') = enumerate i l ++ enumerate (i + len l) l'.
Proof.
  induction l as [|x l IH]; intros i; cbn [enumerate app].
  - f_equal. unfold len. simpl. lia.
  - rewrite IH. do 3 f_equal. unfold len. cbn [List.length]. lia.
Qed.

Lemma enumerate_known {A} (P : A -> Prop) (l : list A) : forall i,
  Forall P l -> Forall (fun item => P (snd item)) (enumerate i l).
Proof.
  induction l as [|x l IH]; intros i Hall; cbn [enumerate]; [constructor|].
  inversion Hall; subst. constructor; [assumption | now apply IH].
Qed.

(** The studio once the directory is chosen and made. *)
Definition prepared (w : studio) : studio :=
  {| audio_dir := target_dir w;
     temporaries :=
       match audio_dir w with [] => S (temporaries w) | _ => temporaries w end;
     directories := directories w ++ [target_dir w];
     recordings := recordings w;
     progress := progress w |}.

Lemma generate_audio_files_prepares guest_name extracted_speech pbar w :
  generate_audio_files guest_name extracted_speech pbar w
  = audio_loop (speaker_voice guest_name) (len extracted_speech) pbar
      (enumerate 0 extracted_speech) [] (prepared w).
Proof.
  unfold generate_audio_files, bind, prepared, target_dir.
  destruct (audio_dir w) as [|c dir] eqn:E.
  - cbn [audio_dir]. rewrite files_can_be_written. reflexivity.
  - rewrite E, files_can_be_written. reflexivity.
Qed.

(** X23. When Polly answers and the files can be written, and every line
    of the dialog is spoken by the guest or by the host "Amy",
    [generate_audio_files] returns the files audio_file_0.mp3,
    audio_file_1.mp3, ... of the audio directory, one per line and in
    order; the host's lines are spoken by the voice "Amy" and the others
    by "Matthew", so that a guest who is called Amy too gets the host's
    voice. The directory is the global [audio_dir], or a fresh temporary
    directory when the global is empty, which the global then remembers.
    A progress bar, if there is one, is told once per line. *)
Theorem generate_audio_files_known_speakers
    (guest_name : text) (extracted_speech : list (text * text)) (pbar : bool)
    (w : studio) :
  Forall (fun line => fst line = guest_name \/ fst line = host_name)
    extracted_speech ->
  exists w',
    generate_audio_files guest_name extracted_speech pbar w
    = (inr (map (fun item => file_name_of (target_dir w) (fst item))
              (enumerate 0 extracted_speech)), w') /\
    audio_dir w' = target_dir w /\
    directories w' = directories w ++ [target_dir w] /\
    recordings w'
    = recordings w
      ++ map (fun item =>
                (if text_eq_dec (fst (snd item)) host_name
                 then txt "Amy" else txt "Matthew",
                 snd (snd item),
                 file_name_of (target_dir w) (fst item)))
           (enumerate 0 extracted_speech) /\
    progress w'
    = progress w
      ++ (if pbar
          then map (shown (len extracted_speech)) (enumerate 0 extracted_speech)
          else []).
Proof.
  intros Hknown.
  rewrite generate_audio_files_prepares.
  rewrite audio_loop_known
    by (apply (enumerate_known (fun line => known guest_name (fst line)));
        exact Hknown).
  eexists. split; [reflexivity|].
  cbn [after_recording prepared audio_dir directories recordings progress].
  split; [reflexivity|]. split; [reflexivity|]. split.
  - f_equal. apply map_ext. intros [i [speaker speech]]. reflexivity.
  - reflexivity.
Qed.

(** X24. When Polly answers and the files can be written, the first line
    of the dialog spoken by someone who is neither the guest nor the host
    "Amy" makes [generate_audio_files] raise a [KeyError] for that
    speaker: the lines before it have been recorded and their files stay,
    the line itself and the lines after it are not recorded. *)
Theorem generate_audio_files_unknown_speaker
    (guest_name : text) (before rest : list (text * text))
    (speaker speech : text) (pbar : bool) (w : studio) :
  Forall (fun line => fst line = guest_name \/ fst line = host_name) before ->
  speaker <> guest_name -> speaker <> host_name ->
  exists w',
    generate_audio_files guest_name (before ++ (speaker, speech) :: rest) pbar w
    = (inl (KeyError (repr speaker)), w') /\
    audio_dir w' = target_dir w /\
    recordings w'
    = recordings w
      ++ map (fun item =>
                (if text_eq_dec (fst (snd item)) host_name
                 then txt "Amy" else txt "Matthew",
                 snd (snd item),
                 file_name_of (target_dir w) (fst item)))
           (enumerate 0 before).
Proof.
  intros Hknown Hguest Hhost.
  rewrite generate_audio_files_prepares, enumerate_app.
  cbn [enumerate].
  rewrite audio_loop_unknown;
    [|apply (enumerate_known (fun line => known guest_name (fst line)));
      exact Hknown
     |unfold known; intros [H|H]; auto].
  eexists. split; [reflexivity|].
  cbn [after_recording prepared audio_dir recordings].
  split; [reflexivity|].
  f_equal. apply map_ext. intros [i [sp sc]]. reflexivity.
Qed.

End Audio.

(** A studio where everything works. *)
Definition quoted (s : text) : text := txt "'" ++ s ++ txt "'".
Definition podcast_dir (k : nat) : text :=
  txt "/tmp/podcast" ++ str_of_Z (Z.of_nat k).
Definition polly_at_work : text -> text -> option exn := fun _ _ => None.
Definition writable : text -> option exn := fun _ => None.
Definition share (i n : Z) : Z := i * 100 / n.

Definition empty_studio : studio :=
  {| audio_dir := []; temporaries := 0; directories := [];
     recordings := []; progress := [] |}.

Lemma generate_audio_files_known_speakers_witness :
  fst (generate_audio_files quoted podcast_dir polly_at_work writable share
         (txt "Bob") [(txt "Amy", txt "Hello"); (txt "Bob", txt "Hi")]
         false empty_studio)
  = inr [txt "/tmp/podcast0/audio_file_0.mp3";
         txt "/tmp/podcast0/audio_file_1.mp3"].
Proof.
  assert (Hknown :
    Forall (fun line : text * text =>
              fst line = txt "Bob" \/ fst line = host_name)
      [(txt "Amy", txt "Hello"); (txt "Bob", txt "Hi")])
    by (constructor; [right; reflexivity
                     |constructor; [left; reflexivity | constructor]]).
  destruct (generate_audio_files_known_speakers quoted podcast_dir
              polly_at_work writable share (fun _ _ => eq_refl)
              (fun _ => eq_refl) (txt "Bob")
              [(txt "Amy", txt "Hello"); (txt "Bob", txt "Hi")] false
              empty_studio Hknown) as (w' & Hrun & _).
  rewrite Hrun. reflexivity.
Defined.

Lemma generate_audio_files_unknown_speaker_witness :
  fst (generate_audio_files quoted podcast_dir polly_at_work writable share
         (txt "Bob") [(txt "Amy", txt "Hello"); (txt "Bo", txt "Hi")]
         false empty_studio)
  = inl (KeyError (txt "'Bo'")).
Proof.
  assert (Hknown :
    Forall (fun line : text * text =>
              fst line = txt "Bob" \/ fst line = host_name)
      [(txt "Amy", txt "Hello")])
    by (constructor; [right; reflexivity | constructor]).
  assert (Hguest : txt "Bo" <> txt "Bob") by discriminate.
  assert (Hhost : txt "Bo" <> host_name) by discriminate.
  destruct (generate_audio_files_unknown_speaker quoted podcast_dir
              polly_at_work writable share (fun _ _ => eq_refl)
              (fun _ => eq_refl) (txt "Bob") [(txt "Amy", txt "Hello")] []
              (txt "Bo") (txt "Hi") false empty_studio Hknown Hguest Hhost)
    as (w' & Hrun & _).
  change ([(txt "Amy", txt "Hello"); (txt "Bo", txt "Hi")])
    with ([(txt "Amy", txt "Hello")] ++ [(txt "Bo", txt "Hi")]).
  rewrite Hrun. reflexivity.
Defined.

Lemma cleanup_of_one_line_witness :
  cleanup ascii_only ascii_only (txt " TeX and/or LaTeX ") = txt "Te andor LaTe".
Proof.
  assert (Hnl : ~ In newline (txt " TeX and/or LaTeX "))
    by (vm_compute; intuition discriminate).
  assert (Hbs : ~ In backslash (txt " TeX and/or LaTeX "))
    by (vm_compute; intuition discriminate).
  exact (cleanup_of_one_line ascii_only ascii_only (txt " TeX and/or LaTeX ")
           Hnl Hbs).
Defined.

End Podcast.

(** * [validation.py]: the formatter of Bedrock requests *)

Module Formatter.
Import Py.

(** [base64.b64encode], on bytes given as numbers below 256. *)
Definition b64_alphabet : text :=
  txt "ABCDEFGHIJKLMNOPQRSTUVWXYZabcdefghijklmnopqrstuvwxyz0123456789+/".

Definition b64_digit (n : N) : codepoint := nth (N.to_nat n) b64_alphabet 61%N.

Fixpoint b64encode (data : list N) : text :=
  match data with
  | [] => []
  | [a] =>
      [b64_digit (a / 4); b64_digit ((a mod 4) * 16); 61; 61]%N
  | [a; b] =>
      [b64_digit (a / 4); b64_digit ((a mod 4) * 16 + b / 16);
       b64_digit ((b mod 16) * 4); 61]%N
  | a :: b :: c :: rest =>
      [b64_digit (a / 4); b64_digit ((a mod 4) * 16 + b / 16);
       b64_digit ((b mod 16) * 4 + c / 64); b64_digit (c mod 64)]%N
      ++ b64encode rest
  end.

Fixpoint text_eqb (a b : text) : bool :=
  match a, b with
  | [], [] => true
  | x :: a', y :: b' => (x =? y)%N && text_eqb a' b'
  | _, _ => false
  end.

Fixpoint starts_with (needle s : text) : bool :=
  match needle, s with
  | [], _ => true
  | x :: needle', y :: s' => (x =? y)%N && starts_with needle' s'
  | _ :: _, [] => false
  end.

(** [needle in s] for two strings *)
Fixpoint is_substring (needle s : text) : bool :=
  starts_with needle s
  || match s with
     | [] => false
     | _ :: s' => is_substring needle s'
     end.

Definition rbind {A B} (r : result A) (k : A -> result B) : result B :=
  match r with
  | inl e => inl e
  | inr a => k a
  end.

Section Values.

(** Python's floats. *)
Variable float : Type.

(** The values a request is made of. *)
Unset Elimination Schemes.
Inductive value :=
| VNone
| VBool (b : bool)
| VInt (z : Z)
| VFloat (f : float)
| VStr (s : text)
| VBytes (b : list N)
| VList (l : list value)
| VDict (d : list (string * value)).
Set Elimination Schemes.

(** [f == z] and [bool(f)] for a float, [str(v)] for a value that is no
    string, and the text of the [TypeError] that an operation raises on a
    value that does not support it. *)
Variable float_eqb_int : float -> Z -> bool.
Variable float_truthy : float -> bool.
Variable str_of : value -> text.
Variable complaint : string -> value -> text.

(** [str(v)] *)
Definition py_str (v : value) : text :=
  match v with
  | VStr s => s
  | _ => str_of v
  end.

(** [bool(v)] *)
Definition truthy_value (v : value) : bool :=
  match v with
  | VNone => false
  | VBool b => b
  | VInt z => negb (z =? 0)
  | VFloat f => float_truthy f
  | VStr s => truthy s
  | VBytes b => truthy b
  | VList l => truthy l
  | VDict d => truthy d
  end.

(** [v == z] for an integer [z] *)
Definition eqb_int (v : value) (z : Z) : bool :=
  match v with
  | VInt z' => z' =? z
  | VBool b => (if b then 1 else 0) =? z
  | VFloat f => float_eqb_int f z
  | _ => false
  end.

(** [type(v).__name__] *)
Definition type_name (v : value) : text :=
  match v with
  | VNone => txt "NoneType"
  | VBool _ => txt "bool"
  | VInt _ => txt "int"
  | VFloat _ => txt "float"
  | VStr _ => txt "str"
  | VBytes _ => txt "bytes"
  | VList _ => txt "list"
  | VDict _ => txt "dict"
  end.

(** [key in container], for a string [key] *)
Definition py_in (key : string) (container : value) : result bool :=
  match container with
  | VDict d => inr (dict_mem d key)
  | VStr s => inr (is_substring (txt key) s)
  | VList l =>
      inr (existsb (fun v => match v with
                             | VStr s => text_eqb s (txt key)
                             | _ => false
                             end) l)
  | _ => inl (TypeError (complaint "in" container))
  end.

(** [container[key]], for a string [key] *)
Definition py_getitem (container : value) (key : string) : result value :=
  match container with
  | VDict d =>
      match dict_get d key with
      | Some v => inr v
      | None => inl (KeyError (txt "'" ++ txt key ++ txt "'"))
      end
  | _ => inl (TypeError (complaint "getitem" container))
  end.

(** [format_multimodal_request] *)
Definition format_multimodal_request (text : option text)
    (image_data : option (list N)) (embedding_dimension : Z)
    : result (dict value) :=
  let has_text := match text with Some t => truthy t | None => false end in
  let has_image :=
    match image_data with Some b => truthy b | None => false end in
  if negb has_text && negb has_image then
    inl (ValueError
           (txt "At least one of text or image_data must be provided"))
  else if negb (existsb (Z.eqb embedding_dimension) [256; 384; 1024]) then
    inl (ValueError
           (txt "Invalid embedding dimension: " ++ str_of_Z embedding_dimension
            ++ txt ". Must be 256, 384, or 1024"))
  else
    let request :=
      [("embeddingConfig"%string,
        VDict [("outputEmbeddingLength"%string, VInt embedding_dimension)])] in
    let request :=
      match text with
      | Some t => if truthy t then dict_set request "inputText" (VStr t)
                  else request
      | None => request
      end in
    let request :=
      match image_data with
      | Some b =>
          if truthy b then dict_set request "inputImage" (VStr (b64encode b))
          else request
      | None => request
      end in
    inr request.

(** What [_format_message] makes of one item of a content list. *)
Definition clean_item (item : value) : value :=
  match item with
  | VDict d =>
      if dict_mem d "text" then
        match dict_get d "text" with
        | Some v => VDict [("text"%string, v)]
        | None => VDict []
        end
      else if dict_mem d "image" then
        match dict_get d "image" with
        | Some v => VDict [("image"%string, v)]
        | None => VDict []
        end
      else VDict []
  | _ => VDict [("text"%string, VStr (py_str item))]
  end.

(** [message.get(key, default)] *)
Definition get (message : dict value) (key : string) (default : value) : value :=
  match dict_get message key with
  | Some v => v
  | None => default
  end.

(** [_format_message]; a message that is no dict has no [get]. *)
Definition _format_message (message : value) : result (dict value) :=
  match message with
  | VDict m =>
      let formatted := [("role"%string, get m "role" (VStr (txt "user")))] in
      let content := get m "content" (VStr []) in
      match content with
      | VStr _ =>
          inr (dict_set formatted "content"
                 (VList [VDict [("text"%string, content)]]))
      | VList l =>
          inr (dict_set formatted "content" (VList (map clean_item l)))
      | _ =>
          inr (dict_set formatted "content"
                 (VList [VDict [("text"%string, VStr (py_str content))]]))
      end
  | _ =>
      inl (AttributeError
             (txt "'" ++ type_name message
              ++ txt "' object has no attribute 'get'"))
  end.

(** The loop of [format_text_generation_request]. *)
Fixpoint format_messages (messages : list value) (formatted_messages : list value)
    : result (list value) :=
  match messages with
  | [] => inr formatted_messages
  | message :: rest =>
      rbind (_format_message message) (fun formatted_message =>
      format_messages rest (formatted_messages ++ [VDict formatted_message]))
  end.

(** [format_text_generation_request] *)
Definition format_text_generation_request (messages : list value)
    (max_tokens : Z) (temperature : float) : result (dict value) :=
  rbind (format_messages messages []) (fun formatted_messages =>
  inr [("messages"%string, VList formatted_messages);
       ("inferenceConfig"%string,
        VDict [("maxTokens"%string, VInt max_tokens);
               ("temperature"%string, VFloat temperature)])]).

(** [_validate_titan_request] *)
Definition _validate_titan_request (request : dict value) : result bool :=
  if negb (dict_mem request "embeddingConfig") then inr false
  else
    rbind (py_getitem (VDict request) "embeddingConfig") (fun embedding_config =>
    rbind (py_in "outputEmbeddingLength" embedding_config) (fun present =>
    if negb present then inr false
    else
      rbind (py_getitem embedding_config "outputEmbeddingLength")
        (fun dimension =>
      if negb (existsb (eqb_int dimension) [256; 384; 1024]) then inr false
      else
        let has_text :=
          dict_mem request "inputText"
          && truthy_value (get request "inputText" VNone) in
        let has_image :=
          dict_mem request "inputImage"
          && truthy_value (get request "inputImage" VNone) in
        if negb has_text && negb has_image then inr false else inr true))).

(** An item of a content list that still has a ["type"] key. *)
Definition has_type_key (item : value) : bool :=
  match item with
  | VDict d => dict_mem d "type"
  | _ => false
  end.

(** The checks of [_validate_nova_request] on one message. *)
Definition message_passes (message : value) : bool :=
  match message with
  | VDict m =>
      if negb (dict_mem m "role") then false
      else if negb (dict_mem m "content") then false
      else
        match get m "content" VNone with
        | VList items => negb (existsb has_type_key items)
        | _ => true
        end
  | _ => false
  end.

(** [_validate_nova_request] *)
Definition _validate_nova_request (request : dict value) : bool :=
  if negb (dict_mem request "messages") then false
  else
    match get request "messages" VNone with
    | VList messages =>
        if len messages =? 0 then false else forallb message_passes messages
    | _ => false
    end.

(** [validate_request_format]: whatever a check raises counts as a
    failed check. *)
Definition validate_request_format (request : dict value) (model_type : text)
    : bool :=
  if text_eqb model_type (txt "titan_multimodal") then
    match _validate_titan_request request with
    | inr ok => ok
    | inl _ => false
    end
  else if text_eqb model_type (txt "nova_pro") then
    _validate_nova_request request
  else false.

(** [encode_image_to_base64] *)
Definition encode_image_to_base64 (image_data : list N) : text :=
  b64encode image_data.

(** [create_multimodal_message] *)
Definition create_multimodal_message (text : text)
    (image_data : option (list N)) (image_format : Py.text) : dict value :=
  let content := [VDict [("text"%string, VStr text)]] in
  let content :=
    match image_data with
    | Some b =>
        if truthy b then
          content
          ++ [VDict
                [("image"%string,
                  VDict [("format"%string, VStr image_format);
                         ("source"%string,
                          VDict [("bytes"%string,
                                  VStr (encode_image_to_base64 b))])])]]
        else content
    | None => content
    end in
  [("role"%string, VStr (txt "user")); ("content"%string, VList content)].

(** *** A formatted request passes its check *)

Lemma b64encode_nonempty data : data <> [] -> b64encode data <> [].
Proof.
  destruct data as [|a [|b [|c rest]]]; [easy | | |]; intros _; discriminate.
Qed.

(** X25. [format_multimodal_request] raises a [ValueError] when neither a
    text nor image data is given (an empty text and empty data count as
    not given), and this before it looks at the dimension; with a text or
    an image it raises a [ValueError] naming the dimension unless the
    dimension is 256, 384 or 1024; otherwise it returns a request that
    [validate_request_format] accepts as a Titan request, holding the
    dimension, the text if there is one, and the image data in base64 if
    there are any. *)
Theorem format_multimodal_request_validates
    (text : option text) (image_data : option (list N))
    (embedding_dimension : Z) :
  let has_text := match text with Some t => truthy t | None => false end in
  let has_image :=
    match image_data with Some b => truthy b | None => false end in
  (has_text = false -> has_image = false ->
   format_multimodal_request text image_data embedding_dimension
   = inl (ValueError
            (txt "At least one of text or image_data must be provided"))) /\
  (has_text = true \/ has_image = true ->
   (embedding_dimension <> 256 /\ embedding_dimension <> 384
    /\ embedding_dimension <> 1024 ->
    format_multimodal_request text image_data embedding_dimension
    = inl (ValueError
             (txt "Invalid embedding dimension: "
              ++ str_of_Z embedding_dimension
              ++ txt ". Must be 256, 384, or 1024"))) /\
   (embedding_dimension = 256 \/ embedding_dimension = 384
    \/ embedding_dimension = 1024 ->
    exists request,
      format_multimodal_request text image_data embedding_dimension
      = inr request /\
      validate_request_format request (txt "titan_multimodal") = true /\
      dict_get request "embeddingConfig"
      = Some (VDict [("outputEmbeddingLength"%string,
                      VInt embedding_dimension)]) /\
      dict_get request "inputText"
      = (if has_text then option_map VStr text else None) /\
      dict_get request "inputImage"
      = (if has_image
         then option_map (fun b => VStr (b64encode b)) image_data
         else None))).
Proof.
  intros has_text has_image. split.
  - intros Ht Hi. unfold format_multimodal_request.
    fold has_text has_image. now rewrite Ht, Hi.
  - intros Hsome.
    assert (Hgate : negb has_text && negb has_image = false)
      by (destruct Hsome as [-> | ->]; [reflexivity | apply andb_false_r]).
    split.
    + intros (H1 & H2 & H3). unfold format_multimodal_request.
      fold has_text has_image. rewrite Hgate. cbn [existsb].
      apply Z.eqb_neq in H1, H2, H3. now rewrite H1, H2, H3.
    + intros Hdim.
      assert (Hin : existsb (Z.eqb embedding_dimension) [256; 384; 1024] = true).
      { cbn [existsb]. destruct Hdim as [-> | [-> | ->]]; reflexivity. }
      assert (Hin' : existsb (eqb_int (VInt embedding_dimension))
                       [256; 384; 1024] = true) by exact Hin.
      unfold format_multimodal_request. fold has_text has_image.
      rewrite Hgate, Hin. cbn [negb].
      eexists. split; [reflexivity|].
      unfold has_text, has_image in *.
      destruct text as [[|c t]|], image_data as [[|a b]|];
        cbn [truthy] in *; try (destruct Hsome; discriminate);
        (split; [|repeat split]);
        unfold validate_request_format, _validate_titan_request;
        cbn -[existsb b64encode]; rewrite ?Hin'; cbn -[b64encode];
        try reflexivity;
        destruct (b64encode (a :: b)) eqn:E; try reflexivity;
        exfalso; revert E; apply b64encode_nonempty; discriminate.
Qed.

(** *** Messages *)

Definition is_dict (v : value) : bool :=
  match v with VDict _ => true | _ => false end.

Lemma clean_item_no_type item : has_type_key (clean_item item) = false.
Proof.
  destruct item as [| | | | | | |d]; try reflexivity.
  unfold clean_item.
  destruct (dict_mem d "text");
    [destruct (dict_get d "text"); reflexivity|].
  destruct (dict_mem d "image");
    [destruct (dict_get d "image"); reflexivity | reflexivity].
Qed.

Lemma clean_items_no_type l : existsb has_type_key (map clean_item l) = false.
Proof.
  induction l as [|item l IH]; [reflexivity|].
  cbn [map existsb]. now rewrite clean_item_no_type, IH.
Qed.

Lemma _format_message_passes message formatted :
  _format_message message = inr formatted ->
  message_passes (VDict formatted) = true.
Proof.
  destruct message as [| | | | | | |m]; try discriminate.
  unfold _format_message.
  destruct (get m "content" (VStr [])) as [| | | | | |l|];
    intros H; inversion H; subst; try reflexivity.
  cbn. now rewrite clean_items_no_type.
Qed.

Lemma _format_message_of_dict message :
  is_dict message = true -> exists formatted, _format_message message = inr formatted.
Proof.
  destruct message as [| | | | | | |m]; try discriminate. intros _.
  unfold _format_message.
  destruct (get m "content" (VStr [])); eexists; reflexivity.
Qed.

Lemma format_messages_passes : forall messages formatted_messages,
  forallb is_dict messages = true ->
  forallb message_passes formatted_messages = true ->
  exists formatted,
    format_messages messages formatted_messages = inr formatted /\
    forallb message_passes formatted = true /\
    List.length formatted
    = (List.length formatted_messages + List.length messages)%nat.
Proof.
  induction messages as [|message rest IH]; intros acc Hdicts Hacc.
  - exists acc. cbn. auto.
  - cbn [forallb] in Hdicts. apply andb_prop in Hdicts as [Hdict Hrest].
    destruct (_format_message_of_dict message Hdict) as [formatted Hf].
    cbn [format_messages]. rewrite Hf. cbn [rbind].
    destruct (IH (acc ++ [VDict formatted]) Hrest) as (out & Hout & Hpass & Hlen).
    { rewrite forallb_app, Hacc. cbn [forallb].
      now rewrite (_format_message_passes message formatted Hf). }
    exists out. split; [exact Hout|]. split; [exact Hpass|].
    rewrite Hlen, length_app. cbn [List.length]. lia.
Qed.

Lemma format_messages_stops : forall before message rest formatted_messages,
  forallb is_dict before = true -> is_dict message = false ->
  format_messages (before ++ message :: rest) formatted_messages
  = inl (AttributeError
           (txt "'" ++ type_name message
            ++ txt "' object has no attribute 'get'")).
Proof.
  induction before as [|m before IH]; intros message rest acc Hdicts Hnot.
  - cbn [app format_messages].
    destruct message; try reflexivity; discriminate.
  - cbn [forallb] in Hdicts. apply andb_prop in Hdicts as [Hdict Hrest].
    destruct (_format_message_of_dict m Hdict) as [formatted Hf].
    cbn [app format_messages]. rewrite Hf. cbn [rbind]. now apply IH.
Qed.

(** X26. When every message is a dict, [format_text_generation_request]
    returns a request with as many messages, and [validate_request_format]
    accepts it as a Nova request exactly when there is at least one
    message: the formatter removes what the check forbids, but an empty
    conversation is formatted and then refused. The first message that is
    no dict makes the formatter raise an [AttributeError]. *)
Theorem format_text_generation_request_validates
    (max_tokens : Z) (temperature : float) :
  (forall messages,
     forallb is_dict messages = true ->
     exists request formatted,
       format_text_generation_request messages max_tokens temperature
       = inr request /\
       dict_get request "messages" = Some (VList formatted) /\
       List.length formatted = List.length messages /\
       validate_request_format request (txt "nova_pro")
       = negb (len messages =? 0)) /\
  (forall before message rest,
     forallb is_dict before = true -> is_dict message = false ->
     format_text_generation_request (before ++ message :: rest)
       max_tokens temperature
     = inl (AttributeError
              (txt "'" ++ type_name message
               ++ txt "' object has no attribute 'get'"))).
Proof.
  split.
  - intros messages Hdicts.
    destruct (format_messages_passes messages [] Hdicts eq_refl)
      as (formatted & Hrun & Hpass & Hlen).
    unfold format_text_generation_request. rewrite Hrun. cbn [rbind].
    eexists; exists formatted. split; [reflexivity|].
    split; [reflexivity|]. split; [exact Hlen|].
    unfold validate_request_format, _validate_nova_request.
    cbn -[len forallb]. rewrite Hpass.
    unfold len. rewrite Hlen. cbn [List.length Nat.add].
    now destruct (Z.of_nat (List.length messages) =? 0).
  - intros before message rest Hdicts Hnot.
    unfold format_text_generation_request.
    now rewrite (format_messages_stops before message rest [] Hdicts Hnot).
Qed.

Lemma clean_item_idempotent item : clean_item (clean_item item) = clean_item item.
Proof.
  destruct item as [| | | | | | |d]; try reflexivity.
  cbn [clean_item].
  destruct (dict_mem d "text"), (dict_get d "text"), (dict_mem d "image"),
    (dict_get d "image"); reflexivity.
Qed.

(** X27. Formatting a formatted message changes nothing:
    [_format_message] returns its argument when given its own result, and
    also when given a message made by [create_multimodal_message], with
    or without an image; such a message passes the checks that
    [_validate_nova_request] makes on a message. *)
Theorem format_message_idempotent :
  (forall message formatted,
     _format_message message = inr formatted ->
     _format_message (VDict formatted) = inr formatted) /\
  (forall text image_data image_format,
     _format_message
       (VDict (create_multimodal_message text image_data image_format))
     = inr (create_multimodal_message text image_data image_format) /\
     message_passes
       (VDict (create_multimodal_message text image_data image_format))
     = true).
Proof.
  split.
  - intros message formatted H.
    destruct message as [| | | | | | |m]; try discriminate.
    unfold _format_message in H.
    destruct (get m "content" (VStr [])) as [| | | | | |l|];
      inversion H; subst; try reflexivity.
    cbn. rewrite map_map.
    rewrite (map_ext (fun item => clean_item (clean_item item)) clean_item
               clean_item_idempotent).
    reflexivity.
  - intros text image_data image_format.
    destruct image_data as [[|a b]|]; split; reflexivity.
Qed.

End Values.

(** [base64] on the usual samples. *)
Example b64encode_samples :
  b64encode (txt "Man") = txt "TWFu" /\
  b64encode (txt "Ma") = txt "TWE=" /\
  b64encode (txt "M") = txt "TQ==" /\
  b64encode (txt "light work.") = txt "bGlnaHQgd29yay4=".
Proof. repeat split. Qed.

End Formatter.

(** * [s3_vector_ops.py]: listing the indexes of a bucket *)

Module S3Listing.
Import Py Eff.

Section Listing.

(** An entry of a page of indexes, and its ['indexName'] if it has one. *)
Variable index_info : Type.
Variable indexName : index_info -> option text.

(** The parameters of a [list_indexes] call; an absent key is [None]. *)
Record request := {
  vectorBucketName : text;
  prefix : option text;
  maxResults : option Z;
  nextToken : option text
}.

(** What the response holds under ['indexes'] and ['nextToken']. *)
Record response := {
  indexes : option (list index_info);
  next : option text
}.

Variable service_state : Type.
Variable service : service_state -> request -> result response * service_state.

Record world := {
  svc : service_state;
  calls : list request;
  stdout : list text
}.

Definition M := Eff.M world.

Definition call (r : request) : M response :=
  fun w =>
    let (answer, s') := service (svc w) r in
    (answer, {| svc := s'; calls := calls w ++ [r]; stdout := stdout w |}).

Definition print (line : text) : M unit :=
  fun w => (inr tt, {| svc := svc w; calls := calls w;
                       stdout := stdout w ++ [line] |}).

(** Truth value of an optional string: [None] and [""] are false. *)
Definition given (t : option text) : bool :=
  match t with
  | Some s => truthy s
  | None => false
  end.

(** [if next_token: params['nextToken'] = next_token] *)
Definition with_token (params : request) (next_token : option text) : request :=
  if given next_token then
    {| vectorBucketName := vectorBucketName params;
       prefix := prefix params;
       maxResults := maxResults params;
       nextToken := next_token |}
  else params.

(** [response.get('indexes', [])] *)
Definition page_indexes (page : response) : list index_info :=
  match indexes page with
  | Some l => l
  | None => []
  end.

(** The [while True] loop of [list_indexes], for at most [fuel] pages;
    [None] is returned when the pages have not ended by then. *)
Fixpoint list_indexes_loop (fuel : nat) (params : request)
    (all_indexes : list index_info) (next_token : option text)
    : M (option (list index_info)) :=
  match fuel with
  | O => ret None
  | S fuel' =>
      let params := with_token params next_token in
      page <- call params ;;
      let all_indexes := all_indexes ++ page_indexes page in
      let next_token := next page in
      if negb (given next_token) then ret (Some all_indexes)
      else list_indexes_loop fuel' params all_indexes next_token
  end.

(** The parameters of the first call. *)
Definition first_params (bucket_name : text) (prefix : option text)
    (max_results : option Z) : request :=
  {| vectorBucketName := bucket_name;
     prefix := if given prefix then prefix else None;
     maxResults :=
       match max_results with
       | Some n => if n =? 0 then None else Some n
       | None => None
       end;
     nextToken := None |}.

(** [list_indexes] *)
Definition list_indexes (fuel : nat) (bucket_name : text)
    (prefix : option text) (max_results : option Z)
    : M (option (list index_info)) :=
  try_except
    (list_indexes_loop fuel (first_params bucket_name prefix max_results)
       [] None)
    is_client_error
    (fun e =>
       print (txt "Error listing indexes in bucket " ++ bucket_name
              ++ txt ": " ++ exn_str e) ;;;
       raise e).

(** [[idx['indexName'] for idx in indexes]] *)
Fixpoint names_of (l : list index_info) : result (list text) :=
  match l with
  | [] => inr []
  | idx :: l' =>
      match indexName idx with
      | None => inl (KeyError (txt "'indexName'"))
      | Some name =>
          match names_of l' with
          | inl e => inl e
          | inr names => inr (name :: names)
          end
      end
  end.

(** [get_index_names] *)
Definition get_index_names (fuel : nat) (bucket_name : text)
    (prefix : option text) : M (option (list text)) :=
  try_except
    (listed <- list_indexes fuel bucket_name prefix None ;;
     match listed with
     | None => ret None
     | Some l => names <- lift (names_of l) ;; ret (Some names)
     end)
    any_exception
    (fun e =>
       print (txt "Error getting index names: " ++ exn_str e) ;;;
       ret (Some [])).

(** *** Page after page *)

(** Asked for page after page from the state [s], the service serves the
    pages [pages], all but the last with a token for the next. *)
Fixpoint serves (s : service_state) (params : request)
    (next_token : option text) (pages : list response) : Prop :=
  match pages with
  | [] => False
  | page :: rest =>
      let params := with_token params next_token in
      fst (service s params) = inr page /\
      match rest with
      | [] => given (next page) = false
      | _ :: _ =>
          given (next page) = true /\
          serves (snd (service s params)) params (next page) rest
      end
  end.

(** The calls that fetch [pages]. *)
Fixpoint asked (params : request) (next_token : option text)
    (pages : list response) : list request :=
  match pages with
  | [] => []
  | page :: rest =>
      let params := with_token params next_token in
      params :: asked params (next page) rest
  end.

Lemma list_indexes_loop_serves : forall pages fuel params acc token w,
  serves (svc w) params token pages ->
  (List.length pages <= fuel)%nat ->
  exists w',
    list_indexes_loop fuel params acc token w
    = (inr (Some (acc ++ List.concat (map page_indexes pages))), w') /\
    calls w' = calls w ++ asked params token pages /\
    stdout w' = stdout w.
Proof.
  induction pages as [|page rest IH]; intros fuel params acc token w Hs Hfuel;
    [destruct Hs|].
  destruct fuel as [|fuel]; [simpl in Hfuel; lia|].
  cbn [serves] in Hs. destruct Hs as [Hpage Hrest].
  cbn [list_indexes_loop asked map List.concat]. unfold bind, call.
  destruct (service (svc w) (with_token params token)) as [answer s'] eqn:E.
  cbn [fst snd] in Hpage, Hrest. subst answer.
  destruct rest as [|page' rest'].
  - rewrite Hrest. cbn [negb]. eexists. split; [|split]; cbn.
    + now rewrite app_nil_r.
    + reflexivity.
    + reflexivity.
  - destruct Hrest as [Hmore Hrest]. rewrite Hmore. cbn [negb].
    match goal with
    | |- context [list_indexes_loop fuel ?p ?a ?t ?w0] =>
        destruct (IH fuel p a t w0 Hrest ltac:(cbn [List.length] in *; lia))
          as (w' & Hrun & Hcalls & Hout)
    end.
    exists w'. split; [|split].
    + rewrite Hrun. now rewrite <- app_assoc.
    + rewrite Hcalls. cbn [calls]. now rewrite <- app_assoc.
    + rewrite Hout. reflexivity.
Qed.

(** X28. When the service serves the pages one after the other, the
    last one without a token, [list_indexes] returns the entries of all
    pages in order, having made one call per page, each with the token of
    the page before, and prints nothing. The prefix and [max_results] go
    unchanged into every call (an empty prefix and a [max_results] of 0
    are left out); the number of entries returned is not bounded by
    [max_results]. *)
Theorem list_indexes_all_pages (fuel : nat) (bucket_name : text)
    (prefix : option text) (max_results : option Z) (pages : list response)
    (w : world) :
  serves (svc w) (first_params bucket_name prefix max_results) None pages ->
  (List.length pages <= fuel)%nat ->
  exists w',
    list_indexes fuel bucket_name prefix max_results w
    = (inr (Some (List.concat (map page_indexes pages))), w') /\
    calls w'
    = calls w ++ asked (first_params bucket_name prefix max_results) None pages /\
    List.length (calls w') = (List.length (calls w) + List.length pages)%nat /\
    Forall (fun r =>
              vectorBucketName r = bucket_name /\
              Listing.prefix r = (if given prefix then prefix else None) /\
              maxResults r
              = match max_results with
                | Some n => if n =? 0 then None else Some n
                | None => None
                end)
      (asked (first_params bucket_name prefix max_results) None pages) /\
    stdout w' = stdout w.
Proof.
  intros Hs Hfuel.
  destruct (list_indexes_loop_serves pages fuel _ [] None w Hs Hfuel)
    as (w' & Hrun & Hcalls & Hout).
  exists w'. unfold list_indexes, try_except. rewrite Hrun.
  split; [reflexivity|]. split; [exact Hcalls|]. split; [|split].
  - rewrite Hcalls, length_app. f_equal.
    generalize (first_params bucket_name prefix max_results), (@None text).
    clear. induction pages as [|page rest IH]; intros params token;
      [reflexivity|].
    cbn [asked List.length]. now rewrite IH.
  - assert (Hkeep : forall pages params token,
      Forall (fun r =>
                vectorBucketName r = vectorBucketName params /\
                Listing.prefix r = Listing.prefix params /\
                maxResults r = maxResults params)
        (asked params token pages)).
    { clear. induction pages as [|page rest IH]; intros params token;
        cbn [asked]; [constructor|].
      assert (Hsame : vectorBucketName (with_token params token)
                      = vectorBucketName params /\
                      Listing.prefix (with_token params token)
                      = Listing.prefix params /\
                      maxResults (with_token params token) = maxResults params)
        by (unfold with_token; destruct (given token); auto).
      constructor; [exact Hsame|].
      destruct Hsame as (H1 & H2 & H3).
      rewrite <- H1, <- H2, <- H3. apply IH. }
    exact (Hkeep pages (first_params bucket_name prefix max_results) None).
  - exact Hout.
Qed.

Definition printed (w : world) (line : text) : world :=
  {| svc := svc w; calls := calls w; stdout := stdout w ++ [line] |}.

(** X29. [get_index_names] never raises. Whatever [list_indexes] raises,
    it prints "Error getting index names: " and the error, and returns the
    empty list; it does the same, naming the key, when an entry has no
    ['indexName'], the names found before that entry being dropped; and
    it returns the names in order when every entry has one. *)
Theorem get_index_names_never_raises (fuel : nat) (bucket_name : text)
    (prefix : option text) (w : world) :
  (exists names w',
     get_index_names fuel bucket_name prefix w = (inr names, w')) /\
  (forall e w1,
     list_indexes fuel bucket_name prefix None w = (inl e, w1) ->
     get_index_names fuel bucket_name prefix w
     = (inr (Some []),
        printed w1 (txt "Error getting index names: " ++ exn_str e))) /\
  (forall listed w1,
     list_indexes fuel bucket_name prefix None w = (inr (Some listed), w1) ->
     (forall names, names_of listed = inr names ->
        get_index_names fuel bucket_name prefix w = (inr (Some names), w1) /\
        map indexName listed = map Some names) /\
     (In None (map indexName listed) ->
        get_index_names fuel bucket_name prefix w
        = (inr (Some []),
           printed w1 (txt "Error getting index names: 'indexName'")))).
Proof.
  assert (Hnames : forall l names,
            names_of l = inr names -> map indexName l = map Some names).
  { induction l as [|idx l IH]; intros names H; cbn [names_of] in H.
    - now inversion H.
    - destruct (indexName idx) as [name|] eqn:E; [|discriminate].
      destruct (names_of l) as [e|names']; [discriminate|].
      inversion H; subst. cbn [map]. rewrite E. f_equal. now apply IH. }
  assert (Hmissing : forall l,
            In None (map indexName l) ->
            names_of l = inl (KeyError (txt "'indexName'"))).
  { induction l as [|idx l IH]; intros H; [destruct H|].
    cbn [names_of]. destruct (indexName idx) as [name|] eqn:E; [|reflexivity].
    cbn [map In] in H. rewrite E in H.
    destruct H as [H|H]; [discriminate|]. now rewrite (IH H). }
  unfold get_index_names, try_except, bind, any_exception.
  destruct (list_indexes fuel bucket_name prefix None w) as [[e|listed] w1] eqn:E.
  - split; [eexists; eexists; reflexivity|]. split.
    + intros e' w1' H. inversion H; subst. reflexivity.
    + intros listed w1' H. discriminate.
  - split; [|split].
    + destruct listed as [l|]; [|eexists; eexists; reflexivity].
      unfold lift. destruct (names_of l); eexists; eexists; reflexivity.
    + intros e w1' H. discriminate.
    + intros l w1' H. inversion H; subst. split.
      * intros names Hn. unfold lift. rewrite Hn. split; [reflexivity|].
        now apply Hnames.
      * intros Hin. unfold lift. now rewrite (Hmissing l Hin).
Qed.

End Listing.

Arguments Build_response {index_info} indexes next.
Arguments Build_world {service_state} svc calls stdout.
Arguments list_indexes {index_info service_state} service fuel bucket_name
  prefix max_results _.
Arguments serves {index_info service_state} service s params next_token pages.

(** A bucket with three indexes, served two to a page. *)
Definition two_pages (s : nat) (r : request)
    : result (response text) * nat :=
  (match s with
   | 0%nat => inr (Build_response (Some [txt "cars"; txt "parts"]) (Some (txt "t1")))
   | _ => inr (Build_response (Some [txt "dealers"]) None)
   end, S s).

Lemma list_indexes_all_pages_witness :
  exists w',
    list_indexes two_pages 5 (txt "bucket") None (Some 2)
      (Build_world 0%nat [] [])
    = (inr (Some [txt "cars"; txt "parts"; txt "dealers"]), w').
Proof.
  assert (Hs : serves two_pages 0%nat (first_params (txt "bucket") None (Some 2))
                 None
                 [Build_response (Some [txt "cars"; txt "parts"])
                    (Some (txt "t1"));
                  Build_response (Some [txt "dealers"]) None])
    by (cbn; auto).
  assert (Hfuel : (2 <= 5)%nat) by lia.
  destruct (list_indexes_all_pages text nat two_pages 5 (txt "bucket") None
              (Some 2)
              [Build_response (Some [txt "cars"; txt "parts"]) (Some (txt "t1"));
               Build_response (Some [txt "dealers"]) None]
              (Build_world 0%nat [] []) Hs Hfuel) as (w' & Hrun & _).
  exists w'. exact Hrun.
Defined.

End S3Listing.
